(** * OIDC login for Umami: the protocol core, embedded and verified

    The development follows the TypeScript sources:
    - [src/lib/oidc.ts]: configuration, discovery cache, the requests to the
      identity provider, identity-token claim decoding, role mapping, signed
      state tokens;
    - [src/lib/oidc-user.ts]: user provisioning;
    - [src/app/api/auth/oidc/callback/route.ts]: the callback handler;
    - [src/app/api/auth/oidc/authorize/route.ts] and
      [src/app/api/auth/oidc/config/route.ts]: the authorization redirect and
      the public configuration;
    - [src/lib/oidc-teams.ts] and [src/lib/oidc-team-bridge.ts]: the team
      claim-rule engine;
    - [src/app/api/auth/oidc/team-rules/route.ts]: the administration of the
      rules.

    Conventions of the embedding.
    - A JavaScript string is the byte string of its UTF-8 encoding (well-formed
      text).  ['.'], [','] and the ASCII digits are single bytes, so splitting,
      trimming and comparing act on bytes exactly as they act on code units.
    - A JavaScript number that comes from JSON is a number of the binary64
      format ([Double.double]), with the two zeros identified: a literal is
      rounded to the nearest number ([Double.of_decimal]), and a number is
      written with the fewest digits that give it back ([Double.toString]).
      The clock, the counters and the status of a reply are integers ([Z])
      far below 2^53, where double arithmetic is exact and the text of a
      number is its decimal digits ([Num.toString]); where the code can meet
      [NaN] (the result of [parseInt]) the type [number] adds it.
    - [o[k]] on a plain object finds the property of its own or else the
      member of [Object.prototype] of that name; its own keys are listed
      with the array indices first, in ascending order, then the other keys
      in the order of their creation.
    - The clock ([Date.now()]), the random source ([randomBytes], [randomUUID]),
      the process environment and the network are explicit arguments.
    - [throw] is the left injection of a sum; [try { } catch { }] is a match
      on it.
    - [fetch] is a function from the URL and the options of a request to a
      reply or a rejection; a call that uses the network returns, with its
      outcome, the discovery cache it leaves and the requests it sent, in
      order.
    - The [user] table is the list of its rows in table order: a query for the
      first match returns the first row of the list that matches.  User names
      are unique in the schema, so an update that would give a row the name of
      another row is refused; [randomUUID()] is taken to give an identifier
      that no row has.
    - The [team] table is the list of its identifiers, which the schema
      types as UUIDs.
    - What lies outside the sources is a parameter of the definitions that use
      it: the Unicode part of [toLowerCase], the constant [ROLES.admin], the
      URL check of the authorization handler, the URL constructor
      [new URL(path, base)] of the callback handler, which throws on a base
      that is not an absolute URL, and, in the steps of the callback,
      provisioning, the team bridge, the session store and the token of the
      session, over a state of the world that is left abstract.
    - [JS.ToString] is the conversion to text of values that have one;
      [JS.template] is the conversion where the sources can meet an object
      with a property [toString] of its own, for which JavaScript throws.
    - Writing to the log is not modelled. *)

From Stdlib Require Import Bool List Arith NArith ZArith Lia Ascii String.
Import ListNotations.

Local Open Scope list_scope.
Local Open Scope string_scope.

(* ===================================================================== *)
(** * Part I.  The JavaScript runtime the sources rely on                 *)
(* ===================================================================== *)

(** ** Exceptions *)

Module Exc.

(** [result A]: an evaluation either throws an [Error] with a message or
    returns a value. *)
Definition result (A : Type) : Type := (string + A)%type.

Definition ret {A} (a : A) : result A := inr a.
Definition throw {A} (msg : string) : result A := inl msg.

Definition bind {A B} (m : result A) (k : A -> result B) : result B :=
  match m with
  | inl e => inl e
  | inr a => k a
  end.

(** [try m catch h] *)
Definition try_catch {A} (m : result A) (h : string -> A) : A :=
  match m with
  | inl e => h e
  | inr a => a
  end.

End Exc.

Notation "'let*' x ':=' m 'in' k" := (Exc.bind m (fun x => k))
  (at level 10, x name, m at level 100, k at level 200).

(** ** Strings *)

Module Str.

Definition byte_is (n : N) (c : ascii) : bool := N.eqb (N_of_ascii c) n.

Fixpoint rev_append (s acc : string) : string :=
  match s with
  | EmptyString => acc
  | String c s' => rev_append s' (String c acc)
  end.

Definition rev (s : string) : string := rev_append s "".

(** [s.split(sep)] for a one-character separator: never the empty list. *)
Fixpoint split (sep : ascii) (s : string) : list string :=
  match s with
  | EmptyString => [""]
  | String c s' =>
      if Ascii.eqb c sep then "" :: split sep s'
      else match split sep s' with
           | h :: t => String c h :: t
           | [] => [String c ""]
           end
  end.

(** [s] has no occurrence of the character [c]. *)
Fixpoint lacks (c : ascii) (s : string) : bool :=
  match s with
  | EmptyString => true
  | String d s' => negb (Ascii.eqb d c) && lacks c s'
  end.

(** White space and line terminators of ECMAScript ([StrWhiteSpaceChar]),
    as UTF-8 byte sequences: TAB LF VT FF CR SP; U+00A0; U+1680,
    U+2000..U+200A, U+2028, U+2029, U+202F, U+205F, U+3000, U+FEFF. *)
Definition is_ws1 (c : ascii) : bool :=
  let n := N_of_ascii c in
  (N.leb 9 n && N.leb n 13) || N.eqb n 32.

Definition is_ws2 (c1 c2 : ascii) : bool :=
  byte_is 194 c1 && byte_is 160 c2.

Definition is_ws3 (c1 c2 c3 : ascii) : bool :=
  let n3 := N_of_ascii c3 in
  (byte_is 225 c1 && byte_is 154 c2 && byte_is 128 c3)
  || (byte_is 226 c1 && byte_is 128 c2 &&
      ((N.leb 128 n3 && N.leb n3 138) || N.eqb n3 168 || N.eqb n3 169
       || N.eqb n3 175))
  || (byte_is 226 c1 && byte_is 129 c2 && byte_is 159 c3)
  || (byte_is 227 c1 && byte_is 128 c2 && byte_is 128 c3)
  || (byte_is 239 c1 && byte_is 187 c2 && byte_is 191 c3).

Fixpoint trimStart (s : string) : string :=
  match s with
  | String c1 s1 =>
      if is_ws1 c1 then trimStart s1
      else match s1 with
           | String c2 s2 =>
               if is_ws2 c1 c2 then trimStart s2
               else match s2 with
                    | String c3 s3 =>
                        if is_ws3 c1 c2 c3 then trimStart s3 else s
                    | EmptyString => s
                    end
           | EmptyString => s
           end
  | EmptyString => s
  end.

(** The same scan over the reversed string: the bytes of a white-space
    character arrive last byte first. *)
Fixpoint trimStart_rev (s : string) : string :=
  match s with
  | String c1 s1 =>
      if is_ws1 c1 then trimStart_rev s1
      else match s1 with
           | String c2 s2 =>
               if is_ws2 c2 c1 then trimStart_rev s2
               else match s2 with
                    | String c3 s3 =>
                        if is_ws3 c3 c2 c1 then trimStart_rev s3 else s
                    | EmptyString => s
                    end
           | EmptyString => s
           end
  | EmptyString => s
  end.

Definition trimEnd (s : string) : string := rev (trimStart_rev (rev s)).

(** [s.trim()] *)
Definition trim (s : string) : string := trimEnd (trimStart s).

(** [s.slice(0, n)] *)
Definition slice0 (n : nat) (s : string) : string := substring 0 n s.

(** [s.replace(/\/+$/, '')]: drop every trailing slash. *)
Fixpoint drop_slashes (s : string) : string :=
  match s with
  | String c s' => if Ascii.eqb c "/" then drop_slashes s' else s
  | EmptyString => s
  end.

Definition strip_trailing_slashes (s : string) : string :=
  rev (drop_slashes (rev s)).

(** [arr.includes(x)] on an array of strings. *)
Definition includes (x : string) (l : list string) : bool :=
  existsb (String.eqb x) l.

(** [s.toLowerCase()].  On ASCII text it maps [A]-[Z] to [a]-[z] and leaves
    every other character; the conversion of a text with other characters
    follows the Unicode tables, which the embedding takes as [unicode]. *)
Definition lower_char (c : ascii) : ascii :=
  let n := N_of_ascii c in
  if N.leb 65 n && N.leb n 90 then ascii_of_N (n + 32) else c.

Fixpoint is_ascii (s : string) : bool :=
  match s with
  | EmptyString => true
  | String c s' => N.ltb (N_of_ascii c) 128 && is_ascii s'
  end.

Fixpoint map_chars (f : ascii -> ascii) (s : string) : string :=
  match s with
  | EmptyString => EmptyString
  | String c s' => String (f c) (map_chars f s')
  end.

Definition toLowerCase (unicode : string -> string) (s : string) : string :=
  if is_ascii s then map_chars lower_char s else unicode s.

End Str.

(** ** Numbers *)

Module Num.

(** The numbers the code computes with: integers, and [NaN]. *)
Inductive number : Type :=
| NaN
| Int (z : Z).

(** [a - b] *)
Definition sub (a b : number) : number :=
  match a, b with
  | Int x, Int y => Int (x - y)
  | _, _ => NaN
  end.

(** [a > b]: false as soon as one side is [NaN]. *)
Definition gt (a b : number) : bool :=
  match a, b with
  | Int x, Int y => Z.ltb y x
  | _, _ => false
  end.

(** [a < b] *)
Definition lt (a b : number) : bool :=
  match a, b with
  | Int x, Int y => Z.ltb x y
  | _, _ => false
  end.

(** Digit characters of [Number.prototype.toString(radix)]: 0-9 then a-z. *)
Definition digit_char (d : N) : ascii :=
  if N.ltb d 10 then ascii_of_N (48 + d)%N else ascii_of_N (87 + d)%N.

(** The value of a digit character, upper or lower case. *)
Definition digit_val (c : ascii) : option N :=
  let n := N_of_ascii c in
  if N.leb 48 n && N.leb n 57 then Some (n - 48)%N
  else if N.leb 97 n && N.leb n 122 then Some (n - 87)%N
  else if N.leb 65 n && N.leb n 90 then Some (n - 55)%N
  else None.

Definition is_digit (radix : N) (c : ascii) : bool :=
  match digit_val c with
  | Some d => N.ltb d radix
  | None => false
  end.

(** Digits of [n] in base [radix], most significant first.  The fuel is the
    bit length of [n], which bounds the number of digits for a radix of at
    least two. *)
Fixpoint to_radix_aux (fuel : nat) (radix n : N) (acc : string) : string :=
  let acc' := String (digit_char (n mod radix)%N) acc in
  match fuel with
  | O => acc'
  | S f => if N.ltb n radix then acc' else to_radix_aux f radix (n / radix)%N acc'
  end.

Definition to_radix (radix n : N) : string :=
  to_radix_aux (N.to_nat (N.size n)) radix n "".

(** [n.toString(radix)] for an integer [n]. *)
Definition toString_radix (radix : N) (z : Z) : string :=
  if Z.ltb z 0 then String "-" (to_radix radix (Z.abs_N z))
  else to_radix radix (Z.abs_N z).

(** [String(n)] for an integer [n] of magnitude below [10^21], where it is
    the decimal digits of [n]: the status of a reply, a counter. *)
Definition toString (z : Z) : string := toString_radix 10 z.

(** The longest prefix of digits of [s], accumulated into [acc]; the number
    of digits read and the rest of the string. *)
Fixpoint read_digits (radix : N) (s : string) (acc : N) (count : nat)
  : N * nat * string :=
  match s with
  | String c s' =>
      match digit_val c with
      | Some d =>
          if N.ltb d radix
          then read_digits radix s' (acc * radix + d)%N (S count)
          else (acc, count, s)
      | None => (acc, count, s)
      end
  | EmptyString => (acc, count, s)
  end.

(** [parseInt(s, radix)] for a radix other than 16: leading white space is
    skipped, a sign is read, then the longest run of digits; no digit at
    all gives [NaN]. *)
Definition parseInt (s : string) (radix : N) : number :=
  let s0 := Str.trimStart s in
  let '(neg, s1) :=
    match s0 with
    | String c r =>
        if Ascii.eqb c "-" then (true, r)
        else if Ascii.eqb c "+" then (false, r)
        else (false, s0)
    | EmptyString => (false, s0)
    end in
  match read_digits radix s1 0%N O with
  | (_, O, _) => NaN
  | (v, S _, _) => Int (if neg then - Z.of_N v else Z.of_N v)
  end.

End Num.

(** ** Binary64 numbers *)

Module Double.

Local Open Scope Z_scope.

(** The numbers of JavaScript: the binary64 format.  A finite number other
    than zero is a sign and [m * 2^e] with [2^52 <= m < 2^53] and
    [-1074 <= e <= 971], or with [m < 2^52] and [e = -1074]; the two zeros
    are identified ([-0 === 0], and both are written [0]). *)
Inductive double : Type :=
| NaN
| Inf (neg : bool)
| Zero
| Fin (neg : bool) (m : positive) (e : Z).

Definition eqb (a b : double) : bool :=
  match a, b with
  | NaN, NaN => true
  | Inf s, Inf t => Bool.eqb s t
  | Zero, Zero => true
  | Fin s m e, Fin t m' e' => Bool.eqb s t && Pos.eqb m m' && Z.eqb e e'
  | _, _ => false
  end.

(** The quotient [p / q] of two positive integers is rounded to the
    nearest number, to the one with the even mantissa when two are as
    near.  [scaled p q e] is the quotient in units of [2^e]; the exponent
    is the one that leaves a mantissa below [2^53], and not below [2^52]
    unless the exponent is the least one. *)
Definition scaled (p q e : Z) : Z * Z :=
  if 0 <=? e then (p, q * 2 ^ e) else (p * 2 ^ (- e), q).

Definition exponent_of (p q : Z) : Z :=
  let e0 := Z.max (Z.log2 p - Z.log2 q - 53) (-1074) in
  let (num, den) := scaled p q e0 in
  if 2 ^ 53 <=? num / den then e0 + 1 else e0.

Definition round_ratio (neg : bool) (p q : Z) : double :=
  let e1 := exponent_of p q in
  let (num, den) := scaled p q e1 in
  let m := num / den in
  let r := num mod den in
  let up := (den <? 2 * r) || ((den =? 2 * r) && Z.odd m) in
  let m1 := if up then m + 1 else m in
  let (m2, e2) := if m1 =? 2 ^ 53 then (2 ^ 52, e1 + 1) else (m1, e1) in
  if m2 =? 0 then Zero
  else if 971 <? e2 then Inf neg
  else Fin neg (Z.to_pos m2) e2.

(** The number for the decimal [digits * 10^exponent]. *)
Definition of_decimal (neg : bool) (digits : N) (exponent : Z) : double :=
  if N.eqb digits 0 then Zero
  else if 0 <=? exponent
       then round_ratio neg (Z.of_N digits * 10 ^ exponent) 1
       else round_ratio neg (Z.of_N digits) (10 ^ (- exponent)).

Definition of_Z (z : Z) : double := of_decimal (z <? 0) (Z.abs_N z) 0.

(** The value of a finite number as a quotient, and as a decimal. *)
Definition ratio (m : positive) (e : Z) : Z * Z :=
  if 0 <=? e then (Z.pos m * 2 ^ e, 1) else (Z.pos m, 2 ^ (- e)).

Definition expansion (m : positive) (e : Z) : N * Z :=
  if 0 <=? e then (Z.to_N (Z.pos m * 2 ^ e), 0)
  else (Z.to_N (Z.pos m * 5 ^ (- e)), e).

(** The numbers of the format: a mantissa of 53 bits, or of fewer with the
    least exponent. *)
Definition valid (v : double) : bool :=
  match v with
  | Fin _ m e =>
      ((2 ^ 52 <=? Z.pos m) && (Z.pos m <? 2 ^ 53) && (-1074 <=? e) && (e <=? 971))
      || ((Z.pos m <? 2 ^ 52) && (e =? -1074))
  | _ => true
  end.

Definition finite (v : double) : bool :=
  match v with
  | Zero | Fin _ _ _ => true
  | NaN | Inf _ => false
  end.

(** ** [Number::toString]

    The digits written for a number are those of the decimal with the
    fewest digits that the number is the number for and, among these, of
    the one nearest to its value.  Seventeen digits are enough for every
    number of the format; the decimal of the value itself stands behind
    them. *)

Definition ndigits (n : N) : Z := Z.of_nat (String.length (Num.to_radix 10 n)).

Fixpoint lead (fuel : nat) (p q j : Z) : Z :=
  match fuel with
  | O => j
  | S f => if q <=? p * 10 ^ j then j else lead f p q (j + 1)
  end.

(** The [n] with [10^(n-1) <= p/q < 10^n]. *)
Definition magnitude (p q : Z) : Z :=
  if q <=? p then ndigits (Z.to_N (p / q)) else 1 - lead 400 p q 1.

Definition accepts (v : double) (neg : bool) (c : N) (x : Z) : bool :=
  N.ltb 0 c && eqb (of_decimal neg c x) v.

Definition closer_low (p q x lo : Z) : bool :=
  let (a, b) := if 0 <=? x then (2 * p, (2 * lo + 1) * q * 10 ^ x)
                else (2 * p * 10 ^ (- x), (2 * lo + 1) * q) in
  (a <? b) || ((a =? b) && Z.even lo).

(** The decimals of [k] digits on both sides of the value; the upper one
    may be a power of ten, of one digit. *)
Definition pick (v : double) (neg : bool) (p q n0 k : Z) : option (N * Z) :=
  let x := n0 - k in
  let lo := if 0 <=? x then p / (q * 10 ^ x) else (p * 10 ^ (- x)) / q in
  let low := (Z.to_N lo, x) in
  let high := if lo + 1 =? 10 ^ k then (1%N, x + k) else (Z.to_N (lo + 1), x) in
  match accepts v neg (fst low) (snd low), accepts v neg (fst high) (snd high) with
  | true, true => Some (if closer_low p q x lo then low else high)
  | true, false => Some low
  | false, true => Some high
  | false, false => None
  end.

Fixpoint search (fuel : nat) (v : double) (neg : bool) (p q n0 k : Z)
  : option (N * Z) :=
  match fuel with
  | O => None
  | S f =>
      match pick v neg p q n0 k with
      | Some found => Some found
      | None => search f v neg p q n0 (k + 1)
      end
  end.

Definition shortest (neg : bool) (m : positive) (e : Z) : N * Z :=
  let (p, q) := ratio m e in
  match search 17 (Fin neg m e) neg p q (magnitude p q) 1 with
  | Some found => found
  | None => expansion m e
  end.

Fixpoint zeros (n : nat) : string :=
  match n with O => "" | S n' => String "0" (zeros n') end.

Fixpoint take (n : nat) (s : string) : string :=
  match n, s with
  | S n', String c s' => String c (take n' s')
  | _, _ => ""
  end.

Fixpoint drop (n : nat) (s : string) : string :=
  match n, s with
  | S n', String c s' => drop n' s'
  | _, _ => s
  end.

Definition decimal (n : N) : string := Num.to_radix 10 n.

(** The text for the digits [ds] of a decimal [0.ds * 10^n]. *)
Definition format (ds : string) (n : Z) : string :=
  let k := Z.of_nat (String.length ds) in
  if (k <=? n) && (n <=? 21) then ds ++ zeros (Z.to_nat (n - k))
  else if (0 <? n) && (n <=? 21)
  then take (Z.to_nat n) ds ++ "." ++ drop (Z.to_nat n) ds
  else if (-6 <? n) && (n <=? 0) then "0." ++ zeros (Z.to_nat (- n)) ++ ds
  else
    let e := n - 1 in
    let exponent :=
      "e" ++ (if e <? 0 then "-" else "+") ++ decimal (Z.abs_N e) in
    match ds with
    | String d EmptyString => ds ++ exponent
    | String d rest => String d ("." ++ rest) ++ exponent
    | EmptyString => exponent
    end.

(** [String(v)] *)
Definition toString (v : double) : string :=
  match v with
  | NaN => "NaN"
  | Inf false => "Infinity"
  | Inf true => "-Infinity"
  | Zero => "0"
  | Fin neg m e =>
      let (c, x) := shortest neg m e in
      let ds := decimal c in
      (if neg then "-" else "")
      ++ format ds (x + Z.of_nat (String.length ds))
  end.

End Double.

Coercion Double.of_Z : Z >-> Double.double.

(** ** Values *)

Module JS.

(** The values that claims can hold.  [JBuiltin name] stands for the member
    [name] that every plain object inherits from [Object.prototype].  An
    integer written where a number is expected stands for the number of
    that value. *)
#[warnings="-register-all"]
Inductive JValue : Type :=
| JUndefined
| JNull
| JBool (b : bool)
| JNum (n : Double.double)
| JStr (s : string)
| JArr (items : list JValue)
| JObj (members : list (string * JValue))
| JBuiltin (name : string).

Arguments JNum n%_Z.

(** The own properties of a plain object, in key order. *)
Definition JObject : Type := list (string * JValue).

Fixpoint own (o : JObject) (key : string) : option JValue :=
  match o with
  | [] => None
  | (k, v) :: o' => if String.eqb k key then Some v else own o' key
  end.

(** The members of [Object.prototype]. *)
Definition object_prototype : list string :=
  [ "constructor"; "__defineGetter__"; "__defineSetter__"; "hasOwnProperty";
    "__lookupGetter__"; "__lookupSetter__"; "isPrototypeOf";
    "propertyIsEnumerable"; "toString"; "valueOf"; "__proto__";
    "toLocaleString" ].

(** [o[key]] on a plain object: the own property, else the inherited
    member, else [undefined]. *)
Definition get (o : JObject) (key : string) : JValue :=
  match own o key with
  | Some v => v
  | None => if Str.includes key object_prototype then JBuiltin key
            else JUndefined
  end.

(** ** The order of the own keys *)

(** An array index: the canonical decimal text of an integer below
    [2^32 - 1]. *)
Definition array_index (k : string) : option N :=
  match Num.read_digits 10 k 0%N O with
  | (v, S _, EmptyString) =>
      if String.eqb (Num.to_radix 10 v) k && N.ltb v 4294967295 then Some v
      else None
  | _ => None
  end.

(** The own keys of an object are listed with the array indices first, in
    ascending order, then the other keys in the order of their creation:
    whether a key that is created is listed before a key that is there. *)
Definition goes_before (k k' : string) : bool :=
  match array_index k, array_index k' with
  | Some i, Some j => N.ltb i j
  | Some _, None => true
  | None, _ => false
  end.

Definition has_key {A} (o : list (string * A)) (k : string) : bool :=
  existsb (fun m => String.eqb (fst m) k) o.

Fixpoint replace_key {A} (o : list (string * A)) (k : string) (v : A)
  : list (string * A) :=
  match o with
  | [] => []
  | (k', v') :: o' =>
      if String.eqb k' k then (k', v) :: o' else (k', v') :: replace_key o' k v
  end.

Fixpoint insert_key {A} (o : list (string * A)) (k : string) (v : A)
  : list (string * A) :=
  match o with
  | [] => [(k, v)]
  | (k', v') :: o' =>
      if goes_before k k' then (k, v) :: o else (k', v') :: insert_key o' k v
  end.

(** [o[k] = v] on own properties: a key that is there keeps its place and
    takes the new value, a new key takes its place in the order of the
    keys. *)
Definition put {A} (o : list (string * A)) (k : string) (v : A)
  : list (string * A) :=
  if has_key o k then replace_key o k v else insert_key o k v.

(** The keys are in the order in which an object lists them. *)
Fixpoint ordered (keys : list string) : bool :=
  match keys with
  | [] => true
  | k :: rest => forallb (fun k' => negb (goes_before k' k)) rest && ordered rest
  end.

(** The [length] of the members of [Object.prototype] that are functions;
    [__proto__] is the prototype itself, which has none. *)
Definition member_length (name : string) : option N :=
  if String.eqb name "__proto__" then None
  else if Str.includes name ["__defineGetter__"; "__defineSetter__"] then Some 2%N
  else if Str.includes name ["toString"; "valueOf"; "toLocaleString"] then Some 0%N
  else Some 1%N.

(** [a ?? b] *)
Definition nullish (v : JValue) : bool :=
  match v with
  | JUndefined | JNull => true
  | _ => false
  end.

Definition coalesce (a b : JValue) : JValue := if nullish a then b else a.

(** [!!v] *)
Definition truthy (v : JValue) : bool :=
  match v with
  | JUndefined | JNull => false
  | JBool b => b
  | JNum Double.Zero | JNum Double.NaN => false
  | JNum _ => true
  | JStr s => negb (String.eqb s "")
  | JArr _ | JObj _ | JBuiltin _ => true
  end.

(** [v === s] for a string [s], which is also the comparison of
    [Array.prototype.includes] against a string. *)
Definition strict_eq_str (v : JValue) (s : string) : bool :=
  match v with
  | JStr t => String.eqb t s
  | _ => false
  end.

(** [arr.includes(s)] *)
Definition array_includes (items : list JValue) (s : string) : bool :=
  existsb (fun v => strict_eq_str v s) items.

Definition join_with (sep : string) (parts : list string) : string :=
  String.concat sep parts.

(** [String(v)] *)
Fixpoint ToString (v : JValue) : string :=
  match v with
  | JUndefined => "undefined"
  | JNull => "null"
  | JBool true => "true"
  | JBool false => "false"
  | JNum n => Double.toString n
  | JStr s => s
  | JArr items =>
      join_with ","
        (map (fun x => if nullish x then "" else ToString x) items)
  | JObj _ => "[object Object]"
  | JBuiltin name =>
      if String.eqb name "__proto__" then "[object Object]"
      else if String.eqb name "constructor"
           then "function Object() { [native code] }"
           else "function " ++ name ++ "() { [native code] }"
  end.

(** ** Reading the answers of the identity provider *)

(** [v.name] for a property name that no built-in prototype defines and
    that is neither an index nor [length]: the names the sources read from
    the answers of the identity provider ([id_token], [access_token],
    [nonce], the endpoints of the discovery document).  [null] and
    [undefined] have no properties, and the access throws a [TypeError];
    booleans, numbers, strings and arrays answer [undefined]. *)
Definition no_properties (what name : string) : string :=
  "Cannot read properties of " ++ what ++ " (reading '" ++ name ++ "')".

Definition field (v : JValue) (name : string) : Exc.result JValue :=
  match v with
  | JUndefined => Exc.throw (no_properties "undefined" name)
  | JNull => Exc.throw (no_properties "null" name)
  | JObj o => Exc.ret (get o name)
  | _ => Exc.ret JUndefined
  end.

(** A template literal [`${v}`], and [String(v)] where it can throw: an
    object that carries a property [toString] of its own (in a value read
    from JSON, never a function) has no primitive value. *)
Definition no_primitive : string := "Cannot convert object to primitive value".

Fixpoint template (v : JValue) : Exc.result string :=
  match v with
  | JArr items =>
      (fix join (l : list JValue) : Exc.result string :=
         match l with
         | [] => Exc.ret ""
         | x :: rest =>
             let* head := (if nullish x then Exc.ret "" else template x) in
             match rest with
             | [] => Exc.ret head
             | _ :: _ => let* tail := join rest in Exc.ret (head ++ "," ++ tail)
             end
         end) items
  | JObj o =>
      match own o "toString" with
      | Some _ => Exc.throw no_primitive
      | None => Exc.ret "[object Object]"
      end
  | _ => Exc.ret (ToString v)
  end.

End JS.

(** ** [URLSearchParams] *)

Module Url.

Local Open Scope N_scope.

(** The bytes that the [application/x-www-form-urlencoded] serializer leaves
    as they are: the ASCII letters and digits, and [*] [-] [.] [_]. *)
Definition unreserved (c : ascii) : bool :=
  let n := N_of_ascii c in
  ((48 <=? n) && (n <=? 57)) || ((65 <=? n) && (n <=? 90))
  || ((97 <=? n) && (n <=? 122))
  || (n =? 42) || (n =? 45) || (n =? 46) || (n =? 95).

Definition upper_hex_digit (d : N) : ascii :=
  if d <? 10 then ascii_of_N (48 + d) else ascii_of_N (55 + d).

(** A byte as [%XX]. *)
Definition percent (c : ascii) : string :=
  let n := N_of_ascii c in
  String "%" (String (upper_hex_digit (n / 16))
                (String (upper_hex_digit (n mod 16)) EmptyString)).

(** A space is written [+]; every other byte that is not left as it is, as
    its percent escape.  A text is serialized by the bytes of its UTF-8
    encoding. *)
Definition form_byte (c : ascii) : string :=
  if N_of_ascii c =? 32 then "+"%string
  else if unreserved c then String c EmptyString
  else percent c.

Fixpoint form_encode (s : string) : string :=
  match s with
  | EmptyString => EmptyString
  | String c s' => (form_byte c ++ form_encode s')%string
  end.

Definition pair (p : string * string) : string :=
  (form_encode (fst p) ++ "=" ++ form_encode (snd p))%string.

(** [new URLSearchParams(record).toString()], the record in the order of its
    keys. *)
Definition URLSearchParams_toString (params : list (string * string)) : string :=
  String.concat "&" (map pair params).

End Url.

(** ** [crypto]: SHA-256, HMAC and hexadecimal digests *)

Module Crypto.

Local Open Scope N_scope.

Definition bytes_of_string (s : string) : list N :=
  map N_of_ascii (list_ascii_of_string s).

Definition mask32 : N := 0xffffffff.
Definition add32 (a b : N) : N := N.land (a + b) mask32.
Definition rotr (n x : N) : N :=
  N.lor (N.shiftr x n) (N.land (N.shiftl x (32 - n)) mask32).
Definition shr (n x : N) : N := N.shiftr x n.
Definition not32 (x : N) : N := N.lxor x mask32.

Definition Ch (x y z : N) : N := N.lxor (N.land x y) (N.land (not32 x) z).
Definition Maj (x y z : N) : N :=
  N.lxor (N.lxor (N.land x y) (N.land x z)) (N.land y z).
Definition bsig0 (x : N) : N := N.lxor (N.lxor (rotr 2 x) (rotr 13 x)) (rotr 22 x).
Definition bsig1 (x : N) : N := N.lxor (N.lxor (rotr 6 x) (rotr 11 x)) (rotr 25 x).
Definition ssig0 (x : N) : N := N.lxor (N.lxor (rotr 7 x) (rotr 18 x)) (shr 3 x).
Definition ssig1 (x : N) : N := N.lxor (N.lxor (rotr 17 x) (rotr 19 x)) (shr 10 x).

(** The constants of FIPS 180-4 are taken from their definition: the first
    thirty-two bits of the fractional parts of the cube roots (for the round
    constants) and of the square roots (for the initial hash value) of the
    first primes. *)
Definition is_prime (n : nat) : bool :=
  forallb (fun d => negb (Nat.eqb (Nat.modulo n d) 0)) (seq 2 (n - 2)).

Definition primes : list N := map N.of_nat (filter is_prime (seq 2 310)).

(** The integer cube root, one bit at a time from bit [bits - 1] down. *)
Fixpoint cube_root (bits : nat) (n root : N) : N :=
  match bits with
  | O => root
  | S b =>
      let candidate := root + N.shiftl 1 (N.of_nat b) in
      cube_root b n (if candidate * candidate * candidate <=? n
                     then candidate else root)
  end.

Definition K256 : list N :=
  Eval vm_compute in
    map (fun p => N.land (cube_root 36 (N.shiftl p 96) 0) mask32) primes.

Definition H256 : list N :=
  Eval vm_compute in
    map (fun p => N.land (N.sqrt (N.shiftl p 64)) mask32) (firstn 8 primes).

(** Big-endian words of a block of bytes. *)
Fixpoint words_of_bytes (bs : list N) : list N :=
  match bs with
  | b0 :: b1 :: b2 :: b3 :: rest =>
      (b0 * 0x1000000 + b1 * 0x10000 + b2 * 0x100 + b3) :: words_of_bytes rest
  | _ => []
  end.

Definition bytes_of_word (w : N) : list N :=
  [ N.land (N.shiftr w 24) 0xff; N.land (N.shiftr w 16) 0xff;
    N.land (N.shiftr w 8) 0xff; N.land w 0xff ].

(** The message schedule, latest word first: [sched] holds W(t-1), W(t-2), ... *)
Fixpoint extend_schedule (n : nat) (sched : list N) : list N :=
  match n with
  | O => sched
  | S n' =>
      let w := add32 (add32 (ssig1 (nth 1 sched 0)) (nth 6 sched 0))
                     (add32 (ssig0 (nth 14 sched 0)) (nth 15 sched 0)) in
      extend_schedule n' (w :: sched)
  end.

Definition schedule (block : list N) : list N :=
  List.rev (extend_schedule 48 (List.rev (words_of_bytes block))).

Definition round (st : list N) (kw : N * N) : list N :=
  match st with
  | [a; b; c; d; e; f; g; h] =>
      let t1 := add32 (add32 (add32 h (bsig1 e)) (add32 (Ch e f g) (fst kw)))
                      (snd kw) in
      let t2 := add32 (bsig0 a) (Maj a b c) in
      [add32 t1 t2; a; b; c; add32 d t1; e; f; g]
  | _ => st
  end.

Definition compress (h : list N) (block : list N) : list N :=
  let st := fold_left round (combine K256 (schedule block)) h in
  map (fun p => add32 (fst p) (snd p)) (combine h st).

(** Padding: a one bit, zeros, and the bit length on eight bytes. *)
Definition pad (msg : list N) : list N :=
  let len := N.of_nat (List.length msg) in
  let zeros := N.to_nat ((119 - len mod 64) mod 64) in
  let bits := len * 8 in
  (msg ++ [0x80] ++ repeat 0 zeros
   ++ bytes_of_word (N.land (N.shiftr bits 32) mask32)
   ++ bytes_of_word (N.land bits mask32))%list.

Fixpoint hash_blocks (n : nat) (h : list N) (bs : list N) : list N :=
  match n with
  | O => h
  | S n' => hash_blocks n' (compress h (firstn 64 bs)) (skipn 64 bs)
  end.

Definition sha256 (msg : list N) : list N :=
  let padded := pad msg in
  flat_map bytes_of_word
    (hash_blocks (Nat.div (List.length padded) 64) H256 padded).

(** HMAC (RFC 2104) over SHA-256, block size 64. *)
Definition hmac_sha256 (key msg : list N) : list N :=
  let key0 := if Nat.ltb 64 (List.length key) then sha256 key else key in
  let key1 := (key0 ++ repeat 0 (64 - List.length key0))%list in
  let ipad := map (fun b => N.lxor b 0x36) key1 in
  let opad := map (fun b => N.lxor b 0x5c) key1 in
  sha256 (opad ++ sha256 (ipad ++ msg))%list.

(** Two lowercase hexadecimal digits per byte: [buf.toString('hex')]. *)
Definition hex_digit (d : N) : ascii := Num.digit_char d.

Fixpoint hex (bs : list N) : string :=
  match bs with
  | [] => EmptyString
  | b :: rest =>
      String (hex_digit (N.land (N.shiftr b 4) 0xf))
             (String (hex_digit (N.land b 0xf)) (hex rest))
  end.

(** [createHmac('sha256', key).update(payload).digest('hex')] *)
Definition createHmac_sha256_hex (key payload : string) : string :=
  hex (hmac_sha256 (bytes_of_string key) (bytes_of_string payload)).

End Crypto.

(** ** [Buffer]: base64url and UTF-8 *)

Module Buf.

Local Open Scope N_scope.

(** A buffer is a byte string. *)
Definition Buffer : Type := string.

(** [Buffer.from(text, 'utf-8')]: a text is kept as its UTF-8 bytes. *)
Definition from_utf8 (text : string) : Buffer := text.

(** The URL-safe alphabet: A-Z a-z 0-9 - _ *)
Definition b64url_char (d : N) : ascii :=
  if d <? 26 then ascii_of_N (65 + d)
  else if d <? 52 then ascii_of_N (71 + d)
  else if d <? 62 then ascii_of_N (d - 4)
  else if d =? 62 then "-"%char
  else "_"%char.

(** The decoder reads both alphabets: + and - are 62, / and _ are 63. *)
Definition unbase64 (c : ascii) : option N :=
  let n := N_of_ascii c in
  if (65 <=? n) && (n <=? 90) then Some (n - 65)
  else if (97 <=? n) && (n <=? 122) then Some (n - 71)
  else if (48 <=? n) && (n <=? 57) then Some (n + 4)
  else if (n =? 43) || (n =? 45) then Some 62
  else if (n =? 47) || (n =? 95) then Some 63
  else None.

(** [buf.toString('base64url')]: three bytes give four characters; no
    padding. *)
Fixpoint toString_base64url (buf : Buffer) : string :=
  match buf with
  | String a (String b (String c rest)) =>
      let x := N_of_ascii a in
      let y := N_of_ascii b in
      let z := N_of_ascii c in
      String (b64url_char (x / 4))
        (String (b64url_char ((x mod 4) * 16 + y / 16))
           (String (b64url_char ((y mod 16) * 4 + z / 64))
              (String (b64url_char (z mod 64)) (toString_base64url rest))))
  | String a (String b EmptyString) =>
      let x := N_of_ascii a in
      let y := N_of_ascii b in
      String (b64url_char (x / 4))
        (String (b64url_char ((x mod 4) * 16 + y / 16))
           (String (b64url_char ((y mod 16) * 4)) EmptyString))
  | String a EmptyString =>
      let x := N_of_ascii a in
      String (b64url_char (x / 4))
        (String (b64url_char ((x mod 4) * 16)) EmptyString)
  | EmptyString => EmptyString
  end.

(** The decoder of [Buffer.from(s, 'base64url')] does not fail: a character
    outside the alphabets is skipped, and [=] ends the input. *)
Fixpoint sextets (s : string) : list N :=
  match s with
  | EmptyString => []
  | String c s' =>
      if Ascii.eqb c "="%char then []
      else match unbase64 c with
           | Some d => d :: sextets s'
           | None => sextets s'
           end
  end.

(** Four sextets give three bytes; two or three left at the end give one or
    two bytes, a single one gives none. *)
Fixpoint bytes_of_sextets (ds : list N) : Buffer :=
  match ds with
  | d0 :: d1 :: d2 :: d3 :: rest =>
      String (ascii_of_N (d0 * 4 + d1 / 16))
        (String (ascii_of_N ((d1 mod 16) * 16 + d2 / 4))
           (String (ascii_of_N ((d2 mod 4) * 64 + d3))
              (bytes_of_sextets rest)))
  | [d0; d1; d2] =>
      String (ascii_of_N (d0 * 4 + d1 / 16))
        (String (ascii_of_N ((d1 mod 16) * 16 + d2 / 4)) EmptyString)
  | [d0; d1] => String (ascii_of_N (d0 * 4 + d1 / 16)) EmptyString
  | _ => EmptyString
  end.

Definition from_base64url (s : string) : Buffer := bytes_of_sextets (sextets s).

(** *** [buf.toString('utf-8')]

    The decoder replaces every ill-formed byte sequence by U+FFFD (one
    replacement for each maximal prefix of a well-formed sequence). *)

Definition replacement : string :=
  String (ascii_of_N 239) (String (ascii_of_N 191) (String (ascii_of_N 189) EmptyString)).

Record utf8_state : Type := mk_utf8_state {
  needed : nat;      (* continuation bytes still expected *)
  lower : N;         (* bounds of the next continuation byte *)
  upper : N;
  pending : string   (* the bytes of the sequence read so far *)
}.

Definition utf8_idle : utf8_state := mk_utf8_state 0 128 191 EmptyString.

(** A byte met between two characters. *)
Definition utf8_lead (c : ascii) : string * utf8_state :=
  let n := N_of_ascii c in
  if n <=? 127 then (String c EmptyString, utf8_idle)
  else if (194 <=? n) && (n <=? 223)
  then (EmptyString, mk_utf8_state 1 128 191 (String c EmptyString))
  else if (224 <=? n) && (n <=? 239)
  then (EmptyString,
        mk_utf8_state 2 (if n =? 224 then 160 else 128)
                        (if n =? 237 then 159 else 191) (String c EmptyString))
  else if (240 <=? n) && (n <=? 244)
  then (EmptyString,
        mk_utf8_state 3 (if n =? 240 then 144 else 128)
                        (if n =? 244 then 143 else 191) (String c EmptyString))
  else (replacement, utf8_idle).

Definition utf8_step (st : utf8_state) (c : ascii) : string * utf8_state :=
  match needed st with
  | O => utf8_lead c
  | S k =>
      let n := N_of_ascii c in
      if (lower st <=? n) && (n <=? upper st)
      then match k with
           | O => (pending st ++ String c EmptyString, utf8_idle)
           | S _ => (EmptyString,
                     mk_utf8_state k 128 191 (pending st ++ String c EmptyString))
           end
      else let '(out, st') := utf8_lead c in (replacement ++ out, st')
  end.

Fixpoint utf8_run (st : utf8_state) (bs : Buffer) : string :=
  match bs with
  | EmptyString => match needed st with O => EmptyString | S _ => replacement end
  | String c rest =>
      let '(out, st') := utf8_step st c in out ++ utf8_run st' rest
  end.

Definition toString_utf8 (buf : Buffer) : string := utf8_run utf8_idle buf.

(** A byte string is well-formed text when decoding gives it back. *)
Definition well_formed (s : string) : Prop := toString_utf8 s = s.

(** The bytes the decoder takes without a replacement: between two
    characters a plain ASCII byte or a lead byte, inside a character a
    continuation byte within the bounds. *)
Definition utf8_accepts (st : utf8_state) (c : ascii) : bool :=
  let n := N_of_ascii c in
  match needed st with
  | O => (n <=? 127) || ((194 <=? n) && (n <=? 244))
  | S _ => (lower st <=? n) && (n <=? upper st)
  end.

(** Valid UTF-8: every byte is accepted and the last character is
    complete. *)
Fixpoint utf8_valid_from (st : utf8_state) (bs : string) : bool :=
  match bs with
  | EmptyString => Nat.eqb (needed st) 0
  | String c rest =>
      utf8_accepts st c && utf8_valid_from (snd (utf8_step st c)) rest
  end.

Definition utf8_valid (s : string) : bool := utf8_valid_from utf8_idle s.

End Buf.

(** ** [JSON.stringify] and [JSON.parse] *)

Module JSON.

Import JS.
Local Open Scope N_scope.

Definition dquote : ascii := ascii_of_N 34.
Definition backslash : ascii := ascii_of_N 92.

(** *** Serialization *)

Definition escape_char (c : ascii) : string :=
  let n := N_of_ascii c in
  let esc (e : ascii) := String backslash (String e EmptyString) in
  if n =? 34 then esc dquote
  else if n =? 92 then esc backslash
  else if n =? 8 then esc "b"%char
  else if n =? 12 then esc "f"%char
  else if n =? 10 then esc "n"%char
  else if n =? 13 then esc "r"%char
  else if n =? 9 then esc "t"%char
  else if n <? 32
       then String backslash
              (String "u" (String "0" (String "0"
                 (String (Crypto.hex_digit (n / 16))
                    (String (Crypto.hex_digit (n mod 16)) EmptyString)))))
       else String c EmptyString.

Fixpoint escape (s : string) : string :=
  match s with
  | EmptyString => EmptyString
  | String c s' => escape_char c ++ escape s'
  end.

Definition quote (s : string) : string :=
  String dquote (escape s ++ String dquote EmptyString).

(** [undefined] and functions have no JSON text of their own. *)
Definition serializable (v : JValue) : bool :=
  match v with
  | JUndefined | JBuiltin _ => false
  | _ => true
  end.

(** The text of a value: an unserializable array element is written [null],
    an unserializable member is left out. *)
Fixpoint text_of (v : JValue) : string :=
  match v with
  | JUndefined | JBuiltin _ | JNull => "null"
  | JBool true => "true"
  | JBool false => "false"
  | JNum n => if Double.finite n then Double.toString n else "null"
  | JStr s => quote s
  | JArr items => "[" ++ String.concat "," (map text_of items) ++ "]"
  | JObj members =>
      "{" ++ String.concat ","
               (flat_map
                  (fun m => match m with
                            | (k, x) => if serializable x
                                        then [quote k ++ ":" ++ text_of x]
                                        else []
                            end) members)
          ++ "}"
  end.

(** [JSON.stringify(v)]; [None] is [undefined]. *)
Definition stringify (v : JValue) : option string :=
  if serializable v then Some (text_of v) else None.

(** *** Parsing *)

Definition is_ws (c : ascii) : bool :=
  let n := N_of_ascii c in
  (n =? 32) || (n =? 9) || (n =? 10) || (n =? 13).

Fixpoint skip_ws (s : string) : string :=
  match s with
  | String c s' => if is_ws c then skip_ws s' else s
  | EmptyString => s
  end.

Fixpoint strip_prefix (p s : string) : option string :=
  match p, s with
  | EmptyString, _ => Some s
  | String a p', String b s' => if Ascii.eqb a b then strip_prefix p' s' else None
  | String _ _, EmptyString => None
  end.

Definition hex_val (c : ascii) : option N :=
  match Num.digit_val c with
  | Some d => if d <? 16 then Some d else None
  | None => None
  end.

Definition hex4_val (a b c d : ascii) : option N :=
  match hex_val a, hex_val b, hex_val c, hex_val d with
  | Some x, Some y, Some z, Some w => Some (((x * 16 + y) * 16 + z) * 16 + w)
  | _, _, _, _ => None
  end.

(** The UTF-8 bytes of a code point. *)
Definition utf8_of_code (u : N) : string :=
  if u <? 128 then String (ascii_of_N u) EmptyString
  else if u <? 2048
  then String (ascii_of_N (192 + u / 64))
         (String (ascii_of_N (128 + u mod 64)) EmptyString)
  else if u <? 65536
  then String (ascii_of_N (224 + u / 4096))
         (String (ascii_of_N (128 + (u / 64) mod 64))
            (String (ascii_of_N (128 + u mod 64)) EmptyString))
  else String (ascii_of_N (240 + u / 262144))
         (String (ascii_of_N (128 + (u / 4096) mod 64))
            (String (ascii_of_N (128 + (u / 64) mod 64))
               (String (ascii_of_N (128 + u mod 64)) EmptyString))).

Definition is_high_surrogate (u : N) : bool := (55296 <=? u) && (u <=? 56319).
Definition is_low_surrogate (u : N) : bool := (56320 <=? u) && (u <=? 57343).

Definition simple_escape (e : ascii) : option ascii :=
  let n := N_of_ascii e in
  if n =? 34 then Some dquote
  else if n =? 92 then Some backslash
  else if n =? 47 then Some "/"%char
  else if n =? 98 then Some (ascii_of_N 8)
  else if n =? 102 then Some (ascii_of_N 12)
  else if n =? 110 then Some (ascii_of_N 10)
  else if n =? 114 then Some (ascii_of_N 13)
  else if n =? 116 then Some (ascii_of_N 9)
  else None.

Definition prepend (out : string) (r : option (string * string))
  : option (string * string) :=
  match r with
  | Some (s, rest) => Some (out ++ s, rest)
  | None => None
  end.

(** The characters of a string literal, after its opening quote, up to the
    closing one. *)
Fixpoint parse_chars (s : string) : option (string * string) :=
  match s with
  | EmptyString => None
  | String c r =>
      if Ascii.eqb c dquote then Some (EmptyString, r)
      else if Ascii.eqb c backslash then
        match r with
        | String e r1 =>
            if Ascii.eqb e "u" then
              match r1 with
              | String h1 (String h2 (String h3 (String h4 r5))) =>
                  match hex4_val h1 h2 h3 h4 with
                  | Some u =>
                      if is_high_surrogate u then
                        match r5 with
                        | String b (String e' (String k1 (String k2
                            (String k3 (String k4 r11))))) =>
                            match hex4_val k1 k2 k3 k4 with
                            | Some lo =>
                                if Ascii.eqb b backslash && Ascii.eqb e' "u"
                                   && is_low_surrogate lo
                                then prepend
                                       (utf8_of_code
                                          (65536 + (u - 55296) * 1024
                                           + (lo - 56320)))
                                       (parse_chars r11)
                                else prepend (utf8_of_code u) (parse_chars r5)
                            | None => prepend (utf8_of_code u) (parse_chars r5)
                            end
                        | _ => prepend (utf8_of_code u) (parse_chars r5)
                        end
                      else prepend (utf8_of_code u) (parse_chars r5)
                  | None => None
                  end
              | _ => None
              end
            else match simple_escape e with
                 | Some ch => prepend (String ch EmptyString) (parse_chars r1)
                 | None => None
                 end
        | EmptyString => None
        end
      else if N_of_ascii c <? 32 then None
      else prepend (String c EmptyString) (parse_chars r)
  end.

Definition is_digit10 (c : ascii) : bool := Num.is_digit 10 c.

(** A number ends where no digit, fraction or exponent follows. *)
Definition number_end (s : string) : bool :=
  match s with
  | EmptyString => true
  | String c _ =>
      negb (is_digit10 c || Ascii.eqb c "." || Ascii.eqb c "e" || Ascii.eqb c "E")
  end.

(** A number literal: an optional minus sign; [0] or a run of digits that
    does not start with [0]; an optional fraction, a dot and at least one
    digit; an optional exponent, [e] or [E], an optional sign and at least
    one digit.  The digits of the fraction are read on top of those before
    the dot. *)
Definition parse_fraction (int : N) (s : string) : option (N * nat * string) :=
  match s with
  | String c r =>
      if Ascii.eqb c "." then
        match Num.read_digits 10 r int O with
        | (v, S k, rest) => Some (v, S k, rest)
        | (_, O, _) => None
        end
      else Some (int, O, s)
  | EmptyString => Some (int, O, s)
  end.

Definition parse_exponent (s : string) : option (Z * string) :=
  match s with
  | String c r =>
      if Ascii.eqb c "e" || Ascii.eqb c "E" then
        let '(neg, r1) :=
          match r with
          | String c1 r' =>
              if Ascii.eqb c1 "-" then (true, r')
              else if Ascii.eqb c1 "+" then (false, r')
              else (false, r)
          | EmptyString => (false, r)
          end in
        match Num.read_digits 10 r1 0 O with
        | (v, S _, rest) => Some (if neg then (- Z.of_N v)%Z else Z.of_N v, rest)
        | (_, O, _) => None
        end
      else Some (0%Z, s)
  | EmptyString => Some (0%Z, s)
  end.

Definition parse_integer (s : string) : option (N * string) :=
  match s with
  | String c r =>
      if Ascii.eqb c "0" then Some (0, r)
      else match Num.read_digits 10 s 0 O with
           | (v, S _, rest) => Some (v, rest)
           | (_, O, _) => None
           end
  | EmptyString => None
  end.

(** The value of a literal is the number for its decimal. *)
Definition parse_magnitude (neg : bool) (s : string)
  : option (Double.double * string) :=
  match parse_integer s with
  | Some (int, r1) =>
      match parse_fraction int r1 with
      | Some (digits, k, r2) =>
          match parse_exponent r2 with
          | Some (x, r3) =>
              Some (Double.of_decimal neg digits (x - Z.of_nat k), r3)
          | None => None
          end
      | None => None
      end
  | None => None
  end.

Definition parse_number (s : string) : option (Double.double * string) :=
  match s with
  | String c r =>
      if Ascii.eqb c "-" then parse_magnitude true r
      else parse_magnitude false s
  | EmptyString => None
  end.

(** Defining a property: a key already present keeps its place and takes the
    new value; a new key takes its place in the order of the keys. *)
Definition set_prop (o : JObject) (k : string) (v : JValue) : JObject :=
  put o k v.

Definition object_of (members : list (string * JValue)) : JObject :=
  fold_left (fun o m => set_prop o (fst m) (snd m)) members [].

Fixpoint parse_value (fuel : nat) (s : string) : option (JValue * string) :=
  match fuel with
  | O => None
  | S f =>
      match s with
      | EmptyString => None
      | String c r =>
          if Ascii.eqb c "-" || is_digit10 c then
            match parse_number s with
            | Some (z, rest) => Some (JNum z, rest)
            | None => None
            end
          else if Ascii.eqb c dquote then
            match parse_chars r with
            | Some (str, rest) => Some (JStr str, rest)
            | None => None
            end
          else if Ascii.eqb c "[" then
            match skip_ws r with
            | String c' r' =>
                if Ascii.eqb c' "]" then Some (JArr [], r')
                else match parse_elements f (String c' r') with
                     | Some (items, rest) => Some (JArr items, rest)
                     | None => None
                     end
            | EmptyString => None
            end
          else if Ascii.eqb c "{" then
            match skip_ws r with
            | String c' r' =>
                if Ascii.eqb c' "}" then Some (JObj [], r')
                else match parse_members f (String c' r') with
                     | Some (ms, rest) => Some (JObj (object_of ms), rest)
                     | None => None
                     end
            | EmptyString => None
            end
          else if Ascii.eqb c "n" then
            match strip_prefix "ull" r with
            | Some rest => Some (JNull, rest)
            | None => None
            end
          else if Ascii.eqb c "t" then
            match strip_prefix "rue" r with
            | Some rest => Some (JBool true, rest)
            | None => None
            end
          else if Ascii.eqb c "f" then
            match strip_prefix "alse" r with
            | Some rest => Some (JBool false, rest)
            | None => None
            end
          else None
      end
  end

with parse_elements (fuel : nat) (s : string) : option (list JValue * string) :=
  match fuel with
  | O => None
  | S f =>
      match parse_value f s with
      | Some (v, rest) =>
          match skip_ws rest with
          | String c r =>
              if Ascii.eqb c "," then
                match parse_elements f (skip_ws r) with
                | Some (vs, rest') => Some (v :: vs, rest')
                | None => None
                end
              else if Ascii.eqb c "]" then Some ([v], r)
              else None
          | EmptyString => None
          end
      | None => None
      end
  end

with parse_members (fuel : nat) (s : string)
  : option (list (string * JValue) * string) :=
  match fuel with
  | O => None
  | S f =>
      match s with
      | String q r =>
          if Ascii.eqb q dquote then
            match parse_chars r with
            | Some (k, rest) =>
                match skip_ws rest with
                | String c2 r2 =>
                    if Ascii.eqb c2 ":" then
                      match parse_value f (skip_ws r2) with
                      | Some (v, rest2) =>
                          match skip_ws rest2 with
                          | String c3 r3 =>
                              if Ascii.eqb c3 "," then
                                match parse_members f (skip_ws r3) with
                                | Some (ms, rest') => Some ((k, v) :: ms, rest')
                                | None => None
                                end
                              else if Ascii.eqb c3 "}" then Some ([(k, v)], r3)
                              else None
                          | EmptyString => None
                          end
                      | None => None
                      end
                    else None
                | EmptyString => None
                end
            | None => None
            end
          else None
      | EmptyString => None
      end
  end.

(** [JSON.parse(text)]: one value, white space around it, nothing else;
    otherwise a [SyntaxError] is thrown.  Every recursive call follows the
    reading of at least one character, so this fuel is enough: more fuel
    reads the same value ([FuelFacts.parse_fuel_enough]). *)
Definition parse (text : string) : Exc.result JValue :=
  match parse_value (S (2 * String.length text)) (skip_ws text) with
  | Some (v, rest) =>
      match skip_ws rest with
      | EmptyString => Exc.ret v
      | String _ _ => Exc.throw "SyntaxError"
      end
  | None => Exc.throw "SyntaxError"
  end.

(** The values of JSON: no [undefined], no function, every number a finite
    number of the format (a literal beyond the range is read as an
    infinity, which is written [null]), and the keys of an object without a
    repetition and in the order in which an object lists them. *)
Fixpoint distinct (l : list string) : bool :=
  match l with
  | [] => true
  | k :: t => negb (Str.includes k t) && distinct t
  end.

Fixpoint is_json (v : JValue) : bool :=
  match v with
  | JUndefined | JBuiltin _ => false
  | JNull | JBool _ | JStr _ => true
  | JNum n => Double.finite n && Double.valid n
  | JArr items => forallb is_json items
  | JObj members =>
      forallb (fun m => is_json (snd m)) members && distinct (map fst members)
      && ordered (map fst members)
  end.

End JSON.

(* ===================================================================== *)
(** * Part II.  [src/lib/oidc.ts]                                         *)
(* ===================================================================== *)

Module Oidc.

Import JS.

(** ** Configuration *)

(** [process.env] *)
Definition Env : Type := list (string * string).

Fixpoint getenv (env : Env) (name : string) : option string :=
  match env with
  | [] => None
  | (k, v) :: env' => if String.eqb k name then Some v else getenv env' name
  end.

(** [process.env.NAME ?? fallback] *)
Definition env_or (env : Env) (name fallback : string) : string :=
  match getenv env name with
  | Some v => v
  | None => fallback
  end.

Definition env_is (env : Env) (name value : string) : bool :=
  match getenv env name with
  | Some v => String.eqb v value
  | None => false
  end.

Record OidcConfig : Type := mkOidcConfig {
  enabled : bool;
  clientId : string;
  clientSecret : string;
  issuerUrl : string;
  scopes : string;
  redirectUri : string;
  roleClaim : string;
  adminGroup : string;
  autoCreate : bool;
  displayName : string
}.

Definition getOidcConfig (env : Env) : OidcConfig :=
  {| enabled := env_is env "OIDC_ENABLED" "1" || env_is env "OIDC_ENABLED" "true";
     clientId := env_or env "OIDC_CLIENT_ID" "";
     clientSecret := env_or env "OIDC_CLIENT_SECRET" "";
     issuerUrl := env_or env "OIDC_ISSUER_URL" "";
     scopes := env_or env "OIDC_SCOPES" "openid profile email";
     redirectUri := env_or env "OIDC_REDIRECT_URI" "";
     roleClaim := env_or env "OIDC_ROLE_CLAIM" "groups";
     adminGroup := env_or env "OIDC_ADMIN_GROUP" "umami-admin";
     autoCreate := negb (env_is env "OIDC_AUTO_CREATE" "false");
     displayName := env_or env "OIDC_DISPLAY_NAME" "Single Sign-On" |}.

Definition isOidcEnabled (env : Env) : bool := enabled (getOidcConfig env).

Definition validateOidcConfig (cfg : OidcConfig) : option string :=
  if negb (enabled cfg) then None
  else if String.eqb (clientId cfg) "" then Some "OIDC_CLIENT_ID is required"
  else if String.eqb (clientSecret cfg) "" then Some "OIDC_CLIENT_SECRET is required"
  else if String.eqb (issuerUrl cfg) "" then Some "OIDC_ISSUER_URL is required"
  else None.

(** ** Discovery *)

(** What [fetch] resolves to: the status line, and what [res.json()] gives. *)
Record Response : Type := mkResponse {
  ok : bool;
  status : Z;
  statusText : string;
  json : Exc.result JValue
}.

(** The network: a request of a URL is answered, or [fetch] rejects. *)
Definition Network : Type := string -> Exc.result Response.

(** The module-level variables [_discoveryCache] and [_discoveryCacheTime]. *)
Record DiscoveryState : Type := mkDiscoveryState {
  _discoveryCache : JValue;
  _discoveryCacheTime : Z
}.

Definition discovery_initial : DiscoveryState := mkDiscoveryState JNull 0.

Definition DISCOVERY_TTL_MS : Z := 5 * 60 * 1000.

Definition wellKnown (issuerUrl : string) : string :=
  Str.strip_trailing_slashes issuerUrl ++ "/.well-known/openid-configuration".

(** One call: what the promise settles to, the variables afterwards, and the
    URLs requested on the way. *)
Record DiscoveryCall : Type := mkDiscoveryCall {
  settled : Exc.result JValue;
  after : DiscoveryState;
  requested : list string
}.

Definition getDiscovery (net : Network) (now : Z) (st : DiscoveryState)
    (issuerUrl : string) : DiscoveryCall :=
  if truthy (_discoveryCache st)
     && Z.ltb (now - _discoveryCacheTime st) DISCOVERY_TTL_MS
  then mkDiscoveryCall (Exc.ret (_discoveryCache st)) st []
  else
    let url := wellKnown issuerUrl in
    match net url with
    | inl e => mkDiscoveryCall (Exc.throw e) st [url]
    | inr res =>
        if negb (ok res)
        then mkDiscoveryCall
               (Exc.throw ("OIDC discovery failed: " ++ Num.toString (status res)
                           ++ " " ++ statusText res ++ " from " ++ url))
               st [url]
        else match json res with
             | inl e => mkDiscoveryCall (Exc.throw e) st [url]
             | inr doc =>
                 mkDiscoveryCall (Exc.ret doc) (mkDiscoveryState doc now) [url]
             end
    end.

(** ** Identity-token claims *)

Definition parseIdTokenClaims_try (idToken : string) : Exc.result JValue :=
  let parts := Str.split "." idToken in
  if negb (Nat.eqb (List.length parts) 3) then Exc.throw "Invalid JWT structure"
  else
    let payload := Buf.toString_utf8 (Buf.from_base64url (nth 1 parts "")) in
    JSON.parse payload.

Definition parseIdTokenClaims (idToken : string) : JValue :=
  Exc.try_catch (parseIdTokenClaims_try idToken) (fun _ => JObj []).

(** ** Role mapping *)

Definition mapOidcRole (env : Env) (userInfo idTokenClaims : JObject) : string :=
  let cfg := getOidcConfig env in
  let claimName := roleClaim cfg in
  let adminGroup := adminGroup cfg in
  let claimValue := coalesce (get userInfo claimName) (get idTokenClaims claimName) in
  if negb (truthy claimValue) then "user"
  else
    match claimValue with
    | JArr items => if array_includes items adminGroup then "admin" else "user"
    | JStr s =>
        if String.eqb s adminGroup then "admin"
        else if Str.includes adminGroup (map Str.trim (Str.split "," s))
             then "admin"
             else "user"
    | _ => "user"
    end.

(** ** Signed state *)

(** [generateState(appSecret)], given the clock and the sixteen bytes that
    [randomBytes(16)] returns. *)
Definition generateState (now : Z) (random : Buf.Buffer) (appSecret : string)
  : string :=
  let nonce := Crypto.hex (Crypto.bytes_of_string random) in
  let ts := Num.toString_radix 36 now in
  let payload := ts ++ "." ++ nonce in
  let sig := Str.slice0 16 (Crypto.createHmac_sha256_hex appSecret payload) in
  payload ++ "." ++ sig.

Definition default_maxAgeMs : Num.number := Num.Int (10 * 60 * 1000).

Definition verifyState_try (now : Z) (state appSecret : string)
    (maxAgeMs : Num.number) : Exc.result bool :=
  match Str.split "." state with
  | [ts; nonce; sig] =>
      let payload := ts ++ "." ++ nonce in
      let expectedSig :=
        Str.slice0 16 (Crypto.createHmac_sha256_hex appSecret payload) in
      if negb (String.eqb sig expectedSig) then Exc.ret false
      else
        let timestamp := Num.parseInt ts 36 in
        if Num.gt (Num.sub (Num.Int now) timestamp) maxAgeMs then Exc.ret false
        else Exc.ret true
  | _ => Exc.ret false
  end.

(** [verifyState(state, appSecret, maxAgeMs)]; the third argument may be left
    out. *)
Definition verifyState (now : Z) (state appSecret : string)
    (maxAgeMs : option Num.number) : bool :=
  let maxAge := match maxAgeMs with Some m => m | None => default_maxAgeMs end in
  Exc.try_catch (verifyState_try now state appSecret maxAge) (fun _ => false).

Definition generateNonce (random : Buf.Buffer) : string :=
  Crypto.hex (Crypto.bytes_of_string random).

(** ** Requests to the identity provider *)

(** The second argument of [fetch], and what [fetch] resolves to. *)
Record FetchInit : Type := mkInit {
  method : string;
  headers : list (string * string);
  body : option string;
  cache : string
}.

Record Reply : Type := mkReply {
  reply_ok : bool;
  reply_status : Z;
  reply_statusText : string;
  reply_text : Exc.result string;
  reply_json : Exc.result JValue
}.

(** [fetch]: a request is answered, or the promise is rejected. *)
Definition Fetch : Type := string -> FetchInit -> Exc.result Reply.

(** The request of the discovery document, as [getDiscovery] sends it. *)
Definition discovery_init : FetchInit :=
  mkInit "GET" [("Accept", "application/json")] None "no-store".

Definition discovery_network (fetch : Fetch) : Network :=
  fun url =>
    let* r := fetch url discovery_init in
    Exc.ret (mkResponse (reply_ok r) (reply_status r) (reply_statusText r)
               (reply_json r)).

(** One call of a function of this module: what the promise settles to, the
    discovery cache afterwards, and the requests sent on the way. *)
Record Call (A : Type) : Type := mkCall {
  outcome : Exc.result A;
  cached : DiscoveryState;
  sent : list (string * FetchInit)
}.
Arguments mkCall {A}.
Arguments outcome {A}.
Arguments cached {A}.
Arguments sent {A}.

Definition discovery_requests (call : DiscoveryCall) : list (string * FetchInit) :=
  map (fun url => (url, discovery_init)) (requested call).

(** [buildAuthorizationUrl(state, nonce, redirectUri)] *)
Definition buildAuthorizationUrl (env : Env) (fetch : Fetch) (now : Z)
    (st : DiscoveryState) (state nonce redirectUri : string) : Call string :=
  let cfg := getOidcConfig env in
  let call := getDiscovery (discovery_network fetch) now st (issuerUrl cfg) in
  mkCall
    (let* discovery := settled call in
     let params :=
       Url.URLSearchParams_toString
         [ ("client_id", clientId cfg);
           ("response_type", "code");
           ("scope", scopes cfg);
           ("redirect_uri", redirectUri);
           ("state", state);
           ("nonce", nonce) ] in
     let* endpoint := field discovery "authorization_endpoint" in
     let* prefix := template endpoint in
     Exc.ret (prefix ++ "?" ++ params))
    (after call) (discovery_requests call).

(** The body of the token request. *)
Definition token_request_body (cfg : OidcConfig) (code redirectUri : string)
  : string :=
  Url.URLSearchParams_toString
    [ ("grant_type", "authorization_code");
      ("code", code);
      ("redirect_uri", redirectUri);
      ("client_id", clientId cfg);
      ("client_secret", clientSecret cfg) ].

Definition token_request_init (cfg : OidcConfig) (code redirectUri : string)
  : FetchInit :=
  mkInit "POST" [("Content-Type", "application/x-www-form-urlencoded")]
         (Some (token_request_body cfg code redirectUri)) "no-store".

(** The end of [exchangeCode] and of [getUserInfo]: a reply that is not a
    success is turned into an error that carries the status and the text of
    the reply; a success is read as JSON. *)
Definition read_reply (what : string) (res : Reply) : Exc.result JValue :=
  if negb (reply_ok res)
  then
    let* text := reply_text res in
    Exc.throw (what ++ " (" ++ Num.toString (reply_status res) ++ "): " ++ text)
  else reply_json res.

(** [exchangeCode(code, redirectUri)] *)
Definition exchangeCode (env : Env) (fetch : Fetch) (now : Z)
    (st : DiscoveryState) (code redirectUri : string) : Call JValue :=
  let cfg := getOidcConfig env in
  let call := getDiscovery (discovery_network fetch) now st (issuerUrl cfg) in
  match (let* discovery := settled call in
         let* endpoint := field discovery "token_endpoint" in
         template endpoint) with
  | inl e => mkCall (Exc.throw e) (after call) (discovery_requests call)
  | inr url =>
      let init := token_request_init cfg code redirectUri in
      mkCall
        (let* res := fetch url init in read_reply "Token exchange failed" res)
        (after call) (discovery_requests call ++ [(url, init)])
  end.

(** [getUserInfo(accessToken)]; the argument is what the callback read from
    the token reply. *)
Definition userinfo_init (bearer : string) : FetchInit :=
  mkInit "GET" [("Authorization", "Bearer " ++ bearer)] None "no-store".

Definition getUserInfo (env : Env) (fetch : Fetch) (now : Z)
    (st : DiscoveryState) (accessToken : JValue) : Call JValue :=
  let cfg := getOidcConfig env in
  let call := getDiscovery (discovery_network fetch) now st (issuerUrl cfg) in
  match (let* discovery := settled call in
         let* endpoint := field discovery "userinfo_endpoint" in
         let* bearer := template accessToken in
         let* url := template endpoint in
         Exc.ret (url, bearer)) with
  | inl e => mkCall (Exc.throw e) (after call) (discovery_requests call)
  | inr (url, bearer) =>
      let init := userinfo_init bearer in
      mkCall
        (let* res := fetch url init in read_reply "UserInfo request failed" res)
        (after call) (discovery_requests call ++ [(url, init)])
  end.

(** [parseIdTokenClaims] on what the callback read from the token reply: on
    a value that is not a string, [idToken.split] is not a function, and the
    [TypeError] is caught like every other. *)
Definition parseIdTokenClaims_of (idToken : JValue) : JValue :=
  match idToken with
  | JStr s => parseIdTokenClaims s
  | _ => JObj []
  end.

End Oidc.

(* ===================================================================== *)
(** * Part III.  [src/lib/oidc-user.ts]                                   *)
(* ===================================================================== *)

Module OidcUser.

Import JS Oidc.

(** The rows of the [user] table that the module reads and writes, in table
    order.  [findFirst] returns the first row that matches; [username] is
    unique in the schema, so that an update of a user name to one that
    another row holds is refused. *)
Record User : Type := mkUser {
  user_id : string;
  user_username : string;
  user_password : string;
  user_role : string;
  user_createdAt : Z
}.

Definition Users : Type := list User.

Record OidcProvisionedUser : Type := mkProvisioned {
  id : string;
  username : string;
  role : string;
  isAdmin : bool;
  createdAt : Z
}.

(** [prisma.client.user.findFirst({ where: { OR: [{ username }, ...] } })] *)
Definition findFirst (users : Users) (usernames : list string) : option User :=
  find (fun u => Str.includes (user_username u) usernames) users.

(** [prisma.client.user.update({ where: { id }, data })] *)
Definition update (users : Users) (id : string) (change : User -> User) : Users :=
  map (fun u => if String.eqb (user_id u) id then change u else u) users.

Definition set_role (role : string) (u : User) : User :=
  mkUser (user_id u) (user_username u) (user_password u) role (user_createdAt u).

Definition set_username (name : string) (u : User) : User :=
  mkUser (user_id u) name (user_password u) (user_role u) (user_createdAt u).

Definition username_taken (users : Users) (name : string) : bool :=
  existsb (fun u => String.eqb (user_username u) name) users.

Section Provisioning.

(** What the embedding takes from outside the sources: the Unicode part of
    [toLowerCase], and the constant [ROLES.admin] of [@/lib/constants]. *)
Variable unicode_lower : string -> string.
Variable ROLES_admin : string.

(** [value.toLowerCase().trim()] on a truthy value: only a string has the
    method. *)
Definition lower_trim (name : string) (v : JValue) : Exc.result string :=
  match v with
  | JStr s => Exc.ret (Str.trim (Str.toLowerCase unicode_lower s))
  | _ => Exc.throw (name ++ ".toLowerCase is not a function")
  end.

Definition buildOidcUsername (sub preferredUsername email : JValue)
  : Exc.result string :=
  if truthy preferredUsername then lower_trim "preferredUsername" preferredUsername
  else if truthy email then lower_trim "email" email
  else let* text := template sub in Exc.ret ("oidc:" ++ text).

Definition toProvisionedUser (user : User) : OidcProvisionedUser :=
  mkProvisioned (user_id user) (user_username user) (user_role user)
                (String.eqb (user_role user) ROLES_admin) (user_createdAt user).

(** A value used as a user name in a query: a text, or the query is refused
    by the client. *)
Definition prisma_validation : string := "PrismaClientValidationError".

Definition as_username (v : JValue) : Exc.result (list string) :=
  if truthy v then
    match v with
    | JStr s => Exc.ret [s]
    | _ => Exc.throw prisma_validation
    end
  else Exc.ret [].

Definition not_found_message (displayName oidcSub : string) : string :=
  "OIDC user " ++ String JSON.dquote displayName
  ++ String JSON.dquote " (sub: " ++ oidcSub
  ++ ") not found and auto-creation is disabled. "
  ++ "An admin must create this user manually.".

(** [findOrCreateOidcUser(userInfo, idTokenClaims)]; [uuid], [random] and
    [now] are what [randomUUID()], [randomBytes(20)] and the clock of the
    database give when a user is created; [uuid] is taken to be an
    identifier that no row has. *)
Definition findOrCreateOidcUser (env : Env) (uuid : string) (random : Buf.Buffer)
    (now : Z) (users : Users) (userInfo idTokenClaims : JObject)
  : Exc.result OidcProvisionedUser * Users :=
  let cfg := getOidcConfig env in
  let oidcSub := get userInfo "sub" in
  let email := get userInfo "email" in
  let preferredUsername := get userInfo "preferred_username" in
  let displayName :=
    coalesce (get userInfo "name")
      (coalesce preferredUsername (coalesce email oidcSub)) in
  let umamiRole := mapOidcRole env userInfo idTokenClaims in
  match (let* oidcUsername := buildOidcUsername oidcSub preferredUsername email in
         let* byEmail := as_username email in
         let* byName := as_username preferredUsername in
         Exc.ret (oidcUsername, (oidcUsername :: byEmail ++ byName)%list)) with
  | inl e => (Exc.throw e, users)
  | inr (oidcUsername, usernames) =>
      match findFirst users usernames with
      | Some user =>
          let users1 :=
            if negb (String.eqb (user_role user) umamiRole)
            then update users (user_id user) (set_role umamiRole)
            else users in
          let user1 :=
            if negb (String.eqb (user_role user) umamiRole)
            then set_role umamiRole user else user in
          if negb (String.eqb (user_username user1) oidcUsername)
          then
            if username_taken users1 oidcUsername
            then (Exc.ret (toProvisionedUser user1), users1)
            else (Exc.ret (toProvisionedUser (set_username oidcUsername user1)),
                  update users1 (user_id user1) (set_username oidcUsername))
          else (Exc.ret (toProvisionedUser user1), users1)
      | None =>
          if negb (autoCreate cfg)
          then
            (let* name := template displayName in
             let* sub := template oidcSub in
             Exc.throw (not_found_message name sub), users)
          else
            let newUser :=
              mkUser uuid oidcUsername (Crypto.hex (Crypto.bytes_of_string random))
                     umamiRole now in
            (Exc.ret (toProvisionedUser newUser), (users ++ [newUser])%list)
      end
  end.

End Provisioning.

End OidcUser.

(* ===================================================================== *)
(** * Part IV.  [src/app/api/auth/oidc/callback/route.ts]                *)
(* ===================================================================== *)

Module Callback.

Import Oidc.

(** What the handler reads of a request: the query parameters, the three
    cookies of the flow, the headers and the origin of [request.url]. *)
Record Request : Type := mkRequest {
  origin : string;
  headers : list (string * string);
  code : option string;
  state : option string;
  error : option string;
  error_description : option string;
  oidc_state : option string;
  oidc_nonce : option string;
  oidc_redirect_uri : option string
}.

Record Cookie : Type := mkCookie {
  cookie_name : string;
  cookie_value : string;
  httpOnly : bool;
  maxAge : Z
}.

(** A redirect: its target before any parameter is added, the [error]
    parameter added to the target, the cookies set and the cookies
    deleted. *)
Record Redirect : Type := mkRedirect {
  target : string;
  error_param : option string;
  set_cookies : list Cookie;
  deleted_cookies : list string
}.

(** [x || fallback] on an optional string: absent and empty are falsy. *)
Definition present (o : option string) : bool :=
  match o with
  | Some s => negb (String.eqb s "")
  | None => false
  end.

Definition or_else (o : option string) (fallback : string) : string :=
  match o with
  | Some s => if String.eqb s "" then fallback else s
  | None => fallback
  end.

Fixpoint header (hs : list (string * string)) (name : string) : option string :=
  match hs with
  | [] => None
  | (k, v) :: hs' => if String.eqb k name then Some v else header hs' name
  end.

Definition local_host (host : string) : bool :=
  String.prefix "0.0.0.0" host || String.prefix "127.0.0.1" host.

Definition getExternalBaseUrl (env : Env) (req : Request) : string :=
  if present (getenv env "APP_URL")
  then Str.strip_trailing_slashes (env_or env "APP_URL" "")
  else
    let forwardedHost := header (headers req) "x-forwarded-host" in
    let forwardedProto := or_else (header (headers req) "x-forwarded-proto") "https" in
    let host := header (headers req) "host" in
    if present forwardedHost
    then forwardedProto ++ "://" ++ or_else forwardedHost ""
    else if present host && negb (local_host (or_else host ""))
    then forwardedProto ++ "://" ++ or_else host ""
    else origin req.

(** The messages of the two errors thrown by the state check. *)
Definition msg_state_mismatch : string :=
  "OIDC state mismatch – possible CSRF attack".
Definition msg_state_verification : string :=
  "OIDC state verification failed (expired or tampered)".

(** Step 1 of the handler, inside its [try]: the state of the query against
    the cookie, then its signature and age. *)
Definition check_state (now : Z) (appSecret : string) (req : Request)
    (state : string) : Exc.result unit :=
  let savedState := oidc_state req in
  if negb (present savedState)
     || negb (match savedState with
              | Some s => String.eqb state s
              | None => false
              end)
  then Exc.throw msg_state_mismatch
  else if negb (verifyState now state appSecret None)
  then Exc.throw msg_state_verification
  else Exc.ret tt.

Section Handler.

(** [new URL(path, base)]: the text of the URL that [path] resolves to
    against [base], or the [TypeError] thrown when [base] is not an absolute
    URL.  The URL parser is taken from outside. *)
Variable newURL : string -> string -> Exc.result string.

(** [NextResponse.redirect(loginUrl)], after [loginUrl] was resolved and the
    [error] parameter, if any, was set on it. *)
Definition login_redirect (baseUrl : string) (message : option string)
  : Exc.result Redirect :=
  let* loginUrl := newURL "/login" baseUrl in
  Exc.ret (mkRedirect loginUrl message [] []).

(** [GET]; a result on the left is an error that leaves the handler.  Steps
    3 to 7 (token exchange, nonce check, user information, provisioning,
    team mappings, session token) talk to the identity provider and to the
    database; [session] stands for them: from the authorization code, the
    redirect URI and the saved nonce it returns the session token, or
    throws. *)
Definition GET (env : Env) (now : Z) (appSecret : string)
    (session : string -> string -> option string -> Exc.result string)
    (req : Request) : Exc.result Redirect :=
  let cfg := getOidcConfig env in
  let baseUrl := getExternalBaseUrl env req in
  if negb (enabled cfg) then login_redirect baseUrl None
  else if present (error req)
  then login_redirect baseUrl
         (Some ("OIDC: " ++ or_else (error_description req)
                              (or_else (error req) "")))
  else
    match code req, state req with
    | Some code, Some state =>
        if String.eqb code "" || String.eqb state ""
        then login_redirect baseUrl
               (Some "Invalid OIDC callback: missing code or state")
        else
          match (let* _ := check_state now appSecret req state in
                 let redirectUri :=
                   or_else (oidc_redirect_uri req)
                           (baseUrl ++ "/api/auth/oidc/callback") in
                 let* token := session code redirectUri (oidc_nonce req) in
                 let* completeUrl := newURL "/api/auth/oidc/complete" baseUrl in
                 Exc.ret
                   (mkRedirect completeUrl None
                      [ mkCookie "umami.auth" token true 86400;
                        mkCookie "oidc_auth_token" token false 60 ]
                      [ "oidc_state"; "oidc_nonce"; "oidc_redirect_uri" ])) with
          | inr response => Exc.ret response
          | inl message =>
              login_redirect baseUrl
                (Some (if String.eqb message "" then "OIDC authentication failed"
                       else message))
          end
    | _, _ =>
        login_redirect baseUrl
          (Some "Invalid OIDC callback: missing code or state")
    end.

End Handler.

(** ** Steps 3 to 7 of the handler *)

(** Step 4: the nonce of the identity token against the cookie. *)
Definition check_nonce (savedNonce : option string) (idTokenClaims : JS.JValue)
  : Exc.result unit :=
  if present savedNonce then
    let* nonce := JS.field idTokenClaims "nonce" in
    if JS.truthy nonce && negb (JS.strict_eq_str nonce (or_else savedNonce ""))
    then Exc.throw "OIDC nonce mismatch"
    else Exc.ret tt
  else Exc.ret tt.

(** What the steps leave behind: the session token or the error thrown, the
    state of the database and of the session store, the discovery cache and
    the requests sent to the identity provider. *)
Record Flow (W : Type) : Type := mkFlow {
  token : Exc.result string;
  world : W;
  discovery : DiscoveryState;
  requests : list (string * FetchInit)
}.
Arguments mkFlow {W}.
Arguments token {W}.
Arguments world {W}.
Arguments discovery {W}.
Arguments requests {W}.

Section Steps.

(** The handler calls into modules that are not part of [oidc.ts]: user
    provisioning, the team bridge (a dynamic import, which fails when the
    team module is not installed), and the session tokens of Umami.  [W] is
    the state they work on. *)
Variable W : Type.
Variable findOrCreateOidcUser :
  JS.JValue -> JS.JValue -> W -> Exc.result OidcUser.OidcProvisionedUser * W.
Variable applyTeamMappings :
  option (string -> JS.JValue -> JS.JValue -> W -> Exc.result unit * W).
Variable redis_enabled : bool.
Variable saveAuth : string -> string -> bool -> W -> Exc.result string * W.
Variable createSecureToken : string -> string -> Exc.result string.

(** Step 6b: whatever the bridge does, nothing it throws leaves the inner
    [try]. *)
Definition team_mappings (userId : string) (userInfo idTokenClaims : JS.JValue)
    (w : W) : W :=
  match applyTeamMappings with
  | Some bridge => snd (bridge userId userInfo idTokenClaims w)
  | None => w
  end.

(** Step 7 *)
Definition auth_token (appSecret : string) (user : OidcUser.OidcProvisionedUser)
    (w : W) : Exc.result string * W :=
  if redis_enabled
  then saveAuth (OidcUser.id user) (OidcUser.role user) (OidcUser.isAdmin user) w
  else (createSecureToken (OidcUser.id user) appSecret, w).

(** Steps 3 to 7; [now3] and [now5] are the clock at the token request and
    at the user-information request. *)
Definition steps (env : Env) (fetch : Fetch) (now3 now5 : Z)
    (st : DiscoveryState) (w : W) (appSecret code redirectUri : string)
    (savedNonce : option string) : Flow W :=
  let exchange := exchangeCode env fetch now3 st code redirectUri in
  match (let* tokens := outcome exchange in
         let* id_token := JS.field tokens "id_token" in
         let* access_token := JS.field tokens "access_token" in
         let idTokenClaims := parseIdTokenClaims_of id_token in
         let* _ := check_nonce savedNonce idTokenClaims in
         Exc.ret (access_token, idTokenClaims)) with
  | inl e => mkFlow (Exc.throw e) w (cached exchange) (sent exchange)
  | inr (access_token, idTokenClaims) =>
      let info := getUserInfo env fetch now5 (cached exchange) access_token in
      let asked := (sent exchange ++ sent info)%list in
      match (let* userInfo := outcome info in
             let* _ := JS.field userInfo "sub" in
             Exc.ret userInfo) with
      | inl e => mkFlow (Exc.throw e) w (cached info) asked
      | inr userInfo =>
          match findOrCreateOidcUser userInfo idTokenClaims w with
          | (inl e, w1) => mkFlow (Exc.throw e) w1 (cached info) asked
          | (inr umamiUser, w1) =>
              let w2 :=
                team_mappings (OidcUser.id umamiUser) userInfo idTokenClaims w1 in
              let (result, w3) := auth_token appSecret umamiUser w2 in
              mkFlow result w3 (cached info) asked
          end
      end
  end.

End Steps.

End Callback.

(* ===================================================================== *)
(** * Part V.  [src/app/api/auth/oidc/authorize/route.ts] and
      [src/app/api/auth/oidc/config/route.ts]                             *)
(* ===================================================================== *)

Module Authorize.

Import Oidc.

(** What the handler answers: a JSON error with its status, or a redirect
    with the cookies of the flow. *)
Inductive Response : Type :=
| Json (status : Z) (error : string)
| Redirect (location : string) (cookies : list Callback.Cookie).

(** [getRedirectUri(request, configuredUri)]; [origin] is the origin of
    [request.url]. *)
Definition callback_path : string := "/api/auth/oidc/callback".

Definition getRedirectUri (env : Env) (origin configuredUri : string) : string :=
  if negb (String.eqb configuredUri "") then configuredUri
  else if Callback.present (getenv env "APP_URL")
  then Str.strip_trailing_slashes (env_or env "APP_URL" "") ++ callback_path
  else origin ++ callback_path.

(** The cookies of the flow live ten minutes and are not readable by
    scripts. *)
Definition flow_cookie (name value : string) : Callback.Cookie :=
  Callback.mkCookie name value true 600.

Section Handler.

(** [NextResponse.redirect(url)] parses its argument and writes the parsed
    URL back: it throws on a text that is not an absolute URL.  The parser
    is taken from outside. *)
Variable validateURL : string -> Exc.result string.

(** [GET]; [now1] and [randomState], [randomNonce] are the clock and the
    random bytes at the generation of the state and of the nonce, [now2] the
    clock at the discovery. *)
Definition GET (env : Env) (fetch : Fetch) (now1 now2 : Z)
    (randomState randomNonce : Buf.Buffer) (appSecret : string)
    (st : DiscoveryState) (origin : string) : Response * DiscoveryState :=
  let cfg := getOidcConfig env in
  if negb (enabled cfg)
  then (Json 404 "OIDC authentication is not enabled", st)
  else
    match validateOidcConfig cfg with
    | Some _ => (Json 500 "OIDC is misconfigured. Check server logs.", st)
    | None =>
        let redirectUri := getRedirectUri env origin (redirectUri cfg) in
        let state := generateState now1 randomState appSecret in
        let nonce := generateNonce randomNonce in
        let call := buildAuthorizationUrl env fetch now2 st state nonce redirectUri in
        (Exc.try_catch
           (let* authUrl := outcome call in
            let* location := validateURL authUrl in
            Exc.ret
              (Redirect location
                 [ flow_cookie "oidc_state" state;
                   flow_cookie "oidc_nonce" nonce;
                   flow_cookie "oidc_redirect_uri" redirectUri ]))
           (fun _ => Json 500 "Failed to initiate OIDC login"),
         cached call)
    end.

End Handler.

End Authorize.

Module ConfigRoute.

Import Oidc.

(** The body of the answer of [GET /api/auth/oidc/config]. *)
Record OidcClientConfig : Type := mkClientConfig {
  enabled : bool;
  displayName : string;
  authorizeUrl : option string
}.

Definition GET (env : Env) : OidcClientConfig :=
  let cfg := getOidcConfig env in
  mkClientConfig (Oidc.enabled cfg) (Oidc.displayName cfg)
    (if Oidc.enabled cfg then Some "/api/auth/oidc/authorize" else None).

End ConfigRoute.

(* ===================================================================== *)
(** * Part VI.  [src/lib/oidc-teams.ts] and [src/lib/oidc-team-bridge.ts]  *)
(* ===================================================================== *)

Module Teams.

Import JS.

(** ** Rules and their store *)

Record TeamClaimRule : Type := mkRule {
  id : string;
  claimField : string;
  claimValue : string;
  teamRole : string;
  createdAt : string
}.

(** [TeamRulesMap]: the own properties of the map, team identifier to
    rules, in the order in which the object lists its keys. *)
Definition TeamRulesMap : Type := list (string * list TeamClaimRule).

(** The Redis client holds, under the key [oidc:team:rules], the JSON text of
    a rules map; the text and the map it parses to are identified.  [None]:
    the key is not set. *)
Record RedisClient : Type := mkClient {
  rules_key : option TeamRulesMap
}.

(** [@/lib/redis]: the flag, and the client, which may be missing. *)
Record Redis : Type := mkRedis {
  enabled : bool;
  client : option RedisClient
}.

(** [redis.client.get(RULES_KEY)]; no client: a [TypeError]. *)
Definition client_get (r : Redis) : Exc.result (option TeamRulesMap) :=
  match client r with
  | Some c => Exc.ret (rules_key c)
  | None => Exc.throw "TypeError"
  end.

(** [redis.client.set(RULES_KEY, JSON.stringify(all))] *)
Definition client_set (r : Redis) (all : TeamRulesMap) : Exc.result Redis :=
  match client r with
  | Some _ => Exc.ret (mkRedis (enabled r) (Some (mkClient (Some all))))
  | None => Exc.throw "TypeError"
  end.

(** The own property [teamId] of the map. *)
Fixpoint rules_of (all : TeamRulesMap) (teamId : string)
  : option (list TeamClaimRule) :=
  match all with
  | [] => None
  | (k, rs) :: all' => if String.eqb k teamId then Some rs else rules_of all' teamId
  end.

(** [all[teamId]]: the own property, else the member of [Object.prototype]
    of that name, which every plain object inherits, else [undefined]. *)
Inductive Entry : Type :=
| Rules (rules : list TeamClaimRule)
| Member (name : string)
| Undefined.

Definition entry (all : TeamRulesMap) (teamId : string) : Entry :=
  match rules_of all teamId with
  | Some rs => Rules rs
  | None => if Str.includes teamId object_prototype then Member teamId
            else Undefined
  end.

(** [all[teamId] = rs] where [teamId] is an own key or is not inherited. *)
Definition assign (all : TeamRulesMap) (teamId : string) (rs : list TeamClaimRule)
  : TeamRulesMap :=
  put all teamId rs.

(** [delete all[teamId]] *)
Definition remove_key (all : TeamRulesMap) (teamId : string) : TeamRulesMap :=
  filter (fun e => negb (String.eqb (fst e) teamId)) all.

Definition getAllTeamRules (r : Redis) : TeamRulesMap :=
  if negb (enabled r) then []
  else
    Exc.try_catch
      (let* data := client_get r in
       Exc.ret (match data with Some all => all | None => [] end))
      (fun _ => []).

(** [getTeamRules]: [all[teamId] || []]; an array and a function are
    truthy. *)
Definition getTeamRules (r : Redis) (teamId : string) : Entry :=
  match entry (getAllTeamRules r) teamId with
  | Undefined => Rules []
  | e => e
  end.

Definition not_a_function (method : string) : string :=
  "all[teamId]." ++ method ++ " is not a function".

(** [addTeamRule]; [uuid] and [isoNow] are what [randomUUID()] and
    [new Date().toISOString()] return.  The result holds the rule and the
    store afterwards. *)
Definition addTeamRule (uuid isoNow : string) (r : Redis)
    (teamId claimField claimValue : string) (teamRole : option string)
  : Exc.result (TeamClaimRule * Redis) :=
  let all := getAllTeamRules r in
  let all1 :=
    match entry all teamId with
    | Undefined => assign all teamId []
    | _ => all
    end in
  let rule :=
    mkRule uuid (Str.trim claimField) (Str.trim claimValue)
           (match teamRole with Some t => t | None => "team_member" end)
           isoNow in
  match entry all1 teamId with
  | Rules rs =>
      let all2 := assign all1 teamId (rs ++ [rule])%list in
      let* r' := client_set r all2 in
      Exc.ret (rule, r')
  | _ => Exc.throw (not_a_function "push")
  end.

(** [all[teamId]?.length ?? 0] *)
Definition entry_length (e : Entry) : N :=
  match e with
  | Rules rs => N.of_nat (List.length rs)
  | Member name => match member_length name with Some n => n | None => 0%N end
  | Undefined => 0%N
  end.

Definition removeTeamRule (r : Redis) (teamId ruleId : string)
  : Exc.result (bool * Redis) :=
  let all := getAllTeamRules r in
  match entry all teamId with
  | Undefined => Exc.ret (false, r)
  | Member _ => Exc.throw (not_a_function "filter")
  | Rules rs =>
      let before := N.of_nat (List.length rs) in
      let kept := filter (fun x => negb (String.eqb (id x) ruleId)) rs in
      let all1 := assign all teamId kept in
      let all2 :=
        if Nat.eqb (List.length kept) 0 then remove_key all1 teamId else all1 in
      if N.eqb (entry_length (entry all2 teamId)) before then Exc.ret (false, r)
      else
        let* r' := client_set r all2 in
        Exc.ret (true, r')
  end.

(** ** The database *)

(** The identifiers of the [team] table are UUIDs: thirty-two hexadecimal
    digits in five groups.  In a pattern, [x] stands for one hexadecimal
    digit and every other character for itself. *)
Fixpoint shaped (pattern s : string) : bool :=
  match pattern, s with
  | EmptyString, EmptyString => true
  | String p pattern', String c s' =>
      (if Ascii.eqb p "x"
       then match Num.digit_val c with
            | Some d => N.ltb d 16
            | None => false
            end
       else Ascii.eqb p c)
      && shaped pattern' s'
  | _, _ => false
  end.

Definition is_uuid (s : string) : bool :=
  shaped "xxxxxxxx-xxxx-xxxx-xxxx-xxxxxxxxxxxx" s.

Definition Uuid : Type := { s : string | is_uuid s = true }.

Definition uuid_text (u : Uuid) : string := proj1_sig u.

Record TeamUser : Type := mkTeamUser {
  tu_id : string;
  tu_teamId : string;
  tu_userId : string;
  tu_role : string
}.

(** The tables the engine touches, and how many identifiers [randomUUID] has
    handed out. *)
Record Db : Type := mkDb {
  teams : list Uuid;
  teamUsers : list TeamUser;
  uuids : nat
}.

Definition randomUUID (n : nat) : string := "uuid-" ++ Num.toString (Z.of_nat n).

(** [prisma.client.team.findUnique({ where: { id } })] *)
Definition team_exists (db : Db) (teamId : string) : bool :=
  Str.includes teamId (map uuid_text (teams db)).

(** [prisma.client.teamUser.findFirst({ where: { userId, teamId } })] *)
Definition find_member (db : Db) (userId teamId : string) : option TeamUser :=
  find (fun m => String.eqb (tu_userId m) userId && String.eqb (tu_teamId m) teamId)
       (teamUsers db).

(** [prisma.client.teamUser.create({ data })] *)
Definition create_member (db : Db) (teamId userId role : string) : Db :=
  mkDb (teams db)
       (teamUsers db ++ [mkTeamUser (randomUUID (uuids db)) teamId userId role])%list
       (S (uuids db)).

(** ** Matching and joining *)

(** [claimValue.some(v => String(v) === expectedValue)]: the elements in
    order, up to the first that matches or whose conversion throws. *)
Fixpoint some_matches (items : list JValue) (expectedValue : string)
  : Exc.result bool :=
  match items with
  | [] => Exc.ret false
  | v :: rest =>
      let* text := template v in
      if String.eqb text expectedValue then Exc.ret true
      else some_matches rest expectedValue
  end.

Definition matchesClaim (claimValue : JValue) (expectedValue : string)
  : Exc.result bool :=
  if nullish claimValue then Exc.ret false
  else
    match claimValue with
    | JArr items => some_matches items expectedValue
    | JStr s =>
        if String.eqb s expectedValue then Exc.ret true
        else Exc.ret (Str.includes expectedValue (map Str.trim (Str.split "," s)))
    | _ =>
        let* text := template claimValue in
        Exc.ret (String.eqb text expectedValue)
    end.

(** [ensureTeamMembership]: its [try] holds the whole body, and nothing it
    does in the embedding throws. *)
Definition ensureTeamMembership (db : Db) (userId teamId role : string) : Db :=
  if negb (team_exists db teamId) then db
  else
    match find_member db userId teamId with
    | Some _ => db
    | None =>
        create_member db teamId userId
          (if String.eqb role "" then "team_member" else role)
    end.

(** The inner loop: the rules of one team, up to the first match.  An error
    thrown by the comparison leaves the loop with the database as it is. *)
Fixpoint apply_rules (db : Db) (userId : string) (userInfo idTokenClaims : JObject)
    (teamId : string) (rules : list TeamClaimRule) : Exc.result unit * Db :=
  match rules with
  | [] => (Exc.ret tt, db)
  | rule :: rest =>
      let claimValue :=
        coalesce (get userInfo (claimField rule))
                 (get idTokenClaims (claimField rule)) in
      match matchesClaim claimValue (Teams.claimValue rule) with
      | inl e => (Exc.throw e, db)
      | inr true =>
          (Exc.ret tt, ensureTeamMembership db userId teamId (teamRole rule))
      | inr false => apply_rules db userId userInfo idTokenClaims teamId rest
      end
  end.

(** The outer loop, over [Object.keys(allRules)]: an error thrown for one
    team ends it, with what was granted before. *)
Fixpoint apply_teams (db : Db) (userId : string) (userInfo idTokenClaims : JObject)
    (all : TeamRulesMap) (teamIds : list string) : Exc.result unit * Db :=
  match teamIds with
  | [] => (Exc.ret tt, db)
  | teamId :: rest =>
      match entry all teamId with
      | Rules rules =>
          match apply_rules db userId userInfo idTokenClaims teamId rules with
          | (inl e, db') => (Exc.throw e, db')
          | (inr _, db') =>
              apply_teams db' userId userInfo idTokenClaims all rest
          end
      | _ => (Exc.throw "rules is not iterable", db)
      end
  end.

(** [Object.keys(all)] *)
Definition keys (all : TeamRulesMap) : list string := map fst all.

(** [processOidcTeamMappings]: what it settles to, and the database
    afterwards. *)
Definition processOidcTeamMappings (r : Redis) (db : Db) (userId : string)
    (userInfo idTokenClaims : JObject) : Exc.result unit * Db :=
  if negb (enabled r) then (Exc.ret tt, db)
  else
    let allRules := getAllTeamRules r in
    let teamIds := keys allRules in
    if Nat.eqb (List.length teamIds) 0 then (Exc.ret tt, db)
    else apply_teams db userId userInfo idTokenClaims allRules teamIds.

(** [applyTeamMappings] of the bridge. *)
Definition applyTeamMappings (r : Redis) (db : Db) (userId : string)
    (userInfo idTokenClaims : JObject) : Exc.result unit * Db :=
  processOidcTeamMappings r db userId userInfo idTokenClaims.

End Teams.

(* ===================================================================== *)
(** * Part VII.  [src/app/api/auth/oidc/team-rules/route.ts]              *)
(* ===================================================================== *)

Module TeamRules.

Import Teams.

(** The bodies of the answers. *)
Inductive Body : Type :=
| ErrorBody (error : string)
| ListBody (teams : JS.JValue) (rules : TeamRulesMap)
| RuleBody (rule : TeamClaimRule)
| SuccessBody.

Record Response : Type := mkResponse {
  status : Z;
  body : Body
}.

(** The bodies of the requests, as a client of the API sends them: each
    field is a text or is missing. *)
Record RuleRequest : Type := mkRuleRequest {
  req_teamId : option string;
  req_claimField : option string;
  req_claimValue : option string;
  req_teamRole : option string
}.

Record RemoveRequest : Type := mkRemoveRequest {
  rem_teamId : option string;
  rem_ruleId : option string
}.

(** [v?.name] for the names [user] and [isAdmin]. *)
Definition optional (v : JS.JValue) (name : string) : JS.JValue :=
  match v with
  | JS.JObj o => JS.get o name
  | _ => JS.JUndefined
  end.

(** [requireAdmin(request)]; [auth] is what [checkAuth(request)] settles
    to. *)
Definition requireAdmin (auth : Exc.result JS.JValue) : option JS.JValue :=
  match auth with
  | inl _ => None
  | inr a =>
      if JS.truthy (optional (optional a "user") "isAdmin")
      then Some (optional a "user")
      else None
  end.

Definition forbidden : Response := mkResponse 403 (ErrorBody "Admin access required").
Definition unavailable : Response :=
  mkResponse 503 (ErrorBody "Redis is required for OIDC team mappings").

(** [GET]; [teams] is what [prisma.client.team.findMany] settles to. *)
Definition GET (auth : Exc.result JS.JValue) (r : Redis)
    (teams : Exc.result JS.JValue) : Response :=
  match requireAdmin auth with
  | None => forbidden
  | Some _ =>
      if negb (enabled r) then unavailable
      else
        Exc.try_catch
          (let* rows := teams in
           Exc.ret (mkResponse 200 (ListBody rows (getAllTeamRules r))))
          (fun message => mkResponse 500 (ErrorBody message))
  end.

(** [POST]; [request] is what [request.json()] settles to. *)
Definition POST (uuid isoNow : string) (auth : Exc.result JS.JValue) (r : Redis)
    (db : Db) (request : Exc.result RuleRequest) : Response * Redis :=
  match requireAdmin auth with
  | None => (forbidden, r)
  | Some _ =>
      if negb (enabled r) then (unavailable, r)
      else
        match request with
        | inl message => (mkResponse 500 (ErrorBody message), r)
        | inr req =>
            match req_teamId req, req_claimField req, req_claimValue req with
            | Some teamId, Some claimField, Some claimValue =>
                if String.eqb teamId "" || String.eqb claimField ""
                   || String.eqb claimValue ""
                then (mkResponse 400
                        (ErrorBody "teamId, claimField, and claimValue are required"),
                      r)
                else if negb (team_exists db teamId)
                then (mkResponse 404 (ErrorBody "Team not found"), r)
                else
                  match addTeamRule uuid isoNow r teamId claimField claimValue
                          (Some (Callback.or_else (req_teamRole req) "team_member"))
                  with
                  | inl message => (mkResponse 500 (ErrorBody message), r)
                  | inr (rule, r') => (mkResponse 201 (RuleBody rule), r')
                  end
            | _, _, _ =>
                (mkResponse 400
                   (ErrorBody "teamId, claimField, and claimValue are required"),
                 r)
            end
        end
  end.

(** [DELETE] *)
Definition DELETE (auth : Exc.result JS.JValue) (r : Redis)
    (request : Exc.result RemoveRequest) : Response * Redis :=
  match requireAdmin auth with
  | None => (forbidden, r)
  | Some _ =>
      if negb (enabled r) then (unavailable, r)
      else
        match request with
        | inl message => (mkResponse 500 (ErrorBody message), r)
        | inr req =>
            match rem_teamId req, rem_ruleId req with
            | Some teamId, Some ruleId =>
                if String.eqb teamId "" || String.eqb ruleId ""
                then (mkResponse 400 (ErrorBody "teamId and ruleId are required"), r)
                else
                  match removeTeamRule r teamId ruleId with
                  | inl message => (mkResponse 500 (ErrorBody message), r)
                  | inr (false, r') => (mkResponse 404 (ErrorBody "Rule not found"), r')
                  | inr (true, r') => (mkResponse 200 SuccessBody, r')
                  end
            | _, _ => (mkResponse 400 (ErrorBody "teamId and ruleId are required"), r)
            end
        end
  end.

End TeamRules.

(* ===================================================================== *)
(** * Part VIII.  The terms of the statements                                *)
(* ===================================================================== *)

Module Spec.

(** ** Digits and text *)

(** A digit character is a plain ASCII character, neither white space nor
    a dot nor a sign. *)
Definition plain_digit (c : ascii) : bool :=
  negb (Str.is_ws1 c) && N.ltb (N_of_ascii c) 128
  && negb (Ascii.eqb c ".") && negb (Ascii.eqb c "-") && negb (Ascii.eqb c "+").

(** [read_digits] stops where no digit of the radix stands. *)
Definition no_digit_head (radix : N) (s : string) : bool :=
  match s with
  | EmptyString => true
  | String c _ => negb (Num.is_digit radix c)
  end.

(** A run of decimal digits, and the number [read_digits] makes of it on
    top of [acc]. *)
Fixpoint all_digits (ds : string) : bool :=
  match ds with
  | EmptyString => true
  | String c r => Num.is_digit 10 c && all_digits r
  end.

Fixpoint digits_value (acc : N) (ds : string) : N :=
  match ds with
  | EmptyString => acc
  | String c r =>
      match Num.digit_val c with
      | Some d => digits_value (acc * 10 + d) r
      | None => acc
      end
  end.

(** A character of the base64url alphabet decodes to its sextet; it is
    neither the padding character nor a dot. *)
Definition alphabet_ok (d : N) : bool :=
  match Buf.unbase64 (Buf.b64url_char d) with
  | Some x => N.eqb x d
  | None => false
  end
  && negb (Ascii.eqb (Buf.b64url_char d) "=")
  && negb (Ascii.eqb (Buf.b64url_char d) ".").

(** ** JSON texts *)

(** The first character of a value: no white space, and not a closing
    bracket. *)
Definition starts_value (c : ascii) : bool :=
  negb (JSON.is_ws c) && negb (Ascii.eqb c "]") && negb (Ascii.eqb c "}").

(** What a parser leaves is shorter than what it was given. *)
Definition shrinks {A} (p : string -> option (A * string)) : Prop :=
  forall s x rest, p s = Some (x, rest) ->
    (String.length rest < String.length s)%nat.

(** Above a bound given by the length of the text, the result of a parser
    does not depend on the fuel. *)
Definition steady {A} (p : nat -> string -> option (A * string)) (slack : nat)
    (fuel : nat) : Prop :=
  forall fuel' s,
    (2 * String.length s + slack < fuel)%nat ->
    (2 * String.length s + slack < fuel')%nat ->
    p fuel s = p fuel' s.

(** [v] is read back from its text, whatever follows it. *)
Definition reads_back (v : JS.JValue) : Prop :=
  forall (fuel : nat) (rest : string),
    (2 * String.length (JSON.text_of v) < fuel)%nat ->
    JSON.number_end rest = true ->
    JSON.parse_value fuel (JSON.text_of v ++ rest) = Some (v, rest).

Definition elements_text (items : list JS.JValue) : string :=
  String.concat "," (map JSON.text_of items).

Definition member_text (m : string * JS.JValue) : string :=
  JSON.quote (fst m) ++ ":" ++ JSON.text_of (snd m).

Definition members_text (members : list (string * JS.JValue)) : string :=
  String.concat "," (map member_text members).

(** Every byte is an ASCII character. *)
Fixpoint all_ascii (s : string) : bool :=
  match s with
  | EmptyString => true
  | String c r => N.ltb (N_of_ascii c) 128 && all_ascii r
  end.

(** Two invariants of the decoder: between two characters nothing is
    pending; inside a character the next byte is a continuation byte. *)
Definition settled (st : Buf.utf8_state) : Prop :=
  Buf.needed st = O -> Buf.pending st = EmptyString.

Definition expecting (st : Buf.utf8_state) : Prop :=
  Buf.needed st <> O -> (128 <= Buf.lower st)%N.

(** A character is written as itself, or it is an ASCII character written
    as an escape made of ASCII characters. *)
Definition escape_kind (c : ascii) : bool :=
  String.eqb (JSON.escape_char c) (String c EmptyString)
  || (N.ltb (N_of_ascii c) 128 && all_ascii (JSON.escape_char c)).

(** Every string and every key of a value is valid UTF-8. *)
Fixpoint strings_valid (v : JS.JValue) : bool :=
  match v with
  | JS.JStr s => Buf.utf8_valid s
  | JS.JArr items => forallb strings_valid items
  | JS.JObj members =>
      forallb (fun m => match m with
                        | (k, x) => Buf.utf8_valid k && strings_valid x
                        end) members
  | _ => true
  end.

(** A claims object: a JSON object (no [undefined], no function, finite
    numbers, the keys as an object lists them) whose strings are valid
    text. *)
Definition claims_object (members : JS.JObject) : bool :=
  JSON.is_json (JS.JObj members) && strings_valid (JS.JObj members).

(** ** Tokens *)

(** A token of three segments. *)
Definition token (header payload signature : string) : string :=
  header ++ "." ++ payload ++ "." ++ signature.

(** ** The signed state *)

(** The three parts of a generated state. *)
Definition state_ts (now : Z) : string := Num.toString_radix 36 now.

Definition state_nonce (random : Buf.Buffer) : string :=
  Crypto.hex (Crypto.bytes_of_string random).

Definition state_sig (now : Z) (random : Buf.Buffer) (appSecret : string) : string :=
  Str.slice0 16
    (Crypto.createHmac_sha256_hex appSecret
       (state_ts now ++ "." ++ state_nonce random)).

(** ** Role mapping *)

(** The claim value the mapper inspects: [roleClaim] read from [userInfo],
    and from [idTokenClaims] when that is [null] or [undefined]. *)
Definition role_claim (env : Oidc.Env) (userInfo idTokenClaims : JS.JObject)
  : JS.JValue :=
  let name := Oidc.roleClaim (Oidc.getOidcConfig env) in
  if JS.nullish (JS.get userInfo name) then JS.get idTokenClaims name
  else JS.get userInfo name.

(** ** The state check of the callback *)

(** Why the state check of a callback fails. *)
Inductive Cause : Type :=
| StateMismatch   (* the state is not the one saved in the cookie *)
| BadSignature    (* the state is malformed or its signature is wrong *)
| Expired.        (* the signature is right and the state is too old *)

(** The cause of the failure, if the check fails, in the order of the
    checks. *)
Definition csrf_cause (now : Z) (appSecret : string) (req : Callback.Request)
    (state : string) : option Cause :=
  match Callback.oidc_state req with
  | None => Some StateMismatch
  | Some saved =>
      if String.eqb saved "" || negb (String.eqb state saved)
      then Some StateMismatch
      else
        match Str.split "." state with
        | [ts; nonce; sig] =>
            if negb (String.eqb sig
                       (Str.slice0 16
                          (Crypto.createHmac_sha256_hex appSecret
                             (ts ++ "." ++ nonce))))
            then Some BadSignature
            else if Num.gt (Num.sub (Num.Int now) (Num.parseInt ts 36))
                           Oidc.default_maxAgeMs
            then Some Expired
            else None
        | _ => Some BadSignature
        end
  end.

Definition message_of (c : Cause) : string :=
  match c with
  | StateMismatch => Callback.msg_state_mismatch
  | BadSignature | Expired => Callback.msg_state_verification
  end.

(** A request that reaches the state check: OIDC is enabled, the provider
    reported no error, and the code and the state are there. *)
Definition reaches_check (env : Oidc.Env) (req : Callback.Request)
    (code state : string) : Prop :=
  Oidc.enabled (Oidc.getOidcConfig env) = true
  /\ Callback.present (Callback.error req) = false
  /\ Callback.code req = Some code /\ code <> ""
  /\ Callback.state req = Some state /\ state <> "".

(** ** The discovery cache *)

(** The cached document is served when the slot is filled and its age is
    strictly below the TTL. *)
Definition cache_fresh (now : Z) (st : Oidc.DiscoveryState) : bool :=
  JS.truthy (Oidc._discoveryCache st)
  && Z.ltb (now - Oidc._discoveryCacheTime st) Oidc.DISCOVERY_TTL_MS.


(** ** Team rules *)

(** Whether a rule matches the claims of a login, or what the comparison
    throws. *)
Definition rule_matches (userInfo idTokenClaims : JS.JObject)
    (rule : Teams.TeamClaimRule) : Exc.result bool :=
  Teams.matchesClaim
    (JS.coalesce (JS.get userInfo (Teams.claimField rule))
                 (JS.get idTokenClaims (Teams.claimField rule)))
    (Teams.claimValue rule).

(** The first rule of a list that matches, when no rule before it throws. *)
Fixpoint first_match (matches : Teams.TeamClaimRule -> Exc.result bool)
    (rules : list Teams.TeamClaimRule) : Exc.result (option Teams.TeamClaimRule) :=
  match rules with
  | [] => Exc.ret None
  | rule :: rest =>
      match matches rule with
      | inl e => Exc.throw e
      | inr true => Exc.ret (Some rule)
      | inr false => first_match matches rest
      end
  end.

(** The rules that the store holds for a team: those of its own entry in
    the mapping, none when it has no entry. *)
Definition team_rules (r : Teams.Redis) (teamId : string)
  : list Teams.TeamClaimRule :=
  match Teams.rules_of (Teams.getAllTeamRules r) teamId with
  | Some rs => rs
  | None => []
  end.

(** The name of a member of [Object.prototype]. *)
Definition inherited (name : string) : bool :=
  Str.includes name JS.object_prototype.

(** The role a grant carries: the rule's, or the default when it is empty. *)
Definition granted_role (rule : Teams.TeamClaimRule) : string :=
  if String.eqb (Teams.teamRole rule) "" then "team_member"
  else Teams.teamRole rule.

(** The memberships of a user in a team. *)
Definition is_member (userId teamId : string) (m : Teams.TeamUser) : bool :=
  String.eqb (Teams.tu_userId m) userId && String.eqb (Teams.tu_teamId m) teamId.

Definition memberships (db : Teams.Db) (userId teamId : string)
  : list Teams.TeamUser :=
  filter (is_member userId teamId) (Teams.teamUsers db).

(** A lowercase hexadecimal text. *)
Definition lower_hex_char (c : ascii) : bool :=
  let n := N_of_ascii c in
  (((48 <=? n) && (n <=? 57)) || ((97 <=? n) && (n <=? 102)))%N.

Fixpoint lower_hex (s : string) : bool :=
  match s with
  | EmptyString => true
  | String c r => lower_hex_char c && lower_hex r
  end.

(** No rule of the list has the identifier. *)
Definition lacks_rule (ruleId : string) (rules : list Teams.TeamClaimRule) : bool :=
  forallb (fun x => negb (String.eqb (Teams.id x) ruleId)) rules.

(** ** Texts, queries and user names *)

(** Every character of a text satisfies [p]. *)
Fixpoint every (p : ascii -> bool) (s : string) : bool :=
  match s with
  | EmptyString => true
  | String c r => p c && every p r
  end.

(** A digit of base 36, as [toString(36)] writes it. *)
Definition base36_char (c : ascii) : bool :=
  let n := N_of_ascii c in
  (((48 <=? n) && (n <=? 57)) || ((97 <=? n) && (n <=? 122)))%N.

(** The characters of a serialized query: those left as they are, [%] of
    the escapes and [+] of the space. *)
Definition query_char (c : ascii) : bool :=
  Url.unreserved c || Ascii.eqb c "%" || Ascii.eqb c "+".

(** Reading a serialized value back: what the receiver of a query does. *)
Definition hex_pair (x y : ascii) : option ascii :=
  match Num.digit_val x, Num.digit_val y with
  | Some a, Some b =>
      if ((a <? 16) && (b <? 16))%N then Some (ascii_of_N (a * 16 + b)) else None
  | _, _ => None
  end.

Fixpoint form_decode (s : string) : string :=
  match s with
  | EmptyString => EmptyString
  | String c r =>
      if Ascii.eqb c "+" then String " " (form_decode r)
      else if Ascii.eqb c "%" then
        match r with
        | String x (String y r') =>
            match hex_pair x y with
            | Some b => String b (form_decode r')
            | None => String c (form_decode r)
            end
        | _ => String c (form_decode r)
        end
      else String c (form_decode r)
  end.

(** A text that starts, or ends, with a slash. *)
Definition starts_with_slash (s : string) : bool :=
  match s with
  | String c _ => Ascii.eqb c "/"
  | EmptyString => false
  end.

Definition ends_with_slash (s : string) : bool := starts_with_slash (Str.rev s).

(** The user names under which a login looks for its user: the OIDC user
    name first, then the e-mail address and the preferred user name as the
    identity provider gave them. *)
Definition login_names (unicode : string -> string) (userInfo : JS.JObject)
  : Exc.result (string * list string) :=
  let* name :=
    OidcUser.buildOidcUsername unicode (JS.get userInfo "sub")
      (JS.get userInfo "preferred_username") (JS.get userInfo "email") in
  let* byEmail := OidcUser.as_username (JS.get userInfo "email") in
  let* byName := OidcUser.as_username (JS.get userInfo "preferred_username") in
  Exc.ret (name, (name :: byEmail ++ byName)%list).

(** The name shown in the error of a login without a user. *)
Definition display_name (userInfo : JS.JObject) : JS.JValue :=
  JS.coalesce (JS.get userInfo "name")
    (JS.coalesce (JS.get userInfo "preferred_username")
       (JS.coalesce (JS.get userInfo "email") (JS.get userInfo "sub"))).

End Spec.

(** ** Examples *)

Module Examples.

Import JS.

Definition the_secret : string := "super-secret-test-key-for-umami-oidc".

Definition the_env : Oidc.Env :=
  [("OIDC_ENABLED", "true"); ("APP_URL", "https://umami.example.com")].

(** Three callbacks with the same code: one whose state is not the saved
    one, one with a tampered signature, one whose state is properly
    signed. *)
Definition valid_state : string :=
  Oidc.generateState 1730000000000 "0123456789abcdef" the_secret.

Definition callback_with (state saved : string) : Callback.Request :=
  Callback.mkRequest "http://0.0.0.0:3000" [] (Some "authcode") (Some state)
    None None (Some saved) (Some "n-1") None.

Definition req_mismatch : Callback.Request :=
  callback_with valid_state "another-state".

Definition req_tampered : Callback.Request :=
  callback_with "m2r1bz7k.aaaaaaaaaaaaaaaa.dee3e25ce356f591"
                "m2r1bz7k.aaaaaaaaaaaaaaaa.dee3e25ce356f591".

Definition req_signed : Callback.Request := callback_with valid_state valid_state.

Definition no_session (code redirectUri : string) (nonce : option string)
  : Exc.result string := Exc.ret "session-token".

(** The URL constructor on the base URLs of the examples: an absolute path
    resolved against a base keeps the origin of the base and replaces its
    path; a base that is not an absolute URL is refused. *)
Definition the_newURL (path base : string) : Exc.result string :=
  if String.eqb base "https://umami.example.com" then Exc.ret (base ++ path)
  else if String.eqb base "https://example.com/analytics"
  then Exc.ret ("https://example.com" ++ path)
  else Exc.throw "Invalid URL".

(** A callback that carries the refusal of the identity provider. *)
Definition req_denied : Callback.Request :=
  Callback.mkRequest "http://0.0.0.0:3000" [] None None (Some "access_denied")
    None None None None.

(** An identity provider that answers every request with one document. *)
Definition the_document : JValue :=
  JObj [("issuer", JStr "https://idp.example.com");
        ("authorization_endpoint", JStr "https://idp.example.com/auth");
        ("token_endpoint", JStr "https://idp.example.com/token");
        ("userinfo_endpoint", JStr "https://idp.example.com/userinfo")].

Definition the_network : Oidc.Network :=
  fun _ => Exc.ret (Oidc.mkResponse true 200 "OK" (Exc.ret the_document)).

(** One rule on one team, and a login whose groups include its value. *)
Definition analytics_rule : Teams.TeamClaimRule :=
  Teams.mkRule "rule-1" "groups" "marketing-analytics" "team_member"
    "2026-01-01T00:00:00.000Z".

(** A team of the database, by its identifier. *)
Definition team_1 : string := "3f2504e0-4f89-41d3-9a0c-0305e82c3301".

Definition the_redis : Teams.Redis :=
  Teams.mkRedis true (Some (Teams.mkClient (Some [(team_1, [analytics_rule])]))).

Definition the_db : Teams.Db := Teams.mkDb [exist _ team_1 eq_refl] [] 0.

Definition the_claims : JObject :=
  [("sub", JStr "u1"); ("groups", JArr [JStr "users"; JStr "marketing-analytics"])].


(** A claims object with nested structures. *)
Definition nested_claims : JObject :=
  [("sub", JStr "user-123");
   ("realm_access", JObj [("roles", JArr [JStr "admin"; JStr "user"])]);
   ("exp", JNum 1730000600);
   ("score", JNum (Double.of_decimal false 875 (-1)));
   ("quota", JNum (Double.of_decimal true 25 20))].

(** A store that is there and holds no rule yet. *)
Definition empty_redis : Teams.Redis :=
  Teams.mkRedis true (Some (Teams.mkClient None)).

(** A configured deployment, an identity provider that answers the
    discovery, the token and the user-information requests, and one that
    refuses the token request. *)
Definition idp_env : Oidc.Env :=
  [("OIDC_ENABLED", "true"); ("OIDC_CLIENT_ID", "umami");
   ("OIDC_CLIENT_SECRET", "s3cr3t"); ("OIDC_ISSUER_URL", "https://idp.example.com/");
   ("APP_URL", "https://umami.example.com")].

Definition token_reply : JValue :=
  JObj [("access_token", JStr "at-1"); ("token_type", JStr "Bearer")].

Definition answer (body : JValue) : Exc.result Oidc.Reply :=
  Exc.ret (Oidc.mkReply true 200 "OK" (Exc.ret "") (Exc.ret body)).

Definition the_fetch : Oidc.Fetch :=
  fun url _ =>
    if String.eqb url "https://idp.example.com/.well-known/openid-configuration"
    then answer the_document
    else if String.eqb url "https://idp.example.com/token" then answer token_reply
    else if String.eqb url "https://idp.example.com/userinfo"
    then answer (JObj the_claims)
    else Exc.throw "fetch failed".

Definition refusing_fetch : Oidc.Fetch :=
  fun url init =>
    if String.eqb url "https://idp.example.com/token"
    then Exc.ret (Oidc.mkReply false 400 "Bad Request" (Exc.ret "invalid_grant")
                    (Exc.throw "not read"))
    else the_fetch url init.

(** A table with one local account whose user name is an e-mail address,
    and the claims of its owner. *)
Definition the_users : OidcUser.Users :=
  [OidcUser.mkUser "id-1" "alice@example.com" "x" "admin" 1700000000000].

Definition alice : JObject :=
  [("sub", JStr "u2"); ("email", JStr "alice@example.com");
   ("preferred_username", JStr "Alice")].

(** What [checkAuth] settles to for an administrator. *)
Definition an_admin : Exc.result JValue :=
  Exc.ret (JObj [("user", JObj [("id", JStr "id-1"); ("isAdmin", JBool true)])]).

(** A callback flow whose provisioning is never reached. *)
Definition no_provision (userInfo idTokenClaims : JValue) (w : unit)
  : Exc.result OidcUser.OidcProvisionedUser * unit :=
  (Exc.throw "not reached", w).

Definition no_saveAuth (userId role : string) (isAdmin : bool) (w : unit)
  : Exc.result string * unit :=
  (Exc.throw "not reached", w).

Definition no_token (userId appSecret : string) : Exc.result string :=
  Exc.throw "not reached".

End Examples.

(** Arithmetic with division by constants. *)
Ltac div_lia := zify; Z.to_euclidean_division_equations; lia.

(* ===================================================================== *)
(** * Part IX.  Facts about the runtime                                    *)
(* ===================================================================== *)

Module StrFacts.

Import Str.

Lemma append_empty_r (s : string) : s ++ "" = s.
Proof. induction s as [|c s IH]; simpl; [reflexivity | now rewrite IH]. Qed.

Lemma append_assoc (a b c : string) : (a ++ b) ++ c = a ++ (b ++ c).
Proof. induction a as [|x a IH]; simpl; [reflexivity | now rewrite IH]. Qed.

Lemma length_append (a b : string) :
  String.length (a ++ b) = (String.length a + String.length b)%nat.
Proof. induction a as [|x a IH]; simpl; [reflexivity | now rewrite IH]. Qed.

Lemma lacks_append (c : ascii) (a b : string) :
  lacks c (a ++ b) = lacks c a && lacks c b.
Proof.
  induction a as [|x a IH]; simpl; [reflexivity |].
  rewrite IH. now rewrite andb_assoc.
Qed.

Lemma lacks_substring (c : ascii) (s : string) :
  lacks c s = true -> forall n m, lacks c (substring n m s) = true.
Proof.
  induction s as [|x s IH]; intros H n m.
  - destruct n, m; reflexivity.
  - simpl in H. apply andb_true_iff in H as [Hx Hs].
    destruct n as [|n]; destruct m as [|m]; simpl; auto.
    rewrite Hx. simpl. apply IH; assumption.
Qed.

(** Splitting a string that has no separator gives the string alone. *)
Lemma split_lacks (sep : ascii) (s : string) :
  lacks sep s = true -> split sep s = [s].
Proof.
  induction s as [|x s IH]; simpl; intros H; [reflexivity |].
  apply andb_true_iff in H as [Hx Hs].
  apply negb_true_iff in Hx. rewrite Hx, (IH Hs). reflexivity.
Qed.

(** The first separator ends the first part. *)
Lemma split_append (sep : ascii) (a b : string) :
  lacks sep a = true -> split sep (a ++ String sep b) = a :: split sep b.
Proof.
  induction a as [|x a IH]; simpl; intros H.
  - now rewrite Ascii.eqb_refl.
  - apply andb_true_iff in H as [Hx Ha].
    apply negb_true_iff in Hx. rewrite Hx, (IH Ha). reflexivity.
Qed.

Lemma split_nonempty (sep : ascii) (s : string) : split sep s <> [].
Proof.
  destruct s as [|x s]; simpl; [discriminate |].
  destruct (Ascii.eqb x sep); [discriminate |].
  destruct (split sep s); discriminate.
Qed.

(** A byte below 128 that is no ASCII white space starts no white-space
    character: [trimStart] stops there. *)
Lemma trimStart_stop (c : ascii) (s : string) :
  is_ws1 c = false -> (N_of_ascii c < 128)%N ->
  trimStart (String c s) = String c s.
Proof.
  intros Hws Hlt.
  assert (H2 : forall c2, is_ws2 c c2 = false).
  { intros c2. unfold is_ws2, byte_is.
    destruct (N.eqb_spec (N_of_ascii c) 194); [lia | reflexivity]. }
  assert (H3 : forall c2 c3, is_ws3 c c2 c3 = false).
  { intros c2 c3. unfold is_ws3, byte_is.
    destruct (N.eqb_spec (N_of_ascii c) 225); [lia |].
    destruct (N.eqb_spec (N_of_ascii c) 226); [lia |].
    destruct (N.eqb_spec (N_of_ascii c) 227); [lia |].
    destruct (N.eqb_spec (N_of_ascii c) 239); [lia |].
    reflexivity. }
  simpl. rewrite Hws.
  destruct s as [|c2 [|c3 s3]]; try reflexivity; rewrite H2; try reflexivity.
  now rewrite H3.
Qed.

End StrFacts.

Module NumFacts.

Import Num Spec.
Local Open Scope N_scope.

(** Case analysis on a bounded number, by evaluation. *)
Lemma below_cases (P : N -> bool) (k : nat) :
  forallb P (map N.of_nat (seq 0 k)) = true ->
  forall d, d < N.of_nat k -> P d = true.
Proof.
  intros H d Hd. rewrite forallb_forall in H. apply H.
  apply in_map_iff. exists (N.to_nat d). split; [apply N2Nat.id |].
  apply in_seq. lia.
Qed.

Lemma digit_val_char (d : N) : d < 36 -> digit_val (digit_char d) = Some d.
Proof.
  intros Hd.
  pose proof (below_cases
                (fun x => match digit_val (digit_char x) with
                          | Some y => y =? x
                          | None => false
                          end) 36 ltac:(vm_compute; reflexivity) d Hd) as H.
  cbv beta in H. destruct (digit_val (digit_char d)) as [y|]; [|discriminate].
  apply N.eqb_eq in H. now subst.
Qed.

Lemma digit_char_plain (d : N) : d < 36 -> plain_digit (digit_char d) = true.
Proof.
  intros Hd.
  exact (below_cases (fun x => plain_digit (digit_char x)) 36
           ltac:(vm_compute; reflexivity) d Hd).
Qed.

Lemma read_digits_stop (radix : N) (s : string) (acc : N) (count : nat) :
  no_digit_head radix s = true -> read_digits radix s acc count = (acc, count, s).
Proof.
  destruct s as [|c s]; simpl; [reflexivity |].
  unfold is_digit. destruct (digit_val c) as [d|]; [|reflexivity].
  intros H. apply negb_true_iff in H. now rewrite H.
Qed.

Section Radix.

Variable radix : N.
Hypothesis radix_lo : 2 <= radix.
Hypothesis radix_hi : radix <= 36.

Lemma read_digit_char (d : N) (s : string) (acc : N) (count : nat) :
  d < radix ->
  read_digits radix (String (digit_char d) s) acc count
  = read_digits radix s (acc * radix + d) (S count).
Proof.
  intros Hd. simpl. rewrite digit_val_char by lia.
  destruct (N.ltb_spec d radix); [reflexivity | lia].
Qed.

(** Reading back the digits written by [to_radix_aux]: [k] digits were
    written, and the accumulator has moved by as many places. *)
Lemma read_to_radix_aux (fuel : nat) :
  forall n tail, n < radix ^ N.of_nat (S fuel) ->
  exists k : nat, (1 <= k)%nat /\
    forall acc count,
      read_digits radix (to_radix_aux fuel radix n tail) acc count
      = read_digits radix tail (acc * radix ^ N.of_nat k + n) (count + k)%nat.
Proof.
  induction fuel as [|f IH]; intros n tail Hn.
  - exists 1%nat. split; [lia |]. intros acc count.
    change (N.of_nat 1) with 1 in *. rewrite N.pow_1_r in *.
    cbn [to_radix_aux]. rewrite N.mod_small by exact Hn.
    rewrite read_digit_char by exact Hn.
    now rewrite Nat.add_1_r.
  - cbn [to_radix_aux]. destruct (N.ltb_spec n radix) as [Hlt|Hge].
    + exists 1%nat. split; [lia |]. intros acc count.
      change (N.of_nat 1) with 1. rewrite N.pow_1_r.
      rewrite N.mod_small by exact Hlt.
      rewrite read_digit_char by exact Hlt.
      now rewrite Nat.add_1_r.
    + assert (Hq : n / radix < radix ^ N.of_nat (S f)).
      { apply N.Div0.div_lt_upper_bound.
        rewrite Nat2N.inj_succ, N.pow_succ_r' in Hn. exact Hn. }
      destruct (IH (n / radix) (String (digit_char (n mod radix)) tail) Hq)
        as [k [Hk Hread]].
      exists (S k). split; [lia |]. intros acc count.
      rewrite Hread.
      rewrite read_digit_char by (apply N.mod_lt; lia).
      rewrite Nat2N.inj_succ, N.pow_succ_r'.
      f_equal; [| lia].
      pose proof (N.div_mod n radix ltac:(lia)) as Hdm.
      rewrite Hdm at 3. ring.
Qed.

Lemma to_radix_fuel (n : N) : n < radix ^ N.of_nat (S (N.to_nat (N.size n))).
Proof.
  rewrite Nat2N.inj_succ, N2Nat.id, N.pow_succ_r'.
  pose proof (N.size_gt n) as H1.
  assert (H2 : 2 ^ N.size n <= radix ^ N.size n)
    by (apply N.pow_le_mono_l; exact radix_lo).
  assert (H3 : 0 < radix ^ N.size n) by (apply N.neq_0_lt_0, N.pow_nonzero; lia).
  nia.
Qed.

Lemma read_to_radix (n : N) (tail : string) :
  no_digit_head radix tail = true ->
  exists k : nat,
    read_digits radix (to_radix radix n ++ tail) 0 O = (n, S k, tail).
Proof.
  intros Htail. unfold to_radix.
  assert (Happ : forall f m acc,
             to_radix_aux f radix m acc = to_radix_aux f radix m "" ++ acc).
  { induction f as [|f IHf]; intros m acc; simpl; [reflexivity |].
    destruct (m <? radix); [reflexivity |].
    rewrite (IHf _ (String _ acc)), (IHf _ (String _ "")).
    rewrite StrFacts.append_assoc. reflexivity. }
  rewrite <- Happ.
  destruct (read_to_radix_aux (N.to_nat (N.size n)) n tail (to_radix_fuel n))
    as [k [Hk Hread]].
  destruct k as [|k]; [lia |]. exists k.
  rewrite Hread. rewrite N.mul_0_l, N.add_0_l, Nat.add_0_l.
  now apply read_digits_stop.
Qed.

(** The first character written is a digit of the radix. *)
Lemma to_radix_aux_head (fuel : nat) :
  forall n tail, exists d s,
    d < radix /\ to_radix_aux fuel radix n tail = String (digit_char d) s.
Proof.
  induction fuel as [|f IH]; intros n tail; simpl.
  - exists (n mod radix), tail. split; [apply N.mod_lt; lia | reflexivity].
  - destruct (n <? radix).
    + exists (n mod radix), tail. split; [apply N.mod_lt; lia | reflexivity].
    + apply IH.
Qed.

(** All characters written are digits: none is a dot. *)
Lemma to_radix_aux_lacks_dot (fuel : nat) :
  forall n tail, Str.lacks "." tail = true ->
  Str.lacks "." (to_radix_aux fuel radix n tail) = true.
Proof.
  assert (Hd : forall d, d < radix -> Ascii.eqb (digit_char d) "." = false).
  { intros d Hlt. pose proof (digit_char_plain d ltac:(lia)) as H.
    unfold plain_digit in H. repeat (apply andb_true_iff in H as [H ?]).
    now apply negb_true_iff. }
  induction fuel as [|f IH]; intros n tail Ht; simpl.
  - rewrite Hd by (apply N.mod_lt; lia). exact Ht.
  - destruct (n <? radix).
    + simpl. rewrite Hd by (apply N.mod_lt; lia). exact Ht.
    + apply IH. simpl. rewrite Hd by (apply N.mod_lt; lia). exact Ht.
Qed.

End Radix.

Lemma parseInt_digits (radix : N) (d : N) (t : string) (v : N) (k : nat) :
  d < 36 ->
  read_digits radix (String (digit_char d) t) 0 O = (v, S k, EmptyString) ->
  parseInt (String (digit_char d) t) radix = Int (Z.of_N v)
  /\ parseInt (String "-" (String (digit_char d) t)) radix = Int (- Z.of_N v).
Proof.
  intros Hd Hread.
  pose proof (digit_char_plain d Hd) as Hp. unfold plain_digit in Hp.
  repeat (apply andb_true_iff in Hp as [Hp ?]).
  repeat match goal with H : negb _ = true |- _ => apply negb_true_iff in H end.
  match goal with H : (_ <? 128) = true |- _ => apply N.ltb_lt in H end.
  split.
  - unfold parseInt. rewrite StrFacts.trimStart_stop by assumption.
    cbv beta iota zeta.
    replace (Ascii.eqb (digit_char d) "-") with false by (symmetry; assumption).
    replace (Ascii.eqb (digit_char d) "+") with false by (symmetry; assumption).
    cbv beta iota zeta. rewrite Hread. reflexivity.
  - unfold parseInt.
    rewrite StrFacts.trimStart_stop by (vm_compute; reflexivity).
    cbv beta iota zeta. rewrite Ascii.eqb_refl.
    cbv beta iota zeta. rewrite Hread. reflexivity.
Qed.

(** [parseInt(n.toString(36), 36)] is [n], for every integer [n]. *)
Lemma parseInt_toString_radix36 (z : Z) :
  parseInt (toString_radix 36 z) 36 = Int z.
Proof.
  destruct (read_to_radix 36 ltac:(lia) ltac:(lia) (Z.abs_N z) EmptyString eq_refl)
    as [k Hread].
  rewrite StrFacts.append_empty_r in Hread.
  destruct (to_radix_aux_head 36 ltac:(lia) ltac:(lia) (N.to_nat (N.size (Z.abs_N z)))
              (Z.abs_N z) EmptyString) as [d [t [Hd Hs]]].
  unfold to_radix in Hread. rewrite Hs in Hread.
  destruct (parseInt_digits 36 d t _ k Hd Hread) as [Hpos Hneg].
  unfold toString_radix, to_radix. rewrite Hs. destruct (Z.ltb_spec z 0).
  - rewrite Hneg. f_equal. lia.
  - rewrite Hpos. f_equal. lia.
Qed.

Lemma toString_radix_lacks_dot (radix : N) (z : Z) :
  2 <= radix -> radix <= 36 -> Str.lacks "." (toString_radix radix z) = true.
Proof.
  intros Hlo Hhi. unfold toString_radix, to_radix.
  destruct (Z.ltb z 0); simpl; apply to_radix_aux_lacks_dot; auto.
Qed.

End NumFacts.

Module CryptoFacts.

Import Crypto.
Local Open Scope N_scope.

Lemma nibble_bound (b : N) : N.land b 0xf < 16.
Proof.
  change 0xf with (N.ones 4). rewrite N.land_ones.
  apply N.mod_lt. discriminate.
Qed.

(** A hexadecimal digest has no dot. *)
Lemma hex_lacks_dot (bs : list N) : Str.lacks "." (hex bs) = true.
Proof.
  assert (Hd : forall d, d < 16 -> negb (Ascii.eqb (hex_digit d) ".") = true).
  { intros d Hlt. pose proof (NumFacts.digit_char_plain d ltac:(lia)) as H.
    unfold Spec.plain_digit in H.
    repeat (apply andb_true_iff in H as [H ?]). assumption. }
  induction bs as [|b bs IH]; simpl; [reflexivity |].
  rewrite !Hd by apply nibble_bound. exact IH.
Qed.

End CryptoFacts.

(* ===================================================================== *)
(** * Part X.  The signed state                                          *)
(* ===================================================================== *)

Module StateFacts.

Import Oidc Spec.

Lemma generateState_parts (now : Z) (random : Buf.Buffer) (appSecret : string) :
  Str.split "." (generateState now random appSecret)
  = [state_ts now; state_nonce random; state_sig now random appSecret].
Proof.
  unfold generateState.
  fold (state_ts now). fold (state_nonce random).
  fold (state_sig now random appSecret).
  rewrite StrFacts.append_assoc. cbn [append].
  rewrite StrFacts.split_append
    by (apply NumFacts.toString_radix_lacks_dot; lia).
  rewrite StrFacts.split_append by apply CryptoFacts.hex_lacks_dot.
  rewrite StrFacts.split_lacks; [reflexivity |].
  apply StrFacts.lacks_substring, CryptoFacts.hex_lacks_dot.
Qed.

(** What [verifyState] computes on a state of three parts. *)
Lemma verifyState_three (now : Z) (state appSecret ts nonce sig : string)
    (maxAge : Num.number) :
  Str.split "." state = [ts; nonce; sig] ->
  verifyState_try now state appSecret maxAge
  = Exc.ret
      (String.eqb sig
         (Str.slice0 16 (Crypto.createHmac_sha256_hex appSecret (ts ++ "." ++ nonce)))
       && negb (Num.gt (Num.sub (Num.Int now) (Num.parseInt ts 36)) maxAge)).
Proof.
  intros Hs. unfold verifyState_try. rewrite Hs.
  destruct (String.eqb sig _); [|reflexivity].
  destruct (Num.gt _ maxAge); reflexivity.
Qed.

End StateFacts.

(** C1.  For every secret, clock value and random bytes, a state generated
    at time [now] is accepted by [verifyState] with the same secret and the
    default maximum age, when verified at a time [now'] that is at most ten
    minutes after [now] (in particular at [now' = now]). *)
Theorem verifyState_generateState :
  forall (appSecret : string) (random : Buf.Buffer) (now now' : Z),
    (now' - now <= 10 * 60 * 1000)%Z ->
    Oidc.verifyState now' (Oidc.generateState now random appSecret) appSecret None
    = true.
Proof.
  intros appSecret random now now' Hage.
  unfold Oidc.verifyState.
  rewrite (StateFacts.verifyState_three _ _ _ _ _ _ _
             (StateFacts.generateState_parts now random appSecret)).
  unfold Spec.state_sig at 1.
  rewrite String.eqb_refl.
  unfold Spec.state_ts. rewrite NumFacts.parseInt_toString_radix36.
  unfold Oidc.default_maxAgeMs, Num.sub, Num.gt, Exc.try_catch, Exc.ret.
  destruct (Z.ltb_spec (10 * 60 * 1000) (now' - now)); [lia | reflexivity].
Qed.

Lemma verifyState_generateState_witness :
  (1730000000000 - 1730000000000 <= 10 * 60 * 1000)%Z
  /\ Oidc.verifyState 1730000000000
       (Oidc.generateState 1730000000000 "0123456789abcdef"
          "super-secret-test-key-for-umami-oidc")
       "super-secret-test-key-for-umami-oidc" None = true.
Proof.
  split; [lia |].
  apply (verifyState_generateState "super-secret-test-key-for-umami-oidc"
           "0123456789abcdef" 1730000000000 1730000000000).
  lia.
Defined.

(** C2.  [verifyState] returns a boolean and never throws; it returns false
    when the state does not split on dots into exactly three parts, when the
    third part is not the first sixteen hexadecimal characters of the
    HMAC-SHA256 of the first two parts (joined by a dot) under the secret,
    and when the clock minus the base-36 timestamp exceeds the maximum age;
    with a negative maximum age every state whose timestamp is not in the
    future is rejected. *)
Theorem verifyState_rejects :
  forall (now : Z) (state appSecret : string) (maxAgeMs : option Num.number),
    let maxAge := match maxAgeMs with
                  | Some m => m
                  | None => Oidc.default_maxAgeMs
                  end in
    (exists b : bool, Oidc.verifyState_try now state appSecret maxAge = Exc.ret b)
    /\ (List.length (Str.split "." state) <> 3%nat ->
        Oidc.verifyState now state appSecret maxAgeMs = false)
    /\ (forall ts nonce sig,
          Str.split "." state = [ts; nonce; sig] ->
          sig <> Str.slice0 16
                   (Crypto.createHmac_sha256_hex appSecret (ts ++ "." ++ nonce)) ->
          Oidc.verifyState now state appSecret maxAgeMs = false)
    /\ (forall ts nonce sig,
          Str.split "." state = [ts; nonce; sig] ->
          Num.gt (Num.sub (Num.Int now) (Num.parseInt ts 36)) maxAge = true ->
          Oidc.verifyState now state appSecret maxAgeMs = false)
    /\ (forall ts nonce sig timestamp m,
          Str.split "." state = [ts; nonce; sig] ->
          Num.parseInt ts 36 = Num.Int timestamp ->
          (timestamp <= now)%Z ->
          maxAgeMs = Some (Num.Int m) -> (m < 0)%Z ->
          Oidc.verifyState now state appSecret maxAgeMs = false).
Proof.
  intros now state appSecret maxAgeMs maxAge.
  assert (Hold : forall ts nonce sig,
             Str.split "." state = [ts; nonce; sig] ->
             Num.gt (Num.sub (Num.Int now) (Num.parseInt ts 36)) maxAge = true ->
             Oidc.verifyState now state appSecret maxAgeMs = false).
  { intros ts nonce sig Hs Hgt. unfold Oidc.verifyState. fold maxAge.
    rewrite (StateFacts.verifyState_three _ _ _ _ _ _ _ Hs), Hgt.
    now rewrite andb_false_r. }
  repeat split.
  - unfold Oidc.verifyState_try.
    destruct (Str.split "." state) as [|ts [|nonce [|sig [|x l]]]];
      try (exists false; reflexivity).
    destruct (String.eqb sig _); [|exists false; reflexivity].
    destruct (Num.gt _ maxAge); [exists false | exists true]; reflexivity.
  - intros Hlen. unfold Oidc.verifyState, Oidc.verifyState_try.
    destruct (Str.split "." state) as [|ts [|nonce [|sig [|x l]]]];
      try reflexivity.
    now contradiction Hlen.
  - intros ts nonce sig Hs Hsig. unfold Oidc.verifyState. fold maxAge.
    rewrite (StateFacts.verifyState_three _ _ _ _ _ _ _ Hs).
    apply String.eqb_neq in Hsig. now rewrite Hsig.
  - exact Hold.
  - intros ts nonce sig timestamp m Hs Hts Hle Hmax Hneg.
    apply (Hold ts nonce sig Hs).
    unfold maxAge. rewrite Hmax, Hts. simpl.
    apply Z.ltb_lt. lia.
Qed.

Lemma verifyState_rejects_witness :
  Oidc.verifyState 1730000000000
    (Oidc.generateState 1730000000000 "0123456789abcdef"
       "super-secret-test-key-for-umami-oidc")
    "super-secret-test-key-for-umami-oidc" (Some (Num.Int (-1))) = false.
Proof.
  refine (proj2 (proj2 (proj2 (proj2
    (verifyState_rejects 1730000000000
       (Oidc.generateState 1730000000000 "0123456789abcdef"
          "super-secret-test-key-for-umami-oidc")
       "super-secret-test-key-for-umami-oidc" (Some (Num.Int (-1)))))))
    _ _ _ 1730000000000%Z (-1)%Z _ _ _ eq_refl _).
  - apply StateFacts.generateState_parts.
  - apply NumFacts.parseInt_toString_radix36.
  - lia.
  - lia.
Defined.

(* ===================================================================== *)
(** * Part XI.  Role mapping                                             *)
(* ===================================================================== *)

Module RoleFacts.

Import JS Oidc Spec.

Lemma array_includes_In (items : list JValue) (s : string) :
  array_includes items s = true <-> In (JStr s) items.
Proof.
  unfold array_includes. rewrite existsb_exists. split.
  - intros [v [Hin Heq]]. destruct v; try discriminate.
    simpl in Heq. apply String.eqb_eq in Heq. now subst.
  - intros Hin. exists (JStr s). split; [exact Hin |]. simpl.
    apply String.eqb_refl.
Qed.

Lemma includes_In (x : string) (l : list string) :
  Str.includes x l = true <-> In x l.
Proof.
  unfold Str.includes. rewrite existsb_exists. split.
  - intros [y [Hin Heq]]. apply String.eqb_eq in Heq. now subst.
  - intros Hin. exists x. split; [exact Hin | apply String.eqb_refl].
Qed.

(** A property that is in neither object reads as [undefined] or as an
    inherited member; both count as no claim. *)
Lemma get_absent (o : JObject) (key : string) :
  own o key = None -> get o key = JUndefined \/ get o key = JBuiltin key.
Proof.
  intros H. unfold get. rewrite H.
  destruct (Str.includes key object_prototype); [right | left]; reflexivity.
Qed.

Lemma mapOidcRole_unfold (env : Env) (userInfo idTokenClaims : JObject) :
  mapOidcRole env userInfo idTokenClaims
  = let adminGroup := adminGroup (getOidcConfig env) in
    match role_claim env userInfo idTokenClaims with
    | JArr items => if array_includes items adminGroup then "admin" else "user"
    | JStr s =>
        if String.eqb s "" then "user"
        else if String.eqb s adminGroup then "admin"
        else if Str.includes adminGroup (map Str.trim (Str.split "," s))
             then "admin" else "user"
    | _ => "user"
    end.
Proof.
  unfold mapOidcRole, role_claim, coalesce.
  destruct (nullish (get userInfo _)) eqn:Hn.
  - destruct (get idTokenClaims _) as [| |b|n|s|items|ms|name]; simpl;
      try reflexivity.
    + destruct b; reflexivity.
    + destruct n; reflexivity.
    + destruct (String.eqb s ""); reflexivity.
  - destruct (get userInfo _) as [| |b|n|s|items|ms|name]; simpl;
      try reflexivity.
    + destruct b; reflexivity.
    + destruct n; reflexivity.
    + destruct (String.eqb s ""); reflexivity.
Qed.

End RoleFacts.

(** C3, as the code has it.  [mapOidcRole] returns "admin" or "user"; it
    reads the role claim from [userInfo] first and from the identity-token
    claims when that is null or undefined.  A claim present in neither gives
    "user"; an array claim gives "admin" exactly when the admin group is one
    of its elements; a non-empty string claim gives "admin" exactly when it
    equals the admin group or the admin group is a trimmed element of its
    comma-split; the empty string, like every other falsy value, gives
    "user"; every other kind of value gives "user". *)
Theorem mapOidcRole_cases :
  forall (env : Oidc.Env) (userInfo idTokenClaims : JS.JObject),
    let cfg := Oidc.getOidcConfig env in
    let claim := Spec.role_claim env userInfo idTokenClaims in
    let role := Oidc.mapOidcRole env userInfo idTokenClaims in
    (role = "admin" \/ role = "user")
    /\ (JS.own userInfo (Oidc.roleClaim cfg) = None ->
        JS.own idTokenClaims (Oidc.roleClaim cfg) = None -> role = "user")
    /\ (forall items, claim = JS.JArr items ->
          (role = "admin" <-> In (JS.JStr (Oidc.adminGroup cfg)) items))
    /\ (forall s, claim = JS.JStr s -> s <> "" ->
          (role = "admin" <->
           s = Oidc.adminGroup cfg
           \/ In (Oidc.adminGroup cfg) (map Str.trim (Str.split "," s))))
    /\ (claim = JS.JStr "" -> role = "user")
    /\ (match claim with
        | JS.JArr _ | JS.JStr _ => False
        | _ => True
        end -> role = "user").
Proof.
  intros env userInfo idTokenClaims cfg claim role.
  assert (Hrole : role = _) by apply RoleFacts.mapOidcRole_unfold.
  cbv zeta in Hrole. fold cfg claim in Hrole.
  split; [| split; [| split; [| split; [| split]]]].
  - rewrite Hrole. destruct claim; auto.
    + destruct (String.eqb s ""); auto.
      destruct (String.eqb s _); auto.
      destruct (Str.includes _ _); auto.
    + destruct (JS.array_includes _ _); auto.
  - intros Hu Hi. rewrite Hrole. unfold claim, Spec.role_claim. fold cfg.
    destruct (RoleFacts.get_absent _ _ Hu) as [-> | ->];
      destruct (RoleFacts.get_absent _ _ Hi) as [-> | ->]; reflexivity.
  - intros items Hc. rewrite Hrole, Hc.
    rewrite <- RoleFacts.array_includes_In.
    destruct (JS.array_includes items _); split; congruence.
  - intros s Hc Hne. rewrite Hrole, Hc.
    apply String.eqb_neq in Hne. rewrite Hne.
    rewrite <- RoleFacts.includes_In.
    destruct (String.eqb_spec s (Oidc.adminGroup cfg)) as [Heq|Hneq];
      [split; auto |].
    destruct (Str.includes _ _); split; intros H; auto; try discriminate.
    destruct H as [H|H]; [contradiction | discriminate].
  - intros Hc. rewrite Hrole, Hc. reflexivity.
  - intros Hc. rewrite Hrole. destruct claim; try reflexivity; contradiction.
Qed.

Lemma mapOidcRole_cases_witness :
  Oidc.mapOidcRole [("OIDC_ROLE_CLAIM", "role")]
    [("sub", JS.JStr "user-123"); ("role", JS.JStr "viewer, umami-admin, editor")]
    [] = "admin".
Proof.
  refine (proj2 (proj1 (proj2 (proj2 (proj2
    (mapOidcRole_cases [("OIDC_ROLE_CLAIM", "role")]
       [("sub", JS.JStr "user-123");
        ("role", JS.JStr "viewer, umami-admin, editor")] []))))
    "viewer, umami-admin, editor" eq_refl _) _).
  - discriminate.
  - right. vm_compute. right. left. reflexivity.
Defined.

(** C3 as stated fails on the empty string: with the admin group set to the
    empty string, the string claim [""] equals the admin group exactly, and
    the role is "user". *)
Lemma mapOidcRole_empty_claim :
  let env := [("OIDC_ROLE_CLAIM", "role"); ("OIDC_ADMIN_GROUP", "")] in
  let userInfo := [("sub", JS.JStr "user-123"); ("role", JS.JStr "")] in
  Spec.role_claim env userInfo [] = JS.JStr (Oidc.adminGroup (Oidc.getOidcConfig env))
  /\ Oidc.mapOidcRole env userInfo [] = "user".
Proof. split; reflexivity. Qed.

(* ===================================================================== *)
(** * Part XII.  The state check of the callback                         *)
(* ===================================================================== *)

Module CallbackFacts.

Import Oidc Callback Spec.

Lemma check_state_cause (now : Z) (appSecret : string) (req : Request)
    (state : string) (cause : Cause) :
  csrf_cause now appSecret req state = Some cause ->
  check_state now appSecret req state = Exc.throw (message_of cause).
Proof.
  unfold csrf_cause, check_state, present.
  destruct (oidc_state req) as [saved|]; [|intros [= <-]; reflexivity].
  destruct (String.eqb saved "") eqn:Hempty; simpl.
  { intros [= <-]. reflexivity. }
  destruct (String.eqb state saved) eqn:Hsame; simpl;
    [|intros [= <-]; reflexivity].
  unfold verifyState, verifyState_try.
  destruct (Str.split "." state) as [|ts [|nonce [|sig [|x l]]]];
    try (intros [= <-]; reflexivity).
  destruct (String.eqb sig _); simpl; [|intros [= <-]; reflexivity].
  destruct (Num.gt _ _); simpl; [intros [= <-]; reflexivity | discriminate].
Qed.

End CallbackFacts.

(** C4, as the code has it.  A callback that reaches the state check and
    fails it is answered like every refusal of the handler: the login page
    is resolved against the external base URL and the answer is a redirect
    to it with no cookie set, or, when the base is not an absolute URL, the
    error of the URL constructor leaves the handler.  The message is the
    same for a bad signature and for an expired state, and a state that
    differs from the saved cookie has a message of its own. *)
Theorem callback_csrf_redirect :
  forall (newURL : string -> string -> Exc.result string)
         (env : Oidc.Env) (now : Z) (appSecret : string)
         (session : string -> string -> option string -> Exc.result string)
         (req : Callback.Request) (code state : string)
         (cause : Spec.Cause),
    Spec.reaches_check env req code state ->
    Spec.csrf_cause now appSecret req state = Some cause ->
    let baseUrl := Callback.getExternalBaseUrl env req in
    let message :=
      match cause with
      | Spec.StateMismatch => Callback.msg_state_mismatch
      | Spec.BadSignature | Spec.Expired => Callback.msg_state_verification
      end in
    let answer := Callback.GET newURL env now appSecret session req in
    answer = Callback.login_redirect newURL baseUrl (Some message)
    /\ (forall loginUrl,
          newURL "/login" baseUrl = Exc.ret loginUrl ->
          answer = Exc.ret (Callback.mkRedirect loginUrl (Some message) [] []))
    /\ (forall e, newURL "/login" baseUrl = Exc.throw e -> answer = Exc.throw e).
Proof.
  intros newURL env now appSecret session req code state cause
         (Hen & Herr & Hcode & Hc & Hstate & Hs) Hcause baseUrl message answer.
  assert (Hanswer : answer
                    = Callback.login_redirect newURL baseUrl (Some message)).
  { subst answer. unfold Callback.GET. rewrite Hen, Herr, Hcode, Hstate. simpl.
    apply String.eqb_neq in Hc, Hs. rewrite Hc, Hs. simpl.
    rewrite (CallbackFacts.check_state_cause _ _ _ _ _ Hcause).
    unfold Exc.throw. cbn [Exc.bind].
    subst message baseUrl. destruct cause; reflexivity. }
  split; [exact Hanswer |]. rewrite Hanswer. unfold Callback.login_redirect.
  split.
  - intros loginUrl ->. reflexivity.
  - intros e ->. reflexivity.
Qed.

Lemma callback_csrf_redirect_witness :
  Callback.GET Examples.the_newURL Examples.the_env 1730001200000
    Examples.the_secret Examples.no_session Examples.req_signed
  = Exc.ret (Callback.mkRedirect "https://umami.example.com/login"
               (Some Callback.msg_state_verification) [] [])
  /\ Callback.GET Examples.the_newURL Examples.the_env 1730000000000
       Examples.the_secret Examples.no_session Examples.req_tampered
     = Exc.ret (Callback.mkRedirect "https://umami.example.com/login"
                  (Some Callback.msg_state_verification) [] []).
Proof.
  split.
  - apply (proj1 (proj2 (callback_csrf_redirect Examples.the_newURL
             Examples.the_env 1730001200000
             Examples.the_secret Examples.no_session
             Examples.req_signed "authcode" Examples.valid_state
             Spec.Expired
             ltac:(repeat split; discriminate)
             ltac:(vm_compute; reflexivity)))).
    reflexivity.
  - apply (proj1 (proj2 (callback_csrf_redirect Examples.the_newURL
             Examples.the_env 1730000000000
             Examples.the_secret Examples.no_session
             Examples.req_tampered "authcode"
             "m2r1bz7k.aaaaaaaaaaaaaaaa.dee3e25ce356f591"
             Spec.BadSignature
             ltac:(repeat split; discriminate)
             ltac:(vm_compute; reflexivity)))).
    reflexivity.
Defined.

(** C4 as stated fails: a state that differs from the saved cookie and a
    state with a tampered signature are told apart by the message sent to
    the login page. *)
Lemma callback_csrf_messages_differ :
  Callback.GET Examples.the_newURL Examples.the_env 1730000000000
    Examples.the_secret Examples.no_session Examples.req_mismatch
  = Exc.ret (Callback.mkRedirect "https://umami.example.com/login"
               (Some "OIDC state mismatch – possible CSRF attack") [] [])
  /\ Callback.GET Examples.the_newURL Examples.the_env 1730000000000
       Examples.the_secret Examples.no_session Examples.req_tampered
     = Exc.ret (Callback.mkRedirect "https://umami.example.com/login"
                  (Some "OIDC state verification failed (expired or tampered)")
                  [] [])
  /\ String.eqb "OIDC state mismatch – possible CSRF attack"
       "OIDC state verification failed (expired or tampered)" = false.
Proof. repeat split; vm_compute; reflexivity. Qed.

(* ===================================================================== *)
(** * Part XIII.  The discovery cache                                       *)
(* ===================================================================== *)




(* ===================================================================== *)
(** * Part XIV.  The team claim-rule engine                                 *)
(* ===================================================================== *)

Module TeamsFacts.

Import JS Teams Spec.

Lemma ensureTeamMembership_member (db : Db) (userId teamId role : string)
    (m : TeamUser) :
  find_member db userId teamId = Some m ->
  ensureTeamMembership db userId teamId role = db.
Proof.
  intros H. unfold ensureTeamMembership. rewrite H.
  destruct (negb (team_exists db teamId)); reflexivity.
Qed.

(** What [all[teamId]] is follows from the own entry. *)
Lemma entry_rules (all : TeamRulesMap) (teamId : string)
    (rs : list TeamClaimRule) :
  entry all teamId = Rules rs <-> rules_of all teamId = Some rs.
Proof.
  unfold entry. destruct (rules_of all teamId) as [rs' |].
  - split; intros H; injection H as ->; reflexivity.
  - destruct (Str.includes teamId object_prototype); split; discriminate.
Qed.

Lemma entry_own (all : TeamRulesMap) (teamId : string)
    (rs : list TeamClaimRule) :
  rules_of all teamId = Some rs -> entry all teamId = Rules rs.
Proof. apply entry_rules. Qed.

Lemma entry_inherited (all : TeamRulesMap) (teamId : string) :
  rules_of all teamId = None -> inherited teamId = true ->
  entry all teamId = Member teamId.
Proof. unfold entry, inherited. intros -> ->. reflexivity. Qed.

Lemma entry_undefined (all : TeamRulesMap) (teamId : string) :
  rules_of all teamId = None -> inherited teamId = false ->
  entry all teamId = Undefined.
Proof. unfold entry, inherited. intros -> ->. reflexivity. Qed.

(** The loop over the rules of a team stops at the first match, or at the
    first comparison that throws. *)
Lemma apply_rules_first (db : Db) (userId : string) (userInfo idTokenClaims : JObject)
    (teamId : string) (rules : list TeamClaimRule) :
  apply_rules db userId userInfo idTokenClaims teamId rules
  = match first_match (rule_matches userInfo idTokenClaims) rules with
    | inl e => (Exc.throw e, db)
    | inr (Some rule) =>
        (Exc.ret tt, ensureTeamMembership db userId teamId (teamRole rule))
    | inr None => (Exc.ret tt, db)
    end.
Proof.
  induction rules as [|r rules IH]; cbn [apply_rules first_match];
    [reflexivity |].
  unfold rule_matches at 1.
  destruct (matchesClaim _ _) as [e | [|]]; [reflexivity | reflexivity | exact IH].
Qed.


Lemma find_append {A} (f : A -> bool) (l l' : list A) :
  find f (l ++ l')%list
  = match find f l with Some x => Some x | None => find f l' end.
Proof.
  induction l as [|y l IH]; simpl; [reflexivity |].
  destruct (f y); [reflexivity | exact IH].
Qed.

Lemma find_member_app (db : Db) (userId teamId : string) (m new : TeamUser) :
  find_member db userId teamId = Some m ->
  find (is_member userId teamId) (teamUsers db ++ [new])%list = Some m.
Proof.
  unfold find_member. fold (is_member userId teamId).
  induction (teamUsers db) as [|x l IH]; simpl; [discriminate |].
  destruct (is_member userId teamId x); [auto | exact IH].
Qed.

Lemma ensureTeamMembership_keeps (db : Db) (userId teamId role other : string)
    (m : TeamUser) :
  find_member db userId other = Some m ->
  find_member (ensureTeamMembership db userId teamId role) userId other = Some m.
Proof.
  intros Hm. unfold ensureTeamMembership.
  destruct (negb (team_exists db teamId)); [exact Hm |].
  destruct (find_member db userId teamId); [exact Hm |].
  unfold create_member, find_member. simpl.
  now apply find_member_app.
Qed.

Lemma ensureTeamMembership_teams (db : Db) (userId teamId role : string) :
  teams (ensureTeamMembership db userId teamId role) = teams db.
Proof.
  unfold ensureTeamMembership.
  destruct (negb (team_exists db teamId)); [reflexivity |].
  destruct (find_member db userId teamId); reflexivity.
Qed.

(** Whatever one team's rules do, a membership of the user in any team stays
    the first one found, with its role. *)
Lemma apply_rules_keeps (db : Db) (userId : string) (userInfo idTokenClaims : JObject)
    (teamId : string) (rules : list TeamClaimRule) (other : string) (m : TeamUser) :
  find_member db userId other = Some m ->
  find_member (snd (apply_rules db userId userInfo idTokenClaims teamId rules))
              userId other = Some m.
Proof.
  intros Hm. rewrite apply_rules_first.
  destruct (first_match _ rules) as [e | [rule |]]; cbn [snd]; try exact Hm.
  now apply ensureTeamMembership_keeps.
Qed.

Lemma apply_teams_keeps (userId : string) (userInfo idTokenClaims : JObject)
    (all : TeamRulesMap) (teamIds : list string) :
  forall (db : Db) (other : string) (m : TeamUser),
    find_member db userId other = Some m ->
    find_member (snd (apply_teams db userId userInfo idTokenClaims all teamIds))
                userId other = Some m.
Proof.
  induction teamIds as [|t ts IH]; intros db other m Hm; cbn [apply_teams];
    [exact Hm |].
  destruct (entry all t) as [rules | name |]; [| exact Hm | exact Hm].
  pose proof (apply_rules_keeps db userId userInfo idTokenClaims t rules other m
                Hm) as Hstep.
  destruct (apply_rules db userId userInfo idTokenClaims t rules) as [[e | []] db1];
    cbn [snd] in *; [exact Hstep |].
  now apply IH.
Qed.

(** A team does not appear or disappear. *)
Lemma apply_rules_teams (db : Db) (userId : string) (userInfo idTokenClaims : JObject)
    (teamId : string) (rules : list TeamClaimRule) :
  teams (snd (apply_rules db userId userInfo idTokenClaims teamId rules))
  = teams db.
Proof.
  rewrite apply_rules_first.
  destruct (first_match _ rules) as [e | [rule |]]; cbn [snd]; try reflexivity.
  apply ensureTeamMembership_teams.
Qed.




End TeamsFacts.

Module TeamsPass.

Import JS Teams TeamsFacts Spec.

Lemma find_member_memberships (db : Db) (userId teamId : string) :
  find_member db userId teamId = None <-> memberships db userId teamId = [].
Proof.
  unfold find_member, memberships. fold (is_member userId teamId).
  induction (teamUsers db) as [|x l IH]; simpl; [tauto |].
  destruct (is_member userId teamId x); [split; discriminate | exact IH].
Qed.

Lemma memberships_create (db : Db) (userId teamId role other : string) :
  memberships (create_member db teamId userId role) userId other
  = (memberships db userId other
     ++ (if String.eqb teamId other
         then [mkTeamUser (randomUUID (uuids db)) teamId userId role]
         else []))%list.
Proof.
  unfold memberships, create_member. simpl. rewrite filter_app. simpl.
  unfold is_member at 2. simpl. rewrite String.eqb_refl. simpl.
  destruct (String.eqb teamId other); reflexivity.
Qed.

(** One team's rules: the memberships in another team stay, and so do
    those in this team when there is one already; otherwise at most one is
    added, with the role granted by the first matching rule. *)
Lemma apply_rules_memberships (db : Db) (userId : string)
    (userInfo idTokenClaims : JObject) (teamId : string)
    (rules : list TeamClaimRule) (other : string) :
  let db' := snd (apply_rules db userId userInfo idTokenClaims teamId rules) in
  memberships db' userId other = memberships db userId other
  \/ (other = teamId /\ memberships db userId other = []
      /\ team_exists db teamId = true
      /\ exists rule,
           first_match (rule_matches userInfo idTokenClaims) rules
           = Exc.ret (Some rule)
           /\ memberships db' userId other
              = [mkTeamUser (randomUUID (uuids db)) teamId userId (granted_role rule)]).
Proof.
  intros db'. unfold db'. rewrite apply_rules_first.
  destruct (first_match _ rules) as [e | [rule |]]; cbn [snd];
    [now left | | now left].
  unfold ensureTeamMembership.
  destruct (team_exists db teamId) eqn:Hteam; cbn [negb]; [| now left].
  destruct (find_member db userId teamId) eqn:Hm; [now left |].
  rewrite memberships_create.
  destruct (String.eqb_spec teamId other) as [<-|Hne].
  - right. apply find_member_memberships in Hm. rewrite Hm.
    split; [reflexivity |]. split; [reflexivity |]. split; [reflexivity |].
    exists rule. split; reflexivity.
  - left. apply app_nil_r.
Qed.

Lemma apply_teams_memberships (userId : string) (userInfo idTokenClaims : JObject)
    (all : TeamRulesMap) (teamIds : list string) (teamId : string) :
  forall db,
    let db' := snd (apply_teams db userId userInfo idTokenClaims all teamIds) in
    let rules := match rules_of all teamId with Some rs => rs | None => [] end in
    memberships db' userId teamId = memberships db userId teamId
    \/ (memberships db userId teamId = []
        /\ team_exists db teamId = true
        /\ exists rule n,
             first_match (rule_matches userInfo idTokenClaims) rules
             = Exc.ret (Some rule)
             /\ memberships db' userId teamId
                = [mkTeamUser (randomUUID n) teamId userId (granted_role rule)]).
Proof.
  induction teamIds as [|t ts IH]; intros db db' rules; [now left |].
  unfold db'. cbn [apply_teams].
  destruct (entry all t) as [rules0 | name |] eqn:Hentry;
    [| now left | now left].
  apply entry_rules in Hentry.
  pose proof (apply_rules_memberships db userId userInfo idTokenClaims t rules0
                teamId) as Hstep.
  pose proof (apply_rules_teams db userId userInfo idTokenClaims t rules0)
    as Hteams.
  cbv zeta in Hstep.
  destruct (apply_rules db userId userInfo idTokenClaims t rules0)
    as [[e | []] db1]; cbn [snd] in *.
  - destruct Hstep as [Hsame | (-> & Hnone & Hteam & rule & Hfind & Hone)];
      [now left |].
    right. split; [exact Hnone |]. split; [exact Hteam |].
    exists rule, (uuids db). subst rules. rewrite Hentry. split; assumption.
  - destruct Hstep as [Hsame | (-> & Hnone & Hteam & rule & Hfind & Hone)].
    + destruct (IH db1) as [Hrest | (Hnone & Hteam & rule & n & Hfind & Hone)].
      * left. congruence.
      * right. split; [congruence |].
        split; [unfold team_exists in *; now rewrite <- Hteams |].
        exists rule, n. split; assumption.
    + right. split; [exact Hnone |]. split; [exact Hteam |].
      exists rule, (uuids db). subst rules. rewrite Hentry.
      split; [exact Hfind |].
      destruct (IH db1) as [Hrest | (Hnone' & _)]; [congruence |].
      rewrite Hone in Hnone'. discriminate.
Qed.

(** A pass over the teams that ends without an error has granted what the
    rules of each team with an own entry ask for. *)
Lemma apply_teams_grants (userId : string) (userInfo idTokenClaims : JObject)
    (all : TeamRulesMap) (teamIds : list string) (teamId : string)
    (rules : list TeamClaimRule) (rule : TeamClaimRule) :
  rules_of all teamId = Some rules ->
  first_match (rule_matches userInfo idTokenClaims) rules = Exc.ret (Some rule) ->
  In teamId teamIds ->
  forall db,
    fst (apply_teams db userId userInfo idTokenClaims all teamIds) = Exc.ret tt ->
    team_exists db teamId = true ->
    find_member (snd (apply_teams db userId userInfo idTokenClaims all teamIds))
                userId teamId <> None.
Proof.
  intros Hown Hfirst. induction teamIds as [|t ts IH]; intros Hin db Hend Hteam;
    [destruct Hin |].
  cbn [apply_teams] in *.
  destruct (entry all t) as [rules0 | name |] eqn:Hentry;
    [| discriminate Hend | discriminate Hend].
  apply entry_rules in Hentry.
  pose proof (apply_rules_first db userId userInfo idTokenClaims t rules0)
    as Hrun.
  pose proof (apply_rules_teams db userId userInfo idTokenClaims t rules0)
    as Hteams.
  destruct (apply_rules db userId userInfo idTokenClaims t rules0)
    as [[e | []] db1] eqn:Hstep; cbn [fst snd] in *; [discriminate Hend |].
  destruct (String.eqb_spec t teamId) as [-> | Hne].
  - rewrite Hown in Hentry. injection Hentry as <-.
    rewrite Hfirst in Hrun. injection Hrun as ->.
    assert (Hm : find_member
                   (ensureTeamMembership db userId teamId (teamRole rule))
                   userId teamId <> None).
    { unfold ensureTeamMembership. rewrite Hteam. cbn [negb].
      destruct (find_member db userId teamId) as [m |] eqn:Hm;
        [rewrite Hm; discriminate |].
      unfold find_member, create_member. simpl.
      rewrite find_append. unfold find_member in Hm. rewrite Hm. simpl.
      rewrite !String.eqb_refl. discriminate. }
    destruct (find_member _ userId teamId) as [m |] eqn:Hfound;
      [| contradiction].
    rewrite (apply_teams_keeps userId userInfo idTokenClaims all ts _ teamId m
               Hfound).
    discriminate.
  - destruct Hin as [-> | Hin]; [contradiction |].
    apply (IH Hin db1 Hend). unfold team_exists in *. now rewrite Hteams.
Qed.

End TeamsPass.







(** C9.  A claim value that is neither null, an array nor a string is
    compared through its string form: the rule matches exactly when its
    value is the text that [String] gives for the claim, and what [String]
    throws leaves the comparison.  The number 42 matches the rule whose
    value is "42" and no other, 1.5 matches "1.5", ten to the 21 matches
    "1e+21" and not its digits, [true] matches "true"; the login of a user
    with the claim 42 grants the membership; the role mapper gives "user"
    for every claim of this kind. *)
Theorem matchesClaim_coerces :
  (forall (v : JS.JValue) (expected : string),
      JS.nullish v = false ->
      (forall items, v <> JS.JArr items) -> (forall s, v <> JS.JStr s) ->
      (forall text, JS.template v = Exc.ret text ->
         Teams.matchesClaim v expected = Exc.ret (String.eqb text expected))
      /\ (forall e, JS.template v = Exc.throw e ->
            Teams.matchesClaim v expected = Exc.throw e))
  /\ (forall expected,
        Teams.matchesClaim (JS.JNum 42) expected
        = Exc.ret (String.eqb "42" expected))
  /\ Teams.matchesClaim (JS.JNum 42) "42" = Exc.ret true
  /\ Teams.matchesClaim (JS.JNum 42) "43" = Exc.ret false
  /\ Teams.matchesClaim (JS.JNum (Double.of_decimal false 15 (-1))) "1.5"
     = Exc.ret true
  /\ Teams.matchesClaim (JS.JNum (Double.of_decimal false 1 21)) "1e+21"
     = Exc.ret true
  /\ Teams.matchesClaim (JS.JNum (Double.of_decimal false 1 21))
       "1000000000000000000000" = Exc.ret false
  /\ Teams.matchesClaim (JS.JBool true) "true" = Exc.ret true
  /\ Teams.applyTeamMappings
       (Teams.mkRedis true
          (Some (Teams.mkClient
             (Some [(Examples.team_1,
                     [Teams.mkRule "rule-9" "level" "42" "team_manager"
                        "2026-01-01T00:00:00.000Z"])]))))
       Examples.the_db "u1" [("sub", JS.JStr "u1"); ("level", JS.JNum 42)] []
     = (Exc.ret tt,
        Teams.mkDb (Teams.teams Examples.the_db)
          [Teams.mkTeamUser "uuid-0" Examples.team_1 "u1" "team_manager"] 1)
  /\ (forall env userInfo idTokenClaims,
        (forall items,
            Spec.role_claim env userInfo idTokenClaims <> JS.JArr items) ->
        (forall s, Spec.role_claim env userInfo idTokenClaims <> JS.JStr s) ->
        Oidc.mapOidcRole env userInfo idTokenClaims = "user")
  /\ Oidc.mapOidcRole [("OIDC_ROLE_CLAIM", "level"); ("OIDC_ADMIN_GROUP", "42")]
       [("sub", JS.JStr "u1"); ("level", JS.JNum 42)] [] = "user".
Proof.
  split; [| split; [| split; [| split; [| split; [| split; [| split;
    [| split; [| split; [| split]]]]]]]]].
  2: intros expected; reflexivity.
  2-8: vm_compute; reflexivity.
  3: reflexivity.
  - intros v expected Hnull Harr Hstr. unfold Teams.matchesClaim. rewrite Hnull.
    destruct v as [| |b|n|s|items|ms|name];
      try discriminate Hnull;
      try (exfalso; exact (Harr _ eq_refl));
      try (exfalso; exact (Hstr _ eq_refl));
      (split; [intros text -> | intros e ->]; reflexivity).
  - intros env userInfo idTokenClaims Harr Hstr.
    rewrite RoleFacts.mapOidcRole_unfold. cbv zeta.
    destruct (Spec.role_claim env userInfo idTokenClaims)
      as [| |b|n|s|items|ms|name]; try reflexivity.
    + exfalso. exact (Hstr _ eq_refl).
    + exfalso. exact (Harr _ eq_refl).
Qed.

(* ===================================================================== *)
(** * Part XV.  Decoding the identity token                               *)
(* ===================================================================== *)

Module BufFacts.

Import Buf Spec.
Local Open Scope N_scope.

(** Induction on a byte string, three bytes at a time. *)
Lemma triple_induction (P : string -> Prop) :
  P EmptyString ->
  (forall a, P (String a EmptyString)) ->
  (forall a b, P (String a (String b EmptyString))) ->
  (forall a b c s, P s -> P (String a (String b (String c s)))) ->
  forall s, P s.
Proof.
  intros H0 H1 H2 H3 s.
  enough (H : P s /\ (forall a, P (String a s)) /\ (forall a b, P (String a (String b s))))
    by apply H.
  induction s as [|c s (IHs & IH1 & IH2)].
  - auto.
  - repeat split; auto.
Qed.

Lemma alphabet_char (d : N) :
  d < 64 ->
  unbase64 (b64url_char d) = Some d
  /\ Ascii.eqb (b64url_char d) "=" = false
  /\ Ascii.eqb (b64url_char d) "." = false.
Proof.
  intros Hd.
  pose proof (NumFacts.below_cases alphabet_ok 64 ltac:(vm_compute; reflexivity) d Hd)
    as H.
  unfold alphabet_ok in H.
  apply andb_true_iff in H as [H Hdot]. apply andb_true_iff in H as [H Hpad].
  apply negb_true_iff in Hdot, Hpad.
  destruct (unbase64 (b64url_char d)) as [x|]; [|discriminate].
  apply N.eqb_eq in H. subst. auto.
Qed.

Lemma sextets_char (d : N) (s : string) :
  d < 64 -> sextets (String (b64url_char d) s) = d :: sextets s.
Proof.
  intros Hd. destruct (alphabet_char d Hd) as (Hu & Hpad & _).
  simpl. now rewrite Hpad, Hu.
Qed.

Lemma byte_bound (a : ascii) : N_of_ascii a < 256.
Proof. apply N_ascii_bounded. Qed.

(** The four sextets of three bytes are below 64 and give the bytes
    back. *)
Lemma sextet_bounds (x y z : N) :
  x < 256 -> y < 256 -> z < 256 ->
  x / 4 < 64 /\ (x mod 4) * 16 + y / 16 < 64
  /\ (y mod 16) * 4 + z / 64 < 64 /\ z mod 64 < 64
  /\ (x mod 4) * 16 < 64 /\ (y mod 16) * 4 < 64.
Proof. intros; repeat split; div_lia. Qed.

Lemma regroup (x y z : N) :
  x < 256 -> y < 256 -> z < 256 ->
  x / 4 * 4 + ((x mod 4) * 16 + y / 16) / 16 = x
  /\ (((x mod 4) * 16 + y / 16) mod 16) * 16 + ((y mod 16) * 4 + z / 64) / 4 = y
  /\ (((y mod 16) * 4 + z / 64) mod 4) * 64 + z mod 64 = z.
Proof. intros; repeat split; div_lia. Qed.

(** Decoding the base64url text of a buffer gives the buffer. *)
Lemma from_toString_base64url (buf : Buffer) :
  from_base64url (toString_base64url buf) = buf.
Proof.
  unfold from_base64url.
  induction buf as [|a|a b|a b c s IH] using triple_induction.
  - reflexivity.
  - pose proof (byte_bound a) as Ha.
    destruct (sextet_bounds _ 0 0 Ha ltac:(lia) ltac:(lia)) as (B0 & _ & _ & _ & B1 & _).
    cbn [toString_base64url]. rewrite !sextets_char by assumption.
    cbn [sextets bytes_of_sextets].
    destruct (regroup _ 0 0 Ha ltac:(lia) ltac:(lia)) as (R0 & _).
    change (0 / 16) with 0 in R0. rewrite N.add_0_r in R0.
    rewrite R0, ascii_N_embedding. reflexivity.
  - pose proof (byte_bound a) as Ha. pose proof (byte_bound b) as Hb.
    destruct (sextet_bounds _ _ 0 Ha Hb ltac:(lia)) as (B0 & B1 & _ & _ & _ & B2).
    cbn [toString_base64url]. rewrite !sextets_char by assumption.
    cbn [sextets bytes_of_sextets].
    destruct (regroup _ _ 0 Ha Hb ltac:(lia)) as (R0 & R1 & _).
    change (0 / 64) with 0 in R1. rewrite N.add_0_r in R1.
    rewrite R0, R1, !ascii_N_embedding. reflexivity.
  - pose proof (byte_bound a) as Ha. pose proof (byte_bound b) as Hb.
    pose proof (byte_bound c) as Hc.
    destruct (sextet_bounds _ _ _ Ha Hb Hc) as (B0 & B1 & B2 & B3 & _).
    cbn [toString_base64url]. rewrite !sextets_char by assumption.
    cbn [bytes_of_sextets].
    destruct (regroup _ _ _ Ha Hb Hc) as (R0 & R1 & R2).
    rewrite R0, R1, R2, !ascii_N_embedding, IH. reflexivity.
Qed.

(** The base64url text of a buffer has no dot. *)
Lemma toString_base64url_lacks_dot (buf : Buffer) :
  Str.lacks "." (toString_base64url buf) = true.
Proof.
  assert (Hc : forall d, d < 64 -> negb (Ascii.eqb (b64url_char d) ".") = true).
  { intros d Hd. destruct (alphabet_char d Hd) as (_ & _ & H). now rewrite H. }
  induction buf as [|a|a b|a b c s IH] using triple_induction.
  - reflexivity.
  - pose proof (byte_bound a) as Ha.
    destruct (sextet_bounds _ 0 0 Ha ltac:(lia) ltac:(lia)) as (B0 & _ & _ & _ & B1 & _).
    cbn [toString_base64url Str.lacks]. now rewrite !Hc by assumption.
  - pose proof (byte_bound a) as Ha. pose proof (byte_bound b) as Hb.
    destruct (sextet_bounds _ _ 0 Ha Hb ltac:(lia)) as (B0 & B1 & _ & _ & _ & B2).
    cbn [toString_base64url Str.lacks]. now rewrite !Hc by assumption.
  - pose proof (byte_bound a) as Ha. pose proof (byte_bound b) as Hb.
    pose proof (byte_bound c) as Hc'.
    destruct (sextet_bounds _ _ _ Ha Hb Hc') as (B0 & B1 & B2 & B3 & _).
    cbn [toString_base64url Str.lacks]. rewrite !Hc by assumption. exact IH.
Qed.

End BufFacts.

Module TokenFacts.

Import JS Oidc Spec.

Lemma token_parts (header payload signature : string) :
  Str.lacks "." header = true -> Str.lacks "." payload = true ->
  Str.lacks "." signature = true ->
  Str.split "." (token header payload signature) = [header; payload; signature].
Proof.
  intros Hh Hp Hs. unfold token. cbn [append].
  rewrite (StrFacts.split_append _ _ _ Hh), (StrFacts.split_append _ _ _ Hp).
  now rewrite (StrFacts.split_lacks _ _ Hs).
Qed.

(** With three segments, the claims are what [JSON.parse] makes of the
    decoded middle segment, and the empty object when it throws. *)
Lemma parseIdTokenClaims_three (idToken header payload signature : string) :
  Str.split "." idToken = [header; payload; signature] ->
  parseIdTokenClaims idToken
  = Exc.try_catch (JSON.parse (Buf.toString_utf8 (Buf.from_base64url payload)))
      (fun _ => JObj []).
Proof.
  intros Hs. unfold parseIdTokenClaims, parseIdTokenClaims_try. now rewrite Hs.
Qed.

End TokenFacts.

(** C10.  A token of three segments whose middle segment decodes to JSON
    text that is not an object gives the parsed value as it is: [null] for
    the payload [null], the array for an array; neither is the empty claim
    set. *)
Theorem parseIdTokenClaims_non_object :
  (forall header payload signature v,
      Str.split "." (Spec.token header payload signature)
      = [header; payload; signature] ->
      JSON.parse (Buf.toString_utf8 (Buf.from_base64url payload)) = Exc.ret v ->
      Oidc.parseIdTokenClaims (Spec.token header payload signature) = v)
  /\ Oidc.parseIdTokenClaims "eyJhbGciOiJSUzI1NiJ9.bnVsbA.c2ln" = JS.JNull
  /\ Oidc.parseIdTokenClaims "eyJhbGciOiJSUzI1NiJ9.WyJhZG1pbiIsNDJd.c2ln"
     = JS.JArr [JS.JStr "admin"; JS.JNum 42]
  /\ Buf.toString_utf8 (Buf.from_base64url "bnVsbA") = "null"
  /\ Buf.toString_utf8 (Buf.from_base64url "WyJhZG1pbiIsNDJd")
     = JSON.text_of (JS.JArr [JS.JStr "admin"; JS.JNum 42]).
Proof.
  split; [| repeat split; vm_compute; reflexivity].
  intros header payload signature v Hs Hparse.
  rewrite (TokenFacts.parseIdTokenClaims_three _ _ _ _ Hs), Hparse. reflexivity.
Qed.

Lemma parseIdTokenClaims_non_object_witness :
  Oidc.parseIdTokenClaims (Spec.token "eyJhbGciOiJSUzI1NiJ9" "bnVsbA" "c2ln")
  = JS.JNull.
Proof.
  apply (proj1 parseIdTokenClaims_non_object "eyJhbGciOiJSUzI1NiJ9" "bnVsbA" "c2ln"
           JS.JNull); vm_compute; reflexivity.
Defined.

(* ===================================================================== *)
(** * Part XVI.  [JSON.parse] reads back what [JSON.stringify] writes     *)
(* ===================================================================== *)

(** ** Numbers and their digits *)

Module DoubleFacts.

Import Double Spec.
Local Open Scope Z_scope.

Lemma eqb_eq (a b : double) : eqb a b = true -> a = b.
Proof.
  destruct a as [|s| |s m e], b as [|t| |t m' e']; simpl;
    try discriminate; try reflexivity.
  - intros H. apply Bool.eqb_prop in H. now subst.
  - intros H. apply andb_true_iff in H as [H He].
    apply andb_true_iff in H as [Hs Hm].
    apply Bool.eqb_prop in Hs. apply Pos.eqb_eq in Hm. apply Z.eqb_eq in He.
    now subst.
Qed.

(** ** Rounding

    A value that is a number of the format is rounded to that number. *)

Lemma pow2_pos (x : Z) : 0 <= x -> 0 < 2 ^ x.
Proof. intros. apply Z.pow_pos_nonneg; lia. Qed.

Section Exact.

Variables (p q m e : Z).
Hypothesis p_pos : 0 < p.
Hypothesis q_pos : 0 < q.
Hypothesis m_pos : 0 < m.
Hypothesis m_hi : m < 2 ^ 53.
Hypothesis value : if 0 <=? e then p = m * 2 ^ e * q else p * 2 ^ (- e) = m * q.

Lemma scaled_exact (d : Z) :
  d = 0 \/ d = 1 ->
  exists den, 0 < den /\ scaled p q (e - d) = (m * 2 ^ d * den, den).
Proof.
  intros Hd. unfold scaled.
  destruct (Z.leb_spec 0 e) as [He|He].
  - destruct (Z.leb_spec 0 (e - d)) as [Hf|Hf].
    + exists (q * 2 ^ (e - d)). split.
      * pose proof (pow2_pos (e - d) Hf). nia.
      * f_equal. rewrite value.
        replace e with (d + (e - d)) at 1 by lia.
        rewrite Z.pow_add_r by lia. ring.
    + exists q. split; [exact q_pos |].
      assert (e = 0 /\ d = 1) as [-> ->] by lia.
      f_equal. rewrite value. change (- (0 - 1)) with 1.
      rewrite Z.pow_0_r. ring.
  - destruct (Z.leb_spec 0 (e - d)) as [Hf|Hf]; [lia |].
    exists q. split; [exact q_pos |]. f_equal.
    replace (- (e - d)) with (- e + d) by lia.
    rewrite Z.pow_add_r by lia. rewrite Z.mul_assoc, value. ring.
Qed.

Lemma log2_upper : Z.log2 p - Z.log2 q <= 53 + e.
Proof.
  destruct (Z.log2_spec p p_pos) as [Hp _].
  destruct (Z.log2_spec q q_pos) as [_ Hq].
  pose proof (Z.log2_nonneg p) as Hlp. pose proof (Z.log2_nonneg q) as Hlq.
  destruct (Z.leb_spec 0 e) as [He|He].
  - assert (H : 2 ^ Z.log2 p < 2 ^ (54 + e + Z.log2 q)).
    { replace (54 + e + Z.log2 q) with (53 + e + Z.succ (Z.log2 q)) by lia.
      rewrite !Z.pow_add_r by lia.
      pose proof (pow2_pos e He).
      assert (m * 2 ^ e * q < 2 ^ 53 * 2 ^ e * 2 ^ Z.succ (Z.log2 q)); [| lia].
      apply Z.mul_lt_mono_nonneg; try nia. }
    apply Z.pow_lt_mono_r_iff in H; lia.
  - assert (H : 2 ^ (Z.log2 p + - e) < 2 ^ (53 + Z.succ (Z.log2 q))).
    { rewrite !Z.pow_add_r by lia.
      pose proof (pow2_pos (- e) ltac:(lia)).
      assert (m * q < 2 ^ 53 * 2 ^ Z.succ (Z.log2 q))
        by (apply Z.mul_lt_mono_nonneg; lia).
      nia. }
    apply Z.pow_lt_mono_r_iff in H; lia.
Qed.

Lemma log2_lower : 2 ^ 52 <= m -> 52 + e <= Z.log2 p - Z.log2 q.
Proof.
  intros Hm.
  destruct (Z.log2_spec p p_pos) as [_ Hp].
  destruct (Z.log2_spec q q_pos) as [Hq _].
  pose proof (Z.log2_nonneg p) as Hlp. pose proof (Z.log2_nonneg q) as Hlq.
  destruct (Z.leb_spec 0 e) as [He|He].
  - assert (H : 2 ^ (52 + e + Z.log2 q) < 2 ^ Z.succ (Z.log2 p)).
    { rewrite !Z.pow_add_r by lia.
      pose proof (pow2_pos e He). pose proof (pow2_pos (Z.log2 q) Hlq).
      assert (2 ^ 52 * 2 ^ e * 2 ^ Z.log2 q <= m * 2 ^ e * q); [| lia].
      apply Z.mul_le_mono_nonneg; try nia. }
    apply Z.pow_lt_mono_r_iff in H; lia.
  - assert (H : 2 ^ (52 + Z.log2 q) < 2 ^ (Z.succ (Z.log2 p) + - e)).
    { rewrite !Z.pow_add_r by lia.
      pose proof (pow2_pos (- e) ltac:(lia)). pose proof (pow2_pos (Z.log2 q) Hlq).
      assert (2 ^ 52 * 2 ^ Z.log2 q <= m * q)
        by (apply Z.mul_le_mono_nonneg; lia).
      nia. }
    apply Z.pow_lt_mono_r_iff in H; lia.
Qed.

Hypothesis canonical :
  (2 ^ 52 <= m /\ -1074 <= e) \/ (m < 2 ^ 52 /\ e = -1074).

Lemma exponent_of_exact : exponent_of p q = e.
Proof.
  unfold exponent_of.
  pose proof log2_upper as Hup.
  assert (Hcases : Z.max (Z.log2 p - Z.log2 q - 53) (-1074) = e - 0
                   \/ (Z.max (Z.log2 p - Z.log2 q - 53) (-1074) = e - 1
                       /\ 2 ^ 52 <= m)).
  { destruct canonical as [[Hm He]|[Hm He]].
    - pose proof (log2_lower Hm). lia.
    - left. lia. }
  destruct Hcases as [->|[-> Hm]].
  - destruct (scaled_exact 0 ltac:(auto)) as (den & Hden & ->).
    rewrite Z.div_mul by lia.
    rewrite Z.pow_0_r, Z.mul_1_r.
    destruct (Z.leb_spec (2 ^ 53) m); lia.
  - destruct (scaled_exact 1 ltac:(auto)) as (den & Hden & ->).
    rewrite Z.div_mul by lia.
    rewrite Z.pow_1_r.
    destruct (Z.leb_spec (2 ^ 53) (m * 2)); lia.
Qed.

Lemma round_ratio_exact (neg : bool) :
  e <= 971 -> round_ratio neg p q = Fin neg (Z.to_pos m) e.
Proof.
  intros He. unfold round_ratio. rewrite exponent_of_exact.
  destruct (scaled_exact 0 ltac:(auto)) as (den & Hden & Hs).
  rewrite Z.sub_0_r, Z.pow_0_r, Z.mul_1_r in Hs. rewrite Hs.
  rewrite Z.div_mul, Z.mod_mul by lia.
  destruct (Z.ltb_spec den (2 * 0)); [lia |].
  destruct (Z.eqb_spec den (2 * 0)); [lia |]. cbn [orb andb].
  destruct (Z.eqb_spec m (2 ^ 53)); [lia |].
  destruct (Z.eqb_spec m 0); [lia |].
  destruct (Z.ltb_spec 971 e); [lia | reflexivity].
Qed.

End Exact.

(** A number is the number for the decimal of its value. *)
Lemma expansion_exact (neg : bool) (m : positive) (e : Z) :
  valid (Fin neg m e) = true ->
  of_decimal neg (fst (expansion m e)) (snd (expansion m e)) = Fin neg m e.
Proof.
  intros Hvalid. cbn [valid] in Hvalid.
  assert (Hm : Z.pos m < 2 ^ 53 /\ e <= 971
               /\ ((2 ^ 52 <= Z.pos m /\ -1074 <= e)
                   \/ (Z.pos m < 2 ^ 52 /\ e = -1074))).
  { apply orb_true_iff in Hvalid as [H|H].
    - apply andb_true_iff in H as [H H4]. apply andb_true_iff in H as [H H3].
      apply andb_true_iff in H as [H1 H2].
      apply Z.leb_le in H1, H3, H4. apply Z.ltb_lt in H2. lia.
    - apply andb_true_iff in H as [H1 H2].
      apply Z.ltb_lt in H1. apply Z.eqb_eq in H2. lia. }
  destruct Hm as (Hhi & He & Hcanon).
  unfold expansion, of_decimal.
  destruct (Z.leb_spec 0 e) as [Hpos|Hneg]; cbn [fst snd].
  - assert (Hp : 0 < Z.pos m * 2 ^ e)
      by (apply Z.mul_pos_pos; [lia | apply Z.pow_pos_nonneg; lia]).
    destruct (N.eqb_spec (Z.to_N (Z.pos m * 2 ^ e)) 0) as [H0|_]; [lia |].
    change (0 <=? 0) with true. cbv iota.
    rewrite Z2N.id, Z.pow_0_r, Z.mul_1_r by lia.
    rewrite (round_ratio_exact _ 1 (Z.pos m) e); try lia; try reflexivity.
    destruct (Z.leb_spec 0 e); [ring | lia].
  - assert (Hp : 0 < Z.pos m * 5 ^ (- e))
      by (apply Z.mul_pos_pos; [lia | apply Z.pow_pos_nonneg; lia]).
    destruct (N.eqb_spec (Z.to_N (Z.pos m * 5 ^ (- e))) 0) as [H0|_]; [lia |].
    destruct (Z.leb_spec 0 e); [lia |].
    rewrite Z2N.id by lia.
    rewrite (round_ratio_exact _ (10 ^ (- e)) (Z.pos m) e); try lia;
      try reflexivity.
    destruct (Z.leb_spec 0 e); [lia |].
    change 10 with (5 * 2). rewrite Z.pow_mul_l. ring.
Qed.

(** ** The digits of a number *)

Lemma accepts_sound (v : double) (neg : bool) (c : N) (x : Z) :
  accepts v neg c x = true -> (0 < c)%N /\ of_decimal neg c x = v.
Proof.
  unfold accepts. intros H. apply andb_true_iff in H as [Hc Hv].
  split; [now apply N.ltb_lt | now apply eqb_eq].
Qed.

Lemma choice_accepted (v : double) (neg b : bool) (low high found : N * Z) :
  match accepts v neg (fst low) (snd low),
        accepts v neg (fst high) (snd high) with
  | true, true => Some (if b then low else high)
  | true, false => Some low
  | false, true => Some high
  | false, false => None
  end = Some found ->
  accepts v neg (fst found) (snd found) = true.
Proof.
  destruct (accepts v neg (fst low) (snd low)) eqn:Hl,
           (accepts v neg (fst high) (snd high)) eqn:Hh;
    intros H; try discriminate; injection H as <-; try assumption.
  destruct b; assumption.
Qed.

Lemma search_sound (fuel : nat) (v : double) (neg : bool) (p q n0 : Z) :
  forall k found,
    search fuel v neg p q n0 k = Some found ->
    accepts v neg (fst found) (snd found) = true.
Proof.
  induction fuel as [|f IH]; intros k found H; cbn [search] in H;
    [discriminate |].
  destruct (pick v neg p q n0 k) as [first|] eqn:Hpick.
  - injection H as <-. unfold pick in Hpick.
    exact (choice_accepted _ _ _ _ _ _ Hpick).
  - exact (IH _ _ H).
Qed.

(** The decimal whose digits are written is a decimal of the number. *)
Lemma shortest_sound (neg : bool) (m : positive) (e : Z) (c : N) (x : Z) :
  valid (Fin neg m e) = true ->
  shortest neg m e = (c, x) ->
  (0 < c)%N /\ of_decimal neg c x = Fin neg m e.
Proof.
  intros Hvalid Hs. unfold shortest in Hs.
  destruct (ratio m e) as [p q].
  destruct (search 17 (Fin neg m e) neg p q (magnitude p q) 1)
    as [found|] eqn:Hsearch.
  - subst found. apply (accepts_sound _ _ _ _ (search_sound _ _ _ _ _ _ _ _ Hsearch)).
  - pose proof (expansion_exact neg m e Hvalid) as Hexact.
    rewrite Hs in Hexact. split; [| exact Hexact].
    unfold expansion in Hs.
    destruct (Z.leb_spec 0 e) as [He|He]; injection Hs as <- _.
    + assert (H : 0 < Z.pos m * 2 ^ e)
        by (apply Z.mul_pos_pos; [lia | apply Z.pow_pos_nonneg; lia]).
      exact (proj1 (Z2N.inj_lt 0 _ (Z.le_refl 0) (Z.lt_le_incl _ _ H)) H).
    + assert (H : 0 < Z.pos m * 5 ^ (- e))
        by (apply Z.mul_pos_pos; [lia | apply Z.pow_pos_nonneg; lia]).
      exact (proj1 (Z2N.inj_lt 0 _ (Z.le_refl 0) (Z.lt_le_incl _ _ H)) H).
Qed.

(** A decimal with a positive exponent is the integer of its value. *)
Lemma of_decimal_shift (neg : bool) (c : N) (x : Z) :
  0 <= x -> of_decimal neg (c * 10 ^ Z.to_N x) 0 = of_decimal neg c x.
Proof.
  intros Hx. unfold of_decimal.
  destruct (N.eqb_spec c 0) as [->|Hc]; [reflexivity |].
  destruct (N.eqb_spec (c * 10 ^ Z.to_N x) 0) as [H0|_].
  - apply N.eq_mul_0 in H0 as [H0|H0]; [contradiction |].
    apply N.pow_nonzero in H0; [contradiction | discriminate].
  - change (0 <=? 0) with true. cbv iota.
    destruct (Z.leb_spec 0 x); [| lia].
    rewrite N2Z.inj_mul, N2Z.inj_pow, Z2N.id by exact Hx.
    change (Z.of_N 10) with 10. rewrite Z.pow_0_r, Z.mul_1_r. reflexivity.
Qed.

(** ** The characters of a number *)

Lemma take_drop (n : nat) (s : string) : (take n s ++ drop n s)%string = s.
Proof.
  revert s; induction n as [|n IH]; intros [|c s]; cbn; try reflexivity.
  now rewrite IH.
Qed.

Lemma length_take (n : nat) (s : string) :
  (n <= String.length s)%nat -> String.length (take n s) = n.
Proof.
  revert s; induction n as [|n IH]; intros [|c s]; cbn; intros H;
    try reflexivity; [lia |].
  rewrite IH by lia. reflexivity.
Qed.

Lemma length_drop (n : nat) (s : string) :
  String.length (drop n s) = (String.length s - n)%nat.
Proof.
  revert s; induction n as [|n IH]; intros [|c s]; cbn; try reflexivity.
  apply IH.
Qed.

Lemma length_zeros (n : nat) : String.length (zeros n) = n.
Proof. induction n as [|n IH]; cbn; [reflexivity | now rewrite IH]. Qed.

Lemma all_digits_app (a b : string) :
  all_digits (a ++ b) = all_digits a && all_digits b.
Proof.
  induction a as [|c a IH]; cbn; [reflexivity |].
  now rewrite IH, andb_assoc.
Qed.

Lemma all_digits_take (n : nat) (s : string) :
  all_digits s = true -> all_digits (take n s) = true.
Proof.
  revert s; induction n as [|n IH]; intros [|c s]; cbn; try reflexivity.
  intros H. apply andb_true_iff in H as [-> H]. now apply IH.
Qed.

Lemma all_digits_drop (n : nat) (s : string) :
  all_digits s = true -> all_digits (drop n s) = true.
Proof.
  revert s; induction n as [|n IH]; intros [|c s]; cbn; try tauto.
  intros H. apply andb_true_iff in H as [_ H]. now apply IH.
Qed.

Lemma all_digits_zeros (n : nat) : all_digits (zeros n) = true.
Proof. induction n as [|n IH]; [reflexivity | exact IH]. Qed.

Lemma digits_value_app (a b : string) :
  all_digits a = true ->
  forall acc, digits_value acc (a ++ b) = digits_value (digits_value acc a) b.
Proof.
  induction a as [|c a IH]; cbn; [reflexivity |].
  intros H acc. apply andb_true_iff in H as [Hc Ha].
  unfold Num.is_digit in Hc.
  destruct (Num.digit_val c) as [d|]; [| discriminate]. now apply IH.
Qed.

Lemma digits_value_zeros (n : nat) (acc : N) :
  digits_value acc (zeros n) = (acc * 10 ^ N.of_nat n)%N.
Proof.
  revert acc; induction n as [|n IH]; intros acc.
  - cbn. now rewrite N.mul_1_r.
  - cbn [zeros digits_value]. change (Num.digit_val "0") with (Some 0%N).
    cbv iota. rewrite IH, Nat2N.inj_succ, N.pow_succ_r', N.add_0_r.
    now rewrite N.mul_assoc.
Qed.

(** [read_digits] on a run of digits. *)
Lemma read_all_digits (ds rest : string) :
  all_digits ds = true -> no_digit_head 10 rest = true ->
  forall acc count,
    Num.read_digits 10 (ds ++ rest) acc count
    = (digits_value acc ds, (count + String.length ds)%nat, rest).
Proof.
  intros Hds Hrest. induction ds as [|c ds IH]; intros acc count.
  - cbn [append digits_value String.length]. rewrite Nat.add_0_r.
    now apply NumFacts.read_digits_stop.
  - cbn in Hds. apply andb_true_iff in Hds as [Hc Hds].
    unfold Num.is_digit in Hc. cbn [append Num.read_digits digits_value].
    destruct (Num.digit_val c) as [d|]; [| discriminate]. rewrite Hc.
    rewrite (IH Hds). cbn [String.length]. f_equal. f_equal. lia.
Qed.

Lemma decimal_head (c : N) :
  (0 < c)%N ->
  exists d s, (0 < d)%N /\ (d < 10)%N
              /\ decimal c = String (Num.digit_char d) s.
Proof.
  intros Hc. unfold decimal, Num.to_radix.
  assert (Hlead : forall fuel n tail,
             (0 < n)%N -> (n < 10 ^ N.of_nat (S fuel))%N ->
             exists d s, (0 < d)%N /\ (d < 10)%N
               /\ Num.to_radix_aux fuel 10 n tail = String (Num.digit_char d) s).
  { induction fuel as [|f IH]; intros n tail Hpos Hn.
    - change (N.of_nat 1) with 1%N in Hn. rewrite N.pow_1_r in Hn.
      exists n, tail. cbn [Num.to_radix_aux].
      rewrite N.mod_small by exact Hn. auto.
    - cbn [Num.to_radix_aux]. destruct (N.ltb_spec n 10) as [Hlt|Hge].
      + exists n, tail. rewrite N.mod_small by exact Hlt. auto.
      + apply IH.
        * apply N.div_str_pos. lia.
        * apply N.Div0.div_lt_upper_bound.
          rewrite Nat2N.inj_succ, N.pow_succ_r' in Hn. exact Hn. }
  apply Hlead; [exact Hc |].
  apply (NumFacts.to_radix_fuel 10); lia.
Qed.

Lemma digit_char_digit (d : N) :
  (d < 10)%N -> Num.is_digit 10 (Num.digit_char d) = true.
Proof.
  intros Hd.
  exact (NumFacts.below_cases (fun x => Num.is_digit 10 (Num.digit_char x)) 10
           ltac:(vm_compute; reflexivity) d Hd).
Qed.

Lemma decimal_digits (c : N) : all_digits (decimal c) = true.
Proof.
  unfold decimal, Num.to_radix.
  assert (H : forall fuel n tail,
             all_digits tail = true ->
             all_digits (Num.to_radix_aux fuel 10 n tail) = true).
  { induction fuel as [|f IH]; intros n tail Htail; cbn [Num.to_radix_aux].
    - cbn [all_digits]. rewrite digit_char_digit by (apply N.mod_lt; lia).
      exact Htail.
    - assert (Hacc : all_digits (String (Num.digit_char (n mod 10)%N) tail) = true).
      { cbn [all_digits]. rewrite digit_char_digit by (apply N.mod_lt; lia).
        exact Htail. }
      destruct (N.ltb n 10); [exact Hacc | now apply IH]. }
  now apply H.
Qed.

Lemma decimal_value (c : N) : digits_value 0 (decimal c) = c.
Proof.
  destruct (NumFacts.read_to_radix 10 ltac:(lia) ltac:(lia) c EmptyString eq_refl)
    as [k Hread].
  fold (decimal c) in Hread.
  rewrite (read_all_digits _ EmptyString (decimal_digits c) eq_refl) in Hread.
  now injection Hread.
Qed.

Lemma decimal_length (c : N) : exists k, String.length (decimal c) = S k.
Proof.
  destruct (NumFacts.to_radix_aux_head 10 ltac:(lia) ltac:(lia)
              (N.to_nat (N.size c)) c EmptyString) as (d & s & _ & Hs).
  unfold decimal, Num.to_radix. rewrite Hs. cbn. eauto.
Qed.

(** What the parser needs to know of a digit. *)
Lemma digit_facts (c : ascii) :
  Num.is_digit 10 c = true ->
  Ascii.eqb c "-" = false /\ Ascii.eqb c "." = false
  /\ JSON.is_ws c = false
  /\ Ascii.eqb c "]" = false /\ Ascii.eqb c "}" = false.
Proof.
  destruct c as [b0 b1 b2 b3 b4 b5 b6 b7].
  destruct b0, b1, b2, b3, b4, b5, b6, b7; vm_compute;
    (discriminate || (intros _; repeat split; reflexivity)).
Qed.

Lemma digit_char_nonzero (d : N) :
  (0 < d)%N -> (d < 10)%N -> Ascii.eqb (Num.digit_char d) "0" = false.
Proof.
  intros Hpos Hd.
  pose proof (NumFacts.below_cases
                (fun x => (x =? 0)%N || negb (Ascii.eqb (Num.digit_char x) "0")) 10
                ltac:(vm_compute; reflexivity) d Hd) as H.
  cbv beta in H. destruct (N.eqb_spec d 0); [lia |].
  now apply negb_true_iff in H.
Qed.

End DoubleFacts.

(** ** Number literals *)

Module NumberFacts.

Import JS JSON Spec Double.
Local Open Scope string_scope.

Lemma number_end_facts (rest : string) :
  number_end rest = true ->
  no_digit_head 10 rest = true
  /\ (forall int, parse_fraction int rest = Some (int, O, rest))
  /\ parse_exponent rest = Some (0%Z, rest).
Proof.
  destruct rest as [|c r]; cbn [number_end no_digit_head parse_fraction parse_exponent];
    [auto |].
  intros H. apply negb_true_iff in H.
  apply orb_false_iff in H as [H HE]. apply orb_false_iff in H as [H He].
  apply orb_false_iff in H as [Hd Hdot].
  unfold is_digit10 in Hd. rewrite Hd, Hdot, He, HE. auto.
Qed.

Lemma parse_exponent_text (e : Z) (rest : string) :
  number_end rest = true ->
  parse_exponent
    (("e" ++ (if (e <? 0)%Z then "-" else "+") ++ decimal (Z.abs_N e)) ++ rest)
  = Some (e, rest).
Proof.
  intros Hend. destruct (number_end_facts rest Hend) as (Hnd & _).
  destruct (NumFacts.read_to_radix 10 ltac:(lia) ltac:(lia) (Z.abs_N e) rest Hnd)
    as [k Hread].
  fold (decimal (Z.abs_N e)) in Hread.
  rewrite !StrFacts.append_assoc.
  destruct (Z.ltb_spec e 0) as [Hneg|Hpos]; cbn [append parse_exponent];
    change (Ascii.eqb "e" "e" || Ascii.eqb "e" "E") with true; cbv iota.
  - change (Ascii.eqb "-" "-") with true. cbv iota beta.
    rewrite Hread. f_equal. f_equal. lia.
  - change (Ascii.eqb "+" "-") with false. cbv iota.
    change (Ascii.eqb "+" "+") with true. cbv iota beta.
    rewrite Hread. f_equal. f_equal. lia.
Qed.

Lemma exponent_head (e : Z) (rest : string) :
  exists r,
    ("e" ++ (if (e <? 0)%Z then "-" else "+") ++ decimal (Z.abs_N e)) ++ rest
    = String "e" r.
Proof. rewrite StrFacts.append_assoc. cbn [append]. eauto. Qed.

Lemma parse_integer_digits (d0 : ascii) (s rest : string) :
  all_digits (String d0 s) = true -> Ascii.eqb d0 "0" = false ->
  no_digit_head 10 rest = true ->
  parse_integer (String d0 s ++ rest)
  = Some (digits_value 0 (String d0 s), rest).
Proof.
  intros Hds Hnz Hrest. unfold parse_integer. cbn [append]. rewrite Hnz.
  change (String d0 (s ++ rest)) with (String d0 s ++ rest).
  rewrite (DoubleFacts.read_all_digits _ _ Hds Hrest). reflexivity.
Qed.

Lemma parse_fraction_digits (int : N) (ds rest : string) :
  all_digits ds = true -> ds <> "" -> no_digit_head 10 rest = true ->
  parse_fraction int (String "." (ds ++ rest))
  = Some (digits_value int ds, String.length ds, rest).
Proof.
  intros Hds Hne Hrest. cbn [parse_fraction].
  change (Ascii.eqb "." ".") with true. cbv iota.
  rewrite (DoubleFacts.read_all_digits _ _ Hds Hrest).
  destruct ds as [|c ds]; [congruence | reflexivity].
Qed.

Section Digits.

Variable neg : bool.
Variables (d0 : ascii) (s rest : string).
Hypothesis digits : all_digits (String d0 s) = true.
Hypothesis nonzero : Ascii.eqb d0 "0" = false.
Hypothesis ends : number_end rest = true.

Let c : N := digits_value 0 (String d0 s).

Lemma format_integer (j : nat) :
  parse_magnitude neg ((String d0 s ++ zeros j) ++ rest)
  = Some (of_decimal neg (c * 10 ^ N.of_nat j) 0, rest).
Proof.
  destruct (number_end_facts rest ends) as (Hnd & Hfrac & Hexp).
  unfold parse_magnitude.
  change ((String d0 s ++ zeros j) ++ rest)
    with (String d0 (s ++ zeros j) ++ rest).
  rewrite parse_integer_digits; [| | exact nonzero | exact Hnd].
  - rewrite Hfrac, Hexp.
    change (String d0 (s ++ zeros j)) with (String d0 s ++ zeros j).
    rewrite (DoubleFacts.digits_value_app _ _ digits),
      DoubleFacts.digits_value_zeros.
    reflexivity.
  - change (String d0 (s ++ zeros j)) with (String d0 s ++ zeros j).
    now rewrite DoubleFacts.all_digits_app, digits, DoubleFacts.all_digits_zeros.
Qed.

Lemma format_point (n : nat) :
  (n < String.length s)%nat ->
  parse_magnitude neg
    ((take (S n) (String d0 s) ++ "." ++ drop (S n) (String d0 s)) ++ rest)
  = Some (of_decimal neg c (- Z.of_nat (String.length s - n)), rest).
Proof.
  intros Hn. destruct (number_end_facts rest ends) as (Hnd & Hfrac & Hexp).
  pose proof (DoubleFacts.all_digits_take (S n) _ digits) as Htake.
  pose proof (DoubleFacts.all_digits_drop (S n) _ digits) as Hdrop.
  pose proof (DoubleFacts.take_drop (S n) (String d0 s)) as Hsplit.
  pose proof (DoubleFacts.length_drop (S n) (String d0 s)) as Hlen.
  cbn [take drop String.length] in *.
  unfold parse_magnitude.
  rewrite !StrFacts.append_assoc. cbn [append].
  change (String d0 (take n s ++ String "." (drop n s ++ rest)))
    with (String d0 (take n s) ++ String "." (drop n s ++ rest)).
  rewrite parse_integer_digits by (assumption || reflexivity).
  rewrite parse_fraction_digits;
    [| exact Hdrop
     | intros Hempty; rewrite Hempty in Hlen; cbn in Hlen; lia
     | exact Hnd].
  rewrite Hexp.
  rewrite <- (DoubleFacts.digits_value_app _ _ Htake).
  cbn [append]. cbn [append] in Hsplit. rewrite Hsplit, Hlen.
  f_equal.
Qed.

Lemma format_small (z : nat) :
  parse_magnitude neg (("0." ++ zeros z ++ String d0 s) ++ rest)
  = Some (of_decimal neg c (- Z.of_nat (z + S (String.length s))), rest).
Proof.
  destruct (number_end_facts rest ends) as (Hnd & Hfrac & Hexp).
  unfold parse_magnitude.
  change (("0." ++ zeros z ++ String d0 s) ++ rest)
    with (String "0" (String "." ((zeros z ++ String d0 s) ++ rest))).
  cbn [parse_integer].
  change (Ascii.eqb "0" "0") with true. cbv iota.
  rewrite parse_fraction_digits; [| | | exact Hnd].
  - rewrite Hexp.
    rewrite (DoubleFacts.digits_value_app _ _ (DoubleFacts.all_digits_zeros z)),
      DoubleFacts.digits_value_zeros, N.mul_0_l.
    rewrite StrFacts.length_append, DoubleFacts.length_zeros.
    reflexivity.
  - now rewrite DoubleFacts.all_digits_app, DoubleFacts.all_digits_zeros, digits.
  - destruct z; discriminate.
Qed.

Lemma format_exponent (e : Z) :
  let exponent :=
    "e" ++ (if (e <? 0)%Z then "-" else "+") ++ decimal (Z.abs_N e) in
  parse_magnitude neg
    (match String d0 s with
     | String d EmptyString => String d0 s ++ exponent
     | String d r => String d ("." ++ r) ++ exponent
     | EmptyString => exponent
     end ++ rest)
  = Some (of_decimal neg c (e - Z.of_nat (String.length s)), rest).
Proof.
  intros exponent.
  destruct (exponent_head e rest) as [r Hr]. fold exponent in Hr.
  pose proof (parse_exponent_text e rest ends) as Hexp. fold exponent in Hexp.
  assert (Hd0 : all_digits (String d0 "") = true).
  { cbn [all_digits] in *. apply andb_true_iff in digits as [-> _]. reflexivity. }
  unfold parse_magnitude.
  destruct s as [|d1 s1] eqn:Hs.
  - rewrite StrFacts.append_assoc.
    rewrite parse_integer_digits; [| exact Hd0 | exact nonzero | now rewrite Hr].
    rewrite Hr. cbn [parse_fraction].
    change (Ascii.eqb "e" ".") with false. cbv iota.
    rewrite <- Hr, Hexp. reflexivity.
  - rewrite StrFacts.append_assoc. cbn [append].
    change (String d0 (String "." (String d1 (s1 ++ exponent ++ rest))))
      with (String d0 "" ++ String "." (String d1 s1 ++ exponent ++ rest)).
    assert (Hs1 : all_digits (String d1 s1) = true).
    { cbn [all_digits] in digits |- *.
      apply andb_true_iff in digits as [_ H]. exact H. }
    rewrite parse_integer_digits by (assumption || reflexivity).
    rewrite parse_fraction_digits;
      [| exact Hs1 | discriminate | now rewrite Hr].
    rewrite Hexp.
    rewrite <- (DoubleFacts.digits_value_app _ _ Hd0).
    reflexivity.
Qed.

End Digits.

(** The text of a decimal is read as the number of that decimal. *)
Lemma parse_magnitude_format (neg : bool) (c : N) (x : Z) (rest : string) :
  (0 < c)%N -> number_end rest = true ->
  parse_magnitude neg
    (format (decimal c) (x + Z.of_nat (String.length (decimal c))) ++ rest)
  = Some (of_decimal neg c x, rest).
Proof.
  intros Hc Hend.
  pose proof (DoubleFacts.decimal_digits c) as Hds.
  pose proof (DoubleFacts.decimal_value c) as Hval.
  destruct (DoubleFacts.decimal_head c Hc) as (d & s & Hd0 & Hd & Hs).
  pose proof (DoubleFacts.digit_char_nonzero d Hd0 Hd) as Hnz.
  rewrite Hs in *. set (d0 := Num.digit_char d) in *. clearbody d0.
  unfold format.
  set (k := Z.of_nat (String.length (String d0 s))).
  assert (Hk : k = (Z.of_nat (String.length s) + 1)%Z)
    by (unfold k; cbn [String.length]; lia).
  destruct (Z.leb_spec k (x + k)) as [H1|H1];
    [destruct (Z.leb_spec (x + k) 21) as [H2|H2] |]; cbn [andb].
  - rewrite (format_integer neg d0 s rest Hds Hnz Hend), Hval.
    rewrite <- (DoubleFacts.of_decimal_shift neg c x) by lia.
    do 4 f_equal. rewrite <- Z_nat_N. do 2 f_equal. lia.
  - destruct (Z.ltb_spec 0 (x + k)); [| lia]. cbn [andb].
    destruct (Z.ltb_spec (-6) (x + k)); [| lia].
    destruct (Z.leb_spec (x + k) 0); [lia |]. cbn [andb].
    rewrite (format_exponent neg d0 s rest Hds Hnz Hend), Hval.
    do 3 f_equal. lia.
  - destruct (Z.ltb_spec 0 (x + k)) as [H3|H3];
      [destruct (Z.leb_spec (x + k) 21) as [H4|H4] |]; cbn [andb].
    + destruct (Z.to_nat (x + k)) as [|n] eqn:Hn; [lia |].
      rewrite (format_point neg d0 s rest Hds Hnz Hend n) by lia.
      rewrite Hval. do 3 f_equal. lia.
    + destruct (Z.ltb_spec (-6) (x + k)); [| lia].
      destruct (Z.leb_spec (x + k) 0); [lia |]. cbn [andb].
      rewrite (format_exponent neg d0 s rest Hds Hnz Hend), Hval.
      do 3 f_equal. lia.
    + destruct (Z.ltb_spec (-6) (x + k)) as [H5|H5];
        [destruct (Z.leb_spec (x + k) 0) as [H6|H6]; [| lia] |]; cbn [andb].
      * rewrite (format_small neg d0 s rest Hds Hend), Hval.
        do 3 f_equal. lia.
      * rewrite (format_exponent neg d0 s rest Hds Hnz Hend), Hval.
        do 3 f_equal. lia.
Qed.

(** The first character of the text of a decimal is a digit. *)
Lemma format_head (ds : string) (n : Z) :
  all_digits ds = true -> ds <> "" ->
  exists d r, format ds n = String d r /\ Num.is_digit 10 d = true.
Proof.
  intros Hds Hne. destruct ds as [|d0 s]; [congruence |].
  assert (Hd0 : Num.is_digit 10 d0 = true).
  { cbn in Hds. now apply andb_true_iff in Hds as [-> _]. }
  unfold format.
  destruct ((Z.of_nat (String.length (String d0 s)) <=? n)%Z && (n <=? 21)%Z).
  - cbn [append]. eauto.
  - destruct ((0 <? n)%Z && (n <=? 21)%Z) eqn:Hpoint.
    + apply andb_true_iff in Hpoint as [Hpos _]. apply Z.ltb_lt in Hpos.
      destruct (Z.to_nat n) as [|m] eqn:Hm; [lia |].
      cbn [take append]. eauto.
    + destruct ((-6 <? n)%Z && (n <=? 0)%Z).
      * cbn [append]. eexists; eexists; split; reflexivity.
      * destruct s; cbn [append]; eauto.
Qed.

(** The text of a finite number is read back as that number. *)
Lemma parse_number_toString (v : double) (rest : string) :
  finite v = true -> valid v = true -> number_end rest = true ->
  parse_number (Double.toString v ++ rest) = Some (v, rest).
Proof.
  intros Hfin Hvalid Hend.
  destruct v as [|s| |neg m e]; try discriminate.
  - destruct (number_end_facts rest Hend) as (_ & Hfrac & Hexp).
    cbn [Double.toString append parse_number].
    change (Ascii.eqb "0" "-") with false. cbv iota.
    unfold parse_magnitude. cbn [parse_integer].
    change (Ascii.eqb "0" "0") with true. cbv iota.
    rewrite Hfrac, Hexp. reflexivity.
  - cbn [Double.toString].
    destruct (shortest neg m e) as [c x] eqn:Hshort.
    destruct (DoubleFacts.shortest_sound _ _ _ _ _ Hvalid Hshort) as [Hc Hv].
    pose proof (parse_magnitude_format true c x rest Hc Hend) as Hminus.
    pose proof (parse_magnitude_format false c x rest Hc Hend) as Hplus.
    destruct neg.
    + cbn [append parse_number].
      change (Ascii.eqb "-" "-") with true. cbv iota.
      now rewrite Hminus, Hv.
    + cbn [append].
      destruct (DoubleFacts.decimal_length c) as [k Hk].
      destruct (format_head (decimal c)
                  (x + Z.of_nat (String.length (decimal c)))
                  (DoubleFacts.decimal_digits c)
                  ltac:(intros H0; rewrite H0 in Hk; discriminate))
        as (d & r & Hr & Hd).
      destruct (DoubleFacts.digit_facts d Hd) as (Hnm & _).
      rewrite Hr in *. cbn [append parse_number] in *.
      now rewrite Hnm, Hplus, Hv.
Qed.

End NumberFacts.

(** ** Values and their texts *)

Module JsonFacts.

Import JS JSON Spec.
Local Open Scope N_scope.

(** ** String literals *)

Lemma parse_chars_escape_char (c : ascii) (tail : string) :
  parse_chars (escape_char c ++ tail)
  = prepend (String c EmptyString) (parse_chars tail).
Proof.
  destruct c as [b0 b1 b2 b3 b4 b5 b6 b7].
  destruct b0, b1, b2, b3, b4, b5, b6, b7; reflexivity.
Qed.

Lemma parse_chars_escape (s rest : string) :
  parse_chars (escape s ++ String dquote rest) = Some (s, rest).
Proof.
  induction s as [|c s IH].
  - reflexivity.
  - cbn [escape]. rewrite StrFacts.append_assoc, parse_chars_escape_char, IH.
    reflexivity.
Qed.

(** ** Values *)

Lemma skip_ws_value (c : ascii) (s : string) :
  starts_value c = true ->
  skip_ws (String c s) = String c s
  /\ Ascii.eqb c "]" = false /\ Ascii.eqb c "}" = false.
Proof.
  unfold starts_value. intros H.
  apply andb_true_iff in H as [H H3]. apply andb_true_iff in H as [H1 H2].
  apply negb_true_iff in H1, H2, H3. simpl. rewrite H1. auto.
Qed.

Lemma digit_starts_value (c : ascii) :
  Num.is_digit 10 c = true -> starts_value c = true.
Proof.
  intros Hc. destruct (DoubleFacts.digit_facts c Hc) as (_ & _ & Hws & Hb & Hc').
  unfold starts_value. now rewrite Hws, Hb, Hc'.
Qed.

(** The first character of the text of a number: a minus sign or a digit,
    or the [n] of [null]. *)
Lemma number_text_head (n : Double.double) :
  Double.finite n = true ->
  exists c s, Double.toString n = String c s
              /\ Ascii.eqb c "-" || is_digit10 c = true.
Proof.
  destruct n as [|neg| |neg m e]; try discriminate; intros _.
  - eexists; eexists; split; reflexivity.
  - cbn [Double.toString]. destruct (Double.shortest neg m e) as [c x].
    destruct neg.
    + eexists; eexists; split; reflexivity.
    + destruct (DoubleFacts.decimal_length c) as [k Hk].
      destruct (NumberFacts.format_head (Double.decimal c)
                  (x + Z.of_nat (String.length (Double.decimal c)))
                  (DoubleFacts.decimal_digits c)
                  ltac:(intros H0; rewrite H0 in Hk; discriminate))
        as (d & r & Hr & Hd).
      rewrite Hr. exists d, r. split; [reflexivity |].
      unfold is_digit10. rewrite Hd. apply orb_true_r.
Qed.

Lemma text_of_head (v : JValue) :
  exists c s, text_of v = String c s /\ starts_value c = true.
Proof.
  destruct v as [| |[|]|n|s|items|ms|name];
    try (eexists; eexists; split; [reflexivity | reflexivity]).
  cbn [text_of]. destruct (Double.finite n) eqn:Hfin.
  - destruct (number_text_head n Hfin) as (c & s & Hs & Hc).
    exists c, s. split; [exact Hs |].
    destruct (Ascii.eqb_spec c "-") as [->|_]; [reflexivity |].
    cbn [orb] in Hc. now apply digit_starts_value.
  - eexists; eexists; split; reflexivity.
Qed.

Lemma skip_ws_text (v : JValue) (tail : string) :
  skip_ws (text_of v ++ tail) = text_of v ++ tail.
Proof.
  destruct (text_of_head v) as (c & s & -> & Hc).
  cbn [append]. now apply skip_ws_value.
Qed.

(** ** Objects without a repeated key *)

Lemma distinct_middle (l1 : list string) (k : string) (l2 : list string) :
  distinct (l1 ++ k :: l2)%list = true ->
  existsb (fun k' => String.eqb k' k) l1 = false.
Proof.
  induction l1 as [|a l1 IH]; simpl; [reflexivity |].
  intros H. apply andb_true_iff in H as [Ha Hd].
  rewrite (IH Hd), orb_false_r.
  apply negb_true_iff in Ha. unfold Str.includes in Ha.
  destruct (String.eqb_spec a k) as [->|]; [|reflexivity].
  rewrite existsb_app in Ha. simpl in Ha.
  rewrite String.eqb_refl, orb_true_r in Ha. discriminate.
Qed.

Lemma ordered_middle (l1 : list string) (k : string) (l2 : list string) :
  ordered (l1 ++ k :: l2)%list = true ->
  forallb (fun k' => negb (goes_before k k')) l1 = true.
Proof.
  induction l1 as [|a l1 IH]; simpl; [reflexivity |].
  intros H. apply andb_true_iff in H as [Ha Ho].
  rewrite (IH Ho), andb_true_r.
  rewrite forallb_app in Ha. apply andb_true_iff in Ha as [_ Ha].
  simpl in Ha. now apply andb_true_iff in Ha as [Ha _].
Qed.

Lemma has_key_keys (o : JObject) (k : string) :
  has_key o k = existsb (fun k' => String.eqb k' k) (map fst o).
Proof.
  unfold has_key. induction o as [|[k' v'] o IH]; simpl; [reflexivity |].
  now rewrite IH.
Qed.

Lemma insert_key_last (o : JObject) (k : string) (v : JValue) :
  forallb (fun k' => negb (goes_before k k')) (map fst o) = true ->
  insert_key o k v = (o ++ [(k, v)])%list.
Proof.
  induction o as [|[k' v'] o IH]; simpl; [reflexivity |].
  intros H. apply andb_true_iff in H as [Hk Ho].
  apply negb_true_iff in Hk. rewrite Hk, (IH Ho). reflexivity.
Qed.

(** A new key that no key of the object comes after is listed last. *)
Lemma set_prop_new (o : JObject) (k : string) (v : JValue) :
  existsb (fun k' => String.eqb k' k) (map fst o) = false ->
  forallb (fun k' => negb (goes_before k k')) (map fst o) = true ->
  set_prop o k v = (o ++ [(k, v)])%list.
Proof.
  intros Hnew Hlast. unfold set_prop, put.
  rewrite has_key_keys, Hnew. now apply insert_key_last.
Qed.

Lemma object_of_distinct (ms : list (string * JValue)) :
  distinct (map fst ms) = true -> ordered (map fst ms) = true ->
  object_of ms = ms.
Proof.
  unfold object_of.
  enough (H : forall acc,
             distinct (map fst (acc ++ ms)%list) = true ->
             ordered (map fst (acc ++ ms)%list) = true ->
             fold_left (fun o m => set_prop o (fst m) (snd m)) ms acc
             = (acc ++ ms)%list)
    by (apply (H [])).
  induction ms as [|[k v] ms IH]; intros acc Hd Ho; simpl.
  - now rewrite app_nil_r.
  - pose proof Hd as Hd'. pose proof Ho as Ho'.
    rewrite map_app in Hd', Ho'. simpl in Hd', Ho'.
    rewrite set_prop_new
      by (apply (distinct_middle _ _ _ Hd') || apply (ordered_middle _ _ _ Ho')).
    rewrite IH; rewrite <- app_assoc; [reflexivity | exact Hd | exact Ho].
Qed.

(** ** Induction on values *)

Lemma JValue_induction (P : JValue -> Prop) :
  P JUndefined -> P JNull -> (forall b, P (JBool b)) -> (forall n, P (JNum n)) ->
  (forall s, P (JStr s)) ->
  (forall items, Forall P items -> P (JArr items)) ->
  (forall members, Forall (fun m => P (snd m)) members -> P (JObj members)) ->
  (forall name, P (JBuiltin name)) ->
  forall v, P v.
Proof.
  intros Hu Hn Hb Hz Hs Ha Ho Hf.
  fix IH 1. intros [| |b|n|s|items|members|name].
  - exact Hu.
  - exact Hn.
  - apply Hb.
  - apply Hz.
  - apply Hs.
  - apply Ha. induction items as [|x items IHitems]; constructor;
      [apply IH | exact IHitems].
  - apply Ho. induction members as [|[k x] members IHm]; constructor;
      [apply IH | exact IHm].
  - apply Hf.
Qed.

(** ** Reading back *)

Lemma elements_text_cons (v : JValue) (items : list JValue) :
  elements_text (v :: items)
  = match items with
    | [] => text_of v
    | _ :: _ => text_of v ++ String "," (elements_text items)
    end.
Proof. destruct items; reflexivity. Qed.

Lemma members_text_cons (m : string * JValue) (members : list (string * JValue)) :
  members_text (m :: members)
  = match members with
    | [] => member_text m
    | _ :: _ => member_text m ++ String "," (members_text members)
    end.
Proof. destruct members; reflexivity. Qed.

Lemma parse_elements_text (items : list JValue) :
  items <> [] -> Forall reads_back items ->
  forall (fuel : nat) (rest : string),
    (2 * String.length (elements_text items) + 1 < fuel)%nat ->
    parse_elements fuel (elements_text items ++ String "]" rest)
    = Some (items, rest).
Proof.
  induction items as [|v items IH]; [congruence |].
  intros _ Hall fuel rest Hfuel.
  inversion Hall as [|? ? Hv Hitems]; subst.
  destruct fuel as [|f]; [lia |].
  rewrite elements_text_cons in *.
  destruct items as [|w items].
  - cbn [parse_elements].
    rewrite (Hv f (String "]" rest)) by (lia || reflexivity).
    reflexivity.
  - rewrite StrFacts.length_append in Hfuel. cbn [String.length] in Hfuel.
    rewrite StrFacts.append_assoc. cbn [append parse_elements].
    rewrite (Hv f) by (lia || reflexivity).
    cbn [skip_ws is_ws]. cbn.
    fold (elements_text (w :: items)).
    destruct (text_of_head w) as (c & s & Hw & Hc).
    assert (Hskip : forall tail,
               skip_ws (elements_text (w :: items) ++ tail)
               = elements_text (w :: items) ++ tail).
    { intros tail. rewrite elements_text_cons.
      destruct items; [apply skip_ws_text |].
      rewrite StrFacts.append_assoc. apply skip_ws_text. }
    rewrite Hskip, IH; [reflexivity | discriminate | assumption | lia].
Qed.

Lemma member_text_shape (k : string) (v : JValue) (tail : string) :
  member_text (k, v) ++ tail
  = String dquote (escape k ++ String dquote (String ":" (text_of v ++ tail))).
Proof.
  unfold member_text, quote. cbn [fst snd append].
  rewrite !StrFacts.append_assoc. reflexivity.
Qed.

Lemma member_text_length (k : string) (v : JValue) :
  (String.length (text_of v) + 3 <= String.length (member_text (k, v)))%nat.
Proof.
  unfold member_text, quote. cbn [fst snd append String.length].
  rewrite !StrFacts.length_append. cbn [String.length]. lia.
Qed.

Lemma parse_members_text (members : list (string * JValue)) :
  members <> [] -> Forall (fun m => reads_back (snd m)) members ->
  forall (fuel : nat) (rest : string),
    (2 * String.length (members_text members) + 1 < fuel)%nat ->
    parse_members fuel (members_text members ++ String "}" rest)
    = Some (members, rest).
Proof.
  induction members as [|[k v] members IH]; [congruence |].
  intros _ Hall fuel rest Hfuel.
  inversion Hall as [|? ? Hv Hmembers]; subst. cbn [snd] in Hv.
  destruct fuel as [|f]; [lia |].
  pose proof (member_text_length k v) as Hlen.
  rewrite members_text_cons in *.
  destruct members as [|m members].
  - rewrite member_text_shape. cbn [parse_members].
    rewrite Ascii.eqb_refl, parse_chars_escape.
    cbn [skip_ws]. change (is_ws ":") with false. cbv iota.
    change (Ascii.eqb ":" ":") with true. cbv iota.
    rewrite skip_ws_text, (Hv f) by (lia || reflexivity).
    reflexivity.
  - rewrite StrFacts.length_append in Hfuel. cbn [String.length] in Hfuel.
    rewrite StrFacts.append_assoc. cbn [append].
    rewrite member_text_shape. cbn [parse_members].
    rewrite Ascii.eqb_refl, parse_chars_escape.
    cbn [skip_ws]. change (is_ws ":") with false. cbv iota.
    change (Ascii.eqb ":" ":") with true. cbv iota.
    rewrite skip_ws_text, (Hv f) by (lia || reflexivity).
    cbn [skip_ws]. change (is_ws ",") with false. cbv iota.
    change (Ascii.eqb "," ",") with true. cbv iota.
    assert (Hskip : forall tail,
               skip_ws (members_text (m :: members) ++ tail)
               = members_text (m :: members) ++ tail).
    { intros tail. rewrite members_text_cons. destruct m as [k' v'].
      destruct members; [|rewrite StrFacts.append_assoc];
        rewrite member_text_shape; reflexivity. }
    rewrite Hskip, IH; [reflexivity | discriminate | assumption | lia].
Qed.

Lemma is_json_serializable (v : JValue) : is_json v = true -> serializable v = true.
Proof. destruct v; simpl; congruence. Qed.

Lemma text_of_array (items : list JValue) :
  text_of (JArr items) = String "[" (elements_text items ++ "]").
Proof. reflexivity. Qed.

Lemma text_of_object (members : list (string * JValue)) :
  forallb (fun m => is_json (snd m)) members = true ->
  text_of (JObj members) = String "{" (members_text members ++ "}").
Proof.
  intros Hall. cbn [text_of append]. unfold members_text. do 3 f_equal.
  induction members as [|[k v] members IH]; [reflexivity |].
  simpl in Hall. apply andb_true_iff in Hall as [Hv Hms].
  cbn [flat_map map]. rewrite (is_json_serializable v Hv), (IH Hms).
  reflexivity.
Qed.

(** Every JSON value is read back from its text. *)
Lemma parse_value_text (v : JValue) : is_json v = true -> reads_back v.
Proof.
  induction v as [| |b|n|s|items IH|members IH|name] using JValue_induction;
    intros Hjson; try discriminate; intros fuel rest Hfuel Hend;
    (destruct fuel as [|f]; [lia |]).
  - reflexivity.
  - destruct b; reflexivity.
  - cbn [is_json] in Hjson. apply andb_true_iff in Hjson as [Hfin Hvalid].
    cbn [text_of]. rewrite Hfin.
    destruct (number_text_head n Hfin) as (c & s & Hs & Hc).
    pose proof (NumberFacts.parse_number_toString n rest Hfin Hvalid Hend) as Hnum.
    rewrite Hs in *. cbn [append parse_value] in *.
    rewrite Hc, Hnum. reflexivity.
  - cbn [text_of]. unfold quote. cbn [append parse_value].
    change (Ascii.eqb dquote "-" || is_digit10 dquote) with false. cbv iota.
    rewrite Ascii.eqb_refl, StrFacts.append_assoc. cbn [append].
    rewrite parse_chars_escape. reflexivity.
  - rewrite text_of_array in *. cbn [String.length] in Hfuel.
    rewrite StrFacts.length_append in Hfuel. cbn [String.length] in Hfuel.
    cbn [append parse_value].
    change (Ascii.eqb "[" "-" || is_digit10 "[") with false. cbv iota.
    change (Ascii.eqb "[" dquote) with false. cbv iota.
    change (Ascii.eqb "[" "[") with true. cbv iota.
    rewrite StrFacts.append_assoc. cbn [append].
    destruct items as [|w items]; [reflexivity |].
    assert (Hhead : exists c s,
               elements_text (w :: items) ++ String "]" rest = String c s
               /\ starts_value c = true).
    { rewrite elements_text_cons.
      destruct (text_of_head w) as (c & s & Hw & Hc).
      destruct items; [|rewrite StrFacts.append_assoc]; rewrite Hw;
        cbn [append]; eauto. }
    destruct Hhead as (c & s & Hs & Hc).
    destruct (skip_ws_value c s Hc) as (Hskip & Hclose & _).
    rewrite Hs, Hskip, Hclose, <- Hs.
    rewrite parse_elements_text; [reflexivity | discriminate | | lia].
    cbn [is_json] in Hjson. rewrite forallb_forall in Hjson.
    rewrite Forall_forall in IH |- *. intros x Hx. apply IH; auto.
  - cbn [is_json] in Hjson. apply andb_true_iff in Hjson as [Hjson Hord].
    apply andb_true_iff in Hjson as [Hall Hkeys].
    rewrite (text_of_object _ Hall) in *. cbn [String.length] in Hfuel.
    rewrite StrFacts.length_append in Hfuel. cbn [String.length] in Hfuel.
    cbn [append parse_value].
    change (Ascii.eqb "{" "-" || is_digit10 "{") with false. cbv iota.
    change (Ascii.eqb "{" dquote) with false. cbv iota.
    change (Ascii.eqb "{" "[") with false. cbv iota.
    change (Ascii.eqb "{" "{") with true. cbv iota.
    rewrite StrFacts.append_assoc. cbn [append].
    destruct members as [|[k w] members]; [reflexivity |].
    assert (Hhead : exists s,
               members_text ((k, w) :: members) ++ String "}" rest
               = String dquote s).
    { rewrite members_text_cons.
      destruct members; [|rewrite StrFacts.append_assoc];
        rewrite member_text_shape; eauto. }
    destruct Hhead as (s & Hs).
    rewrite Hs. cbn [skip_ws].
    change (is_ws dquote) with false. cbv iota.
    change (Ascii.eqb dquote "}") with false. cbv iota.
    rewrite <- Hs.
    rewrite parse_members_text; [| discriminate | | lia].
    + now rewrite (object_of_distinct _ Hkeys Hord).
    + rewrite forallb_forall in Hall.
      rewrite Forall_forall in IH |- *. intros x Hx. apply IH; auto.
Qed.

(** [JSON.parse(JSON.stringify(v))] is [v], for every JSON value [v]. *)
Lemma parse_stringify (v : JValue) :
  is_json v = true ->
  exists text, stringify v = Some text /\ parse text = Exc.ret v.
Proof.
  intros Hjson. exists (text_of v). split.
  - unfold stringify. now rewrite (is_json_serializable v Hjson).
  - unfold parse.
    pose proof (skip_ws_text v EmptyString) as Hskip.
    rewrite StrFacts.append_empty_r in Hskip. rewrite Hskip.
    pose proof (parse_value_text v Hjson (S (2 * String.length (text_of v)))
                  EmptyString ltac:(lia) eq_refl) as Hparse.
    rewrite StrFacts.append_empty_r in Hparse. rewrite Hparse. reflexivity.
Qed.

End JsonFacts.

(** ** The fuel of [JSON.parse] *)

Module FuelFacts.
Import JS JSON Spec.
Local Open Scope string_scope.

Lemma skip_ws_length (s : string) :
  (String.length (skip_ws s) <= String.length s)%nat.
Proof.
  induction s as [| c s IH]; cbn [skip_ws String.length]; [lia |].
  destruct (is_ws c); cbn [String.length]; lia.
Qed.

Lemma strip_prefix_length (p s rest : string) :
  strip_prefix p s = Some rest -> (String.length rest <= String.length s)%nat.
Proof.
  revert s; induction p as [| a p IH]; intros s H.
  - destruct s; cbn in H; injection H as <-; lia.
  - destruct s as [| b s]; cbn [strip_prefix] in H; [discriminate |].
    destruct (Ascii.eqb a b); [| discriminate].
    apply IH in H. cbn [String.length]. lia.
Qed.

Lemma read_digits_length (radix : N) (s : string) :
  forall acc count v k rest,
    Num.read_digits radix s acc count = (v, k, rest) ->
    (String.length rest + k = String.length s + count)%nat.
Proof.
  induction s as [| c s IH]; intros acc count v k rest H; cbn [Num.read_digits] in H.
  - injection H as _ <- <-. reflexivity.
  - destruct (Num.digit_val c) as [d |].
    + destruct (N.ltb d radix).
      * apply IH in H. cbn [String.length]. lia.
      * injection H as _ <- <-. reflexivity.
    + injection H as _ <- <-. reflexivity.
Qed.

Lemma parse_integer_length (s : string) (v : N) (rest : string) :
  parse_integer s = Some (v, rest) ->
  (String.length rest < String.length s)%nat.
Proof.
  unfold parse_integer. destruct s as [| c r]; [discriminate |].
  destruct (Ascii.eqb c "0").
  - intros H. injection H as _ <-. cbn [String.length]. lia.
  - destruct (Num.read_digits 10 (String c r) 0 O) as [[v' k] t] eqn:E.
    destruct k as [| k]; [discriminate |].
    intros H. injection H as _ <-. apply read_digits_length in E. lia.
Qed.

Lemma parse_fraction_length (int : N) (s : string) (v : N) (k : nat)
    (rest : string) :
  parse_fraction int s = Some (v, k, rest) ->
  (String.length rest <= String.length s)%nat.
Proof.
  unfold parse_fraction. destruct s as [| c r].
  - intros H. injection H as _ _ <-. lia.
  - destruct (Ascii.eqb c ".").
    + destruct (Num.read_digits 10 r int O) as [[v' k'] t] eqn:E.
      destruct k' as [| k']; [discriminate |].
      intros H. injection H as _ _ <-. apply read_digits_length in E.
      cbn [String.length]. lia.
    + intros H. injection H as _ _ <-. lia.
Qed.

Lemma parse_exponent_length (s : string) (x : Z) (rest : string) :
  parse_exponent s = Some (x, rest) ->
  (String.length rest <= String.length s)%nat.
Proof.
  unfold parse_exponent. destruct s as [| c r].
  - intros H. injection H as _ <-. lia.
  - destruct (_ || _).
    + assert (Hsign : forall neg r1,
                 (String.length r1 <= String.length r)%nat ->
                 match Num.read_digits 10 r1 0 O with
                 | (v, S _, rest0) =>
                     Some (if neg : bool then (- Z.of_N v)%Z else Z.of_N v, rest0)
                 | (_, O, _) => None
                 end = Some (x, rest) ->
                 (String.length rest <= String.length (String c r))%nat).
      { intros neg r1 Hr1.
        destruct (Num.read_digits 10 r1 0 O) as [[v' k'] t] eqn:E.
        destruct k' as [| k']; [discriminate |].
        intros H. injection H as _ <-. apply read_digits_length in E.
        cbn [String.length]. lia. }
      destruct r as [| c1 r']; [apply (Hsign false ""); lia |].
      destruct (Ascii.eqb c1 "-");
        [apply (Hsign true r'); cbn [String.length]; lia |].
      destruct (Ascii.eqb c1 "+");
        [apply (Hsign false r') | apply (Hsign false (String c1 r'))];
        cbn [String.length]; lia.
    + intros H. injection H as _ <-. lia.
Qed.

Lemma parse_magnitude_length (neg : bool) (s : string) (z : Double.double)
    (rest : string) :
  parse_magnitude neg s = Some (z, rest) ->
  (String.length rest < String.length s)%nat.
Proof.
  unfold parse_magnitude.
  destruct (parse_integer s) as [[int r1] |] eqn:Hint; [| discriminate].
  destruct (parse_fraction int r1) as [[[digits k] r2] |] eqn:Hfrac;
    [| discriminate].
  destruct (parse_exponent r2) as [[x r3] |] eqn:Hexp; [| discriminate].
  intros H. injection H as _ <-.
  apply parse_integer_length in Hint. apply parse_fraction_length in Hfrac.
  apply parse_exponent_length in Hexp. lia.
Qed.

Lemma parse_number_length (s : string) (z : Double.double) (rest : string) :
  parse_number s = Some (z, rest) -> (String.length rest < String.length s)%nat.
Proof.
  unfold parse_number. destruct s as [| c r]; [discriminate |].
  destruct (Ascii.eqb c "-"); intros H; apply parse_magnitude_length in H;
    cbn [String.length] in *; lia.
Qed.

Lemma prepend_length (out : string) (r : option (string * string))
    (k rest : string) (bound : nat) :
  prepend out r = Some (k, rest) ->
  (forall k' rest', r = Some (k', rest') -> (String.length rest' < bound)%nat) ->
  (String.length rest < bound)%nat.
Proof.
  destruct r as [[k' rest'] |]; cbn [prepend]; [| discriminate].
  intros H Hr. injection H as _ <-. apply (Hr k'). reflexivity.
Qed.

Lemma parse_chars_length (n : nat) :
  forall s k rest,
    (String.length s <= n)%nat -> parse_chars s = Some (k, rest) ->
    (String.length rest < String.length s)%nat.
Proof.
  induction n as [| n IH]; intros s k rest Hn H.
  - destruct s; [discriminate | cbn [String.length] in Hn; lia].
  - destruct s as [| c r]; [discriminate |].
    cbn [String.length] in Hn.
    assert (Hrec : forall t, (String.length t <= String.length r)%nat ->
                     forall out, prepend out (parse_chars t) = Some (k, rest) ->
                     (String.length rest < String.length (String c r))%nat).
    { intros t Ht out Hp. cbn [String.length].
      enough (String.length rest < S (String.length t))%nat by lia.
      eapply prepend_length; [exact Hp |].
      intros k' rest' E. apply IH in E; lia. }
    cbn [parse_chars] in H.
    destruct (Ascii.eqb c dquote).
    { injection H as _ <-. cbn [String.length]. lia. }
    destruct (Ascii.eqb c backslash).
    2:{ destruct (N_of_ascii c <? 32)%N; [discriminate |].
        eapply Hrec; [| exact H]. lia. }
    destruct r as [| e r1]; [discriminate |].
    destruct (Ascii.eqb e "u").
    2:{ destruct (simple_escape e); [| discriminate].
        eapply Hrec; [| exact H]. cbn [String.length]. lia. }
    destruct r1 as [| h1 [| h2 [| h3 [| h4 r5]]]]; try discriminate.
    destruct (hex4_val h1 h2 h3 h4) as [u |]; [| discriminate].
    assert (H5 : forall out, prepend out (parse_chars r5) = Some (k, rest) ->
                 (String.length rest < String.length (String c (String e
                    (String h1 (String h2 (String h3 (String h4 r5)))))))%nat).
    { intros out Hp. eapply Hrec; [| exact Hp]. cbn [String.length]. lia. }
    destruct (is_high_surrogate u); [| exact (H5 _ H)].
    destruct r5 as [| b [| e' [| k1 [| k2 [| k3 [| k4 r11]]]]]];
      try exact (H5 _ H).
    destruct (hex4_val k1 k2 k3 k4) as [lo |]; [| exact (H5 _ H)].
    destruct (_ && _); [| exact (H5 _ H)].
    eapply Hrec; [| exact H]. cbn [String.length]. lia.
Qed.

Lemma parse_chars_shorter (s k rest : string) :
  parse_chars s = Some (k, rest) -> (String.length rest < String.length s)%nat.
Proof. apply (parse_chars_length (String.length s)). lia. Qed.


Lemma parse_shrinks (fuel : nat) :
  shrinks (parse_value fuel) /\ shrinks (parse_elements fuel)
  /\ shrinks (parse_members fuel).
Proof.
  induction fuel as [| f [IHv [IHe IHm]]].
  { repeat split; intros s x rest H; discriminate. }
  split; [| split]; intros s x rest H.
  - cbn [parse_value] in H. destruct s as [| c r]; [discriminate |].
    pose proof (skip_ws_length r) as Hws.
    destruct (_ || _).
    { destruct (parse_number (String c r)) as [[z t] |] eqn:E; [| discriminate].
      injection H as _ <-. exact (parse_number_length _ _ _ E). }
    destruct (Ascii.eqb c dquote).
    { destruct (parse_chars r) as [[k t] |] eqn:E; [| discriminate].
      injection H as _ <-. apply parse_chars_shorter in E.
      cbn [String.length]. lia. }
    destruct (Ascii.eqb c "[").
    { destruct (skip_ws r) as [| c' r'] eqn:E; [discriminate |].
      cbn [String.length] in *.
      destruct (Ascii.eqb c' "]").
      - injection H as _ <-. lia.
      - destruct (parse_elements f (String c' r')) as [[items t] |] eqn:E2;
          [| discriminate].
        injection H as _ <-. apply IHe in E2. cbn [String.length] in E2. lia. }
    destruct (Ascii.eqb c "{").
    { destruct (skip_ws r) as [| c' r'] eqn:E; [discriminate |].
      cbn [String.length] in *.
      destruct (Ascii.eqb c' "}").
      - injection H as _ <-. lia.
      - destruct (parse_members f (String c' r')) as [[ms t] |] eqn:E2;
          [| discriminate].
        injection H as _ <-. apply IHm in E2. cbn [String.length] in E2. lia. }
    cbn [String.length].
    destruct (Ascii.eqb c "n").
    { destruct (strip_prefix "ull" r) as [t |] eqn:E; [| discriminate].
      injection H as _ <-. apply strip_prefix_length in E. lia. }
    destruct (Ascii.eqb c "t").
    { destruct (strip_prefix "rue" r) as [t |] eqn:E; [| discriminate].
      injection H as _ <-. apply strip_prefix_length in E. lia. }
    destruct (Ascii.eqb c "f"); [| discriminate].
    destruct (strip_prefix "alse" r) as [t |] eqn:E; [| discriminate].
    injection H as _ <-. apply strip_prefix_length in E. lia.
  - cbn [parse_elements] in H.
    destruct (parse_value f s) as [[v t] |] eqn:E; [| discriminate].
    apply IHv in E. pose proof (skip_ws_length t) as Hws.
    destruct (skip_ws t) as [| c r]; [discriminate |].
    cbn [String.length] in Hws.
    destruct (Ascii.eqb c ",").
    + pose proof (skip_ws_length r) as Hws2.
      destruct (parse_elements f (skip_ws r)) as [[vs t'] |] eqn:E2; [| discriminate].
      injection H as _ <-. apply IHe in E2. lia.
    + destruct (Ascii.eqb c "]"); [| discriminate].
      injection H as _ <-. lia.
  - cbn [parse_members] in H. destruct s as [| q r]; [discriminate |].
    destruct (Ascii.eqb q dquote); [| discriminate].
    destruct (parse_chars r) as [[k t] |] eqn:E; [| discriminate].
    apply parse_chars_shorter in E. pose proof (skip_ws_length t) as Hws.
    destruct (skip_ws t) as [| c2 r2]; [discriminate |].
    cbn [String.length] in *.
    destruct (Ascii.eqb c2 ":"); [| discriminate].
    pose proof (skip_ws_length r2) as Hws2.
    destruct (parse_value f (skip_ws r2)) as [[v t2] |] eqn:E2; [| discriminate].
    apply IHv in E2. pose proof (skip_ws_length t2) as Hws3.
    destruct (skip_ws t2) as [| c3 r3]; [discriminate |].
    cbn [String.length] in *.
    destruct (Ascii.eqb c3 ",").
    + pose proof (skip_ws_length r3) as Hws4.
      destruct (parse_members f (skip_ws r3)) as [[ms t'] |] eqn:E3; [| discriminate].
      injection H as _ <-. apply IHm in E3. lia.
    + destruct (Ascii.eqb c3 "}"); [| discriminate].
      injection H as _ <-. lia.
Qed.

Lemma parse_steady (fuel : nat) :
  steady parse_value 0 fuel /\ steady parse_elements 1 fuel
  /\ steady parse_members 1 fuel.
Proof.
  induction fuel as [| f [IHv [IHe IHm]]].
  { repeat split; intros fuel' s H; lia. }
  split; [| split]; intros fuel' s H H'.
  - destruct fuel' as [| f']; [lia |].
    cbn [parse_value]. destruct s as [| c r]; [reflexivity |].
    cbn [String.length] in H, H'.
    pose proof (skip_ws_length r) as Hws.
    destruct (_ || _); [reflexivity |].
    destruct (Ascii.eqb c dquote); [reflexivity |].
    destruct (Ascii.eqb c "[").
    { destruct (skip_ws r) as [| c' r'] eqn:E; [reflexivity |].
      destruct (Ascii.eqb c' "]"); [reflexivity |].
      rewrite (IHe f' (String c' r')); [reflexivity | lia | lia]. }
    destruct (Ascii.eqb c "{"); [| reflexivity].
    destruct (skip_ws r) as [| c' r'] eqn:E; [reflexivity |].
    destruct (Ascii.eqb c' "}"); [reflexivity |].
    rewrite (IHm f' (String c' r')); [reflexivity | lia | lia].
  - destruct fuel' as [| f']; [lia |].
    cbn [parse_elements].
    rewrite (IHv f' s) by lia.
    destruct (parse_value f' s) as [[v t] |] eqn:E; [| reflexivity].
    apply (proj1 (parse_shrinks f')) in E.
    pose proof (skip_ws_length t) as Hws.
    destruct (skip_ws t) as [| c r]; [reflexivity |].
    cbn [String.length] in Hws.
    destruct (Ascii.eqb c ","); [| reflexivity].
    pose proof (skip_ws_length r) as Hws2.
    rewrite (IHe f' (skip_ws r)); [reflexivity | lia | lia].
  - destruct fuel' as [| f']; [lia |].
    cbn [parse_members]. destruct s as [| q r]; [reflexivity |].
    cbn [String.length] in H, H'.
    destruct (Ascii.eqb q dquote); [| reflexivity].
    destruct (parse_chars r) as [[k t] |] eqn:E; [| reflexivity].
    apply parse_chars_shorter in E. pose proof (skip_ws_length t) as Hws.
    destruct (skip_ws t) as [| c2 r2]; [reflexivity |].
    cbn [String.length] in Hws.
    destruct (Ascii.eqb c2 ":"); [| reflexivity].
    pose proof (skip_ws_length r2) as Hws2.
    rewrite (IHv f' (skip_ws r2)) by lia.
    destruct (parse_value f' (skip_ws r2)) as [[v t2] |] eqn:E2; [| reflexivity].
    apply (proj1 (parse_shrinks f')) in E2.
    pose proof (skip_ws_length t2) as Hws3.
    destruct (skip_ws t2) as [| c3 r3]; [reflexivity |].
    cbn [String.length] in Hws3.
    destruct (Ascii.eqb c3 ","); [| reflexivity].
    pose proof (skip_ws_length r3) as Hws4.
    rewrite (IHm f' (skip_ws r3)); [reflexivity | lia | lia].
Qed.

(** The fuel [JSON.parse] gives its parser is enough: more fuel reads the
    same value. *)
Lemma parse_fuel_enough (text : string) (fuel : nat) :
  (2 * String.length text < fuel)%nat ->
  parse_value fuel (skip_ws text)
  = parse_value (S (2 * String.length text)) (skip_ws text).
Proof.
  intros H. pose proof (skip_ws_length text) as Hws.
  apply (proj1 (parse_steady fuel)); lia.
Qed.

End FuelFacts.

(* ===================================================================== *)
(** * Part XVII.  The text of a claims object is well-formed               *)
(* ===================================================================== *)

Module Utf8Facts.

Import Buf Spec.
Local Open Scope N_scope.

Lemma step_settled (st : utf8_state) (c : ascii) :
  settled (snd (utf8_step st c)).
Proof.
  unfold utf8_step, utf8_lead, settled.
  destruct (needed st) as [|[|k]];
    repeat match goal with
           | |- context [if ?b then _ else _] => destruct b
           end; simpl; intros; congruence.
Qed.

Lemma step_expecting (st : utf8_state) (c : ascii) :
  expecting (snd (utf8_step st c)).
Proof.
  unfold utf8_step, utf8_lead, expecting.
  destruct (needed st) as [|[|k]];
    repeat match goal with
           | |- context [if ?b then _ else _] => destruct b
           end; simpl; intros; try congruence; lia.
Qed.

(** An accepted byte is copied: at once, or with its character. *)
Lemma step_accepted (st : utf8_state) (c : ascii) :
  settled st -> utf8_accepts st c = true ->
  fst (utf8_step st c) ++ pending (snd (utf8_step st c))
  = pending st ++ String c EmptyString.
Proof.
  unfold settled, utf8_accepts, utf8_step, utf8_lead. intros Hst.
  destruct (needed st) as [|[|k]].
  - rewrite (Hst eq_refl). intros Hacc.
    destruct (N_of_ascii c <=? 127); [reflexivity |].
    simpl in Hacc. apply andb_true_iff in Hacc as [Hlo Hhi].
    apply N.leb_le in Hlo, Hhi.
    destruct (N.leb_spec 194 (N_of_ascii c)); [|lia].
    destruct (N.leb_spec (N_of_ascii c) 223); [reflexivity |].
    destruct (N.leb_spec 224 (N_of_ascii c)); [|lia].
    destruct (N.leb_spec (N_of_ascii c) 239); [reflexivity |].
    destruct (N.leb_spec 240 (N_of_ascii c)); [|lia].
    destruct (N.leb_spec (N_of_ascii c) 244); [reflexivity | lia].
  - intros ->. simpl. now rewrite StrFacts.append_empty_r.
  - intros ->. reflexivity.
Qed.

(** Decoding valid text copies it. *)
Lemma valid_run (bs : string) :
  forall st, settled st -> utf8_valid_from st bs = true ->
             utf8_run st bs = pending st ++ bs.
Proof.
  induction bs as [|c rest IH]; intros st Hst Hv.
  - simpl in *. apply Nat.eqb_eq in Hv. rewrite Hv, (Hst Hv). reflexivity.
  - cbn [utf8_valid_from] in Hv. apply andb_true_iff in Hv as [Hacc Hrest].
    cbn [utf8_run].
    pose proof (step_accepted st c Hst Hacc) as Hcopy.
    pose proof (IH _ (step_settled st c) Hrest) as Hrun.
    destruct (utf8_step st c) as [out st']. cbn [fst snd] in *.
    rewrite Hrun, <- StrFacts.append_assoc, Hcopy, StrFacts.append_assoc.
    reflexivity.
Qed.

Lemma utf8_valid_well_formed (s : string) :
  utf8_valid s = true -> well_formed s.
Proof.
  intros Hv. unfold well_formed, toString_utf8.
  now rewrite (valid_run s utf8_idle (fun _ => eq_refl) Hv).
Qed.

(** Between two characters the state is as good as the initial one. *)
Lemma valid_from_idle (st : utf8_state) (bs : string) :
  needed st = O -> utf8_valid_from st bs = utf8_valid bs.
Proof.
  intros Hn. unfold utf8_valid.
  destruct bs as [|c rest]; cbn [utf8_valid_from]; unfold utf8_accepts, utf8_step;
    now rewrite Hn.
Qed.

Lemma valid_append (a b : string) :
  forall st, utf8_valid_from st a = true -> utf8_valid b = true ->
             utf8_valid_from st (a ++ b) = true.
Proof.
  induction a as [|c a IH]; intros st Ha Hb.
  - simpl in Ha. apply Nat.eqb_eq in Ha. cbn [append].
    now rewrite valid_from_idle.
  - cbn [append utf8_valid_from] in *.
    apply andb_true_iff in Ha as [Hacc Hrest].
    rewrite Hacc. now apply IH.
Qed.

(** ASCII text is valid, and leaves the decoder between two characters. *)
Lemma ascii_then (a b : string) :
  all_ascii a = true ->
  forall st, needed st = O -> utf8_valid_from st (a ++ b) = utf8_valid b.
Proof.
  induction a as [|c a IH]; intros Ha st Hn.
  - now apply valid_from_idle.
  - cbn [all_ascii] in Ha. apply andb_true_iff in Ha as [Hc Ha].
    apply N.ltb_lt in Hc.
    cbn [append utf8_valid_from]. unfold utf8_accepts, utf8_step, utf8_lead.
    rewrite Hn. destruct (N.leb_spec (N_of_ascii c) 127); [|lia].
    cbn [orb andb snd]. now apply IH.
Qed.

Lemma ascii_valid (a : string) : all_ascii a = true -> utf8_valid a = true.
Proof.
  intros Ha. pose proof (ascii_then a EmptyString Ha utf8_idle eq_refl) as H.
  now rewrite StrFacts.append_empty_r in H.
Qed.

Lemma escape_char_kind (c : ascii) : escape_kind c = true.
Proof.
  destruct c as [b0 b1 b2 b3 b4 b5 b6 b7].
  destruct b0, b1, b2, b3, b4, b5, b6, b7; reflexivity.
Qed.

(** Escaping keeps a text valid. *)
Lemma escape_valid (s : string) :
  forall st, expecting st -> utf8_valid_from st s = true ->
             utf8_valid_from st (JSON.escape s) = true.
Proof.
  induction s as [|c s IH]; intros st Hst Hv; [exact Hv |].
  cbn [JSON.escape utf8_valid_from] in *.
  apply andb_true_iff in Hv as [Hacc Hrest].
  pose proof (escape_char_kind c) as Hk. unfold escape_kind in Hk.
  apply orb_true_iff in Hk as [Hplain | Hesc].
  - apply String.eqb_eq in Hplain. rewrite Hplain.
    cbn [append utf8_valid_from]. rewrite Hacc.
    apply IH; [apply step_expecting | exact Hrest].
  - apply andb_true_iff in Hesc as [Hc Hascii]. apply N.ltb_lt in Hc.
    destruct (needed st) as [|k] eqn:Hn.
    + rewrite (ascii_then _ _ Hascii st Hn).
      apply IH; [intros H; now contradiction H |].
      rewrite <- Hrest. symmetry. apply valid_from_idle.
      unfold utf8_step, utf8_lead. rewrite Hn.
      destruct (N.leb_spec (N_of_ascii c) 127); [reflexivity | lia].
    + exfalso. unfold utf8_accepts in Hacc. rewrite Hn in Hacc.
      apply andb_true_iff in Hacc as [Hlo _]. apply N.leb_le in Hlo.
      assert (128 <= lower st) by (apply Hst; congruence). lia.
Qed.

Lemma quote_valid (s : string) :
  utf8_valid s = true -> utf8_valid (JSON.quote s) = true.
Proof.
  intros Hv. unfold JSON.quote, utf8_valid.
  change (String JSON.dquote (JSON.escape s ++ String JSON.dquote EmptyString))
    with (String JSON.dquote EmptyString
          ++ (JSON.escape s ++ String JSON.dquote EmptyString)).
  rewrite (ascii_then (String JSON.dquote EmptyString) _ eq_refl utf8_idle eq_refl).
  apply valid_append; [|reflexivity].
  apply escape_valid; [intros H; now contradiction H | exact Hv].
Qed.

Section Digits.

Variable radix : N.
Hypothesis radix_lo : 2 <= radix.
Hypothesis radix_hi : radix <= 36.

Lemma to_radix_aux_ascii (fuel : nat) :
  forall n tail, all_ascii tail = true ->
                 all_ascii (Num.to_radix_aux fuel radix n tail) = true.
Proof.
  assert (Hd : forall d, d < radix -> (N_of_ascii (Num.digit_char d) <? 128) = true).
  { intros d Hlt. pose proof (NumFacts.digit_char_plain d ltac:(lia)) as H.
    unfold plain_digit in H. repeat (apply andb_true_iff in H as [H ?]).
    assumption. }
  induction fuel as [|f IH]; intros n tail Ht; cbn [Num.to_radix_aux].
  - cbn [all_ascii]. rewrite Hd by (apply N.mod_lt; lia). exact Ht.
  - destruct (n <? radix).
    + cbn [all_ascii]. rewrite Hd by (apply N.mod_lt; lia). exact Ht.
    + apply IH. cbn [all_ascii]. rewrite Hd by (apply N.mod_lt; lia). exact Ht.
Qed.

End Digits.

Lemma all_ascii_app (a b : string) :
  all_ascii (a ++ b) = all_ascii a && all_ascii b.
Proof.
  induction a as [|c a IH]; cbn; [reflexivity |]. now rewrite IH, andb_assoc.
Qed.

Lemma digits_ascii (ds : string) : all_digits ds = true -> all_ascii ds = true.
Proof.
  assert (Hc : forall c, Num.is_digit 10 c = true -> (N_of_ascii c <? 128) = true).
  { intros [b0 b1 b2 b3 b4 b5 b6 b7].
    destruct b0, b1, b2, b3, b4, b5, b6, b7; vm_compute; congruence. }
  induction ds as [|c ds IH]; cbn; [reflexivity |].
  intros H. apply andb_true_iff in H as [Hd Hds].
  now rewrite (Hc c Hd), (IH Hds).
Qed.

Lemma format_ascii (ds : string) (n : Z) :
  all_digits ds = true -> all_ascii (Double.format ds n) = true.
Proof.
  intros Hds. pose proof (digits_ascii ds Hds) as Hascii.
  assert (Hexp : forall e,
             all_ascii ("e" ++ (if (e <? 0)%Z then "-" else "+")
                        ++ Double.decimal (Z.abs_N e)) = true).
  { intros e. rewrite !all_ascii_app.
    rewrite (digits_ascii _ (DoubleFacts.decimal_digits _)).
    destruct (e <? 0)%Z; reflexivity. }
  unfold Double.format.
  destruct ((Z.of_nat (String.length ds) <=? n)%Z && (n <=? 21)%Z).
  { rewrite all_ascii_app, Hascii.
    apply digits_ascii, DoubleFacts.all_digits_zeros. }
  destruct ((0 <? n)%Z && (n <=? 21)%Z).
  { rewrite !all_ascii_app.
    rewrite (digits_ascii _ (DoubleFacts.all_digits_take _ _ Hds)).
    rewrite (digits_ascii _ (DoubleFacts.all_digits_drop _ _ Hds)).
    reflexivity. }
  destruct ((-6 <? n)%Z && (n <=? 0)%Z).
  { rewrite !all_ascii_app, Hascii.
    rewrite (digits_ascii _ (DoubleFacts.all_digits_zeros _)). reflexivity. }
  destruct ds as [|d [|d1 r]].
  - apply Hexp.
  - rewrite all_ascii_app, Hascii. apply Hexp.
  - change (String d ("." ++ String d1 r))
      with (String d "" ++ "." ++ String d1 r).
    cbn [all_digits] in Hds. apply andb_true_iff in Hds as [Hd Hr].
    rewrite all_ascii_app, Hexp, !all_ascii_app.
    rewrite (digits_ascii (String d "")) by (cbn [all_digits]; now rewrite Hd).
    rewrite (digits_ascii (String d1 r) Hr). reflexivity.
Qed.

Lemma toString_ascii (v : Double.double) :
  all_ascii (Double.toString v) = true.
Proof.
  destruct v as [|[|]| |neg m e]; try reflexivity.
  cbn [Double.toString]. destruct (Double.shortest neg m e) as [c x].
  rewrite all_ascii_app, (format_ascii _ _ (DoubleFacts.decimal_digits c)).
  destruct neg; reflexivity.
Qed.

(** A list of valid texts, separated by commas, is valid. *)
Lemma concat_valid (parts : list string) :
  Forall (fun t => utf8_valid t = true) parts ->
  utf8_valid (String.concat "," parts) = true.
Proof.
  induction 1 as [|t parts Ht Hparts IH]; [reflexivity |].
  destruct parts as [|u parts]; [exact Ht |].
  change (String.concat "," (t :: u :: parts))
    with (t ++ "," ++ String.concat "," (u :: parts)).
  apply valid_append; [exact Ht |].
  unfold utf8_valid. now rewrite (ascii_then "," _ eq_refl utf8_idle eq_refl).
Qed.

Lemma bracket_valid (open close body : string) :
  all_ascii open = true -> all_ascii close = true -> utf8_valid body = true ->
  utf8_valid (open ++ body ++ close) = true.
Proof.
  intros Ho Hc Hb. unfold utf8_valid.
  rewrite (ascii_then open _ Ho utf8_idle eq_refl).
  apply valid_append; [exact Hb | now apply ascii_valid].
Qed.

(** The text of a value whose strings are valid is valid. *)
Lemma text_of_valid (v : JS.JValue) :
  strings_valid v = true -> utf8_valid (JSON.text_of v) = true.
Proof.
  induction v as [| |b|n|s|items IH|members IH|name]
    using JsonFacts.JValue_induction; intros Hv; try reflexivity.
  - destruct b; reflexivity.
  - apply ascii_valid. cbn [JSON.text_of].
    destruct (Double.finite n); [apply toString_ascii | reflexivity].
  - now apply quote_valid.
  - cbn [JSON.text_of]. apply bracket_valid; try reflexivity.
    apply concat_valid.
    cbn [strings_valid] in Hv. rewrite forallb_forall in Hv.
    rewrite Forall_forall in IH |- *. intros t Ht.
    apply in_map_iff in Ht as (x & <- & Hx). now apply IH, Hv.
  - cbn [JSON.text_of]. apply bracket_valid; try reflexivity.
    apply concat_valid.
    cbn [strings_valid] in Hv. rewrite forallb_forall in Hv.
    rewrite Forall_forall in IH |- *. intros t Ht.
    apply in_flat_map in Ht as ([k x] & Hm & Ht).
    destruct (JSON.serializable x); [|contradiction].
    destruct Ht as [<- | []].
    pose proof (Hv _ Hm) as Hkx. cbn beta iota in Hkx.
    apply andb_true_iff in Hkx as [Hk Hx].
    apply valid_append; [now apply quote_valid |].
    unfold utf8_valid. rewrite (ascii_then ":" _ eq_refl utf8_idle eq_refl).
    apply (IH (k, x) Hm Hx).
Qed.

End Utf8Facts.

(** C5.  A token of three segments whose middle segment is the base64url
    text of the JSON serialization of a claims object decodes to exactly
    that object, nested arrays and objects included; a token that does not
    have three segments, or whose middle segment does not decode to JSON
    text, gives the empty claim set; nothing is thrown.  A claims object is
    a JSON object (no [undefined], no function; every number a finite
    number, fractions and exponents included; the keys as an object lists
    them) whose strings are valid text. *)
Theorem parseIdTokenClaims_roundtrip :
  (forall (header signature : string) (members : JS.JObject) (text : string),
      Str.lacks "." header = true -> Str.lacks "." signature = true ->
      Spec.claims_object members = true ->
      JSON.stringify (JS.JObj members) = Some text ->
      Oidc.parseIdTokenClaims
        (Spec.token header (Buf.toString_base64url (Buf.from_utf8 text))
           signature)
      = JS.JObj members)
  /\ (forall idToken,
        List.length (Str.split "." idToken) <> 3%nat ->
        Oidc.parseIdTokenClaims idToken = JS.JObj [])
  /\ (forall idToken header payload signature message,
        Str.split "." idToken = [header; payload; signature] ->
        JSON.parse (Buf.toString_utf8 (Buf.from_base64url payload))
        = Exc.throw message ->
        Oidc.parseIdTokenClaims idToken = JS.JObj [])
  /\ (forall idToken message,
        Oidc.parseIdTokenClaims_try idToken = Exc.throw message ->
        Oidc.parseIdTokenClaims idToken = JS.JObj []).
Proof.
  split; [| split; [| split]].
  - intros header signature members text Hh Hs Hclaims Htext.
    unfold Spec.claims_object in Hclaims.
    apply andb_true_iff in Hclaims as [Hjson Hvalid].
    rewrite (TokenFacts.parseIdTokenClaims_three _ header
               (Buf.toString_base64url (Buf.from_utf8 text)) signature)
      by (apply TokenFacts.token_parts;
          auto using BufFacts.toString_base64url_lacks_dot).
    rewrite BufFacts.from_toString_base64url.
    destruct (JsonFacts.parse_stringify _ Hjson) as (text' & Htext' & Hparse).
    assert (text' = text) by congruence. subst text'.
    assert (Hwf : Buf.well_formed text).
    { apply Utf8Facts.utf8_valid_well_formed.
      assert (Hsame : text = JSON.text_of (JS.JObj members))
        by (unfold JSON.stringify in Htext; cbn [JSON.serializable] in Htext;
            congruence).
      rewrite Hsame. now apply Utf8Facts.text_of_valid. }
    unfold Buf.from_utf8. rewrite Hwf, Hparse. reflexivity.
  - intros idToken Hlen. unfold Oidc.parseIdTokenClaims, Oidc.parseIdTokenClaims_try.
    destruct (Nat.eqb_spec (List.length (Str.split "." idToken)) 3);
      [contradiction | reflexivity].
  - intros idToken header payload signature message Hs Hparse.
    rewrite (TokenFacts.parseIdTokenClaims_three _ _ _ _ Hs), Hparse.
    reflexivity.
  - intros idToken message Htry. unfold Oidc.parseIdTokenClaims.
    now rewrite Htry.
Qed.

Lemma parseIdTokenClaims_roundtrip_witness :
  Oidc.parseIdTokenClaims
    (Spec.token "eyJhbGciOiJSUzI1NiIsInR5cCI6IkpXVCJ9"
       (Buf.toString_base64url
          (Buf.from_utf8 (JSON.text_of (JS.JObj Examples.nested_claims))))
       "ZmFrZS1zaWduYXR1cmU")
  = JS.JObj Examples.nested_claims.
Proof.
  apply (proj1 parseIdTokenClaims_roundtrip); reflexivity.
Defined.

(* ===================================================================== *)
(** * Part XVIII.  Texts and tables: shared facts *)
(* ===================================================================== *)

Module AuxFacts.

Import Crypto.
Local Open Scope N_scope.

Lemma hex_digit_lower (d : N) : d < 16 -> Spec.lower_hex_char (hex_digit d) = true.
Proof.
  intros Hd.
  exact (NumFacts.below_cases (fun x => Spec.lower_hex_char (hex_digit x)) 16
           ltac:(vm_compute; reflexivity) d Hd).
Qed.

Lemma hex_lower (bs : list N) : Spec.lower_hex (hex bs) = true.
Proof.
  induction bs as [| b bs IH]; cbn [hex Spec.lower_hex]; [reflexivity |].
  rewrite !hex_digit_lower by apply CryptoFacts.nibble_bound. exact IH.
Qed.

Lemma hex_length (bs : list N) : String.length (hex bs) = (2 * List.length bs)%nat.
Proof.
  induction bs as [| b bs IH]; cbn [hex String.length List.length]; [reflexivity |].
  rewrite IH. lia.
Qed.

Lemma bytes_of_string_length (s : string) :
  List.length (bytes_of_string s) = String.length s.
Proof.
  unfold bytes_of_string. rewrite length_map.
  induction s as [| c s IH]; cbn [list_ascii_of_string List.length String.length];
    [reflexivity | now rewrite IH].
Qed.

Lemma filter_all {A} (f : A -> bool) (l : list A) :
  forallb f l = true -> filter f l = l.
Proof.
  induction l as [| x l IH]; cbn; [reflexivity |].
  intros H. apply andb_true_iff in H as [Hx Hl]. rewrite Hx, IH by exact Hl.
  reflexivity.
Qed.

(** The own entries of a rules map after an assignment. *)
Lemma has_key_rules_of (all : Teams.TeamRulesMap) (k : string) :
  JS.has_key all k
  = match Teams.rules_of all k with Some _ => true | None => false end.
Proof.
  unfold JS.has_key.
  induction all as [| [k' rs'] all IH]; cbn [existsb Teams.rules_of fst];
    [reflexivity |].
  destruct (String.eqb k' k); [reflexivity | exact IH].
Qed.

Lemma rules_of_replace (all : Teams.TeamRulesMap) (k other : string)
    (rs : list Teams.TeamClaimRule) :
  Teams.rules_of (JS.replace_key all k rs) other
  = if String.eqb k other
    then match Teams.rules_of all k with Some _ => Some rs | None => None end
    else Teams.rules_of all other.
Proof.
  induction all as [| [k' rs'] all IH]; cbn [JS.replace_key Teams.rules_of].
  - destruct (String.eqb k other); reflexivity.
  - destruct (String.eqb_spec k' k) as [-> | Hk]; cbn [Teams.rules_of].
    + destruct (String.eqb k other); reflexivity.
    + rewrite IH.
      destruct (String.eqb_spec k other) as [<- | Hne]; [| reflexivity].
      destruct (String.eqb_spec k' k); [contradiction | reflexivity].
Qed.

Lemma rules_of_insert (all : Teams.TeamRulesMap) (k other : string)
    (rs : list Teams.TeamClaimRule) :
  Teams.rules_of all k = None ->
  Teams.rules_of (JS.insert_key all k rs) other
  = if String.eqb k other then Some rs else Teams.rules_of all other.
Proof.
  induction all as [| [k' rs'] all IH]; cbn [JS.insert_key Teams.rules_of];
    [reflexivity |].
  destruct (String.eqb_spec k' k) as [-> | Hk]; [discriminate |].
  intros Hnone.
  destruct (JS.goes_before k k'); cbn [Teams.rules_of].
  - destruct (String.eqb k other); reflexivity.
  - rewrite (IH Hnone).
    destruct (String.eqb_spec k other) as [<- | Hne]; [| reflexivity].
    destruct (String.eqb_spec k' k); [contradiction | reflexivity].
Qed.

Lemma rules_of_assign (all : Teams.TeamRulesMap) (teamId : string)
    (rs : list Teams.TeamClaimRule) :
  Teams.rules_of (Teams.assign all teamId rs) teamId = Some rs.
Proof.
  unfold Teams.assign, JS.put. rewrite has_key_rules_of.
  destruct (Teams.rules_of all teamId) as [old |] eqn:Hown.
  - now rewrite rules_of_replace, String.eqb_refl, Hown.
  - now rewrite (rules_of_insert all teamId teamId rs Hown), String.eqb_refl.
Qed.

Lemma rules_of_assign_other (all : Teams.TeamRulesMap) (teamId other : string)
    (rs : list Teams.TeamClaimRule) :
  other <> teamId ->
  Teams.rules_of (Teams.assign all teamId rs) other = Teams.rules_of all other.
Proof.
  intros Hne. unfold Teams.assign, JS.put. rewrite has_key_rules_of.
  destruct (Teams.rules_of all teamId) as [old |] eqn:Hown.
  - rewrite rules_of_replace.
    destruct (String.eqb_spec teamId other); [congruence | reflexivity].
  - rewrite (rules_of_insert all teamId other rs Hown).
    destruct (String.eqb_spec teamId other); [congruence | reflexivity].
Qed.

Lemma rules_of_remove_key (all : Teams.TeamRulesMap) (teamId : string) :
  Teams.rules_of (Teams.remove_key all teamId) teamId = None.
Proof.
  unfold Teams.remove_key.
  induction all as [| [k rs'] all IH]; cbn [filter Teams.rules_of fst]; [reflexivity |].
  destruct (String.eqb k teamId) eqn:E; cbn [negb]; [exact IH |].
  cbn [Teams.rules_of]. rewrite E. exact IH.
Qed.

End AuxFacts.

(* ===================================================================== *)
(** * Part XIX.  The configuration *)
(* ===================================================================== *)

(** X1.  The configuration read from the environment.  OIDC is enabled
    exactly when [OIDC_ENABLED] is [1] or [true].  A configuration is valid
    exactly when OIDC is disabled or the client identifier, the client
    secret and the issuer URL are set and not empty; of those that are
    missing, the first in this order is named by the error.  The public
    configuration served to the login page depends on [OIDC_ENABLED] and
    [OIDC_DISPLAY_NAME] only: it is the same whatever the secret is. *)
Theorem validateOidcConfig_environment :
  forall env : Oidc.Env,
    let cfg := Oidc.getOidcConfig env in
    let given (name : string) := Callback.present (Oidc.getenv env name) in
    (Oidc.enabled cfg = true <->
     Oidc.getenv env "OIDC_ENABLED" = Some "1"
     \/ Oidc.getenv env "OIDC_ENABLED" = Some "true")
    /\ (Oidc.validateOidcConfig cfg = None <->
        Oidc.enabled cfg = false
        \/ given "OIDC_CLIENT_ID" && given "OIDC_CLIENT_SECRET"
           && given "OIDC_ISSUER_URL" = true)
    /\ (Oidc.enabled cfg = true ->
        (given "OIDC_CLIENT_ID" = false ->
         Oidc.validateOidcConfig cfg = Some "OIDC_CLIENT_ID is required")
        /\ (given "OIDC_CLIENT_ID" = true -> given "OIDC_CLIENT_SECRET" = false ->
            Oidc.validateOidcConfig cfg = Some "OIDC_CLIENT_SECRET is required")
        /\ (given "OIDC_CLIENT_ID" = true -> given "OIDC_CLIENT_SECRET" = true ->
            given "OIDC_ISSUER_URL" = false ->
            Oidc.validateOidcConfig cfg = Some "OIDC_ISSUER_URL is required"))
    /\ (forall env' : Oidc.Env,
          Oidc.getenv env' "OIDC_ENABLED" = Oidc.getenv env "OIDC_ENABLED" ->
          Oidc.getenv env' "OIDC_DISPLAY_NAME" = Oidc.getenv env "OIDC_DISPLAY_NAME" ->
          ConfigRoute.GET env' = ConfigRoute.GET env).
Proof.
  intros env cfg given.
  assert (Hgiven : forall name,
            given name = negb (String.eqb (Oidc.env_or env name "") "")).
  { intros name. subst given. cbv beta. unfold Oidc.env_or, Callback.present.
    destruct (Oidc.getenv env name); reflexivity. }
  assert (Hvalid : Oidc.validateOidcConfig cfg
                   = if negb (Oidc.enabled cfg) then None
                     else if negb (given "OIDC_CLIENT_ID")
                     then Some "OIDC_CLIENT_ID is required"
                     else if negb (given "OIDC_CLIENT_SECRET")
                     then Some "OIDC_CLIENT_SECRET is required"
                     else if negb (given "OIDC_ISSUER_URL")
                     then Some "OIDC_ISSUER_URL is required"
                     else None).
  { rewrite !Hgiven, !negb_involutive. reflexivity. }
  split; [| split; [| split]].
  - cbn [Oidc.getOidcConfig Oidc.enabled cfg]. unfold Oidc.env_is.
    destruct (Oidc.getenv env "OIDC_ENABLED") as [v |].
    + rewrite orb_true_iff, !String.eqb_eq. split; intros [H | H]; subst;
        auto; injection H as ->; auto.
    + split; [discriminate | intros [H | H]; discriminate].
  - rewrite Hvalid. destruct (Oidc.enabled cfg); cbn [negb]; [| tauto].
    destruct (given "OIDC_CLIENT_ID"), (given "OIDC_CLIENT_SECRET"),
      (given "OIDC_ISSUER_URL"); cbn [negb andb];
      split; try tauto; try discriminate; intros [H | H]; discriminate.
  - intros Hen. rewrite Hvalid, Hen. cbn [negb]. repeat split.
    + intros ->. reflexivity.
    + intros -> ->. reflexivity.
    + intros -> -> ->. reflexivity.
  - intros env' He Hd. unfold ConfigRoute.GET.
    cbn [Oidc.getOidcConfig Oidc.enabled Oidc.displayName].
    unfold Oidc.env_is, Oidc.env_or. now rewrite He, Hd.
Qed.

(* ===================================================================== *)
(** * Part XX.  The state and the nonce *)
(* ===================================================================== *)

Module UrlFacts.

Import Url Spec.

Lemma every_append (p : ascii -> bool) (a b : string) :
  every p (a ++ b) = every p a && every p b.
Proof.
  induction a as [| c a IH]; cbn [append every]; [reflexivity |].
  rewrite IH. apply andb_assoc.
Qed.

Lemma every_lacks (p : ascii -> bool) (sep : ascii) (s : string) :
  p sep = false -> every p s = true -> Str.lacks sep s = true.
Proof.
  intros Hsep. induction s as [| c s IH]; cbn [every Str.lacks]; [reflexivity |].
  intros H. apply andb_true_iff in H as [Hc Hs]. rewrite (IH Hs), andb_true_r.
  destruct (Ascii.eqb_spec c sep) as [-> |]; [congruence | reflexivity].
Qed.

Lemma every_weaken (p q : ascii -> bool) (s : string) :
  (forall c, p c = true -> q c = true) -> every p s = true -> every q s = true.
Proof.
  intros Hpq. induction s as [| c s IH]; cbn [every]; [reflexivity |].
  intros H. apply andb_true_iff in H as [Hc Hs]. now rewrite (Hpq c Hc), (IH Hs).
Qed.

(** Each byte is written with the characters of a query. *)
Lemma form_byte_query (c : ascii) : every query_char (form_byte c) = true.
Proof.
  destruct c as [[] [] [] [] [] [] [] []]; vm_compute; reflexivity.
Qed.

Lemma form_encode_query (s : string) : every query_char (form_encode s) = true.
Proof.
  induction s as [| c s IH]; cbn [form_encode]; [reflexivity |].
  now rewrite every_append, form_byte_query, IH.
Qed.

(** A serialized value holds no separator of a query. *)
Lemma form_encode_lacks (sep : ascii) (s : string) :
  query_char sep = false -> Str.lacks sep (form_encode s) = true.
Proof.
  intros Hsep. exact (every_lacks query_char sep _ Hsep (form_encode_query s)).
Qed.

(** Reading back one byte. *)
Lemma form_decode_byte (c : ascii) (rest : string) :
  form_decode (form_byte c ++ rest) = String c (form_decode rest).
Proof.
  destruct c as [[] [] [] [] [] [] [] []]; reflexivity.
Qed.

Lemma form_decode_encode (s : string) : form_decode (form_encode s) = s.
Proof.
  induction s as [| c s IH]; cbn [form_encode]; [reflexivity |].
  now rewrite form_decode_byte, IH.
Qed.

(** Different values are serialized differently. *)
Lemma form_encode_injective (a b : string) :
  form_encode a = form_encode b -> a = b.
Proof.
  intros H. rewrite <- (form_decode_encode a), <- (form_decode_encode b).
  now rewrite H.
Qed.

(** A text of unreserved characters is its own serialization. *)
Lemma form_encode_unreserved (s : string) :
  every unreserved s = true -> form_encode s = s.
Proof.
  induction s as [| c s IH]; cbn [every form_encode]; [reflexivity |].
  intros H. apply andb_true_iff in H as [Hc Hs]. rewrite (IH Hs).
  unfold form_byte. rewrite Hc.
  destruct (N.eqb_spec (N_of_ascii c) 32) as [E |]; [| reflexivity].
  unfold unreserved in Hc. rewrite E in Hc. discriminate.
Qed.

(** The parts of a serialized record. *)
Lemma pair_lacks_amp (p : string * string) : Str.lacks "&" (pair p) = true.
Proof.
  unfold pair. rewrite !StrFacts.lacks_append.
  rewrite !form_encode_lacks by reflexivity. reflexivity.
Qed.

Lemma split_concat (sep : ascii) (parts : list string) :
  parts <> [] ->
  Forall (fun part => Str.lacks sep part = true) parts ->
  Str.split sep (String.concat (String sep EmptyString) parts) = parts.
Proof.
  induction parts as [| a parts IH]; [congruence |].
  intros _ Hall. inversion Hall as [| ? ? Ha Hrest]; subst.
  destruct parts as [| b parts].
  - cbn [String.concat]. now apply StrFacts.split_lacks.
  - cbn [String.concat]. cbn [append].
    rewrite StrFacts.split_append by exact Ha.
    f_equal. apply IH; [discriminate | exact Hrest].
Qed.

Lemma URLSearchParams_split (params : list (string * string)) :
  params <> [] ->
  Str.split "&" (URLSearchParams_toString params) = map pair params.
Proof.
  intros Hne. unfold URLSearchParams_toString. apply split_concat.
  - destruct params; [congruence | discriminate].
  - apply Forall_forall. intros part Hin. apply in_map_iff in Hin as [p [<- _]].
    apply pair_lacks_amp.
Qed.

Lemma pair_split (name value : string) :
  Str.split "=" (pair (name, value)) = [form_encode name; form_encode value].
Proof.
  unfold pair. cbn [fst snd]. cbn [append].
  rewrite StrFacts.split_append by (apply form_encode_lacks; reflexivity).
  rewrite StrFacts.split_lacks by (apply form_encode_lacks; reflexivity).
  reflexivity.
Qed.

End UrlFacts.

Module ShapeFacts.

Import Crypto Spec Spec.
Local Open Scope nat_scope.

Lemma round_length (st : list N) (kw : N * N) :
  List.length st = 8 -> List.length (round st kw) = 8.
Proof.
  intros H. do 9 (destruct st as [| ? st]; try discriminate). reflexivity.
Qed.

Lemma rounds_length (kws : list (N * N)) :
  forall st, List.length st = 8 -> List.length (fold_left round kws st) = 8.
Proof.
  induction kws as [| kw kws IH]; intros st H; cbn [fold_left]; [exact H |].
  apply IH, round_length, H.
Qed.

Lemma compress_length (h block : list N) :
  List.length h = 8 -> List.length (compress h block) = 8.
Proof.
  intros H. unfold compress.
  rewrite length_map, length_combine, rounds_length by exact H.
  rewrite H. reflexivity.
Qed.

Lemma hash_blocks_length (n : nat) :
  forall h bs, List.length h = 8 -> List.length (hash_blocks n h bs) = 8.
Proof.
  induction n as [| n IH]; intros h bs H; cbn [hash_blocks]; [exact H |].
  apply IH, compress_length, H.
Qed.

Lemma words_bytes_length (ws : list N) :
  List.length (flat_map bytes_of_word ws) = 4 * List.length ws.
Proof.
  induction ws as [| w ws IH]; cbn [flat_map List.length]; [reflexivity |].
  rewrite length_app, IH. cbn [bytes_of_word List.length]. lia.
Qed.

(** A digest has thirty-two bytes. *)
Lemma sha256_length (msg : list N) : List.length (sha256 msg) = 32.
Proof.
  unfold sha256. rewrite words_bytes_length, hash_blocks_length; reflexivity.
Qed.

Lemma hmac_sha256_length (key msg : list N) :
  List.length (hmac_sha256 key msg) = 32.
Proof. unfold hmac_sha256. apply sha256_length. Qed.

Lemma substring_length (m : nat) (s : string) :
  String.length (substring 0 m s) = Nat.min m (String.length s).
Proof.
  revert m. induction s as [| c s IH]; intros m; destruct m as [| m];
    cbn [substring String.length Nat.min]; try reflexivity.
  now rewrite IH.
Qed.

Lemma lower_hex_substring (s : string) :
  lower_hex s = true -> forall n m, lower_hex (substring n m s) = true.
Proof.
  induction s as [| c s IH]; intros H n m.
  - destruct n, m; reflexivity.
  - cbn [lower_hex] in H. apply andb_true_iff in H as [Hc Hs].
    destruct n as [| n]; destruct m as [| m]; cbn [substring lower_hex]; auto.
    rewrite Hc. cbn [andb]. apply IH, Hs.
Qed.

Lemma lower_hex_every (s : string) :
  lower_hex s = every lower_hex_char s.
Proof.
  induction s as [| c s IH]; cbn [lower_hex every]; [reflexivity | now rewrite IH].
Qed.

Lemma digit_char_base36 (d : N) : (d < 36)%N -> base36_char (Num.digit_char d) = true.
Proof.
  intros Hd.
  exact (NumFacts.below_cases (fun x => base36_char (Num.digit_char x)) 36
           ltac:(vm_compute; reflexivity) d Hd).
Qed.

Lemma to_radix_aux_base36 (fuel : nat) :
  forall n tail, every base36_char tail = true ->
  every base36_char (Num.to_radix_aux fuel 36 n tail) = true.
Proof.
  assert (Hd : forall n : N, base36_char (Num.digit_char (n mod 36)) = true).
  { intros n. apply digit_char_base36, N.mod_lt. discriminate. }
  induction fuel as [| f IH]; intros n tail Ht; cbn [Num.to_radix_aux].
  - cbn [every]. now rewrite Hd, Ht.
  - destruct (N.ltb n 36).
    + cbn [every]. now rewrite Hd, Ht.
    + apply IH. cbn [every]. now rewrite Hd, Ht.
Qed.

Lemma to_radix_base36 (n : N) : every base36_char (Num.to_radix 36 n) = true.
Proof. apply to_radix_aux_base36. reflexivity. Qed.

Lemma to_radix_nonempty (n : N) : Num.to_radix 36 n <> "".
Proof.
  destruct (NumFacts.to_radix_aux_head 36 ltac:(lia) ltac:(lia)
              (N.to_nat (N.size n)) n EmptyString) as [d [t [_ E]]].
  unfold Num.to_radix. rewrite E. discriminate.
Qed.

Lemma base36_unreserved (c : ascii) :
  base36_char c = true -> Url.unreserved c = true.
Proof.
  destruct c as [[] [] [] [] [] [] [] []]; vm_compute; auto.
Qed.

Lemma lower_hex_unreserved (c : ascii) :
  lower_hex_char c = true -> Url.unreserved c = true.
Proof.
  destruct c as [[] [] [] [] [] [] [] []]; vm_compute; auto.
Qed.

(** A number in base 36, with its sign, is made of unreserved characters. *)
Lemma toString_radix36_unreserved (z : Z) :
  every Url.unreserved (Num.toString_radix 36 z) = true.
Proof.
  assert (H : every Url.unreserved (Num.to_radix 36 (Z.abs_N z)) = true).
  { apply (UrlFacts.every_weaken base36_char); [apply base36_unreserved |].
    apply to_radix_base36. }
  unfold Num.toString_radix. destruct (Z.ltb z 0); [| exact H].
  cbn [every]. now rewrite H.
Qed.

Lemma hex_unreserved (bs : list N) : every Url.unreserved (hex bs) = true.
Proof.
  apply (UrlFacts.every_weaken lower_hex_char); [apply lower_hex_unreserved |].
  rewrite <- lower_hex_every. apply AuxFacts.hex_lower.
Qed.

Lemma every_substring (p : ascii -> bool) (s : string) :
  every p s = true -> forall n m, every p (substring n m s) = true.
Proof.
  induction s as [| c s IH]; intros H n m.
  - destruct n, m; reflexivity.
  - cbn [every] in H. apply andb_true_iff in H as [Hc Hs].
    destruct n as [| n]; destruct m as [| m]; cbn [substring every]; auto.
    rewrite Hc. cbn [andb]. apply IH, Hs.
Qed.

(** A generated state is made of unreserved characters. *)
Lemma generateState_unreserved (now : Z) (random : Buf.Buffer) (appSecret : string) :
  every Url.unreserved (Oidc.generateState now random appSecret) = true.
Proof.
  unfold Oidc.generateState. cbv zeta.
  rewrite !UrlFacts.every_append.
  rewrite toString_radix36_unreserved, hex_unreserved. cbn [every andb].
  change (Url.unreserved ".") with true. cbn [andb].
  apply every_substring, hex_unreserved.
Qed.

End ShapeFacts.

(** X2.  A generated state has three parts separated by dots: the clock in
    base 36, the random bytes in hexadecimal (two digits a byte) and sixteen
    hexadecimal digits of signature.  A generated nonce is its random bytes
    in hexadecimal: thirty-two digits for sixteen bytes. *)
Theorem generateState_shape :
  forall (now : Z) (random : Buf.Buffer) (appSecret : string),
    (0 <= now)%Z ->
    Oidc.generateState now random appSecret
    = Spec.state_ts now ++ "." ++ Spec.state_nonce random ++ "."
      ++ Spec.state_sig now random appSecret
    /\ Str.split "." (Oidc.generateState now random appSecret)
       = [Spec.state_ts now; Spec.state_nonce random;
          Spec.state_sig now random appSecret]
    /\ Spec.state_ts now <> ""
    /\ Spec.every Spec.base36_char (Spec.state_ts now) = true
    /\ String.length (Spec.state_nonce random) = (2 * String.length random)%nat
    /\ Spec.lower_hex (Spec.state_nonce random) = true
    /\ String.length (Spec.state_sig now random appSecret) = 16%nat
    /\ Spec.lower_hex (Spec.state_sig now random appSecret) = true
    /\ String.length (Oidc.generateNonce random) = (2 * String.length random)%nat
    /\ Spec.lower_hex (Oidc.generateNonce random) = true.
Proof.
  intros now random appSecret Hnow.
  assert (Hts : Spec.state_ts now = Num.to_radix 36 (Z.abs_N now)).
  { unfold Spec.state_ts, Num.toString_radix.
    destruct (Z.ltb_spec now 0); [lia | reflexivity]. }
  split; [| split; [| split; [| split; [| split; [| split; [| split; [| split;
    [| split]]]]]]]].
  - unfold Oidc.generateState, Spec.state_ts, Spec.state_nonce, Spec.state_sig.
    cbv zeta. now rewrite !StrFacts.append_assoc.
  - apply StateFacts.generateState_parts.
  - rewrite Hts. apply ShapeFacts.to_radix_nonempty.
  - rewrite Hts. apply ShapeFacts.to_radix_base36.
  - unfold Spec.state_nonce.
    now rewrite AuxFacts.hex_length, AuxFacts.bytes_of_string_length.
  - apply AuxFacts.hex_lower.
  - unfold Spec.state_sig, Str.slice0, Crypto.createHmac_sha256_hex.
    rewrite ShapeFacts.substring_length, AuxFacts.hex_length,
      ShapeFacts.hmac_sha256_length. reflexivity.
  - unfold Spec.state_sig, Str.slice0, Crypto.createHmac_sha256_hex.
    apply ShapeFacts.lower_hex_substring, AuxFacts.hex_lower.
  - unfold Oidc.generateNonce.
    now rewrite AuxFacts.hex_length, AuxFacts.bytes_of_string_length.
  - apply AuxFacts.hex_lower.
Qed.

Lemma generateState_shape_witness :
  String.length
    (Spec.state_sig 1730000000000 "0123456789abcdef" Examples.the_secret) = 16%nat.
Proof.
  apply (generateState_shape 1730000000000 "0123456789abcdef" Examples.the_secret).
  lia.
Defined.

(** X3.  A state generated at [now] and verified at [now'] with the same
    secret is accepted exactly when [now' - now] does not exceed the maximum
    age: ten minutes by default, and never when the maximum age is below
    the age of the state. *)
Theorem verifyState_expiry :
  forall (appSecret : string) (random : Buf.Buffer) (now now' m : Z),
    let state := Oidc.generateState now random appSecret in
    Oidc.verifyState now' state appSecret (Some (Num.Int m))
    = (now' - now <=? m)%Z
    /\ Oidc.verifyState now' state appSecret None
       = (now' - now <=? 10 * 60 * 1000)%Z
    /\ Oidc.verifyState now' state appSecret (Some Num.NaN) = true.
Proof.
  intros appSecret random now now' m state.
  assert (H : forall maxAge,
            Oidc.verifyState_try now' state appSecret maxAge
            = Exc.ret (negb (Num.gt (Num.Int (now' - now)) maxAge))).
  { intros maxAge.
    rewrite (StateFacts.verifyState_three now' state appSecret _ _ _ maxAge
               (StateFacts.generateState_parts now random appSecret)).
    fold (Spec.state_sig now random appSecret). rewrite String.eqb_refl.
    unfold Spec.state_ts. rewrite NumFacts.parseInt_toString_radix36.
    reflexivity. }
  unfold Oidc.verifyState. rewrite !H. cbn [Exc.try_catch Exc.ret Num.gt].
  unfold Oidc.default_maxAgeMs. cbn [Num.gt].
  rewrite !Z.leb_antisym. repeat split.
Qed.

(** X4.  [verifyState]: a state whose signature is right and whose first
    part holds no base-36 number is accepted whatever the maximum age is,
    a negative one included: its age is [NaN], and no comparison with [NaN]
    holds. *)
Theorem verifyState_undated :
  forall (now : Z) (appSecret ts nonce : string) (maxAgeMs : option Num.number),
    Str.lacks "." ts = true -> Str.lacks "." nonce = true ->
    Num.parseInt ts 36 = Num.NaN ->
    Oidc.verifyState now
      (ts ++ "." ++ nonce ++ "."
          ++ Str.slice0 16 (Crypto.createHmac_sha256_hex appSecret (ts ++ "." ++ nonce)))
      appSecret maxAgeMs
    = true.
Proof.
  intros now appSecret ts nonce maxAgeMs Hts Hnonce Hnan.
  unfold Oidc.verifyState.
  rewrite (StateFacts.verifyState_three now _ appSecret ts nonce
             (Str.slice0 16 (Crypto.createHmac_sha256_hex appSecret (ts ++ "." ++ nonce)))).
  - rewrite String.eqb_refl, Hnan. reflexivity.
  - cbn [append].
    rewrite StrFacts.split_append by exact Hts.
    rewrite StrFacts.split_append by exact Hnonce.
    rewrite StrFacts.split_lacks; [reflexivity |].
    apply StrFacts.lacks_substring, CryptoFacts.hex_lacks_dot.
Qed.

Lemma verifyState_undated_witness :
  Oidc.verifyState 1730000000000
    ("" ++ "." ++ "aaaaaaaaaaaaaaaa" ++ "."
        ++ Str.slice0 16
             (Crypto.createHmac_sha256_hex Examples.the_secret ("" ++ "." ++ "aaaaaaaaaaaaaaaa")))
    Examples.the_secret (Some (Num.Int (-1)))
  = true.
Proof.
  apply (verifyState_undated 1730000000000 Examples.the_secret "" "aaaaaaaaaaaaaaaa");
    reflexivity.
Defined.

(* ===================================================================== *)
(** * Part XXI.  The requests to the identity provider *)
(* ===================================================================== *)

Module RequestFacts.

Import JS Oidc.

Lemma append_cancel (p a b : string) : p ++ a = p ++ b -> a = b.
Proof.
  induction p as [| c p IH]; cbn [append]; intros H; [exact H |].
  injection H as H. exact (IH H).
Qed.

Lemma ret_injective {A} (a b : A) : @inr string A a = inr b -> a = b.
Proof. congruence. Qed.

(** The six parameters of the authorization request, as they are sent. *)
Lemma authorization_query (cfg : OidcConfig) (state nonce redirectUri : string) :
  Str.split "&"
    (Url.URLSearchParams_toString
       [ ("client_id", clientId cfg); ("response_type", "code");
         ("scope", scopes cfg); ("redirect_uri", redirectUri);
         ("state", state); ("nonce", nonce) ])
  = [ "client_id=" ++ Url.form_encode (clientId cfg);
      "response_type=code";
      "scope=" ++ Url.form_encode (scopes cfg);
      "redirect_uri=" ++ Url.form_encode redirectUri;
      "state=" ++ Url.form_encode state;
      "nonce=" ++ Url.form_encode nonce ].
Proof. rewrite UrlFacts.URLSearchParams_split by discriminate. reflexivity. Qed.

Lemma token_body (cfg : OidcConfig) (code redirectUri : string) :
  Str.split "&" (token_request_body cfg code redirectUri)
  = [ "grant_type=authorization_code";
      "code=" ++ Url.form_encode code;
      "redirect_uri=" ++ Url.form_encode redirectUri;
      "client_id=" ++ Url.form_encode (clientId cfg);
      "client_secret=" ++ Url.form_encode (clientSecret cfg) ].
Proof.
  unfold token_request_body.
  rewrite UrlFacts.URLSearchParams_split by discriminate. reflexivity.
Qed.

(** A cache that is fresh answers without a request. *)
Lemma getDiscovery_fresh (net : Network) (now : Z) (st : DiscoveryState)
    (issuerUrl : string) :
  Spec.cache_fresh now st = true ->
  getDiscovery net now st issuerUrl
  = mkDiscoveryCall (Exc.ret (_discoveryCache st)) st [].
Proof.
  unfold Spec.cache_fresh, getDiscovery, DISCOVERY_TTL_MS. intros ->. reflexivity.
Qed.

End RequestFacts.

(** X5.  The discovery cache has one slot: after a call that returned a
    document, the cache holds that document, and while it is fresh every
    call is answered with it without a request, whatever issuer URL is asked
    for; a document that is falsy ([null], [false], [0], the empty string)
    is never answered from the cache. *)
Theorem getDiscovery_single_slot :
  forall (net : Oidc.Network) (now : Z) (st : Oidc.DiscoveryState)
         (issuerUrl : string) (doc : JS.JValue),
    Oidc.settled (Oidc.getDiscovery net now st issuerUrl) = Exc.ret doc ->
    let st' := Oidc.after (Oidc.getDiscovery net now st issuerUrl) in
    Oidc._discoveryCache st' = doc
    /\ (Oidc.requested (Oidc.getDiscovery net now st issuerUrl) <> [] ->
        Oidc._discoveryCacheTime st' = now)
    /\ (JS.truthy doc = true ->
        forall (net' : Oidc.Network) (now' : Z) (issuerUrl' : string),
          (now' - Oidc._discoveryCacheTime st' < 5 * 60 * 1000)%Z ->
          Oidc.getDiscovery net' now' st' issuerUrl'
          = Oidc.mkDiscoveryCall (Exc.ret doc) st' [])
    /\ (JS.truthy doc = false ->
        forall (net' : Oidc.Network) (now' : Z) (issuerUrl' : string),
          Oidc.requested (Oidc.getDiscovery net' now' st' issuerUrl')
          = [Oidc.wellKnown issuerUrl']).
Proof.
  intros net now st issuerUrl doc Hdoc st'.
  assert (Hcache : Oidc._discoveryCache st' = doc
                   /\ (Oidc.requested (Oidc.getDiscovery net now st issuerUrl) <> [] ->
                       Oidc._discoveryCacheTime st' = now)).
  { subst st'. revert Hdoc. unfold Oidc.getDiscovery.
    destruct (JS.truthy (Oidc._discoveryCache st)
              && (now - Oidc._discoveryCacheTime st <? Oidc.DISCOVERY_TTL_MS)%Z).
    - cbn. intros H. injection H as <-. split; [reflexivity | congruence].
    - destruct (net (Oidc.wellKnown issuerUrl)) as [e | res]; [discriminate |].
      destruct (negb (Oidc.ok res)); [discriminate |].
      destruct (Oidc.json res) as [e | d]; [discriminate |].
      cbn. intros H. injection H as <-. split; reflexivity. }
  destruct Hcache as [Hcache Htime].
  split; [exact Hcache | split; [exact Htime | split]].
  - intros Ht net' now' issuerUrl' Hage.
    rewrite RequestFacts.getDiscovery_fresh; [now rewrite Hcache |].
    unfold Spec.cache_fresh. rewrite Hcache, Ht. cbn [andb].
    apply Z.ltb_lt. exact Hage.
  - intros Hf net' now' issuerUrl'. unfold Oidc.getDiscovery.
    rewrite Hcache, Hf. cbn [andb].
    destruct (net' (Oidc.wellKnown issuerUrl')) as [e | res]; [reflexivity |].
    destruct (negb (Oidc.ok res)); [reflexivity |].
    destruct (Oidc.json res); reflexivity.
Qed.

Lemma getDiscovery_single_slot_witness :
  Oidc.getDiscovery (fun _ => Exc.throw "offline") 1730000200000
    (Oidc.after
       (Oidc.getDiscovery Examples.the_network 1730000000000
          Oidc.discovery_initial "https://idp.example.com"))
    "https://other.example.org"
  = Oidc.mkDiscoveryCall (Exc.ret Examples.the_document)
      (Oidc.after
         (Oidc.getDiscovery Examples.the_network 1730000000000
            Oidc.discovery_initial "https://idp.example.com")) [].
Proof.
  apply (getDiscovery_single_slot Examples.the_network 1730000000000
           Oidc.discovery_initial "https://idp.example.com" Examples.the_document);
    reflexivity.
Defined.

(** X6.  The authorization URL is the authorization endpoint of the
    discovery document, a question mark and six parameters in a fixed
    order, each value serialized so that it holds no separator: whatever the
    state, the nonce and the redirect URI contain, the query has exactly
    these six parameters, and two requests with the same URL have the same
    state, nonce and redirect URI.  The client secret is not among them.  A
    document without the endpoint does not make the call fail: the URL then
    starts with [undefined?]. *)
Theorem buildAuthorizationUrl_query :
  forall (env : Oidc.Env) (fetch : Oidc.Fetch) (now : Z)
         (st : Oidc.DiscoveryState) (state nonce redirectUri : string)
         (discovery : JS.JValue),
    let cfg := Oidc.getOidcConfig env in
    let call :=
      Oidc.buildAuthorizationUrl env fetch now st state nonce redirectUri in
    Oidc.settled
      (Oidc.getDiscovery (Oidc.discovery_network fetch) now st (Oidc.issuerUrl cfg))
    = Exc.ret discovery ->
    exists query : string,
      Str.split "&" query
      = [ "client_id=" ++ Url.form_encode (Oidc.clientId cfg);
          "response_type=code";
          "scope=" ++ Url.form_encode (Oidc.scopes cfg);
          "redirect_uri=" ++ Url.form_encode redirectUri;
          "state=" ++ Url.form_encode state;
          "nonce=" ++ Url.form_encode nonce ]
      /\ Forall (fun value => Str.lacks "&" (Url.form_encode value) = true
                              /\ Str.lacks "=" (Url.form_encode value) = true
                              /\ Str.lacks "#" (Url.form_encode value) = true)
           [Oidc.clientId cfg; Oidc.scopes cfg; redirectUri; state; nonce]
      /\ (forall endpoint,
            JS.field discovery "authorization_endpoint" = Exc.ret (JS.JStr endpoint) ->
            Oidc.outcome call = Exc.ret (endpoint ++ "?" ++ query)
            /\ forall state' nonce' redirectUri',
                 Oidc.outcome
                   (Oidc.buildAuthorizationUrl env fetch now st state' nonce'
                      redirectUri')
                 = Oidc.outcome call ->
                 state' = state /\ nonce' = nonce /\ redirectUri' = redirectUri)
      /\ (JS.field discovery "authorization_endpoint" = Exc.ret JS.JUndefined ->
          Oidc.outcome call = Exc.ret ("undefined?" ++ query))
      /\ (discovery = JS.JNull ->
          Oidc.outcome call
          = Exc.throw
              "Cannot read properties of null (reading 'authorization_endpoint')").
Proof.
  intros env fetch now st state nonce redirectUri discovery cfg call Hdoc.
  eexists. split; [apply (RequestFacts.authorization_query cfg state nonce redirectUri) |].
  split.
  { repeat constructor; apply UrlFacts.form_encode_lacks; reflexivity. }
  assert (Hout : forall s n u,
            Oidc.outcome (Oidc.buildAuthorizationUrl env fetch now st s n u)
            = (let* endpoint := JS.field discovery "authorization_endpoint" in
               let* prefix := JS.template endpoint in
               Exc.ret (prefix ++ "?"
                        ++ Url.URLSearchParams_toString
                             [ ("client_id", Oidc.clientId cfg);
                               ("response_type", "code");
                               ("scope", Oidc.scopes cfg);
                               ("redirect_uri", u); ("state", s); ("nonce", n) ]))).
  { intros s n u. unfold Oidc.buildAuthorizationUrl. cbn [Oidc.outcome].
    fold cfg. rewrite Hdoc. reflexivity. }
  split; [| split].
  - intros endpoint Hep. subst call. rewrite Hout, Hep. split; [reflexivity |].
    intros state' nonce' redirectUri' Hsame.
    rewrite Hout, Hep in Hsame.
    cbn [Exc.bind Exc.ret JS.template JS.ToString] in Hsame.
    apply RequestFacts.ret_injective in Hsame.
    do 2 apply RequestFacts.append_cancel in Hsame.
    apply (f_equal (Str.split "&")) in Hsame.
    rewrite !RequestFacts.authorization_query in Hsame.
    injection Hsame as H1 H2 H3.
    apply UrlFacts.form_encode_injective in H1, H2, H3.
    repeat split; assumption.
  - intros Hep. subst call. rewrite Hout, Hep. reflexivity.
  - intros ->. subst call. rewrite Hout. reflexivity.
Qed.

Lemma buildAuthorizationUrl_query_witness :
  exists query : string,
    Oidc.outcome
      (Oidc.buildAuthorizationUrl Examples.idp_env Examples.the_fetch 1730000000000
         Oidc.discovery_initial "st.ate" "n-1" "https://umami.example.com/cb")
    = Exc.ret ("https://idp.example.com/auth" ++ "?" ++ query)
    /\ Str.split "&" query
       = [ "client_id=umami"; "response_type=code"; "scope=openid+profile+email";
           "redirect_uri=https%3A%2F%2Fumami.example.com%2Fcb"; "state=st.ate";
           "nonce=n-1" ].
Proof.
  destruct (buildAuthorizationUrl_query Examples.idp_env Examples.the_fetch
              1730000000000 Oidc.discovery_initial "st.ate" "n-1"
              "https://umami.example.com/cb" Examples.the_document eq_refl)
    as [query [Hsplit [_ [Hurl _]]]].
  exists query. split.
  - exact (proj1 (Hurl "https://idp.example.com/auth" eq_refl)).
  - exact Hsplit.
Defined.

(** X7.  The token request: one POST to the token endpoint of the discovery
    document, whose body has exactly five parameters in a fixed order,
    whatever the authorization code and the redirect URI contain; with a
    fresh discovery cache it is the only request.  A rejected request is
    passed on, a reply that is not a success becomes an error with the
    status and the text of the reply, and a success is read as JSON. *)
Theorem exchangeCode_request :
  forall (env : Oidc.Env) (fetch : Oidc.Fetch) (now : Z)
         (st : Oidc.DiscoveryState) (code redirectUri : string)
         (discovery : JS.JValue) (endpoint : string),
    let cfg := Oidc.getOidcConfig env in
    let probe :=
      Oidc.getDiscovery (Oidc.discovery_network fetch) now st (Oidc.issuerUrl cfg) in
    let call := Oidc.exchangeCode env fetch now st code redirectUri in
    let init := Oidc.token_request_init cfg code redirectUri in
    Oidc.settled probe = Exc.ret discovery ->
    JS.field discovery "token_endpoint" = Exc.ret (JS.JStr endpoint) ->
    Oidc.sent call = (Oidc.discovery_requests probe ++ [(endpoint, init)])%list
    /\ (Spec.cache_fresh now st = true -> Oidc.sent call = [(endpoint, init)])
    /\ Oidc.cached call = Oidc.after probe
    /\ Oidc.method init = "POST"
    /\ (exists body,
          Oidc.body init = Some body
          /\ Str.split "&" body
             = [ "grant_type=authorization_code";
                 "code=" ++ Url.form_encode code;
                 "redirect_uri=" ++ Url.form_encode redirectUri;
                 "client_id=" ++ Url.form_encode (Oidc.clientId cfg);
                 "client_secret=" ++ Url.form_encode (Oidc.clientSecret cfg) ])
    /\ (forall e, fetch endpoint init = Exc.throw e ->
          Oidc.outcome call = Exc.throw e)
    /\ (forall res text,
          fetch endpoint init = Exc.ret res -> Oidc.reply_ok res = false ->
          Oidc.reply_text res = Exc.ret text ->
          Oidc.outcome call
          = Exc.throw ("Token exchange failed ("
                       ++ Num.toString (Oidc.reply_status res) ++ "): " ++ text))
    /\ (forall res,
          fetch endpoint init = Exc.ret res -> Oidc.reply_ok res = true ->
          Oidc.outcome call = Oidc.reply_json res).
Proof.
  intros env fetch now st code redirectUri discovery endpoint cfg probe call init
    Hdoc Hep.
  assert (Hcall : call
                  = Oidc.mkCall
                      (let* res := fetch endpoint init in
                       Oidc.read_reply "Token exchange failed" res)
                      (Oidc.after probe)
                      (Oidc.discovery_requests probe ++ [(endpoint, init)])%list).
  { subst call. unfold Oidc.exchangeCode. fold cfg. fold probe.
    rewrite Hdoc. cbn [Exc.bind Exc.ret]. rewrite Hep. reflexivity. }
  rewrite Hcall. cbn [Oidc.sent Oidc.cached Oidc.outcome].
  split; [reflexivity |]. split.
  { intros Hfresh. subst probe.
    rewrite RequestFacts.getDiscovery_fresh by exact Hfresh. reflexivity. }
  split; [reflexivity |]. split; [reflexivity |]. split.
  { eexists. split; [reflexivity |]. apply RequestFacts.token_body. }
  split; [| split].
  - intros e ->. reflexivity.
  - intros res text -> Hok Htext. cbn [Exc.bind Exc.ret].
    unfold Oidc.read_reply. rewrite Hok, Htext. reflexivity.
  - intros res -> Hok. cbn [Exc.bind Exc.ret].
    unfold Oidc.read_reply. rewrite Hok. reflexivity.
Qed.

Lemma exchangeCode_request_witness :
  Oidc.sent
    (Oidc.exchangeCode Examples.idp_env Examples.the_fetch 1730000000000
       Oidc.discovery_initial "authcode" "https://umami.example.com/cb")
  = [ ("https://idp.example.com/.well-known/openid-configuration",
       Oidc.discovery_init);
      ("https://idp.example.com/token",
       Oidc.token_request_init (Oidc.getOidcConfig Examples.idp_env) "authcode"
         "https://umami.example.com/cb") ].
Proof.
  exact (proj1 (exchangeCode_request Examples.idp_env Examples.the_fetch
                  1730000000000 Oidc.discovery_initial "authcode"
                  "https://umami.example.com/cb" Examples.the_document
                  "https://idp.example.com/token" eq_refl eq_refl)).
Defined.

(** X8.  The user-information request: one GET to the userinfo endpoint of
    the discovery document with the access token as a bearer token.  What
    is sent is the text of whatever the token reply held as [access_token]:
    when the reply held none, the header is [Bearer undefined].  A reply
    that is not a success becomes an error with its status and text. *)
Theorem getUserInfo_request :
  forall (env : Oidc.Env) (fetch : Oidc.Fetch) (now : Z)
         (st : Oidc.DiscoveryState) (accessToken : JS.JValue)
         (discovery : JS.JValue) (endpoint bearer : string),
    let cfg := Oidc.getOidcConfig env in
    let probe :=
      Oidc.getDiscovery (Oidc.discovery_network fetch) now st (Oidc.issuerUrl cfg) in
    let call := Oidc.getUserInfo env fetch now st accessToken in
    let init :=
      Oidc.mkInit "GET" [("Authorization", "Bearer " ++ bearer)] None "no-store" in
    Oidc.settled probe = Exc.ret discovery ->
    JS.field discovery "userinfo_endpoint" = Exc.ret (JS.JStr endpoint) ->
    JS.template accessToken = Exc.ret bearer ->
    (forall token, accessToken = JS.JStr token -> bearer = token)
    /\ (accessToken = JS.JUndefined -> bearer = "undefined")
    /\ Oidc.sent call = (Oidc.discovery_requests probe ++ [(endpoint, init)])%list
    /\ (Spec.cache_fresh now st = true -> Oidc.sent call = [(endpoint, init)])
    /\ (forall e, fetch endpoint init = Exc.throw e ->
          Oidc.outcome call = Exc.throw e)
    /\ (forall res text,
          fetch endpoint init = Exc.ret res -> Oidc.reply_ok res = false ->
          Oidc.reply_text res = Exc.ret text ->
          Oidc.outcome call
          = Exc.throw ("UserInfo request failed ("
                       ++ Num.toString (Oidc.reply_status res) ++ "): " ++ text))
    /\ (forall res,
          fetch endpoint init = Exc.ret res -> Oidc.reply_ok res = true ->
          Oidc.outcome call = Oidc.reply_json res).
Proof.
  intros env fetch now st accessToken discovery endpoint bearer cfg probe call init
    Hdoc Hep Hbearer.
  assert (Hcall : call
                  = Oidc.mkCall
                      (let* res := fetch endpoint init in
                       Oidc.read_reply "UserInfo request failed" res)
                      (Oidc.after probe)
                      (Oidc.discovery_requests probe ++ [(endpoint, init)])%list).
  { subst call. unfold Oidc.getUserInfo. fold cfg. fold probe.
    rewrite Hdoc. cbn [Exc.bind Exc.ret]. rewrite Hep. cbn [Exc.bind Exc.ret].
    rewrite Hbearer. reflexivity. }
  rewrite Hcall. cbn [Oidc.sent Oidc.cached Oidc.outcome].
  split; [intros token ->; cbn in Hbearer; unfold Exc.ret in Hbearer; congruence |].
  split; [intros ->; cbn in Hbearer; unfold Exc.ret in Hbearer; congruence |].
  split; [reflexivity |]. split.
  { intros Hfresh. subst probe.
    rewrite RequestFacts.getDiscovery_fresh by exact Hfresh. reflexivity. }
  split; [| split].
  - intros e ->. reflexivity.
  - intros res text -> Hok Htext. cbn [Exc.bind Exc.ret].
    unfold Oidc.read_reply. rewrite Hok, Htext. reflexivity.
  - intros res -> Hok. cbn [Exc.bind Exc.ret].
    unfold Oidc.read_reply. rewrite Hok. reflexivity.
Qed.

Lemma getUserInfo_request_witness :
  Oidc.sent
    (Oidc.getUserInfo Examples.idp_env Examples.the_fetch 1730000000000
       Oidc.discovery_initial JS.JUndefined)
  = [ ("https://idp.example.com/.well-known/openid-configuration",
       Oidc.discovery_init);
      ("https://idp.example.com/userinfo",
       Oidc.mkInit "GET" [("Authorization", "Bearer undefined")] None "no-store") ].
Proof.
  exact (proj1 (proj2 (proj2 (getUserInfo_request Examples.idp_env Examples.the_fetch
                  1730000000000 Oidc.discovery_initial JS.JUndefined
                  Examples.the_document "https://idp.example.com/userinfo"
                  "undefined" eq_refl eq_refl eq_refl)))).
Defined.

(* ===================================================================== *)
(** * Part XXII.  User provisioning *)
(* ===================================================================== *)

Module UserFacts.

Import JS Oidc OidcUser.

Lemma trimStart_spaces (s : string) :
  Spec.every Str.is_ws1 s = true -> Str.trimStart s = "".
Proof.
  induction s as [| c s IH]; cbn [Spec.every Str.trimStart]; [reflexivity |].
  intros H. apply andb_true_iff in H as [Hc Hs]. rewrite Hc. exact (IH Hs).
Qed.

Lemma trim_spaces (s : string) : Spec.every Str.is_ws1 s = true -> Str.trim s = "".
Proof. intros H. unfold Str.trim. now rewrite (trimStart_spaces s H). Qed.

Lemma lower_spaces (unicode : string -> string) (s : string) :
  Spec.every Str.is_ws1 s = true -> Str.toLowerCase unicode s = s.
Proof.
  intros H. unfold Str.toLowerCase.
  assert (Hboth : Str.is_ascii s = true /\ Str.map_chars Str.lower_char s = s).
  { induction s as [| c s IH]; [split; reflexivity |].
    cbn [Spec.every] in H. apply andb_true_iff in H as [Hc Hs].
    destruct (IH Hs) as [Ha Hm]. cbn [Str.is_ascii Str.map_chars].
    rewrite Ha, Hm.
    assert (Hc' : (N_of_ascii c <? 128)%N = true /\ Str.lower_char c = c).
    { revert Hc. destruct c as [[] [] [] [] [] [] [] []]; vm_compute;
        intros; try discriminate; split; reflexivity. }
    destruct Hc' as [-> ->]. split; reflexivity. }
  destruct Hboth as [-> ->]. reflexivity.
Qed.

(** The rows that a change of one user leaves alone. *)
Lemma update_ids (users : Users) (id : string) (change : User -> User) :
  (forall u, user_id (change u) = user_id u) ->
  map user_id (update users id change) = map user_id users.
Proof.
  intros Hid. unfold update. rewrite map_map. apply map_ext.
  intros u. destruct (String.eqb (user_id u) id); [apply Hid | reflexivity].
Qed.

Lemma update_other (users : Users) (id : string) (change : User -> User) (u : User) :
  In u users -> user_id u <> id -> In u (update users id change).
Proof.
  intros Hin Hne. unfold update. apply in_map_iff. exists u. split; [| exact Hin].
  destruct (String.eqb_spec (user_id u) id); [contradiction | reflexivity].
Qed.

Lemma findFirst_some (users : Users) (names : list string) (u : User) :
  findFirst users names = Some u ->
  In u users /\ Str.includes (user_username u) names = true.
Proof. unfold findFirst. apply find_some. Qed.

Lemma findFirst_none (users : Users) (names : list string) :
  findFirst users names = None ->
  forall u, In u users -> Str.includes (user_username u) names = false.
Proof. unfold findFirst. intros H u Hin. exact (find_none _ _ H u Hin). Qed.

End UserFacts.

Module ProvisionFacts.

Import JS Oidc OidcUser.

(** A call that cannot name its user throws before it reads the table. *)
Lemma findOrCreateOidcUser_refused (unicode : string -> string) (admin : string)
    (env : Env) (uuid : string) (random : Buf.Buffer) (now : Z) (users : Users)
    (userInfo idTokenClaims : JObject) (e : string) :
  Spec.login_names unicode userInfo = Exc.throw e ->
  findOrCreateOidcUser unicode admin env uuid random now users userInfo idTokenClaims
  = (Exc.throw e, users).
Proof.
  intros Hnames. unfold findOrCreateOidcUser. cbv zeta.
  change (let* oidcUsername :=
            buildOidcUsername unicode (get userInfo "sub")
              (get userInfo "preferred_username") (get userInfo "email") in
          let* byEmail := as_username (get userInfo "email") in
          let* byName := as_username (get userInfo "preferred_username") in
          Exc.ret (oidcUsername, (oidcUsername :: byEmail ++ byName)%list))
    with (Spec.login_names unicode userInfo).
  rewrite Hnames. reflexivity.
Qed.

Section Login.

Variable unicode : string -> string.
Variable admin : string.
Variable env : Env.
Variables userInfo idTokenClaims : JObject.
Variable name : string.
Variable names : list string.
Hypothesis Hnames : Spec.login_names unicode userInfo = Exc.ret (name, names).

Let role : string := mapOidcRole env userInfo idTokenClaims.

Lemma names_head : Str.includes name names = true.
Proof.
  revert Hnames. unfold Spec.login_names.
  destruct (buildOidcUsername unicode _ _ _) as [e | n]; [discriminate |].
  destruct (as_username (get userInfo "email")) as [e | es]; [discriminate |].
  destruct (as_username (get userInfo "preferred_username")) as [e | ps];
    [discriminate |].
  cbn. intros H. injection H as <- <-. cbn. now rewrite String.eqb_refl.
Qed.

(** The call, once the user names are known. *)
Lemma findOrCreateOidcUser_unfold (uuid : string) (random : Buf.Buffer) (now : Z)
    (users : Users) :
  findOrCreateOidcUser unicode admin env uuid random now users userInfo idTokenClaims
  = match findFirst users names with
    | Some user =>
        let users1 :=
          if negb (String.eqb (user_role user) role)
          then update users (user_id user) (set_role role) else users in
        let user1 :=
          if negb (String.eqb (user_role user) role)
          then set_role role user else user in
        if negb (String.eqb (user_username user1) name)
        then
          if username_taken users1 name
          then (Exc.ret (toProvisionedUser admin user1), users1)
          else (Exc.ret (toProvisionedUser admin (set_username name user1)),
                update users1 (user_id user1) (set_username name))
        else (Exc.ret (toProvisionedUser admin user1), users1)
    | None =>
        if negb (autoCreate (getOidcConfig env))
        then
          (let* display := template (Spec.display_name userInfo) in
           let* sub := template (get userInfo "sub") in
           Exc.throw (not_found_message display sub), users)
        else
          let newUser :=
            mkUser uuid name (Crypto.hex (Crypto.bytes_of_string random)) role now in
          (Exc.ret (toProvisionedUser admin newUser), (users ++ [newUser])%list)
    end.
Proof.
  unfold findOrCreateOidcUser. cbv zeta.
  change (let* oidcUsername :=
            buildOidcUsername unicode (get userInfo "sub")
              (get userInfo "preferred_username") (get userInfo "email") in
          let* byEmail := as_username (get userInfo "email") in
          let* byName := as_username (get userInfo "preferred_username") in
          Exc.ret (oidcUsername, (oidcUsername :: byEmail ++ byName)%list))
    with (Spec.login_names unicode userInfo).
  rewrite Hnames. reflexivity.
Qed.

(** A row whose role and user name are settled is returned as it is. *)
Lemma settled_row (uuid : string) (random : Buf.Buffer) (now : Z)
    (users : Users) (row : User) :
  findFirst users names = Some row ->
  user_role row = role ->
  user_username row = name \/ username_taken users name = true ->
  findOrCreateOidcUser unicode admin env uuid random now users userInfo idTokenClaims
  = (Exc.ret (toProvisionedUser admin row), users).
Proof.
  intros Hfind Hrole Hname. rewrite findOrCreateOidcUser_unfold, Hfind. cbv zeta.
  rewrite Hrole, String.eqb_refl. cbn [negb].
  destruct (String.eqb_spec (user_username row) name) as [E | E]; [reflexivity |].
  cbn [negb]. destruct Hname as [Hname | Hname]; [contradiction |].
  now rewrite Hname.
Qed.

(** The first match after a change of the row found. *)
Lemma findFirst_update (users : Users) (user : User) (change : User -> User) :
  NoDup (map user_id users) ->
  findFirst users names = Some user ->
  Str.includes (user_username (change user)) names = true ->
  findFirst (update users (user_id user) change) names = Some (change user).
Proof.
  unfold findFirst, update. intros Hdup Hfind Hchange.
  induction users as [| x users IH]; [discriminate |].
  cbn [find map] in *. inversion Hdup as [| ? ? Hx Hrest]; subst.
  destruct (Str.includes (user_username x) names) eqn:Ex.
  - injection Hfind as ->. rewrite String.eqb_refl, Hchange. reflexivity.
  - assert (Hin : In user users) by (apply (find_some _ _ Hfind)).
    destruct (String.eqb_spec (user_id x) (user_id user)) as [E | E].
    + exfalso. apply Hx. rewrite E. now apply in_map.
    + rewrite Ex. apply IH; assumption.
Qed.

Lemma update_update (users : Users) (id : string) (f g : User -> User) :
  (forall u, user_id (f u) = user_id u) ->
  update (update users id f) id g = update users id (fun u => g (f u)).
Proof.
  intros Hid. unfold update. rewrite map_map. apply map_ext. intros u.
  destruct (String.eqb (user_id u) id) eqn:E; [| now rewrite E].
  now rewrite Hid, E.
Qed.

Lemma taken_update_role (users : Users) (id r n : string) :
  username_taken (update users id (set_role r)) n = username_taken users n.
Proof.
  unfold username_taken, update. induction users as [| x users IH]; [reflexivity |].
  cbn [map existsb]. rewrite IH.
  destruct (String.eqb (user_id x) id); reflexivity.
Qed.

(** A second login with the same claims finds the same user and changes
    nothing. *)
Lemma login_again (uuid uuid' : string) (random random' : Buf.Buffer)
    (now now' : Z) (users users' : Users) (p : OidcProvisionedUser) :
  NoDup (map user_id users) ->
  findOrCreateOidcUser unicode admin env uuid random now users userInfo idTokenClaims
  = (Exc.ret p, users') ->
  findOrCreateOidcUser unicode admin env uuid' random' now' users' userInfo
    idTokenClaims
  = (Exc.ret p, users').
Proof.
  intros Hdup Hfirst. rewrite findOrCreateOidcUser_unfold in Hfirst.
  destruct (findFirst users names) as [user |] eqn:Hfind.
  - cbv zeta in Hfirst. pose proof (UserFacts.findFirst_some _ _ _ Hfind) as [_ Hin].
    destruct (String.eqb_spec (user_role user) role) as [Hr | Hr];
      cbn [negb] in Hfirst.
    + destruct (String.eqb_spec (user_username user) name) as [Hn | Hn];
        cbn [negb] in Hfirst.
      * injection Hfirst as <- <-. apply settled_row; auto.
      * destruct (username_taken users name) eqn:Ht.
        -- injection Hfirst as <- <-. apply settled_row; auto.
        -- injection Hfirst as <- <-.
           apply settled_row; [| exact Hr | left; reflexivity].
           apply findFirst_update; [exact Hdup | exact Hfind | apply names_head].
    + assert (Hfound : findFirst (update users (user_id user) (set_role role)) names
                       = Some (set_role role user))
        by (apply findFirst_update; assumption).
      cbn [set_role user_username user_id] in Hfirst.
      destruct (String.eqb_spec (user_username user) name) as [Hn | Hn];
        cbn [negb] in Hfirst.
      * injection Hfirst as <- <-. apply settled_row; auto.
      * rewrite taken_update_role in Hfirst.
        destruct (username_taken users name) eqn:Ht.
        -- injection Hfirst as <- <-.
           apply settled_row; [exact Hfound | reflexivity |].
           right. now rewrite taken_update_role.
        -- injection Hfirst as <- <-.
           rewrite update_update by reflexivity.
           apply settled_row; [| reflexivity | left; reflexivity].
           apply (findFirst_update users user
                    (fun u => set_username name (set_role role u)));
             [exact Hdup | exact Hfind | apply names_head].
  - destruct (negb (autoCreate (getOidcConfig env))).
    + destruct (template (Spec.display_name userInfo)) as [e | d];
        [discriminate |].
      destruct (template (get userInfo "sub")); discriminate.
    + cbv zeta in Hfirst. injection Hfirst as <- <-.
      apply settled_row; [| reflexivity | left; reflexivity].
      unfold findFirst. rewrite TeamsFacts.find_append.
      fold (findFirst users names). rewrite Hfind.
      cbn [find user_username]. now rewrite names_head.
Qed.

End Login.

End ProvisionFacts.

Module TableFacts.

Import JS Oidc OidcUser.

Lemma update_self (users : Users) (u : User) (change : User -> User) :
  In u users -> In (change u) (update users (user_id u) change).
Proof.
  intros Hin. unfold update. apply in_map_iff. exists u.
  now rewrite String.eqb_refl.
Qed.

Lemma update_absent (users : Users) (id : string) (change : User -> User) :
  ~ In id (map user_id users) -> update users id change = users.
Proof.
  unfold update. induction users as [| x users IH]; [reflexivity |].
  cbn [map]. intros Hno.
  destruct (String.eqb_spec (user_id x) id) as [E | E].
  - exfalso. apply Hno. left. exact E.
  - f_equal. apply IH. intros Hin. apply Hno. right. exact Hin.
Qed.

Lemma update_role_usernames (users : Users) (id r : string) :
  map user_username (update users id (set_role r)) = map user_username users.
Proof.
  unfold update. rewrite map_map. apply map_ext. intros u.
  destruct (String.eqb (user_id u) id); reflexivity.
Qed.

Lemma taken_In (users : Users) (n : string) :
  username_taken users n = true <-> In n (map user_username users).
Proof.
  unfold username_taken. rewrite existsb_exists, in_map_iff.
  split; intros [u [H1 H2]]; exists u.
  - apply String.eqb_eq in H2. auto.
  - split; [exact H2 | now apply String.eqb_eq].
Qed.

Lemma rename_usernames (users : Users) (id n : string) :
  NoDup (map user_id users) ->
  NoDup (map user_username users) ->
  ~ In n (map user_username users) ->
  NoDup (map user_username (update users id (set_username n))).
Proof.
  induction users as [| x users IH]; [constructor |].
  cbn [map]. intros Hid Hname Hfree.
  inversion Hid as [| ? ? Hx Hids]; subst.
  inversion Hname as [| ? ? Hy Hnames]; subst.
  unfold update. cbn [map]. fold (update users id (set_username n)).
  destruct (String.eqb_spec (user_id x) id) as [E | E].
  - subst id. rewrite (update_absent users (user_id x) _ Hx).
    cbn [set_username user_username]. constructor; [| exact Hnames].
    intros Hin. apply Hfree. right. exact Hin.
  - constructor.
    + intros Hin. apply in_map_iff in Hin as [u [Hu Hin]].
      unfold update in Hin. apply in_map_iff in Hin as [v [Hv Hin]].
      destruct (String.eqb (user_id v) id).
      * subst u. cbn [set_username user_username] in Hu.
        apply Hfree. left. symmetry. exact Hu.
      * subst u. apply Hy. rewrite <- Hu. now apply in_map.
    + apply IH; [exact Hids | exact Hnames |].
      intros Hin. apply Hfree. right. exact Hin.
Qed.

End TableFacts.

(** X9.  The user name of an OIDC login is the preferred user name, else
    the e-mail address, each in lower case and trimmed, else [oidc:] followed
    by the subject.  The choice is made before trimming: a preferred user
    name made of blanks gives the empty user name, whatever the e-mail
    address is.  A truthy value that is not a text makes the call throw. *)
Theorem buildOidcUsername_cases :
  forall (unicode : string -> string) (sub preferredUsername email : JS.JValue),
    let result := OidcUser.buildOidcUsername unicode sub preferredUsername email in
    (forall p, preferredUsername = JS.JStr p -> p <> "" ->
       result = Exc.ret (Str.trim (Str.toLowerCase unicode p)))
    /\ (forall p, preferredUsername = JS.JStr p -> p <> "" ->
          Spec.every Str.is_ws1 p = true -> result = Exc.ret "")
    /\ (forall e, JS.truthy preferredUsername = false -> email = JS.JStr e ->
          e <> "" -> result = Exc.ret (Str.trim (Str.toLowerCase unicode e)))
    /\ (forall s, JS.truthy preferredUsername = false -> JS.truthy email = false ->
          sub = JS.JStr s -> result = Exc.ret ("oidc:" ++ s))
    /\ (JS.truthy preferredUsername = false -> JS.truthy email = false ->
        sub = JS.JUndefined -> result = Exc.ret "oidc:undefined")
    /\ (JS.truthy preferredUsername = true ->
        (forall p, preferredUsername <> JS.JStr p) ->
        result = Exc.throw "preferredUsername.toLowerCase is not a function")
    /\ (JS.truthy preferredUsername = false -> JS.truthy email = true ->
        (forall e, email <> JS.JStr e) ->
        result = Exc.throw "email.toLowerCase is not a function").
Proof.
  intros unicode sub preferredUsername email result. subst result.
  unfold OidcUser.buildOidcUsername.
  assert (Hs : forall p, p <> "" -> JS.truthy (JS.JStr p) = true).
  { intros p Hp. cbn. destruct (String.eqb_spec p ""); [contradiction | reflexivity]. }
  repeat split.
  - intros p -> Hp. now rewrite (Hs p Hp).
  - intros p -> Hp Hws. rewrite (Hs p Hp). cbn [OidcUser.lower_trim].
    rewrite UserFacts.lower_spaces, UserFacts.trim_spaces by exact Hws. reflexivity.
  - intros e -> -> He. now rewrite (Hs e He).
  - intros s -> -> ->. reflexivity.
  - intros -> -> ->. reflexivity.
  - intros -> Hno. destruct preferredUsername; try reflexivity.
    exfalso. exact (Hno _ eq_refl).
  - intros -> -> Hno. destruct email; try reflexivity.
    exfalso. exact (Hno _ eq_refl).
Qed.

Lemma buildOidcUsername_cases_witness :
  OidcUser.buildOidcUsername (fun s => s) (JS.JStr "user-123") (JS.JStr "  ")
    (JS.JStr "alice@example.com")
  = Exc.ret "".
Proof.
  apply (proj1 (proj2 (buildOidcUsername_cases (fun s => s) (JS.JStr "user-123")
                         (JS.JStr "  ") (JS.JStr "alice@example.com"))) "  ");
    [reflexivity | discriminate | reflexivity].
Defined.

(** X10.  The first login of a user nobody has a row for, with auto-creation
    on: one row is appended to the table, with the OIDC user name, the role
    mapped from the claims and a password of two hexadecimal digits for each
    random byte; the rows that were there are left as they are, and the
    record returned describes the new row. *)
Theorem findOrCreateOidcUser_first_login :
  forall (unicode : string -> string) (admin : string) (env : Oidc.Env)
         (uuid : string) (random : Buf.Buffer) (now : Z) (users : OidcUser.Users)
         (userInfo idTokenClaims : JS.JObject) (name : string) (names : list string),
    Spec.login_names unicode userInfo = Exc.ret (name, names) ->
    OidcUser.findFirst users names = None ->
    Oidc.autoCreate (Oidc.getOidcConfig env) = true ->
    let role := Oidc.mapOidcRole env userInfo idTokenClaims in
    let password := Crypto.hex (Crypto.bytes_of_string random) in
    OidcUser.findOrCreateOidcUser unicode admin env uuid random now users userInfo
      idTokenClaims
    = (Exc.ret (OidcUser.mkProvisioned uuid name role (String.eqb role admin) now),
       (users ++ [OidcUser.mkUser uuid name password role now])%list)
    /\ String.length password = (2 * String.length random)%nat
    /\ Spec.lower_hex password = true
    /\ (forall u, In u users -> OidcUser.user_username u <> name).
Proof.
  intros unicode admin env uuid random now users userInfo idTokenClaims name names
    Hnames Hnone Hauto role password.
  rewrite (ProvisionFacts.findOrCreateOidcUser_unfold unicode admin env userInfo
             idTokenClaims name names Hnames).
  rewrite Hnone, Hauto. cbn [negb]. cbv zeta.
  split; [reflexivity |]. split; [| split].
  - subst password.
    now rewrite AuxFacts.hex_length, AuxFacts.bytes_of_string_length.
  - apply AuxFacts.hex_lower.
  - intros u Hin Hsame.
    pose proof (UserFacts.findFirst_none users names Hnone u Hin) as Hout.
    rewrite Hsame in Hout.
    rewrite (ProvisionFacts.names_head unicode userInfo name names Hnames) in Hout.
    discriminate.
Qed.

Lemma findOrCreateOidcUser_first_login_witness :
  OidcUser.findOrCreateOidcUser (fun s => s) "admin" Examples.idp_env "id-2" "ab"
    1730000000000 [] Examples.alice []
  = (Exc.ret (OidcUser.mkProvisioned "id-2" "alice" "user" false 1730000000000),
     [OidcUser.mkUser "id-2" "alice" "6162" "user" 1730000000000]).
Proof.
  exact (proj1 (findOrCreateOidcUser_first_login (fun s => s) "admin"
                  Examples.idp_env "id-2" "ab" 1730000000000 [] Examples.alice []
                  "alice" ["alice"; "alice@example.com"; "Alice"]
                  eq_refl eq_refl eq_refl)).
Defined.

(** X11.  A login without a row and with auto-creation off
    ([OIDC_AUTO_CREATE=false]) throws and leaves the table as it is; the
    message names the user by [name], else the preferred user name, else
    the e-mail address, else the subject. *)
Theorem findOrCreateOidcUser_no_auto_create :
  forall (unicode : string -> string) (admin : string) (env : Oidc.Env)
         (uuid : string) (random : Buf.Buffer) (now : Z) (users : OidcUser.Users)
         (userInfo idTokenClaims : JS.JObject) (name : string) (names : list string),
    Spec.login_names unicode userInfo = Exc.ret (name, names) ->
    OidcUser.findFirst users names = None ->
    Oidc.getenv env "OIDC_AUTO_CREATE" = Some "false" ->
    let call :=
      OidcUser.findOrCreateOidcUser unicode admin env uuid random now users
        userInfo idTokenClaims in
    snd call = users
    /\ (exists message, fst call = Exc.throw message)
    /\ (forall display sub,
          JS.template (Spec.display_name userInfo) = Exc.ret display ->
          JS.template (JS.get userInfo "sub") = Exc.ret sub ->
          fst call = Exc.throw (OidcUser.not_found_message display sub)).
Proof.
  intros unicode admin env uuid random now users userInfo idTokenClaims name names
    Hnames Hnone Hauto call. subst call.
  rewrite (ProvisionFacts.findOrCreateOidcUser_unfold unicode admin env userInfo
             idTokenClaims name names Hnames).
  rewrite Hnone.
  assert (Hoff : Oidc.autoCreate (Oidc.getOidcConfig env) = false).
  { cbn [Oidc.getOidcConfig Oidc.autoCreate]. unfold Oidc.env_is. now rewrite Hauto. }
  rewrite Hoff. cbn [negb fst snd].
  split; [reflexivity |]. split.
  - destruct (JS.template (Spec.display_name userInfo)) as [e | d];
      [exists e; reflexivity |].
    destruct (JS.template (JS.get userInfo "sub")) as [e | s];
      [exists e; reflexivity |].
    eexists. reflexivity.
  - intros display sub -> ->. reflexivity.
Qed.

Lemma findOrCreateOidcUser_no_auto_create_witness :
  snd (OidcUser.findOrCreateOidcUser (fun s => s) "admin"
         (("OIDC_AUTO_CREATE", "false") :: Examples.idp_env) "id-2" "ab"
         1730000000000 [] Examples.alice [])
  = []
  /\ fst (OidcUser.findOrCreateOidcUser (fun s => s) "admin"
            (("OIDC_AUTO_CREATE", "false") :: Examples.idp_env) "id-2" "ab"
            1730000000000 [] Examples.alice [])
     = Exc.throw (OidcUser.not_found_message "Alice" "u2").
Proof.
  destruct (findOrCreateOidcUser_no_auto_create (fun s => s) "admin"
              (("OIDC_AUTO_CREATE", "false") :: Examples.idp_env) "id-2" "ab"
              1730000000000 [] Examples.alice []
              "alice" ["alice"; "alice@example.com"; "Alice"]
              eq_refl eq_refl eq_refl) as [Htable [_ Hmessage]].
  split; [exact Htable | exact (Hmessage "Alice" "u2" eq_refl eq_refl)].
Defined.

(** X12.  A login that finds a row keeps its identifier, its password and
    its creation time, sets its role to the role mapped from the claims
    (upwards and downwards), and renames it to the OIDC user name unless
    another row holds that name.  No row is added or removed, and the rows
    of other users are left as they are. *)
Theorem findOrCreateOidcUser_existing :
  forall (unicode : string -> string) (admin : string) (env : Oidc.Env)
         (uuid : string) (random : Buf.Buffer) (now : Z) (users : OidcUser.Users)
         (userInfo idTokenClaims : JS.JObject) (name : string) (names : list string)
         (user : OidcUser.User),
    Spec.login_names unicode userInfo = Exc.ret (name, names) ->
    OidcUser.findFirst users names = Some user ->
    let role := Oidc.mapOidcRole env userInfo idTokenClaims in
    let call :=
      OidcUser.findOrCreateOidcUser unicode admin env uuid random now users
        userInfo idTokenClaims in
    let username :=
      if String.eqb (OidcUser.user_username user) name
         || negb (OidcUser.username_taken users name)
      then name else OidcUser.user_username user in
    fst call
    = Exc.ret (OidcUser.mkProvisioned (OidcUser.user_id user) username role
                 (String.eqb role admin) (OidcUser.user_createdAt user))
    /\ In (OidcUser.mkUser (OidcUser.user_id user) username
             (OidcUser.user_password user) role (OidcUser.user_createdAt user))
          (snd call)
    /\ map OidcUser.user_id (snd call) = map OidcUser.user_id users
    /\ (forall u, In u users -> OidcUser.user_id u <> OidcUser.user_id user ->
          In u (snd call)).
Proof.
  intros unicode admin env uuid random now users userInfo idTokenClaims name names
    user Hnames Hfind role call username. subst call.
  rewrite (ProvisionFacts.findOrCreateOidcUser_unfold unicode admin env userInfo
             idTokenClaims name names Hnames).
  rewrite Hfind. cbv zeta. fold role.
  pose proof (UserFacts.findFirst_some _ _ _ Hfind) as [Hin _].
  assert (Hrow : forall r, OidcUser.user_role user = r ->
                   OidcUser.set_role r user = user).
  { intros r <-. destruct user; reflexivity. }
  assert (Hname : forall n, OidcUser.user_username user = n ->
                   OidcUser.set_username n user = user).
  { intros n <-. destruct user; reflexivity. }
  subst username.
  destruct (String.eqb_spec (OidcUser.user_role user) role) as [Hr | Hr];
    cbn [negb].
  - destruct (String.eqb_spec (OidcUser.user_username user) name) as [Hn | Hn];
      cbn [negb orb].
    + cbn [fst snd]. unfold OidcUser.toProvisionedUser. rewrite Hr, Hn.
      repeat split; auto.
      rewrite <- Hr, <- Hn. destruct user; exact Hin.
    + destruct (OidcUser.username_taken users name) eqn:Ht; cbn [negb fst snd].
      * unfold OidcUser.toProvisionedUser. rewrite Hr.
        repeat split; auto. rewrite <- Hr. destruct user; exact Hin.
      * unfold OidcUser.toProvisionedUser.
        cbn [OidcUser.set_username OidcUser.user_id OidcUser.user_username
             OidcUser.user_role OidcUser.user_createdAt]. rewrite Hr.
        split; [reflexivity |]. split; [| split].
        -- rewrite <- Hr.
           exact (TableFacts.update_self users user (OidcUser.set_username name) Hin).
        -- apply UserFacts.update_ids. reflexivity.
        -- intros u Hu Hne. now apply UserFacts.update_other.
  - cbn [OidcUser.set_role OidcUser.user_username OidcUser.user_id].
    rewrite ProvisionFacts.taken_update_role.
    destruct (String.eqb_spec (OidcUser.user_username user) name) as [Hn | Hn];
      cbn [negb orb].
    + cbn [fst snd]. unfold OidcUser.toProvisionedUser.
      cbn [OidcUser.set_role OidcUser.user_id OidcUser.user_username
           OidcUser.user_role OidcUser.user_createdAt]. rewrite Hn.
      split; [reflexivity |]. split; [| split].
      * rewrite <- Hn.
        exact (TableFacts.update_self users user (OidcUser.set_role role) Hin).
      * apply UserFacts.update_ids. reflexivity.
      * intros u Hu Hne. now apply UserFacts.update_other.
    + destruct (OidcUser.username_taken users name) eqn:Ht; cbn [negb fst snd].
      * unfold OidcUser.toProvisionedUser.
        cbn [OidcUser.set_role OidcUser.user_id OidcUser.user_username
             OidcUser.user_role OidcUser.user_createdAt].
        split; [reflexivity |]. split; [| split].
        -- exact (TableFacts.update_self users user (OidcUser.set_role role) Hin).
        -- apply UserFacts.update_ids. reflexivity.
        -- intros u Hu Hne. now apply UserFacts.update_other.
      * unfold OidcUser.toProvisionedUser.
        cbn [OidcUser.set_role OidcUser.set_username OidcUser.user_id
             OidcUser.user_username OidcUser.user_role OidcUser.user_createdAt].
        rewrite ProvisionFacts.update_update by reflexivity.
        split; [reflexivity |]. split; [| split].
        -- exact (TableFacts.update_self users user
                    (fun u => OidcUser.set_username name (OidcUser.set_role role u))
                    Hin).
        -- apply UserFacts.update_ids. reflexivity.
        -- intros u Hu Hne. now apply UserFacts.update_other.
Qed.

Lemma findOrCreateOidcUser_existing_witness :
  fst (OidcUser.findOrCreateOidcUser (fun s => s) "admin" Examples.idp_env "id-2"
         "ab" 1730000000000 Examples.the_users Examples.alice [])
  = Exc.ret (OidcUser.mkProvisioned "id-1" "alice" "user" false 1700000000000).
Proof.
  exact (proj1 (findOrCreateOidcUser_existing (fun s => s) "admin"
                  Examples.idp_env "id-2" "ab" 1730000000000 Examples.the_users
                  Examples.alice [] "alice"
                  ["alice"; "alice@example.com"; "Alice"]
                  (OidcUser.mkUser "id-1" "alice@example.com" "x" "admin"
                     1700000000000)
                  eq_refl eq_refl)).
Defined.

(** X13.  Provisioning is idempotent: after a login that returned a user, a
    login with the same claims returns the same record and leaves the table
    as it is, whatever the random sources give the second time. *)
Theorem findOrCreateOidcUser_idempotent :
  forall (unicode : string -> string) (admin : string) (env : Oidc.Env)
         (uuid uuid' : string) (random random' : Buf.Buffer) (now now' : Z)
         (users users' : OidcUser.Users) (userInfo idTokenClaims : JS.JObject)
         (p : OidcUser.OidcProvisionedUser),
    NoDup (map OidcUser.user_id users) ->
    OidcUser.findOrCreateOidcUser unicode admin env uuid random now users userInfo
      idTokenClaims
    = (Exc.ret p, users') ->
    OidcUser.findOrCreateOidcUser unicode admin env uuid' random' now' users'
      userInfo idTokenClaims
    = (Exc.ret p, users').
Proof.
  intros unicode admin env uuid uuid' random random' now now' users users'
    userInfo idTokenClaims p Hdup Hfirst.
  destruct (Spec.login_names unicode userInfo) as [e | [name names]] eqn:Hnames.
  - rewrite (ProvisionFacts.findOrCreateOidcUser_refused _ _ _ _ _ _ _ _ _ e Hnames)
      in Hfirst.
    discriminate.
  - exact (ProvisionFacts.login_again unicode admin env userInfo idTokenClaims
             name names Hnames uuid uuid' random random' now now' users users' p
             Hdup Hfirst).
Qed.

Lemma findOrCreateOidcUser_idempotent_witness :
  OidcUser.findOrCreateOidcUser (fun s => s) "admin" Examples.idp_env "id-3" "cd"
    1730000000500 [OidcUser.mkUser "id-2" "alice" "6162" "user" 1730000000000]
    Examples.alice []
  = (Exc.ret (OidcUser.mkProvisioned "id-2" "alice" "user" false 1730000000000),
     [OidcUser.mkUser "id-2" "alice" "6162" "user" 1730000000000]).
Proof.
  apply (findOrCreateOidcUser_idempotent (fun s => s) "admin" Examples.idp_env
           "id-2" "id-3" "ab" "cd" 1730000000000 1730000000500 []).
  - constructor.
  - reflexivity.
Defined.

(** X14.  What provisioning does to the table: a call that throws leaves it
    as it is; a call never removes a row and adds at most one, with the
    identifier drawn for it; and when identifiers and user names are unique
    and the identifier drawn is new, they are unique afterwards. *)
Theorem findOrCreateOidcUser_table :
  forall (unicode : string -> string) (admin : string) (env : Oidc.Env)
         (uuid : string) (random : Buf.Buffer) (now : Z) (users : OidcUser.Users)
         (userInfo idTokenClaims : JS.JObject),
    let call :=
      OidcUser.findOrCreateOidcUser unicode admin env uuid random now users
        userInfo idTokenClaims in
    (forall e, fst call = Exc.throw e -> snd call = users)
    /\ (map OidcUser.user_id (snd call) = map OidcUser.user_id users
        \/ map OidcUser.user_id (snd call)
           = (map OidcUser.user_id users ++ [uuid])%list)
    /\ (NoDup (map OidcUser.user_id users) ->
        NoDup (map OidcUser.user_username users) ->
        ~ In uuid (map OidcUser.user_id users) ->
        NoDup (map OidcUser.user_id (snd call))
        /\ NoDup (map OidcUser.user_username (snd call))).
Proof.
  intros unicode admin env uuid random now users userInfo idTokenClaims call.
  subst call.
  destruct (Spec.login_names unicode userInfo) as [e | [name names]] eqn:Hnames.
  { rewrite (ProvisionFacts.findOrCreateOidcUser_refused _ _ _ _ _ _ _ _ _ e Hnames).
    cbn [fst snd]. repeat split; auto. }
  rewrite (ProvisionFacts.findOrCreateOidcUser_unfold unicode admin env userInfo
             idTokenClaims name names Hnames).
  set (role := Oidc.mapOidcRole env userInfo idTokenClaims).
  destruct (OidcUser.findFirst users names) as [user |] eqn:Hfind.
  - cbv zeta.
    set (users1 := if negb (String.eqb (OidcUser.user_role user) role)
                   then OidcUser.update users (OidcUser.user_id user)
                          (OidcUser.set_role role)
                   else users).
    set (user1 := if negb (String.eqb (OidcUser.user_role user) role)
                  then OidcUser.set_role role user else user).
    assert (Hids1 : map OidcUser.user_id users1 = map OidcUser.user_id users).
    { subst users1. destruct (negb _); [| reflexivity].
      apply UserFacts.update_ids. reflexivity. }
    assert (Hnames1 : map OidcUser.user_username users1
                      = map OidcUser.user_username users).
    { subst users1. destruct (negb _); [| reflexivity].
      apply TableFacts.update_role_usernames. }
    destruct (negb (String.eqb (OidcUser.user_username user1) name)).
    + destruct (OidcUser.username_taken users1 name) eqn:Ht; cbn [fst snd].
      * split; [discriminate |]. split; [left; exact Hids1 |].
        intros H1 H2 _. now rewrite Hids1, Hnames1.
      * split; [discriminate |].
        assert (Hids2 : map OidcUser.user_id
                          (OidcUser.update users1 (OidcUser.user_id user1)
                             (OidcUser.set_username name))
                        = map OidcUser.user_id users).
        { rewrite UserFacts.update_ids by reflexivity. exact Hids1. }
        split; [left; exact Hids2 |].
        intros H1 H2 _. rewrite Hids2. split; [exact H1 |].
        apply TableFacts.rename_usernames.
        -- now rewrite Hids1.
        -- now rewrite Hnames1.
        -- intros Hin. apply TableFacts.taken_In in Hin. congruence.
    + cbn [fst snd]. split; [discriminate |]. split; [left; exact Hids1 |].
      intros H1 H2 _. now rewrite Hids1, Hnames1.
  - destruct (negb (Oidc.autoCreate (Oidc.getOidcConfig env))); cbn [fst snd].
    + repeat split; auto.
    + cbv zeta. cbn [fst snd]. split; [discriminate |].
      split; [right; now rewrite map_app |].
      intros H1 H2 Hfresh. rewrite !map_app. cbn [map OidcUser.user_id
                                                    OidcUser.user_username].
      split.
      * apply NoDup_app; [exact H1 | repeat constructor; intros [] |].
        intros x Hx [<- | []]. exact (Hfresh Hx).
      * apply NoDup_app; [exact H2 | repeat constructor; intros [] |].
        intros x Hx [<- | []].
        apply in_map_iff in Hx as [u [Hu Hin]].
        pose proof (UserFacts.findFirst_none users names Hfind u Hin) as Hout.
        rewrite Hu in Hout.
        rewrite (ProvisionFacts.names_head unicode userInfo name names Hnames)
          in Hout.
        discriminate.
Qed.

(* ===================================================================== *)
(** * Part XXIII.  The callback handler *)
(* ===================================================================== *)

Module FlowFacts.

Import JS Oidc Callback.

Section Handler.

Variable newURL : string -> string -> Exc.result string.

(** The handler on a request that reaches the state check. *)
Lemma GET_reaches (env : Env) (now : Z) (appSecret : string)
    (session : string -> string -> option string -> Exc.result string)
    (req : Request) (code state : string) :
  Spec.reaches_check env req code state ->
  GET newURL env now appSecret session req
  = let baseUrl := getExternalBaseUrl env req in
    match (let* _ := check_state now appSecret req state in
           let* token :=
             session code
               (or_else (oidc_redirect_uri req)
                  (baseUrl ++ "/api/auth/oidc/callback"))
               (oidc_nonce req) in
           let* completeUrl := newURL "/api/auth/oidc/complete" baseUrl in
           Exc.ret
             (mkRedirect completeUrl None
                [ mkCookie "umami.auth" token true 86400;
                  mkCookie "oidc_auth_token" token false 60 ]
                [ "oidc_state"; "oidc_nonce"; "oidc_redirect_uri" ])) with
    | inr response => Exc.ret response
    | inl message =>
        login_redirect newURL baseUrl
          (Some (if String.eqb message "" then "OIDC authentication failed"
                 else message))
    end.
Proof.
  intros [Hen [Herr [Hcode [Hc [Hstate Hs]]]]].
  unfold GET. rewrite Hen, Herr, Hcode, Hstate. cbn [negb].
  apply String.eqb_neq in Hc, Hs. rewrite Hc, Hs. reflexivity.
Qed.

(** A request either reaches the state check or is answered before it, by
    a redirect to the login page that does not depend on the session. *)
Lemma GET_early (env : Env) (now : Z) (appSecret : string) (req : Request) :
  (exists code state, Spec.reaches_check env req code state)
  \/ (exists message,
        forall session,
          GET newURL env now appSecret session req
          = login_redirect newURL (getExternalBaseUrl env req) message).
Proof.
  unfold GET, Spec.reaches_check.
  destruct (enabled (getOidcConfig env)) eqn:Hen; cbn [negb];
    [| right; eexists; reflexivity].
  destruct (present (error req)) eqn:Herr; [right; eexists; reflexivity |].
  destruct (code req) as [code |] eqn:Hcode; [| right; eexists; reflexivity].
  destruct (state req) as [state |] eqn:Hstate; [| right; eexists; reflexivity].
  destruct (String.eqb_spec code "") as [Hc | Hc];
    [right; eexists; reflexivity |].
  destruct (String.eqb_spec state "") as [Hs | Hs];
    [right; eexists; reflexivity |].
  left. exists code, state. repeat split; auto.
Qed.

(** What a redirect to the login page is. *)
Lemma login_redirect_cases (baseUrl : string) (message : option string) :
  (forall e, login_redirect newURL baseUrl message = Exc.throw e ->
     newURL "/login" baseUrl = Exc.throw e)
  /\ (forall r, login_redirect newURL baseUrl message = Exc.ret r ->
        newURL "/login" baseUrl = Exc.ret (target r)
        /\ error_param r = message
        /\ set_cookies r = [] /\ deleted_cookies r = []).
Proof.
  unfold login_redirect.
  destruct (newURL "/login" baseUrl) as [e0 | loginUrl]; cbn [Exc.bind]; split.
  - intros e H. unfold Exc.throw in *. injection H as ->. reflexivity.
  - intros r H. discriminate H.
  - intros e H. discriminate H.
  - intros r H. unfold Exc.ret in H. injection H as <-. repeat split.
Qed.

End Handler.

End FlowFacts.

(** X15.  The answers of the callback handler.  The handler resolves its
    targets against the external base URL with the URL constructor, and an
    error leaves it only when the constructor refuses the base for the
    login page.  Every answer is a redirect, either to the login page, with
    no cookie set and none deleted, or to the completion page, and then the
    request had a code and a state, the state passed the check against the
    cookie, its signature and its age, the rest of the flow returned a
    session token, and the answer sets exactly two cookies with that token
    and deletes the three cookies of the flow.  With a constructor that
    resolves as the URL standard does, the refusal of the identity provider
    is sent to [https://example.com/login] when [APP_URL] is
    [https://example.com/analytics], and with [APP_URL] set to three
    slashes the handler throws. *)
Theorem callback_outcomes :
  forall (newURL : string -> string -> Exc.result string)
         (env : Oidc.Env) (now : Z) (appSecret : string)
         (session : string -> string -> option string -> Exc.result string)
         (req : Callback.Request),
    let answer := Callback.GET newURL env now appSecret session req in
    let baseUrl := Callback.getExternalBaseUrl env req in
    (forall e, answer = Exc.throw e -> newURL "/login" baseUrl = Exc.throw e)
    /\ (forall r, answer = Exc.ret r ->
          (newURL "/login" baseUrl = Exc.ret (Callback.target r)
           /\ Callback.set_cookies r = [] /\ Callback.deleted_cookies r = [])
          \/ (exists code state token,
                Spec.reaches_check env req code state
                /\ Callback.check_state now appSecret req state = Exc.ret tt
                /\ session code
                     (Callback.or_else (Callback.oidc_redirect_uri req)
                        (baseUrl ++ "/api/auth/oidc/callback"))
                     (Callback.oidc_nonce req)
                   = Exc.ret token
                /\ newURL "/api/auth/oidc/complete" baseUrl
                   = Exc.ret (Callback.target r)
                /\ r = Callback.mkRedirect (Callback.target r) None
                         [ Callback.mkCookie "umami.auth" token true 86400;
                           Callback.mkCookie "oidc_auth_token" token false 60 ]
                         [ "oidc_state"; "oidc_nonce"; "oidc_redirect_uri" ]))
    /\ Callback.GET Examples.the_newURL
         [("OIDC_ENABLED", "true"); ("APP_URL", "https://example.com/analytics")]
         1730000000000 Examples.the_secret Examples.no_session
         Examples.req_denied
       = Exc.ret (Callback.mkRedirect "https://example.com/login"
                    (Some "OIDC: access_denied") [] [])
    /\ Callback.GET Examples.the_newURL
         [("OIDC_ENABLED", "true"); ("APP_URL", "///")]
         1730000000000 Examples.the_secret Examples.no_session
         Examples.req_denied
       = Exc.throw "Invalid URL".
Proof.
  intros newURL env now appSecret session req answer baseUrl.
  refine (let general := _ in
          conj (proj1 general)
            (conj (proj2 general) (conj eq_refl eq_refl))).
  assert (Hlogin : forall message,
            answer = Callback.login_redirect newURL baseUrl message ->
            (forall e, answer = Exc.throw e ->
               newURL "/login" baseUrl = Exc.throw e)
            /\ (forall r, answer = Exc.ret r ->
                  newURL "/login" baseUrl = Exc.ret (Callback.target r)
                  /\ Callback.set_cookies r = []
                  /\ Callback.deleted_cookies r = [])).
  { intros message ->.
    destruct (FlowFacts.login_redirect_cases newURL baseUrl message) as [Ht Hr].
    split; [exact Ht |]. intros r H. destruct (Hr r H) as [H1 [_ [H2 H3]]].
    repeat split; assumption. }
  destruct (FlowFacts.GET_early newURL env now appSecret req)
    as [[code [state Hreach]] | [message Hearly]].
  - pose proof (FlowFacts.GET_reaches newURL env now appSecret session req code
                  state Hreach) as Hget.
    cbv zeta in Hget. fold baseUrl answer in Hget.
    destruct (Callback.check_state now appSecret req state) as [e | []] eqn:Hcheck.
    { cbn [Exc.bind] in Hget. destruct (Hlogin _ Hget) as [Ht Hr].
      split; [exact Ht | intros r H; left; exact (Hr r H)]. }
    cbn [Exc.bind] in Hget.
    destruct (session code _ (Callback.oidc_nonce req)) as [e | token] eqn:Hsession.
    { cbn [Exc.bind] in Hget. destruct (Hlogin _ Hget) as [Ht Hr].
      split; [exact Ht | intros r H; left; exact (Hr r H)]. }
    cbn [Exc.bind] in Hget.
    destruct (newURL "/api/auth/oidc/complete" baseUrl) as [e | completeUrl]
      eqn:Hcomplete.
    { cbn [Exc.bind] in Hget. destruct (Hlogin _ Hget) as [Ht Hr].
      split; [exact Ht | intros r H; left; exact (Hr r H)]. }
    cbn [Exc.bind Exc.ret] in Hget. rewrite Hget. split.
    + intros e H. discriminate H.
    + intros r H. unfold Exc.ret in H. injection H as <-. right.
      exists code, state, token. cbn [Callback.target].
      split; [exact Hreach |]. split; [exact Hcheck |].
      split; [exact Hsession |]. split; reflexivity.
  - destruct (Hlogin _ (Hearly session)) as [Ht Hr].
    split; [exact Ht | intros r H; left; exact (Hr r H)].
Qed.

(** X16.  The rest of the flow (token exchange, provisioning, session) runs
    only after the state check: on a request whose state does not pass it,
    the answer does not depend on the rest of the flow. *)
Theorem callback_state_check_first :
  forall (newURL : string -> string -> Exc.result string)
         (env : Oidc.Env) (now : Z) (appSecret : string) (req : Callback.Request)
         (session session' : string -> string -> option string -> Exc.result string),
    (forall code state,
        Spec.reaches_check env req code state ->
        Callback.check_state now appSecret req state <> Exc.ret tt) ->
    Callback.GET newURL env now appSecret session req
    = Callback.GET newURL env now appSecret session' req.
Proof.
  intros newURL env now appSecret req session session' Hfail.
  destruct (FlowFacts.GET_early newURL env now appSecret req)
    as [[code [state Hreach]] | [message Hearly]].
  - rewrite !(FlowFacts.GET_reaches newURL env now appSecret _ req code state
                Hreach).
    cbv zeta. specialize (Hfail code state Hreach).
    destruct (Callback.check_state now appSecret req state) as [e | []];
      [reflexivity | contradiction].
  - now rewrite !Hearly.
Qed.

Lemma callback_state_check_first_witness :
  Callback.GET Examples.the_newURL Examples.the_env 1730000000000
    Examples.the_secret Examples.no_session Examples.req_mismatch
  = Callback.GET Examples.the_newURL Examples.the_env 1730000000000
      Examples.the_secret (fun _ _ _ => Exc.throw "unused") Examples.req_mismatch.
Proof.
  apply callback_state_check_first.
  intros code state [_ [_ [_ [_ [Hstate _]]]]].
  injection Hstate as <-. vm_compute. discriminate.
Defined.

(** X17.  The nonce of the identity token is compared with the cookie only
    when both are there: without the cookie, without an identity token,
    with an identity token that is not a three-part token of JSON, or with
    claims that carry no nonce, the check passes.  When both are there, the
    check passes exactly when they are the same text.  A token whose payload
    is [null] makes the check throw a [TypeError].  The nonce 1.5 of the
    payload [{"nonce":1.5}] is a number, and mismatches the cookie "1.5". *)
Theorem check_nonce_cases :
  forall (savedNonce : option string) (idToken : JS.JValue),
    let claims := Oidc.parseIdTokenClaims_of idToken in
    let check := Callback.check_nonce savedNonce claims in
    (Callback.present savedNonce = false -> check = Exc.ret tt)
    /\ ((forall s, idToken <> JS.JStr s) -> check = Exc.ret tt)
    /\ (forall s, idToken = JS.JStr s ->
          List.length (Str.split "." s) <> 3%nat -> check = Exc.ret tt)
    /\ (forall o, claims = JS.JObj o -> JS.truthy (JS.get o "nonce") = false ->
          check = Exc.ret tt)
    /\ (forall saved o n,
          savedNonce = Some saved -> saved <> "" ->
          claims = JS.JObj o -> JS.get o "nonce" = JS.JStr n -> n <> "" ->
          check = if String.eqb n saved then Exc.ret tt
                  else Exc.throw "OIDC nonce mismatch")
    /\ (forall saved o,
          savedNonce = Some saved -> saved <> "" ->
          claims = JS.JObj o -> JS.truthy (JS.get o "nonce") = true ->
          (forall n, JS.get o "nonce" <> JS.JStr n) ->
          check = Exc.throw "OIDC nonce mismatch")
    /\ (forall saved,
          savedNonce = Some saved -> saved <> "" -> claims = JS.JNull ->
          check = Exc.throw "Cannot read properties of null (reading 'nonce')")
    /\ Oidc.parseIdTokenClaims_of
         (JS.JStr "eyJhbGciOiJSUzI1NiJ9.eyJub25jZSI6MS41fQ.c2ln")
       = JS.JObj [("nonce", JS.JNum (Double.of_decimal false 15 (-1)))]
    /\ Callback.check_nonce (Some "1.5")
         (Oidc.parseIdTokenClaims_of
            (JS.JStr "eyJhbGciOiJSUzI1NiJ9.eyJub25jZSI6MS41fQ.c2ln"))
       = Exc.throw "OIDC nonce mismatch".
Proof.
  intros savedNonce idToken claims check. subst check.
  assert (Habsent : Callback.check_nonce savedNonce (JS.JObj []) = Exc.ret tt).
  { unfold Callback.check_nonce. destruct (Callback.present savedNonce); reflexivity. }
  assert (Hpresent : forall saved, saved <> "" ->
            Callback.present (Some saved) = true
            /\ Callback.or_else (Some saved) "" = saved).
  { intros saved Hs. cbn. destruct (String.eqb_spec saved ""); [contradiction |].
    split; reflexivity. }
  split; [| split; [| split; [| split; [| split; [| split; [| split;
    [| split; vm_compute; reflexivity]]]]]]].
  - intros Hno. unfold Callback.check_nonce. now rewrite Hno.
  - intros Hno. subst claims. destruct idToken; try exact Habsent.
    exfalso. exact (Hno _ eq_refl).
  - intros s -> Hlen. subst claims. cbn [Oidc.parseIdTokenClaims_of].
    unfold Oidc.parseIdTokenClaims, Oidc.parseIdTokenClaims_try.
    destruct (Nat.eqb_spec (List.length (Str.split "." s)) 3) as [E | E];
      [contradiction | exact Habsent].
  - intros o -> Hfalsy. unfold Callback.check_nonce.
    destruct (Callback.present savedNonce); [| reflexivity].
    cbn [JS.field Exc.bind Exc.ret]. now rewrite Hfalsy.
  - intros saved o n -> Hs -> Hn Hne. unfold Callback.check_nonce.
    destruct (Hpresent saved Hs) as [-> ->].
    cbn [JS.field Exc.bind Exc.ret]. rewrite Hn. cbn [JS.truthy JS.strict_eq_str].
    destruct (String.eqb_spec n ""); [contradiction |]. cbn [negb andb].
    destruct (String.eqb n saved); reflexivity.
  - intros saved o -> Hs -> Ht Hno. unfold Callback.check_nonce.
    destruct (Hpresent saved Hs) as [-> ->].
    cbn [JS.field Exc.bind Exc.ret]. rewrite Ht.
    destruct (JS.get o "nonce"); try reflexivity.
    exfalso. exact (Hno _ eq_refl).
  - intros saved -> Hs ->. unfold Callback.check_nonce.
    destruct (Hpresent saved Hs) as [-> _]. reflexivity.
Qed.

Module BaseUrlFacts.

Import Oidc Callback.

Lemma rev_append_rev (s acc : string) :
  Str.rev_append (Str.rev_append s acc) "" = Str.rev_append acc s.
Proof.
  revert acc. induction s as [| c s IH]; intros acc; cbn [Str.rev_append];
    [reflexivity |].
  rewrite IH. reflexivity.
Qed.

Lemma rev_involutive (s : string) : Str.rev (Str.rev s) = s.
Proof. unfold Str.rev. now rewrite rev_append_rev. Qed.

Lemma drop_slashes_head (s : string) : Spec.starts_with_slash (Str.drop_slashes s) = false.
Proof.
  induction s as [| c s IH]; [reflexivity |]. cbn [Str.drop_slashes].
  destruct (Ascii.eqb c "/") eqn:E; [exact IH |]. cbn. exact E.
Qed.

Lemma drop_slashes_stop (s : string) :
  Spec.starts_with_slash s = false -> Str.drop_slashes s = s.
Proof.
  destruct s as [| c s]; [reflexivity |]. cbn. intros ->. reflexivity.
Qed.

(** What is left has no slash at its end, and stripping it again changes
    nothing. *)
Lemma strip_no_slash (s : string) :
  Spec.ends_with_slash (Str.strip_trailing_slashes s) = false.
Proof.
  unfold Spec.ends_with_slash, Str.strip_trailing_slashes.
  rewrite rev_involutive. apply drop_slashes_head.
Qed.

Lemma strip_idempotent (s : string) :
  Str.strip_trailing_slashes (Str.strip_trailing_slashes s)
  = Str.strip_trailing_slashes s.
Proof.
  unfold Str.strip_trailing_slashes. rewrite rev_involutive.
  now rewrite (drop_slashes_stop _ (drop_slashes_head (Str.rev s))).
Qed.

End BaseUrlFacts.

(** X18.  The external base URL.  When [APP_URL] is set and not empty, it is
    [APP_URL] without its trailing slashes, whatever the request is: the
    [Host] and [X-Forwarded-*] headers are not read, and the result has no
    slash at its end (an [APP_URL] made of slashes only gives the empty
    text).  Otherwise a forwarded host is used with the forwarded protocol,
    [https] when there is none; else the [Host] header unless it starts
    with [0.0.0.0] or [127.0.0.1]; else the origin of the request. *)
Theorem getExternalBaseUrl_cases :
  forall (env : Oidc.Env) (req : Callback.Request),
    let base := Callback.getExternalBaseUrl env req in
    let proto :=
      Callback.or_else (Callback.header (Callback.headers req) "x-forwarded-proto")
        "https" in
    (forall appUrl,
        Oidc.getenv env "APP_URL" = Some appUrl -> appUrl <> "" ->
        base = Str.strip_trailing_slashes appUrl
        /\ Spec.ends_with_slash base = false
        /\ (forall req', Callback.getExternalBaseUrl env req' = base)
        /\ (Spec.every (fun c => Ascii.eqb c "/") appUrl = true -> base = ""))
    /\ (Callback.present (Oidc.getenv env "APP_URL") = false ->
        (forall host,
            Callback.header (Callback.headers req) "x-forwarded-host" = Some host ->
            host <> "" -> base = proto ++ "://" ++ host)
        /\ (Callback.present
              (Callback.header (Callback.headers req) "x-forwarded-host") = false ->
            (forall host,
                Callback.header (Callback.headers req) "host" = Some host ->
                host <> "" -> Callback.local_host host = false ->
                base = proto ++ "://" ++ host)
            /\ (forall host,
                  Callback.header (Callback.headers req) "host" = Some host ->
                  Callback.local_host host = true -> base = Callback.origin req)
            /\ (Callback.present (Callback.header (Callback.headers req) "host")
                = false -> base = Callback.origin req))).
Proof.
  intros env req base proto. subst base proto. unfold Callback.getExternalBaseUrl.
  assert (Hp : forall s, s <> "" ->
            Callback.present (Some s) = true /\ Callback.or_else (Some s) "" = s).
  { intros s Hs. cbn. destruct (String.eqb_spec s ""); [contradiction |].
    split; reflexivity. }
  split.
  - intros appUrl Henv Hne. destruct (Hp appUrl Hne) as [Hpres _].
    rewrite Henv, Hpres. unfold Oidc.env_or. rewrite Henv.
    split; [reflexivity |]. split; [apply BaseUrlFacts.strip_no_slash |].
    split; [reflexivity |].
    intros Hall. unfold Str.strip_trailing_slashes.
    assert (Hrev : forall s acc,
              Spec.every (fun c => Ascii.eqb c "/") s = true ->
              Spec.every (fun c => Ascii.eqb c "/") acc = true ->
              Spec.every (fun c => Ascii.eqb c "/") (Str.rev_append s acc) = true).
    { induction s as [| c s IH]; intros acc Hs Hacc; cbn [Str.rev_append];
        [exact Hacc |].
      cbn [Spec.every] in Hs. apply andb_true_iff in Hs as [Hc Hs].
      apply IH; [exact Hs |]. cbn [Spec.every]. now rewrite Hc, Hacc. }
    assert (Hdrop : forall s, Spec.every (fun c => Ascii.eqb c "/") s = true ->
              Str.drop_slashes s = "").
    { induction s as [| c s IH]; [reflexivity |]. cbn [Spec.every Str.drop_slashes].
      intros H. apply andb_true_iff in H as [-> Hs]. exact (IH Hs). }
    unfold Str.rev at 2. rewrite Hdrop by (apply Hrev; [exact Hall | reflexivity]).
    reflexivity.
  - intros Hno. rewrite Hno. split.
    + intros host Hh Hne. destruct (Hp host Hne) as [Hpres Hor].
      now rewrite Hh, Hpres, Hor.
    + intros Hnf. rewrite Hnf. split; [| split].
      * intros host Hh Hne Hlocal. destruct (Hp host Hne) as [Hpres Hor].
        now rewrite Hh, Hpres, Hor, Hlocal.
      * intros host Hh Hlocal. rewrite Hh.
        destruct (Callback.present (Some host)); [| reflexivity].
        cbn [andb]. unfold Callback.or_else.
        destruct (String.eqb_spec host "") as [-> | _].
        -- cbn in Hlocal. discriminate.
        -- now rewrite Hlocal.
      * intros Hnh. now rewrite Hnh.
Qed.

Lemma getExternalBaseUrl_cases_witness :
  Callback.getExternalBaseUrl Examples.the_env Examples.req_mismatch
  = Str.strip_trailing_slashes "https://umami.example.com".
Proof.
  apply (proj1 (getExternalBaseUrl_cases Examples.the_env Examples.req_mismatch)
           "https://umami.example.com"); [reflexivity | discriminate].
Defined.

(** X19.  The order of the steps after the state check.  The database and
    the session store are touched only after the token exchange, the nonce
    check and the user-information request have succeeded; a failed token
    exchange or a failed nonce check ends the flow before the
    user-information request; and what the team bridge throws is swallowed:
    two bridges that leave the same state give the same flow. *)
Theorem callback_steps_order :
  forall (W : Type)
         (provision :
            JS.JValue -> JS.JValue -> W ->
            Exc.result OidcUser.OidcProvisionedUser * W)
         (bridge : option (string -> JS.JValue -> JS.JValue -> W ->
                           Exc.result unit * W))
         (redis_enabled : bool)
         (saveAuth : string -> string -> bool -> W -> Exc.result string * W)
         (createSecureToken : string -> string -> Exc.result string)
         (env : Oidc.Env) (fetch : Oidc.Fetch) (now3 now5 : Z)
         (st : Oidc.DiscoveryState) (w : W) (appSecret code redirectUri : string)
         (savedNonce : option string),
    let flow :=
      Callback.steps W provision bridge redis_enabled saveAuth createSecureToken
        env fetch now3 now5 st w appSecret code redirectUri savedNonce in
    let exchange := Oidc.exchangeCode env fetch now3 st code redirectUri in
    (Callback.world flow = w
     \/ exists tokens id_token access_token userInfo,
          Oidc.outcome exchange = Exc.ret tokens
          /\ JS.field tokens "id_token" = Exc.ret id_token
          /\ JS.field tokens "access_token" = Exc.ret access_token
          /\ Callback.check_nonce savedNonce (Oidc.parseIdTokenClaims_of id_token)
             = Exc.ret tt
          /\ Oidc.outcome
               (Oidc.getUserInfo env fetch now5 (Oidc.cached exchange) access_token)
             = Exc.ret userInfo)
    /\ (forall e, Oidc.outcome exchange = Exc.throw e ->
          Callback.token flow = Exc.throw e /\ Callback.world flow = w
          /\ Callback.requests flow = Oidc.sent exchange)
    /\ (forall tokens id_token e,
          Oidc.outcome exchange = Exc.ret tokens ->
          JS.field tokens "id_token" = Exc.ret id_token ->
          Callback.check_nonce savedNonce (Oidc.parseIdTokenClaims_of id_token)
          = Exc.throw e ->
          Callback.token flow = Exc.throw e /\ Callback.world flow = w
          /\ Callback.requests flow = Oidc.sent exchange)
    /\ (forall bridge bridge',
          (forall userId userInfo claims w0,
              snd (bridge userId userInfo claims w0)
              = snd (bridge' userId userInfo claims w0)) ->
          Callback.steps W provision (Some bridge) redis_enabled saveAuth
            createSecureToken env fetch now3 now5 st w appSecret code redirectUri
            savedNonce
          = Callback.steps W provision (Some bridge') redis_enabled saveAuth
              createSecureToken env fetch now3 now5 st w appSecret code redirectUri
              savedNonce).
Proof.
  intros W provision bridge redis_enabled saveAuth createSecureToken env fetch
    now3 now5 st w appSecret code redirectUri savedNonce flow exchange.
  assert (Haccess : forall tokens id_token,
            JS.field tokens "id_token" = Exc.ret id_token ->
            exists access_token, JS.field tokens "access_token" = Exc.ret access_token).
  { intros tokens id_token H. destruct tokens; try discriminate; eexists; reflexivity. }
  split; [| split; [| split]].
  - subst flow. unfold Callback.steps. fold exchange.
    destruct (Oidc.outcome exchange) as [e | tokens] eqn:Hex; [left; reflexivity |].
    cbn [Exc.bind].
    destruct (JS.field tokens "id_token") as [e | id_token] eqn:Hid;
      [left; reflexivity |].
    cbn [Exc.bind].
    destruct (JS.field tokens "access_token") as [e | access_token] eqn:Hat;
      [left; reflexivity |].
    cbn [Exc.bind]. cbv zeta.
    destruct (Callback.check_nonce savedNonce (Oidc.parseIdTokenClaims_of id_token))
      as [e | []] eqn:Hnonce; [left; reflexivity |].
    cbn [Exc.bind Exc.ret].
    destruct (Oidc.outcome (Oidc.getUserInfo env fetch now5 (Oidc.cached exchange)
                              access_token)) as [e | userInfo] eqn:Hinfo;
      [left; reflexivity |].
    right. exists tokens, id_token, access_token, userInfo. auto.
  - intros e Hex. subst flow. unfold Callback.steps. fold exchange.
    rewrite Hex. repeat split.
  - intros tokens id_token e Hex Hid Hnonce.
    destruct (Haccess tokens id_token Hid) as [access_token Hat].
    subst flow. unfold Callback.steps. fold exchange.
    rewrite Hex. cbn [Exc.bind Exc.ret]. rewrite Hid. cbn [Exc.bind Exc.ret].
    rewrite Hat. cbn [Exc.bind Exc.ret]. cbv zeta. rewrite Hnonce. repeat split.
  - intros b b' Hsame. unfold Callback.steps, Callback.team_mappings.
    destruct (let* tokens := Oidc.outcome (Oidc.exchangeCode env fetch now3 st code
                                        redirectUri) in _) as [e | [a c]];
      [reflexivity |].
    destruct (let* userInfo := Oidc.outcome _ in _) as [e | userInfo];
      [reflexivity |].
    destruct (provision userInfo c w) as [[e | user] w1]; [reflexivity |].
    now rewrite Hsame.
Qed.

Module ExchangeFacts.

Import JS Oidc.

(** The token request that is refused. *)
Lemma exchange_refused (env : Env) (fetch : Fetch) (now : Z) (st : DiscoveryState)
    (code redirectUri : string) (discovery : JValue) (endpoint : string)
    (res : Reply) (text : string) :
  let cfg := getOidcConfig env in
  settled (getDiscovery (discovery_network fetch) now st (issuerUrl cfg))
  = Exc.ret discovery ->
  field discovery "token_endpoint" = Exc.ret (JStr endpoint) ->
  fetch endpoint (token_request_init cfg code redirectUri) = Exc.ret res ->
  reply_ok res = false -> reply_text res = Exc.ret text ->
  outcome (exchangeCode env fetch now st code redirectUri)
  = Exc.throw ("Token exchange failed (" ++ Num.toString (reply_status res)
               ++ "): " ++ text).
Proof.
  intros cfg Hdoc Hep Hfetch Hok Htext. unfold exchangeCode. fold cfg.
  rewrite Hdoc. cbn [Exc.bind Exc.ret]. rewrite Hep.
  cbn [Exc.bind Exc.ret template ToString outcome]. rewrite Hfetch.
  cbn [Exc.bind Exc.ret]. unfold read_reply. rewrite Hok, Htext. reflexivity.
Qed.

End ExchangeFacts.

(** X20.  What the identity provider answers reaches the browser.  When the
    state check has passed and the token endpoint answers the token request
    with a reply that is not a success, the handler answers with the
    redirect to the login page (resolved against the external base URL by
    the URL constructor, whose error leaves the handler when it refuses the
    base) with the status and the whole text of that reply in the [error]
    parameter; nothing is written to the database and no cookie is set. *)
Theorem callback_forwards_errors :
  forall (newURL : string -> string -> Exc.result string) (W : Type)
         (provision :
            JS.JValue -> JS.JValue -> W ->
            Exc.result OidcUser.OidcProvisionedUser * W)
         (bridge : option (string -> JS.JValue -> JS.JValue -> W ->
                           Exc.result unit * W))
         (redis_enabled : bool)
         (saveAuth : string -> string -> bool -> W -> Exc.result string * W)
         (createSecureToken : string -> string -> Exc.result string)
         (env : Oidc.Env) (fetch : Oidc.Fetch) (now now3 now5 : Z)
         (st : Oidc.DiscoveryState) (w : W) (appSecret : string)
         (req : Callback.Request) (code state : string)
         (discovery : JS.JValue) (endpoint : string) (res : Oidc.Reply)
         (text : string),
    let cfg := Oidc.getOidcConfig env in
    let baseUrl := Callback.getExternalBaseUrl env req in
    let redirectUri :=
      Callback.or_else (Callback.oidc_redirect_uri req)
        (baseUrl ++ "/api/auth/oidc/callback") in
    let flow (code uri : string) (nonce : option string) :=
      Callback.steps W provision bridge redis_enabled saveAuth createSecureToken
        env fetch now3 now5 st w appSecret code uri nonce in
    let answer :=
      Callback.GET newURL env now appSecret
        (fun code uri nonce => Callback.token (flow code uri nonce)) req in
    let message :=
      "Token exchange failed (" ++ Num.toString (Oidc.reply_status res)
      ++ "): " ++ text in
    Spec.reaches_check env req code state ->
    Callback.check_state now appSecret req state = Exc.ret tt ->
    Oidc.settled
      (Oidc.getDiscovery (Oidc.discovery_network fetch) now3 st (Oidc.issuerUrl cfg))
    = Exc.ret discovery ->
    JS.field discovery "token_endpoint" = Exc.ret (JS.JStr endpoint) ->
    fetch endpoint (Oidc.token_request_init cfg code redirectUri) = Exc.ret res ->
    Oidc.reply_ok res = false ->
    Oidc.reply_text res = Exc.ret text ->
    answer = Callback.login_redirect newURL baseUrl (Some message)
    /\ (forall loginUrl,
          newURL "/login" baseUrl = Exc.ret loginUrl ->
          answer = Exc.ret (Callback.mkRedirect loginUrl (Some message) [] []))
    /\ (forall e, newURL "/login" baseUrl = Exc.throw e -> answer = Exc.throw e)
    /\ Callback.world (flow code redirectUri (Callback.oidc_nonce req)) = w.
Proof.
  intros newURL W provision bridge redis_enabled saveAuth createSecureToken env
    fetch now now3 now5 st w appSecret req code state discovery endpoint res text
    cfg baseUrl redirectUri flow answer message
    Hreach Hcheck Hdoc Hep Hfetch Hok Htext.
  pose proof (ExchangeFacts.exchange_refused env fetch now3 st code redirectUri
                discovery endpoint res text Hdoc Hep Hfetch Hok Htext) as Hex.
  assert (Hflow : flow code redirectUri (Callback.oidc_nonce req)
                  = Callback.mkFlow (Exc.throw message) w
                      (Oidc.cached (Oidc.exchangeCode env fetch now3 st code
                                      redirectUri))
                      (Oidc.sent (Oidc.exchangeCode env fetch now3 st code
                                    redirectUri))).
  { subst flow message. cbv beta. unfold Callback.steps. rewrite Hex.
    reflexivity. }
  assert (Hanswer : answer
                    = Callback.login_redirect newURL baseUrl (Some message)).
  { subst answer.
    rewrite (FlowFacts.GET_reaches newURL env now appSecret _ req code state
               Hreach).
    cbv zeta. rewrite Hcheck. cbn [Exc.bind Exc.ret].
    fold baseUrl. fold redirectUri. rewrite Hflow.
    cbn [Callback.token Exc.bind Exc.throw]. subst message. reflexivity. }
  split; [exact Hanswer |]. rewrite Hanswer. unfold Callback.login_redirect.
  split; [| split].
  - intros loginUrl ->. reflexivity.
  - intros e ->. reflexivity.
  - now rewrite Hflow.
Qed.

Lemma callback_forwards_errors_witness :
  Callback.GET Examples.the_newURL Examples.idp_env 1730000000100
    Examples.the_secret
    (fun code uri nonce =>
       Callback.token
         (Callback.steps unit Examples.no_provision None false Examples.no_saveAuth
            Examples.no_token Examples.idp_env Examples.refusing_fetch
            1730000000200 1730000000300 Oidc.discovery_initial tt
            Examples.the_secret code uri nonce))
    Examples.req_signed
  = Exc.ret (Callback.mkRedirect "https://umami.example.com/login"
               (Some "Token exchange failed (400): invalid_grant") [] []).
Proof.
  refine (proj1 (proj2 (callback_forwards_errors Examples.the_newURL unit
                   Examples.no_provision None false
                   Examples.no_saveAuth Examples.no_token Examples.idp_env
                   Examples.refusing_fetch 1730000000100 1730000000200
                   1730000000300 Oidc.discovery_initial tt Examples.the_secret
                   Examples.req_signed "authcode" Examples.valid_state
                   Examples.the_document "https://idp.example.com/token"
                   (Oidc.mkReply false 400 "Bad Request" (Exc.ret "invalid_grant")
                      (Exc.throw "not read"))
                   "invalid_grant" _ eq_refl eq_refl eq_refl eq_refl eq_refl
                   eq_refl)) "https://umami.example.com/login" eq_refl).
  repeat split; (reflexivity || discriminate).
Defined.

(* ===================================================================== *)
(** * Part XXIV.  The authorization handler *)
(* ===================================================================== *)

Module AuthorizeFacts.

Import JS Oidc Authorize.

Lemma getRedirectUri_nonempty (env : Env) (origin configuredUri : string) :
  getRedirectUri env origin configuredUri <> "".
Proof.
  assert (Hpath : forall p, p ++ callback_path <> "").
  { intros p. destruct p; discriminate. }
  unfold getRedirectUri.
  destruct (String.eqb_spec configuredUri "") as [-> | Hne]; cbn [negb];
    [| exact Hne].
  destruct (Callback.present (getenv env "APP_URL")); apply Hpath.
Qed.

Lemma generateState_nonempty (now : Z) (random : Buf.Buffer) (appSecret : string) :
  generateState now random appSecret <> "".
Proof.
  intros H. apply (f_equal (Str.split ".")) in H.
  rewrite StateFacts.generateState_parts in H. discriminate.
Qed.

(** The state check of the callback on a generated state that comes back
    with its cookie. *)
Lemma check_state_generated (now now' : Z) (random : Buf.Buffer)
    (appSecret : string) (req : Callback.Request) :
  let state := generateState now random appSecret in
  Callback.oidc_state req = Some state ->
  Callback.check_state now' appSecret req state
  = if (now' - now <=? 10 * 60 * 1000)%Z then Exc.ret tt
    else Exc.throw Callback.msg_state_verification.
Proof.
  intros state Hcookie. unfold Callback.check_state. rewrite Hcookie.
  cbn [Callback.present].
  destruct (String.eqb_spec state "") as [E | _];
    [exfalso; exact (generateState_nonempty _ _ _ E) |].
  rewrite String.eqb_refl. cbn [negb orb].
  assert (Hv : verifyState now' state appSecret None
               = (now' - now <=? 10 * 60 * 1000)%Z).
  { unfold verifyState.
    rewrite (StateFacts.verifyState_three now' state appSecret _ _ _ default_maxAgeMs
               (StateFacts.generateState_parts now random appSecret)).
    fold (Spec.state_sig now random appSecret). rewrite String.eqb_refl.
    unfold Spec.state_ts. rewrite NumFacts.parseInt_toString_radix36.
    cbn [Exc.try_catch Exc.ret andb Num.sub Num.gt default_maxAgeMs].
    now rewrite Z.leb_antisym. }
  rewrite Hv. destruct (now' - now <=? 10 * 60 * 1000)%Z; reflexivity.
Qed.

End AuthorizeFacts.

(** X21.  The redirect URI of the flow: [OIDC_REDIRECT_URI] when it is set
    and not empty; else [APP_URL] without its trailing slashes followed by
    the callback path; else the origin of the request followed by it.  It is
    never empty.  With [APP_URL] set and no [OIDC_REDIRECT_URI], it is the
    URI that the callback handler falls back to when the cookie is lost. *)
Theorem getRedirectUri_cases :
  forall (env : Oidc.Env) (origin : string),
    let configured := Oidc.redirectUri (Oidc.getOidcConfig env) in
    let uri := Authorize.getRedirectUri env origin configured in
    uri <> ""
    /\ (configured <> "" -> uri = configured)
    /\ (configured = "" ->
        (forall appUrl,
            Oidc.getenv env "APP_URL" = Some appUrl -> appUrl <> "" ->
            uri = Str.strip_trailing_slashes appUrl ++ "/api/auth/oidc/callback"
            /\ forall req,
                 uri = Callback.getExternalBaseUrl env req
                       ++ "/api/auth/oidc/callback")
        /\ (Callback.present (Oidc.getenv env "APP_URL") = false ->
            uri = origin ++ "/api/auth/oidc/callback")).
Proof.
  intros env origin configured uri. subst uri.
  split; [apply AuthorizeFacts.getRedirectUri_nonempty |].
  unfold Authorize.getRedirectUri. split.
  - intros Hne. destruct (String.eqb_spec configured ""); [contradiction | reflexivity].
  - intros ->. cbn [String.eqb negb]. split.
    + intros appUrl Henv Hne. unfold Callback.getExternalBaseUrl, Oidc.env_or.
      rewrite Henv. cbn [Callback.present].
      destruct (String.eqb_spec appUrl ""); [contradiction |]. cbn [negb].
      split; reflexivity.
    + intros ->. reflexivity.
Qed.

Lemma getRedirectUri_cases_witness :
  Authorize.getRedirectUri Examples.the_env "http://0.0.0.0:3000"
    (Oidc.redirectUri (Oidc.getOidcConfig Examples.the_env))
  = Str.strip_trailing_slashes "https://umami.example.com"
    ++ "/api/auth/oidc/callback".
Proof.
  apply (proj1 (proj2 (proj2 (getRedirectUri_cases Examples.the_env
                                "http://0.0.0.0:3000")) eq_refl)
           "https://umami.example.com"); [reflexivity | discriminate].
Defined.

(** X22.  The refusals of the authorization handler.  When OIDC is disabled
    the answer is a 404; when a required variable is missing it is a 500
    whose message is the same whichever variable is missing; when discovery
    fails, the discovery document has no usable authorization endpoint, or
    the URL built is not an absolute URL, it is a 500 with one fixed
    message, whatever was thrown.  None of these answers sets a cookie; an
    answer that sets cookies is a redirect, and then the configuration is
    valid. *)
Theorem authorize_refusals :
  forall (validateURL : string -> Exc.result string) (env : Oidc.Env)
         (fetch : Oidc.Fetch) (now1 now2 : Z) (randomState randomNonce : Buf.Buffer)
         (appSecret : string) (st : Oidc.DiscoveryState) (origin : string),
    let cfg := Oidc.getOidcConfig env in
    let answer :=
      fst (Authorize.GET validateURL env fetch now1 now2 randomState randomNonce
             appSecret st origin) in
    let call :=
      Oidc.buildAuthorizationUrl env fetch now2 st
        (Oidc.generateState now1 randomState appSecret)
        (Oidc.generateNonce randomNonce)
        (Authorize.getRedirectUri env origin (Oidc.redirectUri cfg)) in
    (Oidc.enabled cfg = false ->
       answer = Authorize.Json 404 "OIDC authentication is not enabled")
    /\ (Oidc.enabled cfg = true ->
        Oidc.clientId cfg = "" \/ Oidc.clientSecret cfg = ""
        \/ Oidc.issuerUrl cfg = "" ->
        answer = Authorize.Json 500 "OIDC is misconfigured. Check server logs.")
    /\ (Oidc.enabled cfg = true -> Oidc.validateOidcConfig cfg = None ->
        (forall e, Oidc.outcome call = Exc.throw e ->
           answer = Authorize.Json 500 "Failed to initiate OIDC login")
        /\ (forall authUrl e,
              Oidc.outcome call = Exc.ret authUrl ->
              validateURL authUrl = Exc.throw e ->
              answer = Authorize.Json 500 "Failed to initiate OIDC login"))
    /\ (forall location cookies,
          answer = Authorize.Redirect location cookies ->
          Oidc.enabled cfg = true /\ Oidc.validateOidcConfig cfg = None
          /\ exists authUrl,
               Oidc.outcome call = Exc.ret authUrl
               /\ validateURL authUrl = Exc.ret location).
Proof.
  intros validateURL env fetch now1 now2 randomState randomNonce appSecret st origin
    cfg answer call. subst answer. unfold Authorize.GET. fold cfg. fold call.
  split; [| split; [| split]].
  - intros ->. reflexivity.
  - intros Hen Hmissing. unfold Oidc.validateOidcConfig. rewrite Hen. cbn [negb].
    destruct (String.eqb_spec (Oidc.clientId cfg) ""); [reflexivity |].
    destruct (String.eqb_spec (Oidc.clientSecret cfg) ""); [reflexivity |].
    destruct (String.eqb_spec (Oidc.issuerUrl cfg) ""); [reflexivity |].
    exfalso. destruct Hmissing as [H | [H | H]]; contradiction.
  - intros Hen Hvalid. rewrite Hen, Hvalid. cbn [negb fst]. split.
    + intros e ->. reflexivity.
    + intros authUrl e -> Hbad. cbn [Exc.bind Exc.ret]. rewrite Hbad. reflexivity.
  - intros location cookies.
    destruct (Oidc.enabled cfg); cbn [negb]; [| discriminate].
    destruct (Oidc.validateOidcConfig cfg); [discriminate |]. cbn [fst].
    destruct (Oidc.outcome call) as [e | authUrl]; [discriminate |].
    cbn [Exc.bind].
    destruct (validateURL authUrl) as [e | loc] eqn:Hloc; [discriminate |].
    cbn. intros H. injection H as <- _.
    split; [reflexivity |]. split; [reflexivity |].
    exists authUrl. split; [reflexivity | exact Hloc].
Qed.

(** X23.  The authorization redirect and the callback fit together.  On
    success the handler sets three cookies, not readable by scripts and
    living ten minutes: the generated state, the generated nonce and the
    redirect URI.  The state and the nonce stand in the authorization URL
    exactly as in the cookies, with no escape.  A callback that brings the
    state back with its cookie passes the state check exactly when at most
    ten minutes have passed since the state was generated, and the redirect
    URI it uses for the token exchange is the one that was sent. *)
Theorem authorize_callback_roundtrip :
  forall (validateURL : string -> Exc.result string) (env : Oidc.Env)
         (fetch : Oidc.Fetch) (now1 now2 : Z) (randomState randomNonce : Buf.Buffer)
         (appSecret : string) (st : Oidc.DiscoveryState) (origin : string)
         (location : string) (cookies : list Callback.Cookie),
    let cfg := Oidc.getOidcConfig env in
    let state := Oidc.generateState now1 randomState appSecret in
    let nonce := Oidc.generateNonce randomNonce in
    let redirectUri := Authorize.getRedirectUri env origin (Oidc.redirectUri cfg) in
    fst (Authorize.GET validateURL env fetch now1 now2 randomState randomNonce
           appSecret st origin)
    = Authorize.Redirect location cookies ->
    cookies = [ Callback.mkCookie "oidc_state" state true 600;
                Callback.mkCookie "oidc_nonce" nonce true 600;
                Callback.mkCookie "oidc_redirect_uri" redirectUri true 600 ]
    /\ Url.form_encode state = state /\ Url.form_encode nonce = nonce
    /\ (forall (req : Callback.Request) (now' : Z),
          Callback.oidc_state req = Some state ->
          Callback.check_state now' appSecret req state
          = if (now' - now1 <=? 10 * 60 * 1000)%Z then Exc.ret tt
            else Exc.throw Callback.msg_state_verification)
    /\ (forall (req : Callback.Request) (fallback : string),
          Callback.oidc_redirect_uri req = Some redirectUri ->
          Callback.or_else (Callback.oidc_redirect_uri req) fallback = redirectUri).
Proof.
  intros validateURL env fetch now1 now2 randomState randomNonce appSecret st origin
    location cookies cfg state nonce redirectUri Hanswer.
  split; [| split; [| split; [| split]]].
  - revert Hanswer. unfold Authorize.GET. fold cfg.
    destruct (Oidc.enabled cfg); cbn [negb]; [| discriminate].
    destruct (Oidc.validateOidcConfig cfg); [discriminate |]. cbn [fst].
    destruct (Oidc.outcome _) as [e | authUrl]; [discriminate |].
    cbn [Exc.bind].
    destruct (validateURL authUrl) as [e | loc]; [discriminate |].
    cbn. intros H. injection H as _ <-. reflexivity.
  - apply UrlFacts.form_encode_unreserved, ShapeFacts.generateState_unreserved.
  - apply UrlFacts.form_encode_unreserved, ShapeFacts.hex_unreserved.
  - intros req now' Hcookie.
    exact (AuthorizeFacts.check_state_generated now1 now' randomState appSecret req
             Hcookie).
  - intros req fallback ->. cbn [Callback.or_else].
    destruct (String.eqb_spec redirectUri "") as [E | _]; [| reflexivity].
    exfalso. exact (AuthorizeFacts.getRedirectUri_nonempty _ _ _ E).
Qed.

Lemma authorize_callback_roundtrip_witness :
  Callback.check_state 1730000600000 Examples.the_secret Examples.req_signed
    Examples.valid_state
  = Exc.ret tt
  /\ Callback.check_state 1730000600001 Examples.the_secret Examples.req_signed
       Examples.valid_state
     = Exc.throw Callback.msg_state_verification.
Proof.
  destruct (authorize_callback_roundtrip (fun u => Exc.ret u) Examples.idp_env
              Examples.the_fetch 1730000000000 1730000000001 "0123456789abcdef"
              "fedcba9876543210" Examples.the_secret Oidc.discovery_initial
              "http://0.0.0.0:3000"
              ("https://idp.example.com/auth?client_id=umami&response_type=code"
               ++ "&scope=openid+profile+email&redirect_uri=https%3A%2F%2F"
               ++ "umami.example.com%2Fapi%2Fauth%2Foidc%2Fcallback&state="
               ++ "m2r1bz7k.30313233343536373839616263646566.dee3e25ce356f591"
               ++ "&nonce=66656463626139383736353433323130")
              [ Callback.mkCookie "oidc_state"
                  "m2r1bz7k.30313233343536373839616263646566.dee3e25ce356f591"
                  true 600;
                Callback.mkCookie "oidc_nonce" "66656463626139383736353433323130"
                  true 600;
                Callback.mkCookie "oidc_redirect_uri"
                  "https://umami.example.com/api/auth/oidc/callback" true 600 ]
              eq_refl) as [_ [_ [_ [Hcheck _]]]].
  split.
  - exact (Hcheck Examples.req_signed 1730000600000%Z eq_refl).
  - exact (Hcheck Examples.req_signed 1730000600001%Z eq_refl).
Defined.

(* ===================================================================== *)
(** * Part XXV.  The rules of the teams and their API *)
(* ===================================================================== *)

Module RulesFacts.

Import JS Teams Spec.

Lemma rules_of_remove_other (all : TeamRulesMap) (teamId other : string) :
  other <> teamId -> rules_of (remove_key all teamId) other = rules_of all other.
Proof.
  intros Hne. unfold remove_key.
  induction all as [| [k rs'] all IH]; cbn [filter rules_of fst]; [reflexivity |].
  destruct (String.eqb_spec k teamId) as [-> | Hk]; cbn [negb rules_of].
  - destruct (String.eqb_spec teamId other); [congruence | exact IH].
  - destruct (String.eqb k other); [reflexivity | exact IH].
Qed.

(** The store after a write. *)
Lemma written (r : Redis) (c : RedisClient) (all : TeamRulesMap) :
  enabled r = true -> client r = Some c ->
  client_set r all = Exc.ret (mkRedis true (Some (mkClient (Some all))))
  /\ getAllTeamRules (mkRedis true (Some (mkClient (Some all)))) = all.
Proof.
  intros Hen Hc. unfold client_set. rewrite Hc, Hen. split; reflexivity.
Qed.

Lemma filter_shorter {A} (f : A -> bool) (l : list A) :
  forallb f l = false -> (List.length (filter f l) < List.length l)%nat.
Proof.
  induction l as [| x l IH]; cbn [forallb filter List.length]; [discriminate |].
  pose proof (filter_length_le f l) as Hle.
  destruct (f x); cbn [andb List.length]; [| lia].
  intros H. specialize (IH H). lia.
Qed.

Lemma rules_of_keys (all : TeamRulesMap) (teamId : string)
    (rs : list TeamClaimRule) :
  rules_of all teamId = Some rs -> In teamId (keys all).
Proof.
  unfold keys. induction all as [| [k rs'] all IH]; cbn [rules_of map fst];
    [discriminate |].
  destruct (String.eqb_spec k teamId) as [-> | _]; [left; reflexivity |].
  intros H. right. exact (IH H).
Qed.

Lemma rules_of_In (all : TeamRulesMap) (teamId : string)
    (rs : list TeamClaimRule) :
  rules_of all teamId = Some rs -> In (teamId, rs) all.
Proof.
  induction all as [| [k rs'] all IH]; cbn [rules_of]; [discriminate |].
  destruct (String.eqb_spec k teamId) as [-> | _].
  - intros H. injection H as ->. left. reflexivity.
  - intros H. right. exact (IH H).
Qed.

Lemma keys_own (all : TeamRulesMap) (teamId : string) :
  In teamId (keys all) -> exists rs, rules_of all teamId = Some rs.
Proof.
  unfold keys. induction all as [| [k rs'] all IH]; cbn [rules_of map fst];
    [contradiction |].
  destruct (String.eqb_spec k teamId) as [-> | Hne]; [eauto |].
  intros [Heq | Hin]; [contradiction | exact (IH Hin)].
Qed.

(** The identifier of a team of the database is not the name of a member of
    [Object.prototype]. *)
Lemma uuid_not_inherited (s : string) : is_uuid s = true -> inherited s = false.
Proof.
  intros Hs. destruct (inherited s) eqn:Hin; [| reflexivity].
  unfold inherited, Str.includes in Hin. apply existsb_exists in Hin.
  destruct Hin as [name [Hname Heq]]. apply String.eqb_eq in Heq. subst name.
  cbn in Hname.
  repeat (destruct Hname as [<- | Hname]; [discriminate Hs |]).
  destruct Hname.
Qed.

Lemma team_exists_not_inherited (db : Db) (teamId : string) :
  team_exists db teamId = true -> inherited teamId = false.
Proof.
  unfold team_exists, Str.includes. intros H. apply existsb_exists in H.
  destruct H as [name [Hin Heq]]. apply String.eqb_eq in Heq. subst name.
  apply in_map_iff in Hin. destruct Hin as [[s Hs] [<- _]].
  exact (uuid_not_inherited s Hs).
Qed.

(** A pass in which no comparison throws ends without an error. *)
Lemma first_match_settles (matches : TeamClaimRule -> Exc.result bool)
    (rules : list TeamClaimRule) :
  (forall rule e, In rule rules -> matches rule <> Exc.throw e) ->
  exists found, first_match matches rules = Exc.ret found.
Proof.
  induction rules as [| rule rules IH]; intros Hno; cbn [first_match];
    [eexists; reflexivity |].
  destruct (matches rule) as [e | [|]] eqn:Hm.
  - exfalso. exact (Hno rule e (or_introl eq_refl) Hm).
  - eexists; reflexivity.
  - apply IH. intros rule' e Hin. apply Hno. right. exact Hin.
Qed.

Lemma apply_teams_settles (userId : string) (userInfo idTokenClaims : JObject)
    (all : TeamRulesMap) (teamIds : list string) :
  (forall teamId, In teamId teamIds -> In teamId (keys all)) ->
  (forall teamId rules rule e,
      In (teamId, rules) all -> In rule rules ->
      rule_matches userInfo idTokenClaims rule <> Exc.throw e) ->
  forall db,
    fst (apply_teams db userId userInfo idTokenClaims all teamIds) = Exc.ret tt.
Proof.
  intros Hkeys Hno. induction teamIds as [| t ts IH]; intros db;
    cbn [apply_teams]; [reflexivity |].
  destruct (keys_own all t (Hkeys t (or_introl eq_refl))) as [rs Hown].
  rewrite (TeamsFacts.entry_own all t rs Hown).
  rewrite TeamsFacts.apply_rules_first.
  destruct (first_match_settles (rule_matches userInfo idTokenClaims) rs)
    as [found Hfound].
  { intros rule e Hin. exact (Hno t rs rule e (rules_of_In all t rs Hown) Hin). }
  rewrite Hfound.
  assert (Hrest : forall teamId, In teamId ts -> In teamId (keys all))
    by (intros teamId Hin; apply Hkeys; right; exact Hin).
  destruct found as [rule |]; apply (IH Hrest).
Qed.

Section Adding.

Variables (uuid isoNow : string) (r : Redis) (c : RedisClient).
Variables (teamId claimField claimValue : string) (teamRole : option string).
Hypothesis Hen : enabled r = true.
Hypothesis Hc : client r = Some c.

Let rule : TeamClaimRule :=
  mkRule uuid (Str.trim claimField) (Str.trim claimValue)
    (match teamRole with Some t => t | None => "team_member" end) isoNow.

(** What [addTeamRule] writes. *)
Lemma add_rule :
  inherited teamId = false \/ rules_of (getAllTeamRules r) teamId <> None ->
  let all' :=
    assign (match rules_of (getAllTeamRules r) teamId with
            | Some _ => getAllTeamRules r
            | None => assign (getAllTeamRules r) teamId []
            end) teamId (team_rules r teamId ++ [rule])%list in
  let r' := mkRedis true (Some (mkClient (Some all'))) in
  addTeamRule uuid isoNow r teamId claimField claimValue teamRole
  = Exc.ret (rule, r')
  /\ getAllTeamRules r' = all'
  /\ getTeamRules r' teamId = Rules (team_rules r teamId ++ [rule])%list
  /\ team_rules r' teamId = (team_rules r teamId ++ [rule])%list
  /\ (forall other, other <> teamId ->
        rules_of (getAllTeamRules r') other = rules_of (getAllTeamRules r) other).
Proof.
  intros Hok all' r'. subst r' all'. unfold addTeamRule, team_rules.
  cbv zeta. fold rule.
  set (all := getAllTeamRules r) in *.
  destruct (rules_of all teamId) as [rs |] eqn:Hown.
  - rewrite (TeamsFacts.entry_own all teamId rs Hown). cbv beta iota.
    rewrite (TeamsFacts.entry_own all teamId rs Hown).
    destruct (written r c (assign all teamId (rs ++ [rule])%list) Hen Hc)
      as [Hset Hget].
    rewrite Hset. cbn [Exc.bind]. split; [reflexivity |].
    split; [exact Hget |].
    unfold getTeamRules. rewrite Hget.
    rewrite (TeamsFacts.entry_own _ teamId _ (AuxFacts.rules_of_assign _ _ _)).
    rewrite AuxFacts.rules_of_assign.
    split; [reflexivity |]. split; [reflexivity |].
    intros other Hne. now apply AuxFacts.rules_of_assign_other.
  - destruct Hok as [Hname | Hown']; [| contradiction].
    rewrite (TeamsFacts.entry_undefined all teamId Hown Hname). cbv beta iota.
    rewrite (TeamsFacts.entry_own _ teamId _ (AuxFacts.rules_of_assign _ _ _)).
    cbn [app].
    destruct (written r c (assign (assign all teamId []) teamId [rule]) Hen Hc)
      as [Hset Hget].
    rewrite Hset. cbn [Exc.bind]. split; [reflexivity |].
    split; [exact Hget |].
    unfold getTeamRules. rewrite Hget.
    rewrite (TeamsFacts.entry_own _ teamId _ (AuxFacts.rules_of_assign _ _ _)).
    rewrite AuxFacts.rules_of_assign.
    split; [reflexivity |]. split; [reflexivity |].
    intros other Hne. now rewrite !AuxFacts.rules_of_assign_other by exact Hne.
Qed.

(** A team identifier that the mapping only inherits. *)
Lemma add_rule_inherited :
  inherited teamId = true -> rules_of (getAllTeamRules r) teamId = None ->
  addTeamRule uuid isoNow r teamId claimField claimValue teamRole
  = Exc.throw "all[teamId].push is not a function".
Proof.
  intros Hname Hown. unfold addTeamRule. cbv zeta.
  rewrite (TeamsFacts.entry_inherited _ teamId Hown Hname). cbv beta iota.
  rewrite (TeamsFacts.entry_inherited _ teamId Hown Hname). reflexivity.
Qed.

End Adding.

Lemma remove_undefined (r : Redis) (teamId ruleId : string) :
  rules_of (getAllTeamRules r) teamId = None -> inherited teamId = false ->
  removeTeamRule r teamId ruleId = Exc.ret (false, r).
Proof.
  intros Hown Hname. unfold removeTeamRule.
  now rewrite (TeamsFacts.entry_undefined _ teamId Hown Hname).
Qed.

Lemma remove_inherited (r : Redis) (teamId ruleId : string) :
  rules_of (getAllTeamRules r) teamId = None -> inherited teamId = true ->
  removeTeamRule r teamId ruleId
  = Exc.throw "all[teamId].filter is not a function".
Proof.
  intros Hown Hname. unfold removeTeamRule.
  now rewrite (TeamsFacts.entry_inherited _ teamId Hown Hname).
Qed.

(** What is left of the entry of a team after the removal. *)
Lemma entry_removed (all : TeamRulesMap) (teamId : string)
    (kept : list TeamClaimRule) :
  inherited teamId = false ->
  let all2 := if Nat.eqb (List.length kept) 0
              then remove_key (assign all teamId kept) teamId
              else assign all teamId kept in
  entry_length (entry all2 teamId) = N.of_nat (List.length kept)
  /\ rules_of all2 teamId = (match kept with [] => None | _ => Some kept end)
  /\ (forall other, other <> teamId -> rules_of all2 other = rules_of all other).
Proof.
  intros Hname all2. subst all2. destruct kept as [| k kept'].
  - cbn [List.length Nat.eqb].
    rewrite (TeamsFacts.entry_undefined _ teamId
               (AuxFacts.rules_of_remove_key _ _) Hname).
    rewrite AuxFacts.rules_of_remove_key.
    split; [reflexivity |]. split; [reflexivity |].
    intros other Hne. rewrite rules_of_remove_other by exact Hne.
    now apply AuxFacts.rules_of_assign_other.
  - cbn [List.length Nat.eqb].
    rewrite (TeamsFacts.entry_own _ teamId _ (AuxFacts.rules_of_assign _ _ _)).
    rewrite AuxFacts.rules_of_assign.
    split; [reflexivity |]. split; [reflexivity |].
    intros other Hne. now apply AuxFacts.rules_of_assign_other.
Qed.

Lemma remove_absent (r : Redis) (teamId ruleId : string) :
  inherited teamId = false ->
  Spec.lacks_rule ruleId (team_rules r teamId) = true ->
  removeTeamRule r teamId ruleId = Exc.ret (false, r).
Proof.
  intros Hname H. unfold team_rules in H.
  destruct (rules_of (getAllTeamRules r) teamId) as [rs |] eqn:Hown;
    [| now apply remove_undefined].
  unfold removeTeamRule. rewrite (TeamsFacts.entry_own _ teamId rs Hown).
  cbv zeta. unfold Spec.lacks_rule in H. rewrite (AuxFacts.filter_all _ _ H).
  destruct (entry_removed (getAllTeamRules r) teamId rs Hname) as [Hlen _].
  cbv zeta in Hlen. rewrite Hlen, N.eqb_refl. reflexivity.
Qed.

Lemma remove_present (r : Redis) (c : RedisClient) (teamId ruleId : string) :
  enabled r = true -> client r = Some c ->
  inherited teamId = false ->
  Spec.lacks_rule ruleId (team_rules r teamId) = false ->
  exists r',
    removeTeamRule r teamId ruleId = Exc.ret (true, r')
    /\ team_rules r' teamId
       = filter (fun x => negb (String.eqb (id x) ruleId)) (team_rules r teamId)
    /\ Spec.lacks_rule ruleId (team_rules r' teamId) = true
    /\ (team_rules r' teamId = [] -> rules_of (getAllTeamRules r') teamId = None)
    /\ (forall other, other <> teamId ->
          rules_of (getAllTeamRules r') other = rules_of (getAllTeamRules r) other).
Proof.
  intros Hen Hc Hname Hhas. unfold team_rules in Hhas |- *.
  set (all := getAllTeamRules r) in *.
  destruct (rules_of all teamId) as [rs |] eqn:Hown; [| discriminate].
  unfold removeTeamRule. fold all.
  rewrite (TeamsFacts.entry_own _ teamId rs Hown). cbv zeta.
  set (kept := filter (fun x => negb (String.eqb (id x) ruleId)) rs).
  assert (Hshort : (List.length kept < List.length rs)%nat)
    by (apply filter_shorter; exact Hhas).
  assert (Hlacks : Spec.lacks_rule ruleId kept = true).
  { unfold Spec.lacks_rule. apply forallb_forall. intros x Hx.
    apply filter_In in Hx. apply Hx. }
  destruct (entry_removed all teamId kept Hname) as [Hlen [Hleft Hothers]].
  cbv zeta in Hlen, Hleft, Hothers.
  set (all2 := if Nat.eqb (List.length kept) 0
               then remove_key (assign all teamId kept) teamId
               else assign all teamId kept) in *.
  rewrite Hlen.
  destruct (N.eqb_spec (N.of_nat (List.length kept)) (N.of_nat (List.length rs)))
    as [E | _]; [lia |].
  destruct (written r c all2 Hen Hc) as [Hset Hget].
  rewrite Hset. cbn [Exc.bind]. eexists. split; [reflexivity |].
  rewrite Hget, Hleft.
  split; [destruct kept; reflexivity |].
  split; [destruct kept; [reflexivity | exact Hlacks] |].
  split; [destruct kept; [reflexivity | discriminate] |].
  exact Hothers.
Qed.

End RulesFacts.

(** X24.  Adding a rule to a store that is enabled and has its client.
    When the team has an entry of its own in the mapping, or its identifier
    is not the name of a member of [Object.prototype], the rule returned
    has the identifier and the time drawn for it, the field and the value
    trimmed, and the role given (or [team_member]); it becomes the last
    rule of its team, and the rules of the other teams are left as they
    are.  For an identifier that the mapping only inherits, the call throws
    and nothing is written. *)
Theorem addTeamRule_appends :
  forall (uuid isoNow : string) (r : Teams.Redis) (c : Teams.RedisClient)
         (teamId claimField claimValue : string) (teamRole : option string),
    Teams.enabled r = true -> Teams.client r = Some c ->
    let rule :=
      Teams.mkRule uuid (Str.trim claimField) (Str.trim claimValue)
        (match teamRole with Some t => t | None => "team_member" end) isoNow in
    let own := Teams.rules_of (Teams.getAllTeamRules r) teamId in
    let call :=
      Teams.addTeamRule uuid isoNow r teamId claimField claimValue teamRole in
    (Spec.inherited teamId = false \/ own <> None ->
     exists r',
       call = Exc.ret (rule, r')
       /\ Teams.enabled r' = true
       /\ Teams.getTeamRules r' teamId
          = Teams.Rules (Spec.team_rules r teamId ++ [rule])%list
       /\ (forall other, other <> teamId ->
             Teams.rules_of (Teams.getAllTeamRules r') other
             = Teams.rules_of (Teams.getAllTeamRules r) other))
    /\ (Spec.inherited teamId = true -> own = None ->
        call = Exc.throw "all[teamId].push is not a function").
Proof.
  intros uuid isoNow r c teamId claimField claimValue teamRole Hen Hc rule own
    call.
  split.
  - intros Hok.
    destruct (RulesFacts.add_rule uuid isoNow r c teamId claimField claimValue
                teamRole Hen Hc Hok) as [Hcall [_ [Hrules [_ Hothers]]]].
    eexists. split; [exact Hcall |]. split; [reflexivity |].
    split; [exact Hrules | exact Hothers].
  - intros Hname Hown.
    exact (RulesFacts.add_rule_inherited uuid isoNow r teamId claimField
             claimValue teamRole Hname Hown).
Qed.

Lemma addTeamRule_appends_witness :
  (exists r',
     Teams.addTeamRule "rule-7" "2026-02-01T00:00:00.000Z" Examples.the_redis
       Examples.team_1 " department " "analytics " None
     = Exc.ret (Teams.mkRule "rule-7" "department" "analytics" "team_member"
                  "2026-02-01T00:00:00.000Z", r')
     /\ Teams.getTeamRules r' Examples.team_1
        = Teams.Rules
            [Examples.analytics_rule;
             Teams.mkRule "rule-7" "department" "analytics" "team_member"
               "2026-02-01T00:00:00.000Z"])
  /\ Teams.addTeamRule "rule-7" "2026-02-01T00:00:00.000Z" Examples.the_redis
       "constructor" " department " "analytics " None
     = Exc.throw "all[teamId].push is not a function".
Proof.
  split.
  - destruct (proj1 (addTeamRule_appends "rule-7" "2026-02-01T00:00:00.000Z"
                Examples.the_redis
                (Teams.mkClient
                   (Some [(Examples.team_1, [Examples.analytics_rule])]))
                Examples.team_1 " department " "analytics " None eq_refl eq_refl)
                (or_introl eq_refl)) as [r' [Hcall [_ [Hrules _]]]].
    exists r'. split; [exact Hcall | exact Hrules].
  - exact (proj2 (addTeamRule_appends "rule-7" "2026-02-01T00:00:00.000Z"
             Examples.the_redis
             (Teams.mkClient
                (Some [(Examples.team_1, [Examples.analytics_rule])]))
             "constructor" " department " "analytics " None eq_refl eq_refl)
             eq_refl eq_refl).
Defined.

(** X25.  Removing a rule.  For a team identifier that is not the name of a
    member of [Object.prototype]: when no rule of the team has the
    identifier (or the team has no rule), the answer is [false] and nothing
    is written; when the team has such a rule, and the store is enabled and
    has its client, the answer is [true], every rule of the team with that
    identifier is gone and the others keep their order, the rules of the
    other teams are left as they are, and a team left without a rule loses
    its entry in the mapping.  For an identifier that the mapping only
    inherits, the call throws. *)
Theorem removeTeamRule_cases :
  forall (r : Teams.Redis) (teamId ruleId : string),
    (Spec.inherited teamId = false ->
     (Spec.lacks_rule ruleId (Spec.team_rules r teamId) = true ->
      Teams.removeTeamRule r teamId ruleId = Exc.ret (false, r))
     /\ (forall c : Teams.RedisClient,
           Teams.enabled r = true -> Teams.client r = Some c ->
           Spec.lacks_rule ruleId (Spec.team_rules r teamId) = false ->
           exists r',
             Teams.removeTeamRule r teamId ruleId = Exc.ret (true, r')
             /\ Spec.team_rules r' teamId
                = filter (fun x => negb (String.eqb (Teams.id x) ruleId))
                         (Spec.team_rules r teamId)
             /\ Spec.lacks_rule ruleId (Spec.team_rules r' teamId) = true
             /\ (Spec.team_rules r' teamId = [] ->
                 Teams.rules_of (Teams.getAllTeamRules r') teamId = None)
             /\ (forall other, other <> teamId ->
                   Teams.rules_of (Teams.getAllTeamRules r') other
                   = Teams.rules_of (Teams.getAllTeamRules r) other)))
    /\ (Spec.inherited teamId = true ->
        Teams.rules_of (Teams.getAllTeamRules r) teamId = None ->
        Teams.removeTeamRule r teamId ruleId
        = Exc.throw "all[teamId].filter is not a function").
Proof.
  intros r teamId ruleId. split.
  - intros Hname. split.
    + now apply RulesFacts.remove_absent.
    + intros c Hen Hc. now apply (RulesFacts.remove_present r c).
  - intros Hname Hown. now apply RulesFacts.remove_inherited.
Qed.

Lemma removeTeamRule_cases_witness :
  Teams.removeTeamRule Examples.the_redis Examples.team_1 "rule-9"
  = Exc.ret (false, Examples.the_redis)
  /\ (exists r',
        Teams.removeTeamRule Examples.the_redis Examples.team_1 "rule-1"
        = Exc.ret (true, r')
        /\ Spec.team_rules r' Examples.team_1 = [])
  /\ Teams.removeTeamRule Examples.the_redis "constructor" "rule-1"
     = Exc.throw "all[teamId].filter is not a function".
Proof.
  split; [| split].
  - apply (proj1 (proj1 (removeTeamRule_cases Examples.the_redis Examples.team_1
                           "rule-9") eq_refl)).
    reflexivity.
  - destruct (proj2 (proj1 (removeTeamRule_cases Examples.the_redis
                              Examples.team_1 "rule-1") eq_refl)
                (Teams.mkClient
                   (Some [(Examples.team_1, [Examples.analytics_rule])]))
                eq_refl eq_refl eq_refl) as [r' [Hrem [Hrules _]]].
    exists r'. split; [exact Hrem | exact Hrules].
  - exact (proj2 (removeTeamRule_cases Examples.the_redis "constructor" "rule-1")
             eq_refl eq_refl).
Defined.

(** X26.  Adding a rule and removing it again, by an identifier that no rule
    of the team had, gives every team the rules it had before; the team
    identifier is not the name of a member of [Object.prototype]. *)
Theorem addTeamRule_removeTeamRule :
  forall (uuid isoNow : string) (r : Teams.Redis) (c : Teams.RedisClient)
         (teamId claimField claimValue : string) (teamRole : option string),
    Teams.enabled r = true -> Teams.client r = Some c ->
    Spec.inherited teamId = false ->
    Spec.lacks_rule uuid (Spec.team_rules r teamId) = true ->
    exists rule r' r'',
      Teams.addTeamRule uuid isoNow r teamId claimField claimValue teamRole
      = Exc.ret (rule, r')
      /\ Teams.removeTeamRule r' teamId (Teams.id rule) = Exc.ret (true, r'')
      /\ forall team, Spec.team_rules r'' team = Spec.team_rules r team.
Proof.
  intros uuid isoNow r c teamId claimField claimValue teamRole Hen Hc Hname
    Hfresh.
  destruct (RulesFacts.add_rule uuid isoNow r c teamId claimField claimValue
              teamRole Hen Hc (or_introl Hname))
    as [Hcall [Hget [_ [Hrules Hothers]]]].
  cbv zeta in Hcall, Hget, Hrules, Hothers.
  set (rule := Teams.mkRule uuid (Str.trim claimField) (Str.trim claimValue)
                 (match teamRole with Some t => t | None => "team_member" end)
                 isoNow) in *.
  match type of Hcall with _ = Exc.ret (_, ?x) => set (r1 := x) in * end.
  assert (Hkept : filter (fun x => negb (String.eqb (Teams.id x) uuid))
                         (Spec.team_rules r teamId ++ [rule])%list
                  = Spec.team_rules r teamId).
  { rewrite filter_app. cbn [filter Teams.id rule]. rewrite String.eqb_refl.
    cbn [negb]. rewrite app_nil_r. apply AuxFacts.filter_all. exact Hfresh. }
  assert (Hhas : Spec.lacks_rule uuid (Spec.team_rules r1 teamId) = false).
  { rewrite Hrules. unfold Spec.lacks_rule. rewrite forallb_app.
    cbn [forallb Teams.id rule]. rewrite String.eqb_refl. cbn [negb andb].
    apply andb_false_r. }
  destruct (RulesFacts.remove_present r1
              (Teams.mkClient (Some (Teams.getAllTeamRules r1))) teamId uuid
              eq_refl ltac:(subst r1; cbn [Teams.client]; now rewrite Hget)
              Hname Hhas)
    as [r2 [Hrem [Hleft [_ [_ Hothers2]]]]].
  exists rule, r1, r2. split; [exact Hcall |]. split; [exact Hrem |].
  intros team. destruct (String.eqb_spec team teamId) as [-> | Hne].
  - rewrite Hleft, Hrules. exact Hkept.
  - unfold Spec.team_rules.
    now rewrite (Hothers2 team Hne), (Hothers team Hne).
Qed.

Lemma addTeamRule_removeTeamRule_witness :
  exists rule r' r'',
    Teams.addTeamRule "rule-9" "2026-02-01T00:00:00.000Z" Examples.the_redis
      Examples.team_1 " groups " "staff" None
    = Exc.ret (rule, r')
    /\ Teams.removeTeamRule r' Examples.team_1 (Teams.id rule) = Exc.ret (true, r'')
    /\ forall team,
         Spec.team_rules r'' team = Spec.team_rules Examples.the_redis team.
Proof.
  apply (addTeamRule_removeTeamRule "rule-9" "2026-02-01T00:00:00.000Z"
           Examples.the_redis
           (Teams.mkClient (Some [(Examples.team_1, [Examples.analytics_rule])])));
    reflexivity.
Defined.

(** X27.  A login grants what the rules ask for: when the store is enabled,
    the team exists, the user has no membership of it, the first of its
    rules that matches the claims is [rule], and the pass over the teams
    ends without an error, the user has exactly one membership of the team
    after the login, with the role of that rule ([team_member] when that
    role is empty).  The pass ends without an error when no comparison of a
    rule of the mapping with the claims throws. *)
Theorem applyTeamMappings_grants :
  forall (r : Teams.Redis) (db : Teams.Db) (userId : string)
         (userInfo idTokenClaims : JS.JObject) (teamId : string)
         (rule : Teams.TeamClaimRule),
    Teams.enabled r = true ->
    Spec.first_match (Spec.rule_matches userInfo idTokenClaims)
      (Spec.team_rules r teamId)
    = Exc.ret (Some rule) ->
    Teams.team_exists db teamId = true ->
    Teams.find_member db userId teamId = None ->
    let run := Teams.applyTeamMappings r db userId userInfo idTokenClaims in
    (fst run = Exc.ret tt ->
     exists n,
       Spec.memberships (snd run) userId teamId
       = [Teams.mkTeamUser (Teams.randomUUID n) teamId userId
            (Spec.granted_role rule)])
    /\ ((forall team rules rule' e,
            In (team, rules) (Teams.getAllTeamRules r) -> In rule' rules ->
            Spec.rule_matches userInfo idTokenClaims rule' <> Exc.throw e) ->
        fst run = Exc.ret tt).
Proof.
  intros r db userId userInfo idTokenClaims teamId rule Hen Hfind Hteam Hnone run.
  subst run. unfold Teams.applyTeamMappings, Teams.processOidcTeamMappings.
  rewrite Hen. cbn [negb]. cbv zeta.
  set (all := Teams.getAllTeamRules r) in *.
  unfold Spec.team_rules in Hfind. fold all in Hfind.
  destruct (Teams.rules_of all teamId) as [rs |] eqn:Hrs;
    [| discriminate Hfind].
  pose proof (RulesFacts.rules_of_keys _ _ _ Hrs) as Hin.
  destruct (Teams.keys all) as [| k ks] eqn:Hkeys; [contradiction |].
  cbn [List.length Nat.eqb]. rewrite <- Hkeys in *. split.
  - intros Hend.
    pose proof (TeamsPass.apply_teams_grants userId userInfo idTokenClaims all
                  (Teams.keys all) teamId rs rule Hrs Hfind Hin db Hend Hteam)
      as Hgranted.
    destruct (TeamsPass.apply_teams_memberships userId userInfo idTokenClaims
                all (Teams.keys all) teamId db)
      as [Hsame | (_ & _ & rule' & n & Hfind' & Hone)].
    + exfalso. apply Hgranted. apply TeamsPass.find_member_memberships.
      rewrite Hsame. now apply TeamsPass.find_member_memberships.
    + rewrite Hrs, Hfind in Hfind'. injection Hfind' as <-.
      exists n. exact Hone.
  - intros Hno.
    apply RulesFacts.apply_teams_settles; [auto | exact Hno].
Qed.

Lemma applyTeamMappings_grants_witness :
  exists n,
    Spec.memberships
      (snd (Teams.applyTeamMappings Examples.the_redis Examples.the_db "u1"
              Examples.the_claims [])) "u1" Examples.team_1
    = [Teams.mkTeamUser (Teams.randomUUID n) Examples.team_1 "u1"
         (Spec.granted_role Examples.analytics_rule)].
Proof.
  apply (proj1 (applyTeamMappings_grants Examples.the_redis Examples.the_db "u1"
                  Examples.the_claims [] Examples.team_1 Examples.analytics_rule
                  eq_refl eq_refl eq_refl eq_refl)).
  reflexivity.
Defined.

Module RouteFacts.

Import JS Teams TeamRules.

(** A removal that answers [false] has written nothing. *)
Lemma remove_false (r r' : Redis) (teamId ruleId : string) :
  removeTeamRule r teamId ruleId = Exc.ret (false, r') -> r' = r.
Proof.
  unfold removeTeamRule.
  destruct (entry (getAllTeamRules r) teamId) as [rs | name |];
    [| discriminate | intros H; injection H as <-; reflexivity].
  cbv zeta. destruct (N.eqb _ (N.of_nat (List.length rs)));
    [intros H; injection H as <-; reflexivity |].
  destruct (client_set r _) as [e | r1]; discriminate.
Qed.

Lemma admin_cases (auth : Exc.result JValue) :
  requireAdmin auth <> None <->
  exists o u, auth = Exc.ret (JObj o) /\ get o "user" = JObj u
              /\ truthy (get u "isAdmin") = true.
Proof.
  unfold requireAdmin. split.
  - destruct auth as [e | a]; [congruence |].
    destruct a as [| | | | | | o |]; cbn [optional truthy]; try congruence.
    destruct (get o "user") as [| | | | | | u |] eqn:Hu; cbn [optional truthy];
      try congruence.
    destruct (truthy (get u "isAdmin")) eqn:Ht; [| congruence].
    intros _. exists o, u. auto.
  - intros [o [u [-> [Hu Ht]]]]. unfold Exc.ret. cbn [optional]. rewrite Hu.
    cbn [optional].
    rewrite Ht. discriminate.
Qed.

End RouteFacts.

(** X28.  The guards of the team-rules API.  A caller is an administrator
    exactly when [checkAuth] settles to an object whose [user] is an object
    with a truthy [isAdmin]; every other caller, and a rejected [checkAuth],
    gets a 403 from the three handlers.  An administrator gets a 503 from
    the three handlers while the store is disabled: the rule is then neither
    added nor removed.  The store is written only by an answer 201 of [POST]
    or 200 of [DELETE]. *)
Theorem team_rules_guards :
  forall (uuid isoNow : string) (auth : Exc.result JS.JValue) (r : Teams.Redis)
         (db : Teams.Db) (teams : Exc.result JS.JValue)
         (post : Exc.result TeamRules.RuleRequest)
         (delete : Exc.result TeamRules.RemoveRequest),
    (TeamRules.requireAdmin auth <> None <->
     exists o u, auth = Exc.ret (JS.JObj o) /\ JS.get o "user" = JS.JObj u
                 /\ JS.truthy (JS.get u "isAdmin") = true)
    /\ (TeamRules.requireAdmin auth = None ->
        TeamRules.GET auth r teams = TeamRules.forbidden
        /\ TeamRules.POST uuid isoNow auth r db post = (TeamRules.forbidden, r)
        /\ TeamRules.DELETE auth r delete = (TeamRules.forbidden, r))
    /\ (TeamRules.requireAdmin auth <> None -> Teams.enabled r = false ->
        TeamRules.GET auth r teams = TeamRules.unavailable
        /\ TeamRules.POST uuid isoNow auth r db post = (TeamRules.unavailable, r)
        /\ TeamRules.DELETE auth r delete = (TeamRules.unavailable, r))
    /\ (TeamRules.status (fst (TeamRules.POST uuid isoNow auth r db post)) <> 201%Z ->
        snd (TeamRules.POST uuid isoNow auth r db post) = r)
    /\ (TeamRules.status (fst (TeamRules.DELETE auth r delete)) <> 200%Z ->
        snd (TeamRules.DELETE auth r delete) = r).
Proof.
  intros uuid isoNow auth r db teams post delete.
  split; [apply RouteFacts.admin_cases |]. split; [| split; [| split]].
  - intros Hno. unfold TeamRules.GET, TeamRules.POST, TeamRules.DELETE.
    rewrite Hno. auto.
  - intros Hadmin Hoff. unfold TeamRules.GET, TeamRules.POST, TeamRules.DELETE.
    destruct (TeamRules.requireAdmin auth); [| contradiction].
    rewrite Hoff. auto.
  - unfold TeamRules.POST.
    destruct (TeamRules.requireAdmin auth); [| reflexivity].
    destruct (negb (Teams.enabled r)); [reflexivity |].
    destruct post as [e | req]; [reflexivity |].
    destruct (TeamRules.req_teamId req) as [teamId |]; [| reflexivity].
    destruct (TeamRules.req_claimField req) as [claimField |]; [| reflexivity].
    destruct (TeamRules.req_claimValue req) as [claimValue |]; [| reflexivity].
    destruct (_ || _); [reflexivity |].
    destruct (negb (Teams.team_exists db teamId)); [reflexivity |].
    destruct (Teams.addTeamRule _ _ _ _ _ _ _) as [e | [rule r']]; [reflexivity |].
    cbn. congruence.
  - unfold TeamRules.DELETE.
    destruct (TeamRules.requireAdmin auth); [| reflexivity].
    destruct (negb (Teams.enabled r)); [reflexivity |].
    destruct delete as [e | req]; [reflexivity |].
    destruct (TeamRules.rem_teamId req) as [teamId |]; [| reflexivity].
    destruct (TeamRules.rem_ruleId req) as [ruleId |]; [| reflexivity].
    destruct (_ || _); [reflexivity |].
    destruct (Teams.removeTeamRule r teamId ruleId) as [e | [[] r']] eqn:Hrem;
      [reflexivity | cbn; congruence |].
    cbn. intros _. exact (RouteFacts.remove_false r r' teamId ruleId Hrem).
Qed.

(** X29.  [POST] by an administrator on an enabled store.  A body without a
    team, a claim field or a claim value, or with an empty one, gets a 400;
    a team that does not exist gets a 404; both leave the store as it is.
    Otherwise the answer is a 201 with the rule, which becomes the last
    rule of the team: its field and value are trimmed, and its role is the
    role asked for, or [team_member] when none or the empty text was given,
    so that the role of a rule added through the API is never empty.  The
    field and the value are checked before they are trimmed: a value made
    of blanks is accepted and stored as the empty text. *)
Theorem team_rules_post :
  forall (uuid isoNow : string) (auth : Exc.result JS.JValue) (r : Teams.Redis)
         (c : Teams.RedisClient) (db : Teams.Db) (req : TeamRules.RuleRequest),
    TeamRules.requireAdmin auth <> None ->
    Teams.enabled r = true -> Teams.client r = Some c ->
    let answer := TeamRules.POST uuid isoNow auth r db (Exc.ret req) in
    let given (field : option string) := Callback.present field in
    (given (TeamRules.req_teamId req) && given (TeamRules.req_claimField req)
     && given (TeamRules.req_claimValue req) = false ->
     answer = (TeamRules.mkResponse 400
                 (TeamRules.ErrorBody
                    "teamId, claimField, and claimValue are required"), r))
    /\ (forall teamId claimField claimValue,
          TeamRules.req_teamId req = Some teamId -> teamId <> "" ->
          TeamRules.req_claimField req = Some claimField -> claimField <> "" ->
          TeamRules.req_claimValue req = Some claimValue -> claimValue <> "" ->
          (Teams.team_exists db teamId = false ->
           answer = (TeamRules.mkResponse 404 (TeamRules.ErrorBody "Team not found"),
                     r))
          /\ (Teams.team_exists db teamId = true ->
              let rule :=
                Teams.mkRule uuid (Str.trim claimField) (Str.trim claimValue)
                  (Callback.or_else (TeamRules.req_teamRole req) "team_member")
                  isoNow in
              fst answer = TeamRules.mkResponse 201 (TeamRules.RuleBody rule)
              /\ Teams.getTeamRules (snd answer) teamId
                 = Teams.Rules (Spec.team_rules r teamId ++ [rule])%list
              /\ Teams.teamRole rule <> ""
              /\ Spec.granted_role rule = Teams.teamRole rule
              /\ (Spec.every Str.is_ws1 claimValue = true ->
                  Teams.claimValue rule = ""))).
Proof.
  intros uuid isoNow auth r c db req Hadmin Hen Hc answer given. subst answer.
  unfold TeamRules.POST.
  destruct (TeamRules.requireAdmin auth); [| contradiction].
  rewrite Hen. cbn [negb]. unfold Exc.ret. cbv beta iota.
  split.
  - subst given. cbv beta.
    destruct (TeamRules.req_teamId req) as [teamId |]; [| reflexivity].
    destruct (TeamRules.req_claimField req) as [claimField |];
      [| reflexivity].
    destruct (TeamRules.req_claimValue req) as [claimValue |];
      [| reflexivity].
    cbn [Callback.present].
    destruct (String.eqb teamId ""); [reflexivity |].
    destruct (String.eqb claimField ""); [reflexivity |].
    destruct (String.eqb claimValue ""); [reflexivity | discriminate].
  - intros teamId claimField claimValue -> Ht -> Hf -> Hv.
    apply String.eqb_neq in Ht, Hf, Hv. rewrite Ht, Hf, Hv. cbn [orb].
    split.
    + intros ->. reflexivity.
    + intros Hteam. rewrite Hteam. cbn [negb]. cbv zeta.
      set (role := Callback.or_else (TeamRules.req_teamRole req) "team_member").
      destruct (RulesFacts.add_rule uuid isoNow r c teamId claimField claimValue
                  (Some role) Hen Hc
                  (or_introl (RulesFacts.team_exists_not_inherited db teamId
                                Hteam)))
        as [Hcall [_ [Hrules _]]].
      cbv zeta in Hcall, Hrules. rewrite Hcall. cbn [fst snd].
      assert (Hrole : role <> "").
      { subst role. unfold Callback.or_else.
        destruct (TeamRules.req_teamRole req) as [t |]; [| discriminate].
        destruct (String.eqb_spec t ""); [discriminate | assumption]. }
      split; [reflexivity |]. split; [| split; [| split]].
      * exact Hrules.
      * exact Hrole.
      * unfold Spec.granted_role. cbn [Teams.teamRole].
        destruct (String.eqb_spec role ""); [contradiction | reflexivity].
      * intros Hws. cbn [Teams.claimValue].
        now apply UserFacts.trim_spaces.
Qed.

Lemma team_rules_post_witness :
  fst (TeamRules.POST "rule-9" "2026-02-01T00:00:00.000Z" Examples.an_admin
         Examples.the_redis Examples.the_db
         (Exc.ret (TeamRules.mkRuleRequest (Some Examples.team_1) (Some " groups ")
                     (Some "staff") (Some ""))))
  = TeamRules.mkResponse 201
      (TeamRules.RuleBody
         (Teams.mkRule "rule-9" "groups" "staff" "team_member"
            "2026-02-01T00:00:00.000Z")).
Proof.
  refine (proj1 (proj2 (proj2 (team_rules_post "rule-9" "2026-02-01T00:00:00.000Z"
            Examples.an_admin Examples.the_redis
            (Teams.mkClient (Some [(Examples.team_1, [Examples.analytics_rule])]))
            Examples.the_db
            (TeamRules.mkRuleRequest (Some Examples.team_1) (Some " groups ")
               (Some "staff") (Some ""))
            _ eq_refl eq_refl)
          Examples.team_1 " groups " "staff" eq_refl _ eq_refl _ eq_refl _) eq_refl));
    discriminate.
Defined.

(** X30.  [DELETE] by an administrator on an enabled store.  A body without
    a team or a rule identifier, or with an empty one, gets a 400.  For a
    team identifier that is not the name of a member of [Object.prototype],
    a rule that the team does not have gets a 404, which leaves the store as
    it is, and a rule that the team has gets a 200, after which the team
    has no rule with that identifier.  The handler does not check that the
    team exists: for an identifier that the mapping only inherits, such as
    [constructor], the removal throws and the answer is a 500 with the text
    of the error; the store is left as it is. *)
Theorem team_rules_delete :
  forall (auth : Exc.result JS.JValue) (r : Teams.Redis) (c : Teams.RedisClient)
         (req : TeamRules.RemoveRequest),
    TeamRules.requireAdmin auth <> None ->
    Teams.enabled r = true -> Teams.client r = Some c ->
    let answer := TeamRules.DELETE auth r (Exc.ret req) in
    (Callback.present (TeamRules.rem_teamId req)
     && Callback.present (TeamRules.rem_ruleId req) = false ->
     answer = (TeamRules.mkResponse 400
                 (TeamRules.ErrorBody "teamId and ruleId are required"), r))
    /\ (forall teamId ruleId,
          TeamRules.rem_teamId req = Some teamId -> teamId <> "" ->
          TeamRules.rem_ruleId req = Some ruleId -> ruleId <> "" ->
          (Spec.inherited teamId = false ->
           (Spec.lacks_rule ruleId (Spec.team_rules r teamId) = true ->
            answer
            = (TeamRules.mkResponse 404 (TeamRules.ErrorBody "Rule not found"), r))
           /\ (Spec.lacks_rule ruleId (Spec.team_rules r teamId) = false ->
               fst answer = TeamRules.mkResponse 200 TeamRules.SuccessBody
               /\ Spec.lacks_rule ruleId (Spec.team_rules (snd answer) teamId)
                  = true))
          /\ (Spec.inherited teamId = true ->
              Teams.rules_of (Teams.getAllTeamRules r) teamId = None ->
              answer
              = (TeamRules.mkResponse 500
                   (TeamRules.ErrorBody "all[teamId].filter is not a function"),
                 r))).
Proof.
  intros auth r c req Hadmin Hen Hc answer. subst answer.
  unfold TeamRules.DELETE.
  destruct (TeamRules.requireAdmin auth); [| contradiction].
  rewrite Hen. cbn [negb]. unfold Exc.ret. cbv beta iota. split.
  - destruct (TeamRules.rem_teamId req) as [teamId |]; [| reflexivity].
    destruct (TeamRules.rem_ruleId req) as [ruleId |];
      [| cbn; rewrite andb_false_r; reflexivity].
    cbn [Callback.present].
    destruct (String.eqb teamId ""); [reflexivity |].
    destruct (String.eqb ruleId ""); [reflexivity | discriminate].
  - intros teamId ruleId -> Ht -> Hr.
    apply String.eqb_neq in Ht, Hr. rewrite Ht, Hr. cbn [orb]. split.
    + intros Hname. split.
      * intros Habsent.
        now rewrite (RulesFacts.remove_absent r teamId ruleId Hname Habsent).
      * intros Hhas.
        destruct (RulesFacts.remove_present r c teamId ruleId Hen Hc Hname Hhas)
          as [r' [Hrem [_ [Hgone _]]]].
        rewrite Hrem. cbn [fst snd]. split; [reflexivity | exact Hgone].
    + intros Hname Hown.
      now rewrite (RulesFacts.remove_inherited r teamId ruleId Hown Hname).
Qed.

Lemma team_rules_delete_witness :
  TeamRules.DELETE Examples.an_admin Examples.the_redis
    (Exc.ret (TeamRules.mkRemoveRequest (Some Examples.team_1) (Some "rule-7")))
  = (TeamRules.mkResponse 404 (TeamRules.ErrorBody "Rule not found"),
     Examples.the_redis)
  /\ fst (TeamRules.DELETE Examples.an_admin Examples.the_redis
            (Exc.ret (TeamRules.mkRemoveRequest (Some Examples.team_1)
                        (Some "rule-1"))))
     = TeamRules.mkResponse 200 TeamRules.SuccessBody
  /\ TeamRules.DELETE Examples.an_admin Examples.the_redis
       (Exc.ret (TeamRules.mkRemoveRequest (Some "constructor") (Some "rule-1")))
     = (TeamRules.mkResponse 500
          (TeamRules.ErrorBody "all[teamId].filter is not a function"),
        Examples.the_redis).
Proof.
  pose (c := Teams.mkClient (Some [(Examples.team_1, [Examples.analytics_rule])])).
  split; [| split].
  - refine (proj1 (proj1 (proj2 (team_rules_delete Examples.an_admin
              Examples.the_redis c
              (TeamRules.mkRemoveRequest (Some Examples.team_1) (Some "rule-7"))
              _ eq_refl eq_refl)
            Examples.team_1 "rule-7" eq_refl _ eq_refl _) eq_refl) eq_refl);
      discriminate.
  - refine (proj1 (proj2 (proj1 (proj2 (team_rules_delete Examples.an_admin
              Examples.the_redis c
              (TeamRules.mkRemoveRequest (Some Examples.team_1) (Some "rule-1"))
              _ eq_refl eq_refl)
            Examples.team_1 "rule-1" eq_refl _ eq_refl _) eq_refl) eq_refl));
      discriminate.
  - refine (proj2 (proj2 (team_rules_delete Examples.an_admin
              Examples.the_redis c
              (TeamRules.mkRemoveRequest (Some "constructor") (Some "rule-1"))
              _ eq_refl eq_refl)
            "constructor" "rule-1" eq_refl _ eq_refl _) eq_refl eq_refl);
      discriminate.
Defined.
